(* ===== verification/_CoqProject ===== *)
-Q . S2P
Prelude.v
Float64.v
Scaling.v
Policy.v
Cluster.v
Verification.v
Phases.v
Rollback.v
Billing.v
ApiKeys.v
RateLimiter.v
Accounts.v
CircuitBreaker.v
Retry.v
Words.v
VmAllocator.v
Bus.v
IoLimiter.v
Methods.v
BlockFile.v
QcowTables.v
QcowHeader.v
QcowFile.v
QcowOpen.v
QcowAlloc.v
QcowDisk.v
QcowRebuild.v
QcowRead.v
QcowWrite.v
QcowFlush.v
QcowRefine.v
QcowHoles.v
QcowLoad.v
QcowRepair.v
QcowChain.v
QcowNew.v
QcowConvert.v
QcowExample.v
RelayProtocol.v
RelayNode.v
RelaySessions.v
RelayTraffic.v
RelayExample.v
