(* ===== verification/Prelude.v ===== *)
(** * Verification of Formation

    Formation runs a cloud of virtual machines on a peer-to-peer network.  This
    library models the parts of its control plane that decide (how a cluster of
    instances scales, who may do what on an account, what usage costs, how requests
    are limited and retried) and parts of its virtual machine monitor: the
    allocators of guest addresses and interrupts, the device bus, the limiter of
    disk and network traffic, and disk images; and the relay through which peers
    reach each other behind NAT.  The Rust sources are under src/.

    ** Parts and files

    - [Prelude] (this file): the result type and the shape of [&mut self] methods,
      machine integers, strings, addresses, ordered iteration, counters in maps,
      tactics.
    - [Float64]: the IEEE 754 double precision operations the sources use, on the
      standard library's SpecFloat, with exactness of rounded-up quotients.
    - [Scaling]: [ScalingManager] (form-state/src/scaling.rs), the state machine
      that takes one scaling operation through its phases and keeps the history.
      The record [ScalingManager] is the struct; each method is a definition of
      the same name; [exec] and [run] are calls and sequences of calls.
    - [Policy]: [ScalingPolicy] (form-state/src/instances.rs), bounds, cooldowns
      and the recommended number of instances.
    - [Cluster]: [InstanceCluster] (form-state/src/instances.rs), members, choice of
      the instances to remove, validation of an operation, and the methods that
      start and cancel the state machine.  It calls [Policy] and [Scaling].
    - [Phases]: the work of each phase on a cluster and [process_scaling_phase]
      (form-state/src/instances.rs), which does that work and calls the methods of
      [Scaling]; [process_all] is a sequence of its steps.
    - [Verification]: the checks of a restored cluster (form-state/src/verification.rs).
    - [Rollback]: restoration, rollback and health checks of a cluster
      (form-state/src/instances.rs); [cluster_step] is everything that can happen to a
      cluster and its manager.
    - [Billing]: tiers, quotas and [UsageTracker] (form-state/src/billing/mod.rs).
    - [ApiKeys] and [RateLimiter]: keys and their limits
      (form-state/src/api_keys/mod.rs and rate_limiter.rs); the limits depend on the
      tiers of [Billing].
    - [Accounts]: [Account] and [AccountState] (form-state/src/accounts.rs) and
      [create_api_key]; an account holds a subscription and a tracker of [Billing]
      and the keys of [ApiKeys].
    - [CircuitBreaker] and [Retry]: how usage events are sent
      (form-usage-events/src/circuit_breaker.rs and retry.rs).
    - [Words]: checked arithmetic, alignment to powers of two and maps ordered by
      number, for the files of the monitor.
    - [VmAllocator]: the allocators of form-vmm/vm-allocator (address.rs, gsi.rs,
      memory_slot.rs, page_size.rs, system.rs), one module for each.
    - [Bus]: the device bus (form-vmm/vm-device/src/bus.rs); the ranges on it come from
      the allocators of [VmAllocator].
    - [IoLimiter]: token buckets, the rate limiter and its group
      (form-vmm/rate_limiter/src/lib.rs and group.rs).
    - [Methods]: sequences of methods that may fail, for the files below.
    - [BlockFile]: files as sparse maps of bytes, big-endian words, and [RawFile]
      (form-vmm/block/src/qcow/raw_file.rs).
    - [QcowTables]: cached tables and reference counts of qcow2 images
      (form-vmm/block/src/qcow/vec_cache.rs, qcow_raw_file.rs, refcount.rs).
    - [QcowHeader]: the header of an image, and [QcowFile]: the image
      (form-vmm/block/src/qcow/mod.rs).  A backing file is any [Disk]; an image is one.
    - [QcowAlloc]: the part of an image that allocates and counts clusters, its
      invariant, and that counting ends; [QcowDisk]: the invariant of an image and
      the content of its virtual disk; [QcowRead], [QcowWrite], [QcowFlush],
      [QcowHoles]: reading, writing, flushing and the search for holes; [QcowRefine]:
      sequences of calls against a plain disk.
    - [QcowOpen]: opening an image and its backing files, rebuilding its reference
      counts, creating and converting images (form-vmm/block/src/qcow/mod.rs).
      [QcowRebuild]: the counts of a rebuild; [QcowLoad], [QcowRepair]: opening an image
      whose counts are exact, and one that is rebuilt; [QcowChain]: opening a chain of
      images; [QcowNew]: new images; [QcowConvert]: conversion to a raw file;
      [QcowExample]: concrete images.
    - [RelayProtocol]: the messages of the relay (form-net/formnet/src/relay/protocol.rs).
      [RelayNode]: the relay itself (service.rs): the record [RelayNode] is the struct
      with what its socket has sent, a handler of datagrams is a method of it, [exec] and
      [run] are calls and sequences of calls.  [RelaySessions]: the tables of sessions;
      [RelayTraffic]: forwarding and rates; [RelayExample]: the encoding of messages and
      concrete runs.

    ** Conventions

    Integers are in [Z] and wrap at their width, as in the release profile
    ([u64_add] and the like); floating point is binary64.  A [&mut self] method that
    returns a [Result] is a [method]: a function from the state to the new state and
    the result.  A reading of the clock is an argument, one for each reading whose
    value matters.  A [BTreeMap] is a [gmap], iterated in key order by
    [btree_iter]; a [HashMap] is a [gmap] whose order is never used; a [BTreeSet] is
    a [gset].  Logging is left out.  Code outside src/ is a parameter: the calendar
    of chrono ([Billing.Chrono]), the replicated map of crdts
    ([Accounts.AccountMap]), the text of a cluster in JSON ([Phases.Serde]), the
    metrics instances report over HTTP, the identifiers drawn by uuid, the random
    numbers and the operation of the retry loop; for the monitor, the arithmetic of
    guest addresses, the page size, the devices on a bus, the order of a [HashMap], the
    zeroing operations of a file, its holes, the files that paths name, and the
    backing disk; for the relay, the codec bincode, the names of keys in hex, the hash of
    tokens, the order of a [HashMap], the random identifiers and whether a datagram can
    be sent.  The hypotheses on parameters
    are the classes whose names end in [Laws], each with an instance.

    ** What the theorems show

    - [Scaling]: the manager refines an automaton of phases; the history agrees with
      the current phase in every reachable state; closed records do not change; a
      refused call changes nothing; an operation makes boundedly many steps and ends
      under the default timeouts; the exact condition of a timeout, for every
      value of the limit; what a rollback of the manager records; the full pipeline
      completes.
    - [Policy], [Cluster]: recommendations stay within the bounds, are accurate up
      to rounding and respect the cooldowns; two of its edge cases; the choice of
      instances is the oldest heartbeats among the members other than the template;
      validation
      accepts exactly the admissible operations, and accepts what is recommended.
    - [Phases]: whatever the environment answers, an operation ends after eight
      steps; an admissible scale-in that names no instances reaches its size and
      completes when enough members other than the template exist; what configuring a
      scale-out and a replacement does to the members, and that a second
      scale-out fails because it reuses the identifiers of the first.
    - [Verification], [Rollback]: the verification of a restored cluster succeeds
      exactly when it is restored, and a cluster restored from a backup passes it; a
      rollback restores nothing, because no reachable state has the data it needs;
      health checks decide by timeouts and the check of the phase, are numbered, and
      accept what validation and allocation accept.
    - [Billing]: every view of the usage equals the sum of the recorded calls, of
      whatever age, modulo the width; charges are exact; what credits are left.
    - [RateLimiter]: at most twice the limit in any window without a clean-up, which is
      nearly reached, and three times the limit of a minute or an hour around one,
      because cleaning up loses counts; what a check reports is true.
    - [Accounts]: authorization follows the last calls about the ownership and the level
      of an instance, in the order of levels; the caps on agents and the
      conditions on tokens, with the cases the code does not cover; keys
      authenticate after creation and are never active after revocation.
    - [CircuitBreaker], [Retry]: the requests of a sequential client that are refused, in
      terms of the outcomes of those before, so that it is served again once the timeout
      since its last failure is over; an overlapping one can wedge the breaker; the retry loop ends, with its outcome,
      attempts and sleeps.
    - [VmAllocator], [Bus]: a request gets the highest aligned address with room;
      ranges in use stay disjoint while aligning does not overflow; freeing undoes
      allocating; a read and a write on the bus reach the device that owns the address,
      and what an allocator hands out can be inserted; where the code departs from that (addresses that wrap, the marker
      freed, interrupt zero, a failed move of a device).
    - [IoLimiter]: a bucket never grants more than its burst and its rate; a bucket that
      yields a token per interval of the timer serves every request, a slower one
      can starve.
    - [QcowAlloc], [QcowDisk], [QcowRead], [QcowWrite]: counting a cluster ends, also when
      the counts need new clusters themselves, and touches no cluster in use;
      reading returns the content of the virtual disk and writing changes exactly the
      bytes written, whatever tables are loaded, evicted, moved and allocated on the
      way; an image satisfies what it asks of its backing file.
    - [QcowFlush], [QcowRefine], [QcowHoles]: after a flush the file alone holds the disk;
      an image without a backing file, or with a whole number of clusters, behaves as a
      plain disk for any sequence of calls; the search for data and holes finds the
      first.
    - [QcowHeader]: a header that is written is read back, under the conditions of
      [header_ok].  [QcowRebuild], [QcowLoad], [QcowRepair], [QcowChain]: a rebuild counts
      exactly the references of the tables, for images of the size and with the room that
      [rebuildable] asks for; a consistent image opens to the disk that its tables
      describe, with the invariant, also after a rebuild that covers every cluster in use,
      and on a chain of backing files none of which is smaller than its overlay.
    - [QcowNew], [QcowConvert]: a new image is a blank disk, or reads as its backing file; a
      converted image has the bytes of the disk.  [QcowExample] has a nearly full image
      that a rebuild damages, and a conversion that drops the backing file.
    - [RelaySessions]: the calls of a node move an abstract table of sessions; in every
      reachable state the maps by public key are its inverse and the limits hold;
      maintenance removes exactly the sessions that are over.
    - [RelayTraffic]: when a packet is forwarded, to whom and with what effect, also when
      the socket fails; what the two peers of a session receive, whatever they send; no
      second has more datagrams than the limit; the tables of addresses are bounded; a
      token is good for a second; the code that answers queries for relays is never
      reached.  [RelayExample] has the figures that are off.
    - [RelayProtocol]: the ages that are accepted, the flags of a header, and where
      reliability gets stuck.

    ** Bounds and fuel

    The retry loop and the digits of a 16-bit segment have fuel: [max_retries + 1] is
    proved enough for the first, and a segment has four digits.  The loops of an
    image have the number of bytes left as fuel, and counting a cluster four more than
    the available clusters, which is proved enough.  The invariant of an image has
    clusters of 2^9 to 2^21 bytes and at most 2^44 bytes, the limits that opening an
    image enforces; a write is total while the file can grow by 15 clusters for each
    cluster of the disk it touches.  New images are proved up to 2 TiB, the most a
    rebuild accepts.  The loops that copy an image have the number of bytes as fuel, and
    the nesting of backing files is the depth that the callers pass.  The exactness
    of charges assumes fewer than 2^53 tokens, the integers a double represents.
    Counts of collections are assumed to fit 32 bits where the code casts them.  The
    identifiers that a relay draws are assumed not to be in use.

    ** Not modelled

    In form-state: the replicated states other than accounts, the HTTP handlers and
    the database.  Of the other crates: the rest of form-vmm (ioctls of KVM, emulated
    devices, threads) and of form-net (interfaces, peers over HTTP, the client of the
    relay and its registry of relays), large forks of a hypervisor and of a VPN;
    form-dns (its store, health tracker and choice by distance included), the thresholds
    of form-usage-events, form-p2p, form-rplb, form-pack, form-cli, form-mcp,
    form-broker, form-config, the metrics collectors and the fuzzers, which are mostly
    input and output.  Interleavings finer than one call (between the stores
    of a method of the circuit breaker, or between the locks that a call of the relay
    takes) are not modelled either. *)

From stdpp Require Export base option list gmap strings pretty sorting.
From stdpp Require Import options.
From Stdlib Require Export ZArith Lia.
From Stdlib Require Import Ascii.

(** ** Results of fallible operations *)

(** Rust's [Result<A, E>]. *)
Inductive result (A E : Type) : Type :=
| Ok (a : A)
| Err (e : E).
Arguments Ok {A E} a.
Arguments Err {A E} e.

Definition is_ok {A E} (r : result A E) : bool :=
  match r with Ok _ => true | Err _ => false end.

Definition result_bind {A B E} (r : result A E) (k : A → result B E) : result B E :=
  match r with Ok a => k a | Err e => Err e end.

(** A [&mut self] method returning [Result<A, E>]: the state it leaves behind
    is observable also when it returns [Err]. *)
Definition method (S E A : Type) : Type := S → S * result A E.

Declare Scope rust_scope.
Delimit Scope rust_scope with rust.

(** The [?] operator of the source. *)
Notation "'let?' x ':=' r 'in' k" := (result_bind r (λ x, k))
  (at level 10, x name, r at level 100, k at level 200) : rust_scope.

(** ** Machine integers

    Values of the integer types of the source are kept in [Z].  The release
    profile of the workspace does not enable overflow checks, so [+], [-] and
    [*] on them wrap around at the width of the type. *)

Definition u8_max : Z := 2 ^ 8 - 1.
Definition u32_max : Z := 2 ^ 32 - 1.
Definition u64_max : Z := 2 ^ 64 - 1.
Definition i64_max : Z := 2 ^ 63 - 1.
Definition i64_min : Z := - 2 ^ 63.

Definition u32_wrap (z : Z) : Z := z `mod` 2 ^ 32.
Definition u64_wrap (z : Z) : Z := z `mod` 2 ^ 64.
Definition i64_wrap (z : Z) : Z := (z + 2 ^ 63) `mod` 2 ^ 64 - 2 ^ 63.

Definition in_u32 (z : Z) : Prop := (0 ≤ z ≤ u32_max)%Z.
Definition in_u64 (z : Z) : Prop := (0 ≤ z ≤ u64_max)%Z.
Definition in_i64 (z : Z) : Prop := (i64_min ≤ z ≤ i64_max)%Z.

Definition u64_add (a b : Z) : Z := u64_wrap (a + b).
Definition u64_sub (a b : Z) : Z := u64_wrap (a - b).
Definition u32_add (a b : Z) : Z := u32_wrap (a + b).
Definition u32_sub (a b : Z) : Z := u32_wrap (a - b).
Definition i64_sub (a b : Z) : Z := i64_wrap (a - b).

Definition u64_saturating_add (a b : Z) : Z := Z.min (a + b) u64_max.
Definition u64_mul (a b : Z) : Z := u64_wrap (a * b).
Definition u32_mul (a b : Z) : Z := u32_wrap (a * b).
Definition u64_saturating_sub (a b : Z) : Z := Z.max (a - b) 0.

(** [x as i64] for [x : u64]. *)
Definition u64_as_i64 (z : Z) : Z := i64_wrap z.
(** [x as u64] for [x : i64]. *)
Definition i64_as_u64 (z : Z) : Z := u64_wrap z.
(** [x as u32] for [x : usize]. *)
Definition usize_as_u32 (z : Z) : Z := u32_wrap z.

(** ** Strings *)

(** [s.contains(pat)]. *)
Fixpoint str_contains (pat s : string) : bool :=
  String.prefix pat s ||
  match s with
  | EmptyString => false
  | String _ s' => str_contains pat s'
  end.

(** The part of [s] before the first occurrence of the character [c]: what
    [s.split(c).next()] yields (all of [s] when [c] does not occur). *)
Fixpoint str_before (c : Ascii.ascii) (s : string) : string :=
  match s with
  | EmptyString => EmptyString
  | String a s' => if decide (a = c) then EmptyString else String a (str_before c s')
  end.

(** Whether the character [c] occurs in [s]. *)
Fixpoint str_has_char (c : Ascii.ascii) (s : string) : bool :=
  match s with
  | EmptyString => false
  | String a s' => bool_decide (a = c) || str_has_char c s'
  end.

(** [l.join(sep)]. *)
Fixpoint str_join (sep : string) (l : list string) : string :=
  match l with
  | [] => ""
  | [s] => s
  | s :: l' => s +:+ sep +:+ str_join sep l'
  end.

(** [s.split(c)] with all its parts. *)
Fixpoint str_split (c : Ascii.ascii) (s : string) : list string :=
  match s with
  | EmptyString => [""]
  | String a s' =>
      if decide (a = c) then "" :: str_split c s'
      else match str_split c s' with
           | [] => [String a ""]
           | w :: ws => String a w :: ws
           end
  end.

(** [s.parse::<u32>().ok()]: decimal digits, after an optional plus sign. *)
Definition digit_value (a : Ascii.ascii) : option Z :=
  let n := Z.of_N (Ascii.N_of_ascii a) in
  if (48 <=? n)%Z && (n <=? 57)%Z then Some (n - 48)%Z else None.
Fixpoint parse_digits (s : string) (acc : Z) : option Z :=
  match s with
  | EmptyString => Some acc
  | String a s' =>
      match digit_value a with
      | Some d =>
          let acc' := (acc * 10 + d)%Z in
          if (acc' <=? u32_max)%Z then parse_digits s' acc' else None
      | None => None
      end
  end.
Definition parse_u32 (s : string) : option Z :=
  let digits :=
    match s with
    | String a s' => if decide (a = "+"%char) then s' else s
    | EmptyString => s
    end in
  match digits with
  | EmptyString => None
  | _ => parse_digits digits 0
  end.

(** ** Lists and maps *)

(** Writing through [v.last_mut()]. *)
Fixpoint update_last {A} (f : A → A) (l : list A) : list A :=
  match l with
  | [] => []
  | [x] => [f x]
  | x :: l' => x :: update_last f l'
  end.

(** Iteration over a [BTreeMap<String, V>]: entries in increasing key order. *)
Definition key_le {V} (p q : string * V) : Prop := String.le p.1 q.1.
#[global] Instance key_le_dec {V} : RelDecision (@key_le V) :=
  λ p q, decide (String.le p.1 q.1).
Definition btree_iter {V} (m : gmap string V) : list (string * V) :=
  merge_sort key_le (map_to_list m).

(** [v.sort_by_key(key)]: a stable sort. *)
Fixpoint insert_by {A} (key : A → Z) (x : A) (l : list A) : list A :=
  match l with
  | [] => [x]
  | y :: l' => if (key x <=? key y)%Z then x :: y :: l' else y :: insert_by key x l'
  end.
Definition sort_by_key {A} (key : A → Z) (l : list A) : list A :=
  foldr (insert_by key) [] l.

(** Sum of a list of integers. *)
Definition Zsum (l : list Z) : Z := foldr Z.add 0%Z l.
(** Sum of [f] over the values of a map. *)
Definition map_sum {V} (f : V → Z) (m : gmap string V) : Z :=
  map_fold (λ _ v acc, (f v + acc)%Z) 0%Z m.

(** [l.iter().sum::<u64>()]. *)
Definition u64_sum (l : list Z) : Z := foldl u64_add 0%Z l.
(** The values of a map in iteration order. *)
Definition btree_values {V} (m : gmap string V) : list V := (btree_iter m).*2.

(** [map.entry(k).or_default()] (or [or_insert]), then an update of the entry. *)
Definition upsert {V} (d : V) (f : V → V) (k : string) (m : gmap string V) : gmap string V :=
  <[k := f (default d (m !! k))]> m.

(** A counter read from the entry of a key, 0 when there is none. *)
Definition counter {V} (f : V → Z) (m : gmap string V) (k : string) : Z :=
  default 0%Z (f <$> m !! k).

(** ** Network addresses *)

(** [std::net::IpAddr]: four octets or eight segments. *)
Inductive IpAddr : Type :=
| V4 (a b c d : Z)
| V6 (a b c d e f g h : Z).

#[global] Instance IpAddr_eq_dec : EqDecision IpAddr.
Proof. solve_decision. Defined.

(** [format!("{:x}", n)] for a segment. *)
Definition hex_digit (n : Z) : Ascii.ascii :=
  Ascii.ascii_of_N (Z.to_N (if (n <? 10)%Z then n + 48 else n + 87)%Z).
Fixpoint hex_go (fuel : nat) (n : Z) (acc : string) : string :=
  match fuel with
  | O => acc
  | S fuel =>
      let acc := String (hex_digit (n mod 16)) acc in
      if (n / 16 =? 0)%Z then acc else hex_go fuel (n / 16) acc
  end.
Definition hex (n : Z) : string := hex_go 4 n "".

(** The longest run of zero segments, the first of several: its start and its
    length. *)
Fixpoint zero_run (i : nat) (segments : list Z) (current longest : nat * nat) : nat * nat :=
  match segments with
  | [] => longest
  | s :: segments' =>
      if (s =? 0)%Z then
        let current := (if decide (current.2 = 0) then i else current.1, S current.2) in
        zero_run (S i) segments' current
          (if longest.2 <? current.2 then current else longest)
      else zero_run (S i) segments' (0, 0) longest
  end.

(** [ip.to_string()]. *)
Definition ip_to_string (ip : IpAddr) : string :=
  let dotted a b c d :=
    str_join "." [pretty a; pretty b; pretty c; pretty d] in
  match ip with
  | V4 a b c d => dotted a b c d
  | V6 a b c d e f g h =>
      let segments := [a; b; c; d; e; f; g; h] in
      if forallb (Z.eqb 0) [a; b; c; d; e] && (f =? 65535)%Z then
        "::ffff:" +:+ dotted (g / 256)%Z (g mod 256)%Z (h / 256)%Z (h mod 256)%Z
      else
        let '(start, len) := zero_run 0 segments (0, 0) (0, 0) in
        if 1 <? len then
          str_join ":" (hex <$> take start segments) +:+ "::"
            +:+ str_join ":" (hex <$> drop (start + len) segments)
        else str_join ":" (hex <$> segments)
  end.

(** ** Tactics *)

(** Case analysis on the boolean tests and matches of a translated function. *)
Ltac split_test :=
  match goal with
  | H : context [match ?x with _ => _ end] |- _ => destruct x eqn:?
  | |- context [match ?x with _ => _ end] => destruct x eqn:?
  end.

Ltac split_tests := repeat (split_test; simplify_eq/=).

(** Turn boolean integer comparisons into propositions. *)
Ltac bool_to_prop :=
  repeat match goal with
  | H : (_ && _)%bool = true |- _ => apply andb_true_iff in H; destruct H
  | H : (_ || _)%bool = false |- _ => apply orb_false_iff in H; destruct H
  | H : negb _ = true |- _ => apply negb_true_iff in H
  | H : negb _ = false |- _ => apply negb_false_iff in H
  | H : (_ <? _)%Z = true |- _ => apply Z.ltb_lt in H
  | H : (_ <? _)%Z = false |- _ => apply Z.ltb_ge in H
  | H : (_ <=? _)%Z = true |- _ => apply Z.leb_le in H
  | H : (_ <=? _)%Z = false |- _ => apply Z.leb_gt in H
  | H : (_ =? _)%Z = true |- _ => apply Z.eqb_eq in H
  | H : (_ =? _)%Z = false |- _ => apply Z.eqb_neq in H
  | H : bool_decide _ = true |- _ => apply bool_decide_eq_true in H
  | H : bool_decide _ = false |- _ => apply bool_decide_eq_false in H
  end.

Ltac widths :=
  unfold u64_add, u64_sub, u64_mul, u32_mul, u32_add, u32_sub, i64_sub, u64_as_i64, i64_as_u64,
    usize_as_u32, u64_saturating_add, u64_saturating_sub,
    u64_wrap, u32_wrap, i64_wrap, in_u32, in_u64, in_i64,
    u8_max, u32_max, u64_max, i64_max, i64_min in *.

Create HintDb formation.
Create Rewrite HintDb u64.

(** ** Lemmas *)

Section integers.
Local Open Scope Z_scope.

Lemma u64_wrap_small z : in_u64 z → u64_wrap z = z.
Proof. widths. intros. apply Z.mod_small. lia. Qed.

Lemma u32_wrap_small z : in_u32 z → u32_wrap z = z.
Proof. widths. intros. apply Z.mod_small. lia. Qed.

Lemma i64_wrap_small z : in_i64 z → i64_wrap z = z.
Proof. widths. intros. rewrite Z.mod_small; lia. Qed.

Lemma u64_wrap_range z : in_u64 (u64_wrap z).
Proof. widths. pose proof (Z.mod_pos_bound z (2 ^ 64)). lia. Qed.

Lemma u32_wrap_range z : in_u32 (u32_wrap z).
Proof. widths. pose proof (Z.mod_pos_bound z (2 ^ 32)). lia. Qed.

Lemma u64_wrap_add_l a b : u64_wrap (u64_wrap a + b) = u64_wrap (a + b).
Proof. unfold u64_wrap. by rewrite Zplus_mod_idemp_l. Qed.

Lemma u64_wrap_add_r a b : u64_wrap (a + u64_wrap b) = u64_wrap (a + b).
Proof. unfold u64_wrap. by rewrite Zplus_mod_idemp_r. Qed.

Lemma u64_add_0 x : in_u64 x → u64_add x 0 = x.
Proof. intros. unfold u64_add. rewrite Z.add_0_r. by apply u64_wrap_small. Qed.

Lemma u64_add_add x a b : u64_add x (u64_add a b) = u64_add x (a + b).
Proof. unfold u64_add. apply u64_wrap_add_r. Qed.

Lemma u64_wrap_wrap a : u64_wrap (u64_wrap a) = u64_wrap a.
Proof. unfold u64_wrap. by rewrite Z.mod_mod. Qed.
End integers.

#[export] Hint Resolve u64_wrap_range u32_wrap_range : formation.
#[export] Hint Rewrite u64_wrap_add_l u64_wrap_add_r u64_wrap_wrap : u64.

Section lists.
Context {A : Type}.
Implicit Types l : list A.

Lemma update_last_snoc f l x : update_last f (l ++ [x]) = l ++ [f x].
Proof.
  induction l as [|y l IH]; [done|].
  simpl. rewrite IH. by destruct l.
Qed.

Lemma length_update_last f l : length (update_last f l) = length l.
Proof.
  destruct l as [|x l _] using rev_ind; [done|].
  rewrite update_last_snoc, !length_app. done.
Qed.

Lemma last_update_last f l : last (update_last f l) = f <$> last l.
Proof.
  destruct l as [|x l _] using rev_ind; [done|].
  by rewrite update_last_snoc, !last_snoc.
Qed.

Section sort.
Variable key : A → Z.

Lemma insert_by_perm x l : insert_by key x l ≡ₚ x :: l.
Proof.
  induction l as [|y l IH]; simpl; [done|].
  destruct (key x <=? key y)%Z; [done|].
  rewrite IH. apply Permutation_swap.
Qed.

Lemma sort_by_key_perm l : sort_by_key key l ≡ₚ l.
Proof.
  induction l as [|x l IH]; [done|].
  change (insert_by key x (sort_by_key key l) ≡ₚ x :: l).
  by rewrite insert_by_perm, IH.
Qed.

Lemma insert_by_sorted x l :
  StronglySorted (λ a b, (key a ≤ key b)%Z) l →
  StronglySorted (λ a b, (key a ≤ key b)%Z) (insert_by key x l).
Proof.
  induction 1 as [|y l Hs IH Hall]; simpl; [repeat constructor|].
  destruct (key x <=? key y)%Z eqn:E; bool_to_prop.
  - constructor; [by constructor|].
    constructor; [done|]. eapply Forall_impl; [exact Hall|]. simpl. lia.
  - constructor; [done|]. rewrite insert_by_perm. constructor; [lia|done].
Qed.

Lemma sort_by_key_sorted l :
  StronglySorted (λ a b, (key a ≤ key b)%Z) (sort_by_key key l).
Proof.
  induction l as [|x l IH]; [constructor|].
  by apply (insert_by_sorted x (sort_by_key key l)).
Qed.
End sort.
End lists.

Lemma StronglySorted_filter_take {A} (R : relation A) (P : A → Prop)
    `{!∀ x, Decision (P x)} l :
  StronglySorted R l → StronglySorted R (filter P l).
Proof.
  induction 1 as [|x l Hs IH Hall]; [constructor|].
  rewrite filter_cons. case_decide; [|done].
  constructor; [done|]. rewrite Forall_forall in *.
  intros y [_ Hy]%list_elem_of_filter. auto.
Qed.

Lemma btree_iter_perm {V} (m : gmap string V) : btree_iter m ≡ₚ map_to_list m.
Proof. apply merge_sort_Permutation. Qed.

Lemma elem_of_btree_iter {V} (m : gmap string V) k v :
  (k, v) ∈ btree_iter m ↔ m !! k = Some v.
Proof. by rewrite btree_iter_perm, elem_of_map_to_list. Qed.

Lemma length_btree_iter {V} (m : gmap string V) : length (btree_iter m) = size m.
Proof. by rewrite btree_iter_perm, length_map_to_list. Qed.

Lemma NoDup_btree_iter_keys {V} (m : gmap string V) : NoDup (btree_iter m).*1.
Proof. rewrite btree_iter_perm. apply NoDup_fst_map_to_list. Qed.

(** A loop that writes each of its keys once, each write looking at its own entry
    only. *)
Lemma foldl_writes {V} (f : gmap string V → string → gmap string V)
    (w : string → option V → option V) l ms i :
  (∀ ms i j, f ms j !! i = if decide (i = j) then w j (ms !! j) else ms !! i) →
  NoDup l →
  foldl f ms l !! i = if decide (i ∈ l) then w i (ms !! i) else ms !! i.
Proof.
  intros Hf Hnd. revert ms. induction Hnd as [|j l Hj _ IH]; intros ms; cbn [foldl].
  { rewrite decide_False; [done|]. apply not_elem_of_nil. }
  rewrite IH, Hf. destruct (decide (i = j)) as [->|Hne].
  - rewrite decide_False by done. by rewrite decide_True by left.
  - destruct (decide (i ∈ l)); [by rewrite decide_True by (by right)|].
    rewrite decide_False; [done|]. by intros [?|?]%elem_of_cons.
Qed.

Lemma str_length_app s1 s2 :
  String.length (s1 +:+ s2) = String.length s1 + String.length s2.
Proof. induction s1; simpl; auto. Qed.

(** *** Decimal numbers *)

Section decimal.
Local Open Scope Z_scope.

Lemma digit_value_pretty x :
  (x < 10)%N → digit_value (pretty_N_char x) = Some (Z.of_N x).
Proof.
  intros. assert (x ∈ [0;1;2;3;4;5;6;7;8;9]%N) as Hx by (rewrite !elem_of_cons; lia).
  rewrite !elem_of_cons in Hx.
  destruct Hx as [->|[->|[->|[->|[->|[->|[->|[->|[->|[->|Hx]]]]]]]]]]; try reflexivity.
  by apply not_elem_of_nil in Hx.
Qed.

Lemma parse_digits_pretty x s :
  Z.of_N x ≤ u32_max → parse_digits (pretty_N_go x s) 0 = parse_digits s (Z.of_N x).
Proof.
  revert s. induction (N.lt_wf_0 x) as [x _ IH]. intros s Hx.
  destruct (decide (x = 0)%N) as [->|Hne]; [done|].
  rewrite pretty_N_go_step by lia.
  rewrite IH; [|apply N.div_lt; lia|].
  2: { rewrite N2Z.inj_div. pose proof (Z.div_le_upper_bound (Z.of_N x) 10 (Z.of_N x)). lia. }
  simpl. rewrite digit_value_pretty by (apply N.mod_lt; lia).
  rewrite N2Z.inj_div, N2Z.inj_mod by lia.
  replace (Z.of_N x / Z.of_N 10 * 10 + Z.of_N x mod Z.of_N 10) with (Z.of_N x).
  - by rewrite (proj2 (Z.leb_le _ _) Hx).
  - pose proof (Z.div_mod (Z.of_N x) 10). simpl. lia.
Qed.

(** Printing a [u32] and parsing it back. *)
Lemma parse_u32_pretty z : in_u32 z → parse_u32 (pretty z) = Some z.
Proof.
  intros [Hz Hle]. destruct z as [|z|z]; [done| |lia].
  change (pretty (Z.pos z)) with (pretty_N_go (N.pos z) "").
  pose proof (parse_digits_pretty (N.pos z) "" Hle) as Hp.
  change (parse_digits "" (Z.of_N (N.pos z))) with (Some (Z.pos z)) in Hp.
  unfold parse_u32. destruct (pretty_N_go (N.pos z) "") as [|a s]; [done|].
  destruct (decide (a = "+"%char)) as [->|]; [done|]. done.
Qed.

Lemma parse_digits_range s acc x :
  0 ≤ acc ≤ u32_max → parse_digits s acc = Some x → 0 ≤ x ≤ u32_max.
Proof.
  revert acc. induction s as [|a s IH]; intros acc Hacc Hs; simpl in Hs; [by simplify_eq|].
  destruct (digit_value a) as [d|] eqn:Hd; [|done].
  assert (0 ≤ d) by (unfold digit_value in Hd; destruct (_ && _) eqn:E; [|done];
    bool_to_prop; simplify_eq; lia).
  destruct (acc * 10 + d <=? u32_max) eqn:Hle; [|done]. bool_to_prop.
  apply (IH (acc * 10 + d)); [lia|done].
Qed.

Lemma parse_u32_range s x : parse_u32 s = Some x → 0 ≤ x ≤ u32_max.
Proof.
  unfold parse_u32. set (d := match s with EmptyString => s | String _ _ => _ end).
  clearbody d. intros Hs. destruct d as [|a d]; [done|].
  apply (parse_digits_range (String a d) 0); [|done]. unfold u32_max. lia.
Qed.
End decimal.

Section sums.
Local Open Scope Z_scope.
Context {V : Type} (f : V → Z).

Lemma map_sum_insert_new m k v :
  m !! k = None → map_sum f (<[k:=v]> m) = f v + map_sum f m.
Proof.
  intros. unfold map_sum. rewrite map_fold_insert_L; [done| |done].
  intros. lia.
Qed.

Lemma map_sum_delete m k v :
  m !! k = Some v → map_sum f m = f v + map_sum f (delete k m).
Proof.
  intros Hk. rewrite <- (insert_id m k v Hk) at 1.
  rewrite <- insert_delete_eq. apply map_sum_insert_new, lookup_delete_eq.
Qed.

(** The effect on the sum of writing one entry. *)
Lemma map_sum_insert m k v :
  map_sum f (<[k:=v]> m) = f v + map_sum f m - default 0 (f <$> m !! k).
Proof.
  destruct (m !! k) as [w|] eqn:Hk; simpl.
  - rewrite <- insert_delete_eq, map_sum_insert_new by apply lookup_delete_eq.
    rewrite (map_sum_delete m k w Hk). lia.
  - rewrite map_sum_insert_new by done. lia.
Qed.

Lemma map_sum_empty : map_sum f ∅ = 0.
Proof. done. Qed.
End sums.

Lemma Zsum_app l1 l2 : Zsum (l1 ++ l2) = (Zsum l1 + Zsum l2)%Z.
Proof. unfold Zsum. induction l1; simpl; lia. Qed.

Lemma Zsum_perm l1 l2 : l1 ≡ₚ l2 → Zsum l1 = Zsum l2.
Proof. unfold Zsum. induction 1; simpl; lia. Qed.

Lemma u64_sum_spec l : u64_sum l = u64_wrap (Zsum l).
Proof.
  unfold u64_sum. induction l as [|x l IH] using rev_ind; [done|].
  rewrite foldl_snoc, IH, Zsum_app. unfold u64_add. autorewrite with u64.
  f_equal. simpl. lia.
Qed.

Lemma Zsum_btree_values {V} (f : V → Z) (m : gmap string V) :
  Zsum (f <$> btree_values m) = map_sum f m.
Proof.
  unfold btree_values. induction m as [|k v m Hk IH] using map_ind.
  - done.
  - rewrite map_sum_insert_new by done. rewrite <- IH.
    transitivity (Zsum (f <$> ((k, v) :: btree_iter m).*2)); [|done].
    apply Zsum_perm. do 2 apply fmap_Permutation. rewrite !btree_iter_perm.
    by apply map_to_list_insert.
Qed.

(** Changing one element of a list of integers changes the sum accordingly. *)
Lemma Zsum_alter f l i x :
  l !! i = Some x → Zsum (alter f i l) = (Zsum l + f x - x)%Z.
Proof.
  revert i. induction l as [|y l IH]; intros [|i] Hi; simplify_eq/=.
  - unfold Zsum. simpl. lia.
  - specialize (IH i Hi). unfold Zsum in *. simpl. lia.
Qed.

(** An update that leaves a counter of the entry alone. *)
Lemma counter_upsert_same {V} (c : V → Z) d g m k k' :
  c d = 0%Z → (∀ v, c (g v) = c v) → counter c (upsert d g k m) k' = counter c m k'.
Proof.
  intros Hd Hg. unfold counter, upsert. destruct (decide (k = k')) as [->|].
  - rewrite lookup_insert_eq. simpl. rewrite Hg. by destruct (m !! k').
  - by rewrite lookup_insert_ne.
Qed.

Section counters.
Context {V : Type} (c : V → Z) (d : V) (g : V → V) (x : Z).
Hypothesis c_default : c d = 0%Z.
Hypothesis c_update : ∀ v, c (g v) = u64_add (c v) x.

(** Updating an entry moves the counter of its key only. *)
Lemma counter_upsert m k k' :
  counter c (upsert d g k m) k' =
    if decide (k = k') then u64_add (counter c m k') x else counter c m k'.
Proof using c_default c_update.
  unfold counter, upsert. case_decide as Hk.
  - subst. rewrite lookup_insert_eq. simpl. rewrite c_update.
    destruct (m !! k'); simpl; [done|]. by rewrite c_default.
  - by rewrite lookup_insert_ne.
Qed.

(** The sum of the counter over all keys grows by the update. *)
Lemma map_sum_upsert m k :
  u64_wrap (map_sum c (upsert d g k m)) = u64_wrap (map_sum c m + x).
Proof using c_default c_update.
  unfold upsert. rewrite map_sum_insert, c_update. unfold u64_add.
  rewrite <- Z.add_sub_assoc. autorewrite with u64. f_equal.
  destruct (m !! k); simpl; lia.
Qed.
End counters.
