(* ===== verification/Float64.v ===== *)
(** * The [f64] arithmetic used by the billing and scaling code

    Values of type [f64] are the IEEE 754 binary64 numbers of the standard
    library's executable specification (SpecFloat); [as] casts from and to
    integers follow the language reference (round to nearest even, saturating).
    The lemmas give exact bounds, in integer arithmetic, on the rounding error
    of a division and of a product of positive numbers. *)

From Stdlib Require Import SpecFloat.
From stdpp Require Import options.
From S2P Require Import Prelude.

Local Open Scope Z_scope.

Abbreviation f64 := spec_float.

(** [n as f64] for an integer type. *)
Definition f64_of_Z (n : Z) : f64 := binary_normalize 53 1024 n 0 false.
Definition f64_div (x y : f64) : f64 := SFdiv 53 1024 x y.
Definition f64_mul (x y : f64) : f64 := SFmul 53 1024 x y.
Definition f64_ltb (x y : f64) : bool := SFltb x y.

(** [x.min(y)]: the other argument when one is NaN. *)
Definition f64_min (x y : f64) : f64 :=
  match x, y with
  | S754_nan, _ => y
  | _, S754_nan => x
  | _, _ => if SFltb y x then y else x
  end.

(** The signed significand. *)
Definition signed_of (s : bool) (m : positive) : Z := if s then Z.neg m else Z.pos m.

(** Integer part of [m * 2^e], rounded down, up and towards zero. *)
Definition floor_scaled (m e : Z) : Z :=
  if 0 <=? e then m * 2 ^ e else m / 2 ^ (- e).
Definition ceil_scaled (m e : Z) : Z := - floor_scaled (- m) e.
Definition trunc_scaled (m e : Z) : Z :=
  if 0 <=? m then floor_scaled m e else ceil_scaled m e.

(** An [as] cast of [round(x)] to an unsigned type with maximum [max]: NaN goes
    to 0 and values out of range saturate. *)
Definition cast_unsigned (round : Z → Z → Z) (max : Z) (x : f64) : Z :=
  match x with
  | S754_nan => 0
  | S754_zero _ => 0
  | S754_infinity s => if s then 0 else max
  | S754_finite s m e => Z.max 0 (Z.min max (round (signed_of s m) e))
  end.

(** [x.ceil() as u64], [x.ceil() as u32], [x.floor() as u32] and [x as u64]. *)
Definition f64_ceil_as_u64 : f64 → Z := cast_unsigned ceil_scaled u64_max.
Definition f64_ceil_as_u32 : f64 → Z := cast_unsigned ceil_scaled u32_max.
Definition f64_floor_as_u32 : f64 → Z := cast_unsigned floor_scaled u32_max.
Definition f64_as_u64 : f64 → Z := cast_unsigned trunc_scaled u64_max.

(** Ceiling of the quotient of two integers. *)
Definition div_up (a b : Z) : Z := - (- a / b).

(** ** Location of a rational between two consecutive integers *)

(** [l] locates [num / den] in the interval from [m] to [m + 1]. *)
Definition located (num den m : Z) (l : location) : Prop :=
  m * den <= num < (m + 1) * den /\
  match l with
  | loc_Exact => num = m * den
  | loc_Inexact c => num <> m * den /\ (2 * (num - m * den) ?= den) = c
  end.

Definition located_shr (num den : Z) (mrs : shr_record) : Prop :=
  0 <= shr_m mrs /\ located num den (shr_m mrs) (loc_of_shr_record mrs).

(** [x] is a positive number that rounds the rational [num / den * 2^e]: it has
    the form [R * 2^(e+k)] with a 53-bit [R], and is off by at most one half of
    [2^(e+k)]. *)
Definition rounds (num den e R k : Z) (x : f64) : Prop :=
  0 <= k /\ 2 ^ 52 <= R <= 2 ^ 53 /\ 2 ^ 52 * (2 ^ k * den) <= num < 2 ^ 53 * (2 ^ k * den) /\
  Z.abs (2 * (R * (2 ^ k * den) - num)) <= 2 ^ k * den /\
  exists m j, x = S754_finite false m (e + k + j) /\ (j = 0 \/ j = 1) /\
              Z.pos m * 2 ^ j = R /\ Z.pos (digits2_pos m) = 53.

(** ** Lemmas *)

Lemma located_div num den :
  0 < den -> located num den (num / den) (new_location den (num mod den)).
Proof.
  intros Hd. pose proof (Z.div_mod num den ltac:(lia)) as Hdm.
  pose proof (Z.mod_pos_bound num den Hd) as Hb.
  set (q := num / den) in *. set (r := num mod den) in *.
  split; [lia|]. unfold new_location, new_location_even, new_location_odd.
  replace (num - q * den) with r by lia.
  destruct (Z.even den) eqn:Hev; destruct (r =? 0) eqn:Hr0; bool_to_prop; try lia.
  - split; [lia|done].
  - split; [lia|]. rewrite <- Z.negb_odd in Hev. apply negb_false_iff in Hev.
    apply Z.odd_spec in Hev as [h ->].
    destruct (Z.compare_spec (2 * r + 1) (2 * h + 1)).
    + apply Z.compare_lt_iff. lia.
    + apply Z.compare_lt_iff. lia.
    + apply Z.compare_gt_iff. lia.
Qed.

Lemma shr_1_located num den mrs :
  0 < den -> located_shr num den mrs -> located_shr num (2 * den) (shr_1 mrs).
Proof.
  intros Hd [Hm [Hr Hl]]. destruct mrs as [m r s]. simpl in Hm, Hr, Hl.
  destruct m as [|p|p]; [|destruct p as [p|p|]|lia];
    destruct r, s; simpl in *; unfold located_shr, located; simpl;
    repeat split; try lia;
    repeat match goal with
    | H : _ /\ _ |- _ => destruct H
    | H : (?a ?= ?b) = _ |- _ => destruct (Z.compare_spec a b); try discriminate H; clear H
    | |- (_ ?= _) = Eq => apply Z.compare_eq_iff
    | |- (_ ?= _) = Lt => apply Z.compare_lt_iff
    | |- (_ ?= _) = Gt => apply Z.compare_gt_iff
    end; lia.
Qed.

Lemma pow2_double p : 2 ^ (2 * Z.pos p) = 2 ^ Z.pos p * 2 ^ Z.pos p.
Proof. rewrite <- Z.pow_add_r by lia. f_equal. lia. Qed.

Lemma iter_shr_located p : forall num den mrs,
  0 < den -> located_shr num den mrs ->
  located_shr num (2 ^ Z.pos p * den) (SpecFloat.iter_pos shr_1 p mrs).
Proof.
  induction p as [p IH|p IH|]; intros num den mrs Hd Hl; simpl SpecFloat.iter_pos.
  - replace (2 ^ Z.pos p~1 * den) with (2 ^ Z.pos p * (2 ^ Z.pos p * (2 * den))).
    + apply IH; [nia|]. apply IH; [lia|]. by apply shr_1_located.
    + change (Z.pos p~1) with (2 * Z.pos p + 1).
      rewrite Z.pow_add_r, pow2_double by lia. ring.
  - replace (2 ^ Z.pos p~0 * den) with (2 ^ Z.pos p * (2 ^ Z.pos p * den)).
    + apply IH; [nia|]. by apply IH.
    + change (Z.pos p~0) with (2 * Z.pos p). rewrite pow2_double. ring.
  - by apply shr_1_located.
Qed.

Lemma digits2_pos_bounds p :
  2 ^ (Z.pos (digits2_pos p) - 1) <= Z.pos p < 2 ^ Z.pos (digits2_pos p).
Proof.
  induction p as [p IH|p IH|]; simpl digits2_pos; [| |simpl; lia];
    rewrite Pos2Z.inj_succ; replace (Z.succ (Z.pos (digits2_pos p)) - 1)
      with (Z.succ (Z.pos (digits2_pos p) - 1)) by lia;
    rewrite !Z.pow_succ_r by lia; lia.
Qed.

Lemma digits2_unique p d :
  2 ^ (d - 1) <= Z.pos p < 2 ^ d -> Z.pos (digits2_pos p) = d.
Proof.
  intros Hd. pose proof (digits2_pos_bounds p) as Hb.
  assert (0 < d) as Hpos.
  { destruct (Z.le_gt_cases d 0); [|done]. pose proof (Z.pow_le_mono_r 2 d 0). lia. }
  destruct (Z.lt_trichotomy (Z.pos (digits2_pos p)) d) as [H|[H|H]]; [|done|].
  - pose proof (Z.pow_le_mono_r 2 (Z.pos (digits2_pos p)) (d - 1)). lia.
  - pose proof (Z.pow_le_mono_r 2 d (Z.pos (digits2_pos p) - 1)). lia.
Qed.

Lemma shr_located num den m l e n :
  0 < den -> 0 <= m -> located num den m l -> 0 <= n ->
  located_shr num (2 ^ n * den) (shr (shr_record_of_loc m l) e n).1 /\
  (shr (shr_record_of_loc m l) e n).2 = e + n.
Proof.
  intros Hd Hm Hl Hn.
  assert (located_shr num den (shr_record_of_loc m l)) as Hl'.
  { by destruct l as [|[]]. }
  destruct n as [|p|p]; [|split; [by apply iter_shr_located|done]|lia].
  simpl. rewrite Z.add_0_r. by destruct den.
Qed.

(** Rounding to nearest is off by at most one half. *)
Lemma round_nearest_error num den m l :
  0 < den -> located num den m l ->
  Z.abs (2 * (round_nearest_even m l * den - num)) <= den /\
  m <= round_nearest_even m l <= m + 1.
Proof.
  intros Hd [Hb Hl]. destruct l as [|c]; [simpl; lia|]. destruct Hl as [_ <-]. simpl.
  destruct (Z.compare_spec (2 * (num - m * den)) den); try destruct (Z.even m); lia.
Qed.

Lemma round_aux_rounds num den q l e :
  0 < den -> located num den (Z.pos q) l ->
  53 <= Z.pos (digits2_pos q) ->
  -1074 <= e -> e + Z.pos (digits2_pos q) <= 1000 ->
  exists R k, rounds num den e R k (binary_round_aux 53 1024 false (Z.pos q) e l).
Proof.
  intros Hd Hl Hq He He'. unfold binary_round_aux, shr_fexp.
  set (d := Z.pos (digits2_pos q)) in *. simpl Zdigits2.
  change (Z.pos (digits2_pos q)) with d.
  replace (fexp 53 1024 (d + e) - e) with (d - 53) by (unfold fexp, emin; lia).
  destruct (shr_located num den (Z.pos q) l e (d - 53)) as [[Hm1 Hl1] He1]; try lia; [done|].
  destruct (shr _ e (d - 53)) as [mrs e1]. simpl in Hm1, Hl1, He1. subst e1.
  set (k := d - 53) in *. assert (0 <= k) as Hk by lia.
  assert (0 < 2 ^ k * den) as Hd1 by (pose proof (Z.pow_pos_nonneg 2 k); nia).
  destruct (round_nearest_error _ _ _ _ Hd1 Hl1) as [Herr Hr].
  set (R := round_nearest_even _ _) in *.
  assert (2 ^ 52 <= shr_m mrs < 2 ^ 53) as Hm2.
  { pose proof (digits2_pos_bounds q) as Hb. fold d in Hb. destruct Hl as [Hq1 _].
    destruct Hl1 as [Hm3 _].
    assert (2 ^ (d - 1) = 2 ^ 52 * 2 ^ k) as E1 by (rewrite <- Z.pow_add_r by lia; f_equal; lia).
    assert (2 ^ d = 2 ^ 53 * 2 ^ k) as E2 by (rewrite <- Z.pow_add_r by lia; f_equal; lia).
    pose proof (Z.pow_pos_nonneg 2 k). nia. }
  assert (2 ^ 52 <= R <= 2 ^ 53) as HR by lia.
  exists R, k. split; [done|]. split; [done|]. split; [destruct Hl1; nia|]. split; [done|].
  destruct R as [|r|r] eqn:ER; [lia| |lia]. simpl Zdigits2.
  destruct (Z.eq_dec (Z.pos r) (2 ^ 53)) as [Hr53|Hr53].
  - change (2 ^ 53) with (Z.pos 9007199254740992) in Hr53.
    assert (r = 9007199254740992%positive) as -> by congruence.
    exists 4503599627370496%positive, 1.
    change (Z.pos (digits2_pos 9007199254740992)) with 54.
    replace (fexp 53 1024 (54 + (e + k)) - (e + k)) with 1 by (unfold fexp, emin; lia).
    cbn -[Z.leb Z.add Z.sub]. rewrite (proj2 (Z.leb_le _ _)) by lia.
    split; [done|]. split; [by right|done].
  - assert (Z.pos (digits2_pos r) = 53) as H53 by (apply digits2_unique; lia).
    exists r, 0. rewrite H53.
    replace (fexp 53 1024 (53 + (e + k)) - (e + k)) with 0 by (unfold fexp, emin; lia).
    cbn -[Z.leb Z.add Z.sub]. rewrite (proj2 (Z.leb_le _ _)) by lia. rewrite Z.add_0_r.
    split; [done|]. split; [by left|]. split; [lia|done].
Qed.

(** ** Exact conversions, quotients and products *)

Lemma iter_xO p d : Z.pos (Pos.iter xO p d) = Z.pos p * 2 ^ Z.pos d.
Proof.
  induction d as [|d IH] using Pos.peano_ind; [simpl; lia|].
  rewrite Pos.iter_succ, Pos2Z.inj_succ, Z.pow_succ_r by lia. lia.
Qed.

Lemma binary_round_aux_exact m e :
  Z.pos (digits2_pos m) = 53 -> -1074 <= e <= 971 ->
  binary_round_aux 53 1024 false (Z.pos m) e loc_Exact = S754_finite false m e.
Proof.
  intros Hm He. unfold binary_round_aux, shr_fexp. simpl Zdigits2. rewrite Hm.
  replace (fexp 53 1024 (53 + e) - e) with 0 by (unfold fexp, emin; lia).
  cbn -[Z.leb Z.add Z.sub Zdigits2]. simpl Zdigits2. rewrite Hm.
  replace (fexp 53 1024 (53 + e) - e) with 0 by (unfold fexp, emin; lia).
  cbn -[Z.leb Z.add Z.sub]. by rewrite (proj2 (Z.leb_le _ _)) by lia.
Qed.

(** Integers below [2^53] are converted exactly. *)
Lemma f64_of_Z_exact n :
  0 < n < 2 ^ 53 ->
  exists m s, f64_of_Z n = S754_finite false m (- s) /\ 0 <= s <= 52 /\
              Z.pos m = n * 2 ^ s /\ Z.pos (digits2_pos m) = 53.
Proof.
  intros Hn. destruct n as [|p|p]; [lia| |lia].
  pose proof (digits2_pos_bounds p) as Hb. set (d := Z.pos (digits2_pos p)) in *.
  assert (d <= 53) as Hd.
  { destruct (Z.le_gt_cases d 53); [done|].
    pose proof (Z.pow_le_mono_r 2 53 (d - 1)). lia. }
  unfold f64_of_Z. simpl. unfold binary_round. fold d.
  replace (fexp 53 1024 (d + 0)) with (d - 53) by (unfold fexp, emin; lia).
  unfold shl_align. rewrite Z.sub_0_r.
  destruct (d - 53) as [|x|x] eqn:Ex; [|lia|].
  - exists p, 0. rewrite binary_round_aux_exact by lia. split; [done|lia].
  - exists (Pos.iter xO p x), (Z.pos x).
    assert (Z.pos (digits2_pos (Pos.iter xO p x)) = 53) as H53.
    { apply digits2_unique. rewrite iter_xO.
      replace (53 - 1) with (d - 1 + Z.pos x) by lia.
      replace 53 with (d + Z.pos x) at 1 by lia.
      rewrite !Z.pow_add_r by lia. pose proof (Z.pow_pos_nonneg 2 (Z.pos x)). nia. }
    rewrite binary_round_aux_exact by lia.
    split; [done|]. split; [lia|]. split; [apply iter_xO|done].
Qed.

Lemma digits_53 m : Z.pos (digits2_pos m) = 53 <-> 2 ^ 52 <= Z.pos m < 2 ^ 53.
Proof.
  split; [|exact (digits2_unique m 53)].
  intros H. pose proof (digits2_pos_bounds m) as Hb. by rewrite H in Hb.
Qed.

Lemma f64_div_rounds m1 e1 m2 e2 :
  Z.pos (digits2_pos m1) = 53 -> Z.pos (digits2_pos m2) = 53 ->
  -400 <= e1 <= 400 -> -400 <= e2 <= 400 ->
  exists R k, rounds (Z.pos m1 * 2 ^ 53) (Z.pos m2) (e1 - e2 - 53) R k
    (f64_div (S754_finite false m1 e1) (S754_finite false m2 e2)).
Proof.
  intros H1 H2 He1 He2. pose proof (proj1 (digits_53 m1) H1) as B1.
  pose proof (proj1 (digits_53 m2) H2) as B2.
  unfold f64_div, SFdiv, SFdiv_core_binary. simpl Zdigits2. rewrite H1, H2.
  replace (Z.min (fexp 53 1024 (53 + e1 - (53 + e2))) (e1 - e2)) with (e1 - e2 - 53)
    by (unfold fexp, emin; lia).
  replace (e1 - e2 - (e1 - e2 - 53)) with 53 by lia.
  cbv beta iota zeta. rewrite Z.shiftl_mul_pow2 by lia.
  set (num := Z.pos m1 * 2 ^ 53) in *.
  pose proof (located_div num (Z.pos m2) ltac:(lia)) as Hl.
  unfold Z.div, Z.modulo in Hl. destruct (Z.div_eucl num (Z.pos m2)) as [q r] eqn:Eq.
  assert (2 ^ 52 <= q) as Hq by (destruct Hl as [Hb _]; unfold num in Hb; nia).
  assert (q < 2 ^ 54) as Hq' by (destruct Hl as [Hb _]; unfold num in Hb; nia).
  destruct q as [|q|q]; [lia| |lia].
  pose proof (digits2_pos_bounds q) as Hdq.
  apply round_aux_rounds; [lia|done| | |].
  - destruct (Z.le_gt_cases 53 (Z.pos (digits2_pos q))); [done|].
    pose proof (Z.pow_le_mono_r 2 (Z.pos (digits2_pos q)) 52). lia.
  - lia.
  - assert (Z.pos (digits2_pos q) <= 54); [|lia].
    destruct (Z.le_gt_cases (Z.pos (digits2_pos q)) 54); [done|].
    pose proof (Z.pow_le_mono_r 2 54 (Z.pos (digits2_pos q) - 1)). lia.
Qed.

Lemma f64_mul_rounds m1 e1 m2 e2 :
  Z.pos (digits2_pos m1) = 53 -> Z.pos (digits2_pos m2) = 53 ->
  -400 <= e1 <= 400 -> -400 <= e2 <= 400 ->
  exists R k, rounds (Z.pos m1 * Z.pos m2) 1 (e1 + e2) R k
    (f64_mul (S754_finite false m1 e1) (S754_finite false m2 e2)).
Proof.
  intros H1 H2 He1 He2. pose proof (proj1 (digits_53 m1) H1) as B1.
  pose proof (proj1 (digits_53 m2) H2) as B2.
  unfold f64_mul, SFmul. cbn [xorb].
  pose proof (digits2_pos_bounds (m1 * m2)) as Hd. rewrite Pos2Z.inj_mul in *.
  apply round_aux_rounds; [lia|split; lia| |lia|].
  - destruct (Z.le_gt_cases 53 (Z.pos (digits2_pos (m1 * m2)))); [done|].
    pose proof (Z.pow_le_mono_r 2 (Z.pos (digits2_pos (m1 * m2))) 52). nia.
  - assert (Z.pos (digits2_pos (m1 * m2)) <= 106); [|lia].
    destruct (Z.le_gt_cases (Z.pos (digits2_pos (m1 * m2))) 106); [done|].
    pose proof (Z.pow_le_mono_r 2 106 (Z.pos (digits2_pos (m1 * m2)) - 1)). nia.
Qed.

Lemma abs_scale c x y z :
  0 < c -> Z.abs (2 * (c * x - c * y)) <= c * z -> Z.abs (2 * (x - y)) <= z.
Proof.
  intros Hc. replace (2 * (c * x - c * y)) with (c * (2 * (x - y))) by ring.
  rewrite Z.abs_mul, (Z.abs_eq c) by lia. apply Z.mul_le_mono_pos_l. done.
Qed.

Lemma le_scale c x y : 0 < c -> c * x <= c * y -> x <= y.
Proof. intros Hc. apply Z.mul_le_mono_pos_l. done. Qed.

Lemma lt_scale c x y : 0 < c -> c * x < c * y -> x < y.
Proof. intros Hc. apply Z.mul_lt_mono_pos_l. done. Qed.

(** The quotient of two integers below [2^53]: [R / 2^s] with a 53-bit [R], off
    by at most one half of [1 / 2^s]. *)
Lemma f64_quotient a b :
  0 < a < 2 ^ 53 -> 0 < b < 2 ^ 53 ->
  exists m j s R,
    f64_div (f64_of_Z a) (f64_of_Z b) = S754_finite false m (j - s) /\
    0 <= s <= 105 /\ (j = 0 \/ j = 1) /\ Z.pos m * 2 ^ j = R /\
    Z.pos (digits2_pos m) = 53 /\ 2 ^ 52 <= R <= 2 ^ 53 /\
    Z.abs (2 * (R * b - a * 2 ^ s)) <= b /\ 2 ^ 52 * b <= a * 2 ^ s.
Proof.
  intros Ha Hb.
  destruct (f64_of_Z_exact a Ha) as (m1 & s1 & -> & Hs1 & Hm1 & Hd1).
  destruct (f64_of_Z_exact b Hb) as (m2 & s2 & -> & Hs2 & Hm2 & Hd2).
  destruct (f64_div_rounds m1 (- s1) m2 (- s2)) as (R & k & Hk & HR & Hlow & Herr & m & j & -> & Hj & Hm & Hd);
    [done|done|lia|lia|].
  pose proof (proj1 (digits_53 m1) Hd1). pose proof (proj1 (digits_53 m2) Hd2).
  assert (k <= 1) as Hk1.
  { destruct (Z.le_gt_cases k 1); [done|]. pose proof (Z.pow_le_mono_r 2 2 k).
    assert (4 * 2 ^ 52 <= 2 ^ k * Z.pos m2) by (apply Z.mul_le_mono_nonneg; lia). lia. }
  exists m, j, (s1 - s2 + 53 - k), R. split; [f_equal; lia|]. split; [lia|].
  split; [done|]. split; [done|]. split; [done|]. split; [done|].
  rewrite Hm1, Hm2 in *. set (s := s1 - s2 + 53 - k) in *.
  set (c := 2 ^ (s2 + k)).
  assert (0 < c) by (apply Z.pow_pos_nonneg; lia).
  assert (a * 2 ^ s1 * 2 ^ 53 = c * (a * 2 ^ s)) as E1.
  { unfold c. rewrite <- Z.mul_assoc, <- Z.pow_add_r by lia.
    replace (s1 + 53) with (s2 + k + s) by lia. rewrite Z.pow_add_r by lia. ring. }
  assert (2 ^ k * (b * 2 ^ s2) = c * b) as E2.
  { unfold c. rewrite Z.pow_add_r by lia. ring. }
  rewrite E1, E2 in *. split.
  - apply (abs_scale c); [done|]. by replace (c * (R * b)) with (R * (c * b)) by ring.
  - apply (le_scale c); [done|]. replace (c * (2 ^ 52 * b)) with (2 ^ 52 * (c * b)) by ring.
    apply Hlow.
Qed.

(** Product of an integer below [2^53] and such a quotient. *)
Lemma f64_scaled_quotient n a b :
  0 < n < 2 ^ 53 -> 0 < a < 2 ^ 53 -> 0 < b < 2 ^ 53 ->
  exists m j s R,
    f64_mul (f64_of_Z n) (f64_div (f64_of_Z a) (f64_of_Z b)) =
      S754_finite false m (j - s) /\
    (j = 0 \/ j = 1) /\ Z.pos m * 2 ^ j = R /\ 2 ^ 52 <= R <= 2 ^ 53 /\
    exists sq Rq, 0 <= sq <= 105 /\ 2 ^ 52 <= Rq <= 2 ^ 53 /\
      Z.abs (2 * (Rq * b - a * 2 ^ sq)) <= b /\
      exists c, 0 <= c /\ sq = s + c /\
        Z.abs (2 * (R * 2 ^ c - n * Rq)) <= 2 ^ c /\ n * Rq < 2 ^ 53 * 2 ^ c.
Proof.
  intros Hn Ha Hb.
  destruct (f64_of_Z_exact n Hn) as (m1 & s1 & -> & Hs1 & Hm1 & Hd1).
  destruct (f64_quotient a b Ha Hb) as (m2 & j2 & s2 & R2 & -> & Hs2 & Hj2 & Hm2 & Hd2 & HR2 & Herr2 & Hlow2).
  destruct (f64_mul_rounds m1 (- s1) m2 (j2 - s2)) as (R & k & Hk & HR & Hlow & Herr & m & j & -> & Hj & Hm & Hd);
    [done|done|lia|lia|].
  pose proof (proj1 (digits_53 m1) Hd1) as B1. pose proof (proj1 (digits_53 m2) Hd2) as B2.
  set (c := k + j2 - s1).
  exists m, j, (s2 - c), R. split; [f_equal; lia|]. split; [done|]. split; [done|].
  split; [done|]. exists s2, R2. split; [done|]. split; [done|]. split; [done|].
  assert (52 <= k) as Hk52.
  { destruct (Z.le_gt_cases 52 k); [done|].
    pose proof (Z.pow_le_mono_r 2 k 51).
    assert (2 ^ 52 * 2 ^ 52 <= Z.pos m1 * Z.pos m2) by (apply Z.mul_le_mono_nonneg; lia).
    lia. }
  exists c. split; [lia|]. split; [lia|].
  rewrite Z.mul_1_r, Hm1 in *.
  assert (2 ^ k * 2 ^ j2 = 2 ^ c * 2 ^ s1) as E1.
  { rewrite <- !Z.pow_add_r by lia. f_equal. lia. }
  assert (0 < 2 ^ j2) by (apply Z.pow_pos_nonneg; lia).
  assert (0 < 2 ^ s1) by (apply Z.pow_pos_nonneg; lia).
  assert (2 ^ j2 * (n * 2 ^ s1 * Z.pos m2) = 2 ^ s1 * (n * R2)) as E2 by (rewrite <- Hm2; ring).
  split.
  - apply (abs_scale (2 ^ s1)); [done|]. rewrite <- E2.
    replace (2 ^ s1 * (R * 2 ^ c)) with (R * (2 ^ c * 2 ^ s1)) by ring.
    rewrite (Z.mul_comm (2 ^ s1)), <- E1, (Z.mul_comm (2 ^ k)).
    replace (R * (2 ^ j2 * 2 ^ k)) with (2 ^ j2 * (R * 2 ^ k)) by ring.
    rewrite <- Z.mul_sub_distr_l, Z.mul_assoc, (Z.mul_comm 2), <- Z.mul_assoc, Z.abs_mul,
      (Z.abs_eq (2 ^ j2)) by lia. by apply Z.mul_le_mono_nonneg_l; [lia|].
  - apply (lt_scale (2 ^ s1)); [done|]. rewrite <- E2.
    replace (2 ^ s1 * (2 ^ 53 * 2 ^ c)) with (2 ^ 53 * (2 ^ c * 2 ^ s1)) by ring.
    rewrite <- E1.
    replace (2 ^ 53 * (2 ^ k * 2 ^ j2)) with (2 ^ j2 * (2 ^ 53 * 2 ^ k)) by ring.
    apply Z.mul_lt_mono_pos_l; [lia|apply Hlow].
Qed.

(** ** Rounding up *)

Lemma div_up_bounds a b : 0 < b -> b * (div_up a b - 1) < a <= b * div_up a b.
Proof.
  intros Hb. unfold div_up. pose proof (Z.mul_div_le (- a) b Hb).
  pose proof (Z.mul_succ_div_gt (- a) b Hb). lia.
Qed.

Lemma div_up_unique a b c : 0 < b -> b * (c - 1) < a <= b * c -> div_up a b = c.
Proof. intros Hb Hc. pose proof (div_up_bounds a b Hb). nia. Qed.

Lemma ceil_scaled_dyadic m j s :
  0 <= j -> 0 <= s -> ceil_scaled m (j - s) = div_up (m * 2 ^ j) (2 ^ s).
Proof.
  intros Hj Hs. unfold ceil_scaled, floor_scaled, div_up. f_equal.
  pose proof (Z.pow_pos_nonneg 2 j). pose proof (Z.pow_pos_nonneg 2 s).
  destruct (0 <=? j - s) eqn:E; bool_to_prop.
  - replace j with (j - s + s) at 2 by lia. rewrite Z.pow_add_r by lia.
    rewrite Z.mul_assoc, <- Z.mul_opp_l, Z.div_mul by lia. ring.
  - replace s with (- (j - s) + j) at 2 by lia. rewrite Z.pow_add_r by lia.
    rewrite <- Z.mul_opp_l, Z.div_mul_cancel_r; [done| |lia].
    apply Z.pow_nonzero; lia.
Qed.

Lemma cast_ceil_dyadic max m j s :
  0 <= max -> 0 <= j -> 0 <= s ->
  cast_unsigned ceil_scaled max (S754_finite false m (j - s)) =
  Z.min max (div_up (Z.pos m * 2 ^ j) (2 ^ s)).
Proof.
  intros Hmax Hj Hs. simpl. rewrite ceil_scaled_dyadic by done.
  pose proof (Z.pow_pos_nonneg 2 s). pose proof (Z.pow_pos_nonneg 2 j).
  pose proof (div_up_bounds (Z.pos m * 2 ^ j) (2 ^ s)). nia.
Qed.

(** Rounding up the quotient of two integers below [2^53] is exact: the error of
    the division never crosses an integer. *)
Lemma ceil_quotient_exact max a b :
  0 < a < 2 ^ 53 -> 0 < b < 2 ^ 53 -> div_up a b <= max ->
  cast_unsigned ceil_scaled max (f64_div (f64_of_Z a) (f64_of_Z b)) = div_up a b.
Proof.
  intros Ha Hb Hmax. pose proof (div_up_bounds a b ltac:(lia)) as Hc.
  destruct (f64_quotient a b Ha Hb)
    as (m & j & s & R & -> & Hs & Hj & Hm & _ & HR & Herr & Hlow).
  rewrite cast_ceil_dyadic by nia. rewrite Hm.
  set (c := div_up a b) in *. pose proof (Z.pow_pos_nonneg 2 s) as Hp.
  set (P := 2 ^ s) in *. assert (b < 2 * P) as HbP by nia.
  rewrite (div_up_unique R P c); [lia|lia|].
  assert (a * P <= b * (c * P)) by (rewrite Z.mul_assoc; apply Z.mul_le_mono_nonneg_r; lia).
  assert (b * ((c - 1) * P) + P <= a * P).
  { replace (b * ((c - 1) * P) + P) with ((b * (c - 1) + 1) * P) by ring.
    apply Z.mul_le_mono_nonneg_r; lia. }
  split; [apply (lt_scale b)|]; [lia|lia|].
  enough (2 * R < 2 * (P * c) + 2) by lia. apply (lt_scale b); lia.
Qed.

Lemma combine_errors R C b n Rq a A :
  0 < b -> 0 < n ->
  Z.abs (2 * (R * C - n * Rq)) <= C -> Z.abs (2 * (Rq * b - a * A)) <= b ->
  Z.abs (2 * (C * (R * b) - n * a * A)) <= (C + n) * b.
Proof.
  intros Hb Hn H1 H2.
  replace (2 * (C * (R * b) - n * a * A))
    with (b * (2 * (R * C - n * Rq)) + n * (2 * (Rq * b - a * A))) by ring.
  etransitivity; [apply Z.abs_triangle|]. rewrite !(Z.abs_mul b), !(Z.abs_mul n).
  rewrite (Z.abs_eq b), (Z.abs_eq n) by lia.
  apply (Z.mul_le_mono_nonneg_l _ _ b) in H1; [|lia].
  apply (Z.mul_le_mono_nonneg_l _ _ n) in H2; [|lia]. lia.
Qed.

(** [n * (a / b)] computed with two roundings is [R / 2^s] for a 53-bit [R], off
    by at most [3/2] of [1 / 2^s]. *)
Lemma scaled_quotient_error n a b :
  0 < n -> 0 < a -> 0 < b <= 2 ^ 10 -> n * a <= 2 ^ 40 ->
  exists m j s, 0 <= j /\ 0 <= s /\
    f64_mul (f64_of_Z n) (f64_div (f64_of_Z a) (f64_of_Z b)) =
      S754_finite false m (j - s) /\
    Z.abs (2 * (Z.pos m * 2 ^ j * b - n * a * 2 ^ s)) <= 3 * b /\ 2 * b <= 2 ^ s.
Proof.
  intros Hn Ha Hb Hna.
  destruct (f64_scaled_quotient n a b)
    as (m & j & s & R & -> & Hj & Hm & HR & sq & Rq & Hsq & HRq & Herrq & c & Hc0 & -> & Herr & Hup);
    [nia|nia|lia|].
  exists m, j, s. rewrite Hm. set (x := n * a) in *.
  pose proof (Z.pow_pos_nonneg 2 c) as Hpc. set (C := 2 ^ c) in *.
  assert (n < 2 * C) as HnC.
  { apply (lt_scale (2 ^ 52)); [lia|].
    assert (n * 2 ^ 52 <= n * Rq) by (apply Z.mul_le_mono_nonneg_l; lia). lia. }
  pose proof (combine_errors R C b n Rq a (2 ^ (s + c)) ltac:(lia) Hn Herr Herrq) as He.
  fold x in He. assert ((C + n) * b <= C * (3 * b)) as Hcb.
  { replace (C * (3 * b)) with (3 * C * b) by ring. apply Z.mul_le_mono_nonneg_r; lia. }
  assert (0 <= s) as Hs.
  { destruct (Z.le_gt_cases 0 s); [done|]. exfalso.
    assert (2 ^ (s + c) <= C) by (apply Z.pow_le_mono_r; lia).
    assert (x * 2 ^ (s + c) <= 2 ^ 40 * C) by (apply Z.mul_le_mono_nonneg; lia).
    assert (R * b <= 2 ^ 40 + 2 * b); [apply (le_scale C); lia|].
    assert (2 ^ 52 * b <= R * b) by (apply Z.mul_le_mono_nonneg_r; lia). lia. }
  rewrite Z.pow_add_r in He by lia. pose proof (Z.pow_pos_nonneg 2 s) as Hps.
  fold C in He. set (P := 2 ^ s) in *.
  assert (Z.abs (2 * (R * b - x * P)) <= 3 * b) as He'.
  { apply (abs_scale C); [lia|].
    replace (C * (x * P)) with (x * (P * C)) by ring. lia. }
  assert (2 ^ 52 * b <= R * b) by (apply Z.mul_le_mono_nonneg_r; lia).
  assert (x * P <= 2 ^ 40 * P) by (apply Z.mul_le_mono_nonneg_r; lia).
  repeat split; [lia|done|done|lia].
Qed.

(** Rounding it up is exact unless [n * a / b] is an integer, in which case the
    result may be one too many. *)
Lemma ceil_scaled_quotient max n a b :
  0 < n -> 0 < a -> 0 < b <= 2 ^ 10 -> n * a <= 2 ^ 40 -> div_up (n * a) b + 1 <= max ->
  div_up (n * a) b
    <= cast_unsigned ceil_scaled max (f64_mul (f64_of_Z n) (f64_div (f64_of_Z a) (f64_of_Z b)))
    <= div_up (n * a) b + (if (n * a) mod b =? 0 then 1 else 0).
Proof.
  intros Hn Ha Hb Hna Hmax. pose proof (div_up_bounds (n * a) b ltac:(lia)) as Hc.
  destruct (scaled_quotient_error n a b Hn Ha Hb Hna) as (m & j & s & Hj & Hs & -> & He & HP).
  set (x := n * a) in *. set (u := div_up x b) in *.
  assert (0 < u) by nia. rewrite cast_ceil_dyadic by lia.
  set (R := Z.pos m * 2 ^ j) in *. set (P := 2 ^ s) in *.
  pose proof (div_up_bounds R P ltac:(lia)) as Hr. set (r := div_up R P) in *.
  assert (b * ((u - 1) * P) + P <= x * P).
  { replace (b * ((u - 1) * P) + P) with ((b * (u - 1) + 1) * P) by ring.
    apply Z.mul_le_mono_nonneg_r; lia. }
  assert (u - 1 < r) as Hlow.
  { apply (lt_scale P); [lia|]. enough ((u - 1) * P < R) by lia. apply (lt_scale b); lia. }
  set (d := if x mod b =? 0 then 1 else 0).
  assert (r - 1 < u + d) as Hup.
  { apply (lt_scale P); [lia|]. enough (R <= (u + d) * P) by lia.
    assert (x * P <= b * (u * P) - (1 - d) * P) as Hx.
    { replace (b * (u * P) - (1 - d) * P) with ((b * u - (1 - d)) * P) by ring.
      apply Z.mul_le_mono_nonneg_r; [lia|]. unfold d.
      destruct (x mod b =? 0) eqn:E; bool_to_prop; [lia|].
      assert (x <> b * u); [|lia]. intros Hxu. apply E. rewrite Hxu, Z.mul_comm.
      apply Z_mod_mult. }
    unfold d in *. destruct (x mod b =? 0).
    - enough (R < u * P + 2) by lia. apply (lt_scale b); lia.
    - enough (R < u * P + 1) by lia. apply (lt_scale b); lia. }
  destruct (x mod b =? 0); unfold d in Hup; lia.
Qed.
