(* ===== verification/Scaling.v ===== *)
(** * The scaling state machine (form-state/src/scaling.rs)

    The [ScalingManager] tracks one scaling operation at a time through its
    phases and keeps the history of past operations.  Each [&mut self] method
    is a [method] on [ScalingManager]; readings of the system clock are
    arguments ([now], in seconds as the [i64] the code uses). *)

From stdpp Require Import options.
From S2P Require Import Prelude.

(** ** Data *)

Inductive ScalingOperation : Type :=
| ScaleOut (target_instances : Z)
| ScaleIn (target_instances : Z) (instance_ids : option (list string))
| ReplaceInstances (instance_ids : list string).

Record ScalingError : Type := mkScalingError {
  error_type : string;
  message : string;
  error_phase : string;
}.

Record ScalingMetrics : Type := mkScalingMetrics {
  cpu_utilization : Z;
  memory_utilization : Z;
  network_throughput_mbps : Z;
  storage_utilization : Z;
  instance_count : Z;
}.

Record ScalingResources : Type := mkScalingResources {
  cpu_cores : Z;
  memory_mb : Z;
  storage_gb : Z;
  network_bandwidth_mbps : Z;
}.

Record VerificationResult : Type := mkVerificationResult {
  test_name : string;
  passed : bool;
  details : string;
  timestamp : Z;
}.

Inductive ScalingPhase : Type :=
| Requested (operation : ScalingOperation) (requested_at : Z)
| Validating (operation : ScalingOperation) (started_at : Z)
| Planning (operation : ScalingOperation) (planned_at : Z)
    (pre_metrics : option ScalingMetrics)
| ResourceAllocating (operation : ScalingOperation) (started_at : Z)
    (resources : option ScalingResources)
| InstancePreparing (operation : ScalingOperation) (started_at : Z)
    (instance_ids : list string)
| Configuring (operation : ScalingOperation) (started_at : Z)
    (previous_config : option string)
| Verifying (operation : ScalingOperation) (started_at : Z)
    (test_results : list VerificationResult)
| Finalizing (operation : ScalingOperation) (started_at : Z)
    (cleanup_tasks : list string)
| Completed (operation : ScalingOperation) (completed_at : Z)
    (duration_seconds : Z) (result_metrics : option ScalingMetrics)
| Failed (operation : ScalingOperation) (failed_at : Z)
    (failure_reason failure_phase : string) (partial_results : option string)
| Canceled (operation : ScalingOperation) (canceled_at : Z)
    (cancellation_reason phase_at_cancellation : string).

(** The enum [PhaseData]; its variants share the names of [ScalingPhase]'s. *)
Inductive PhaseData : Type :=
| PDRequested (requested_at : Z)
| PDValidating
| PDPlanning (pre_metrics : option ScalingMetrics)
| PDResourceAllocating (resources : option ScalingResources)
    (allocated_resource_ids : list string)
| PDInstancePreparing (instance_ids : list string) (instance_configs : option string)
| PDConfiguring (previous_config applied_changes : option string)
| PDVerifying (test_results : list VerificationResult)
| PDFinalizing (cleanup_tasks : list string)
| PDCompleted (duration_seconds : Z) (result_metrics : option ScalingMetrics)
| PDFailed (failure_reason failure_phase : string) (partial_results : option string)
| PDCanceled (cancellation_reason phase_at_cancellation : string).

Record PhaseRecord : Type := mkPhaseRecord {
  pr_phase_name : string;
  pr_started_at : Z;
  pr_ended_at : option Z;
  pr_successful : option bool;
  pr_error : option ScalingError;
  pr_phase_data : PhaseData;
}.

Record ScalingOperationRecord : Type := mkRecord {
  operation_id : string;
  rec_operation : ScalingOperation;
  rec_started_at : Z;
  rec_ended_at : option Z;
  final_phase : string;
  successful : bool;
  rec_error : option ScalingError;
  phase_history : list PhaseRecord;
  initial_cluster_state : option string;
  phase_cluster_states : gmap string string;
  metadata : gmap string string;
}.

Record ScalingManager : Type := mkManager {
  current_phase : option ScalingPhase;
  operation_history : list ScalingOperationRecord;
  phase_timeouts : gmap string Z;
  last_check_time : Z;
}.

(** ** Observers of a phase *)

Definition operation (p : ScalingPhase) : ScalingOperation :=
  match p with
  | Requested op _ | Validating op _ | Planning op _ _
  | ResourceAllocating op _ _ | InstancePreparing op _ _
  | Configuring op _ _ | Verifying op _ _ | Finalizing op _ _
  | Completed op _ _ _ | Failed op _ _ _ _ | Canceled op _ _ _ => op
  end.

Definition start_time (p : ScalingPhase) : option Z :=
  match p with
  | Requested _ t | Validating _ t | Planning _ t _
  | ResourceAllocating _ t _ | InstancePreparing _ t _
  | Configuring _ t _ | Verifying _ t _ | Finalizing _ t _ => Some t
  | Completed _ _ _ _ | Failed _ _ _ _ _ | Canceled _ _ _ _ => None
  end.

Definition phase_name (p : ScalingPhase) : string :=
  match p with
  | Requested _ _ => "Requested"
  | Validating _ _ => "Validating"
  | Planning _ _ _ => "Planning"
  | ResourceAllocating _ _ _ => "ResourceAllocating"
  | InstancePreparing _ _ _ => "InstancePreparing"
  | Configuring _ _ _ => "Configuring"
  | Verifying _ _ _ => "Verifying"
  | Finalizing _ _ _ => "Finalizing"
  | Completed _ _ _ _ => "Completed"
  | Failed _ _ _ _ _ => "Failed"
  | Canceled _ _ _ _ => "Canceled"
  end.

Definition is_terminal (p : ScalingPhase) : bool :=
  match p with
  | Completed _ _ _ _ | Failed _ _ _ _ _ | Canceled _ _ _ _ => true
  | _ => false
  end.

Definition new_requested (now : Z) (op : ScalingOperation) : ScalingPhase :=
  Requested op now.

(** ** Record and manager updates *)

Definition set_final_phase (name : string) (r : ScalingOperationRecord)
    : ScalingOperationRecord :=
  mkRecord (operation_id r) (rec_operation r) (rec_started_at r) (rec_ended_at r)
    name (successful r) (rec_error r) (phase_history r)
    (initial_cluster_state r) (phase_cluster_states r) (metadata r).

Definition set_outcome (name : string) (ended : Z) (ok : bool)
    (err : option ScalingError) (r : ScalingOperationRecord) : ScalingOperationRecord :=
  mkRecord (operation_id r) (rec_operation r) (rec_started_at r) (Some ended)
    name ok err (phase_history r)
    (initial_cluster_state r) (phase_cluster_states r) (metadata r).

(** [for (key, value) in extra { record.metadata.insert(key, value) }]. *)
Definition add_metadata (extra : gmap string string) (r : ScalingOperationRecord)
    : ScalingOperationRecord :=
  mkRecord (operation_id r) (rec_operation r) (rec_started_at r) (rec_ended_at r)
    (final_phase r) (successful r) (rec_error r) (phase_history r)
    (initial_cluster_state r) (phase_cluster_states r) (extra ∪ metadata r).

(** Sets the current phase and rewrites the last history record, if any. *)
Definition enter_phase (p : ScalingPhase)
    (f : ScalingOperationRecord → ScalingOperationRecord) (m : ScalingManager)
    : ScalingManager :=
  mkManager (Some p) (update_last f (operation_history m)) (phase_timeouts m)
    (last_check_time m).

(** ** Methods of [ScalingManager] *)

Definition new (now : Z) : ScalingManager :=
  mkManager None []
    (<["Finalizing" := 120%Z]> $ <["Verifying" := 180%Z]> $
     <["Configuring" := 300%Z]> $ <["InstancePreparing" := 600%Z]> $
     <["ResourceAllocating" := 300%Z]> $ <["Planning" := 120%Z]> $
     <["Validating" := 60%Z]> $ <["Requested" := 60%Z]> ∅)
    now.

Definition set_phase_timeout (phase : string) (timeout_seconds : Z)
    (m : ScalingManager) : ScalingManager :=
  mkManager (current_phase m) (operation_history m)
    (<[phase := timeout_seconds]> (phase_timeouts m)) (last_check_time m).

(** [now1] is the reading stored in the phase, [now2] the one in the id. *)
Definition start_operation (now1 now2 : Z) (op : ScalingOperation)
    : method ScalingManager ScalingError unit := λ m,
  let start :=
    let requested_phase := new_requested now1 op in
    let record :=
      mkRecord ("op-" +:+ pretty now2) op now1 None "Requested" false None []
        None ∅ ∅ in
    (mkManager (Some requested_phase) (operation_history m ++ [record])
       (phase_timeouts m) (last_check_time m), Ok ()) in
  match current_phase m with
  | Some phase =>
      if negb (is_terminal phase) then
        (m, Err (mkScalingError "ConcurrentOperation"
                   ("Cannot start a new operation while in " +:+ phase_name phase
                      +:+ " phase")
                   (phase_name phase)))
      else start
  | None => start
  end.

(** The skeleton shared by the [transition_to_*] methods: there must be a
    current phase, it must be the expected one, and the new phase carries the
    operation of the old one. *)
Definition transition (expected : ScalingPhase → bool) (target : string)
    (make : ScalingOperation → ScalingPhase)
    : method ScalingManager ScalingError unit := λ m,
  match current_phase m with
  | None =>
      (m, Err (mkScalingError "NoActiveOperation" "No active operation to transition"
                 "None"))
  | Some phase =>
      if negb (expected phase) then
        (m, Err (mkScalingError "InvalidTransition"
                   ("Cannot transition from " +:+ phase_name phase +:+ " to " +:+ target)
                   (phase_name phase)))
      else (enter_phase (make (operation phase)) (set_final_phase target) m, Ok ())
  end.

Definition transition_to_validating (now : Z) : method ScalingManager ScalingError unit :=
  transition (λ p, match p with Requested _ _ => true | _ => false end)
    "Validating" (λ op, Validating op now).

Definition transition_to_planning (now : Z) (pre_metrics : option ScalingMetrics)
    : method ScalingManager ScalingError unit :=
  transition (λ p, match p with Validating _ _ => true | _ => false end)
    "Planning" (λ op, Planning op now pre_metrics).

Definition transition_to_resource_allocating (now : Z)
    (resources : option ScalingResources) : method ScalingManager ScalingError unit :=
  transition (λ p, match p with Planning _ _ _ => true | _ => false end)
    "ResourceAllocating" (λ op, ResourceAllocating op now resources).

Definition transition_to_instance_preparing (now : Z) (instance_ids : list string)
    : method ScalingManager ScalingError unit :=
  transition (λ p, match p with ResourceAllocating _ _ _ => true | _ => false end)
    "InstancePreparing" (λ op, InstancePreparing op now instance_ids).

Definition transition_to_configuring (now : Z) (previous_config : option string)
    : method ScalingManager ScalingError unit :=
  transition (λ p, match p with InstancePreparing _ _ _ => true | _ => false end)
    "Configuring" (λ op, Configuring op now previous_config).

Definition transition_to_verifying (now : Z) : method ScalingManager ScalingError unit :=
  transition (λ p, match p with Configuring _ _ _ => true | _ => false end)
    "Verifying" (λ op, Verifying op now []).

Definition transition_to_finalizing (now : Z) (cleanup_tasks : list string)
    : method ScalingManager ScalingError unit :=
  transition (λ p, match p with Verifying _ _ _ => true | _ => false end)
    "Finalizing" (λ op, Finalizing op now cleanup_tasks).

Definition add_verification_result (test_result : VerificationResult)
    : method ScalingManager ScalingError unit := λ m,
  match current_phase m with
  | Some (Verifying op started test_results) =>
      (mkManager (Some (Verifying op started (test_results ++ [test_result])))
         (operation_history m) (phase_timeouts m) (last_check_time m), Ok ())
  | Some phase =>
      (m, Err (mkScalingError "InvalidPhase"
                 ("Cannot add verification result in " +:+ phase_name phase +:+ " phase")
                 (phase_name phase)))
  | None =>
      (m, Err (mkScalingError "NoActiveOperation"
                 "No active operation to add verification result to" "None"))
  end.

(** [check_timeouts] returns whether a timeout was detected and handled. *)
Definition check_timeouts (now : Z) (m : ScalingManager) : ScalingManager * bool :=
  let m := mkManager (current_phase m) (operation_history m) (phase_timeouts m) now in
  match current_phase m with
  | Some phase =>
      if is_terminal phase then (m, false) else
      match start_time phase with
      | None => (m, false)
      | Some start =>
          match phase_timeouts m !! phase_name phase with
          | None => (m, false)
          | Some timeout_seconds =>
              if (u64_as_i64 timeout_seconds <? i64_sub now start)%Z then
                let name := phase_name phase in
                (enter_phase
                   (Failed (operation phase) now
                      ("Timeout after " +:+ pretty timeout_seconds +:+ " seconds")
                      name None)
                   (set_outcome "Failed" now false
                      (Some (mkScalingError "Timeout"
                               ("Operation timed out in " +:+ name +:+ " phase") name)))
                   m, true)
              else (m, false)
          end
      end
  | None => (m, false)
  end.

(** The guard of the three methods that end an operation: the current phase,
    when it is not terminal. *)
Definition active_phase (m : ScalingManager) : option ScalingPhase :=
  match current_phase m with
  | Some phase => if negb (is_terminal phase) then Some phase else None
  | None => None
  end.

Definition cancel_operation (now : Z) (reason : string)
    : method ScalingManager ScalingError unit := λ m,
  match active_phase m with
  | None =>
      (m, Err (mkScalingError "NoActiveOperation" "No active operation to cancel" "None"))
  | Some phase =>
      (enter_phase (Canceled (operation phase) now reason (phase_name phase))
         (set_outcome "Canceled" now false None) m, Ok ())
  end.

Definition fail_operation (now : Z) (err_type msg : string)
    (partial_results : option string) : method ScalingManager ScalingError unit := λ m,
  match active_phase m with
  | None =>
      (m, Err (mkScalingError "NoActiveOperation" "No active operation to fail" "None"))
  | Some phase =>
      let name := phase_name phase in
      (enter_phase (Failed (operation phase) now msg name partial_results)
         (set_outcome "Failed" now false (Some (mkScalingError err_type msg name))) m,
       Ok ())
  end.

Definition complete_operation (now : Z) (result_metrics : option ScalingMetrics)
    : method ScalingManager ScalingError unit := λ m,
  match active_phase m with
  | None =>
      (m, Err (mkScalingError "NoActiveOperation" "No active operation to complete"
                 "None"))
  | Some phase =>
      let started_at :=
        match last (operation_history m) with
        | Some record => rec_started_at record
        | None => now
        end in
      let duration_seconds :=
        if (started_at <? now)%Z then i64_as_u64 (i64_sub now started_at) else 0%Z in
      (enter_phase (Completed (operation phase) now duration_seconds result_metrics)
         (set_outcome "Completed" now true None) m, Ok ())
  end.

(** The entries [rollback_operation] adds to the metadata of the last record
    (the [Err] arm of the final status is unreachable: every branch of the
    match on the failure phase yields [Ok]). *)
Definition rollback_metadata (now : Z) (failure_phase : string)
    (phase_data : option PhaseData) : gmap string string :=
  let md0 := <["rollback_status" := "in_progress"]>
             $ <["rollback_started_at" := pretty now]> ∅ in
  let md1 :=
    if decide (failure_phase = "ResourceAllocating") then
      match phase_data with
      | Some (PDResourceAllocating _ allocated_resource_ids) =>
          match allocated_resource_ids with
          | [] => md0
          | _ => <["resources_to_release" := str_join "," allocated_resource_ids]> md0
          end
      | _ => md0
      end
    else if decide (failure_phase = "InstancePreparing") then
      match phase_data with
      | Some (PDInstancePreparing _ (Some configs)) =>
          <["configs_to_restore" := configs]> md0
      | _ => md0
      end
    else if decide (failure_phase = "Configuring") then
      match phase_data with
      | Some (PDConfiguring (Some config) _) =>
          <["config_to_restore" := config]> md0
      | _ => md0
      end
    else md0 in
  <["rollback_completed_at" := pretty now]> $ <["rollback_status" := "completed"]> md1.

(** The data recorded for the phase in which the last operation failed. *)
Definition failed_phase_data (failure_phase : string) (m : ScalingManager)
    : option PhaseData :=
  match last (operation_history m) with
  | Some record =>
      '(_, p) ← list_find (λ p, pr_phase_name p = failure_phase) (phase_history record);
      Some (pr_phase_data p)
  | None => None
  end.

Definition rollback_operation (now : Z) : method ScalingManager ScalingError unit := λ m,
  match current_phase m with
  | Some (Failed _ _ _ failure_phase _) =>
      let extra := rollback_metadata now failure_phase (failed_phase_data failure_phase m) in
      (mkManager (current_phase m)
         (update_last (add_metadata extra) (operation_history m))
         (phase_timeouts m) (last_check_time m), Ok ())
  | _ =>
      (m, Err (mkScalingError "InvalidRollback"
                 "Cannot roll back: no failed operation exists" "None"))
  end.

(** ** Runs of the manager *)

(** The public methods that take [&mut self]. *)
Inductive call : Type :=
| CSetTimeout (phase : string) (timeout_seconds : Z)
| CStart (now1 now2 : Z) (op : ScalingOperation)
| CValidating (now : Z)
| CPlanning (now : Z) (pre_metrics : option ScalingMetrics)
| CResourceAllocating (now : Z) (resources : option ScalingResources)
| CInstancePreparing (now : Z) (instance_ids : list string)
| CConfiguring (now : Z) (previous_config : option string)
| CVerifying (now : Z)
| CFinalizing (now : Z) (cleanup_tasks : list string)
| CAddResult (test_result : VerificationResult)
| CCheckTimeouts (now : Z)
| CCancel (now : Z) (reason : string)
| CFail (now : Z) (err_type msg : string) (partial_results : option string)
| CComplete (now : Z) (result_metrics : option ScalingMetrics)
| CRollback (now : Z).

Definition outcome {S E A} (x : S * result A E) : S * bool := (x.1, is_ok x.2).

(** One call; the boolean is [true] for [Ok] and for a detected timeout. *)
Definition exec (c : call) (m : ScalingManager) : ScalingManager * bool :=
  match c with
  | CSetTimeout p t => (set_phase_timeout p t m, true)
  | CStart t1 t2 op => outcome (start_operation t1 t2 op m)
  | CValidating t => outcome (transition_to_validating t m)
  | CPlanning t x => outcome (transition_to_planning t x m)
  | CResourceAllocating t x => outcome (transition_to_resource_allocating t x m)
  | CInstancePreparing t x => outcome (transition_to_instance_preparing t x m)
  | CConfiguring t x => outcome (transition_to_configuring t x m)
  | CVerifying t => outcome (transition_to_verifying t m)
  | CFinalizing t x => outcome (transition_to_finalizing t x m)
  | CAddResult x => outcome (add_verification_result x m)
  | CCheckTimeouts t => check_timeouts t m
  | CCancel t r => outcome (cancel_operation t r m)
  | CFail t e g r => outcome (fail_operation t e g r m)
  | CComplete t x => outcome (complete_operation t x m)
  | CRollback t => outcome (rollback_operation t m)
  end.

Fixpoint run (cs : list call) (m : ScalingManager) : ScalingManager :=
  match cs with
  | [] => m
  | c :: cs' => run cs' (exec c m).1
  end.

Definition reachable (m : ScalingManager) : Prop := ∃ now cs, m = run cs (new now).

(** ** Abstract specification: an automaton on the names of the phases *)

Inductive Kind : Type :=
| KRequested | KValidating | KPlanning | KResourceAllocating | KInstancePreparing
| KConfiguring | KVerifying | KFinalizing | KCompleted | KFailed | KCanceled.

#[global] Instance Kind_eq_dec : EqDecision Kind.
Proof. solve_decision. Defined.

Definition kind_of (p : ScalingPhase) : Kind :=
  match p with
  | Requested _ _ => KRequested | Validating _ _ => KValidating
  | Planning _ _ _ => KPlanning | ResourceAllocating _ _ _ => KResourceAllocating
  | InstancePreparing _ _ _ => KInstancePreparing | Configuring _ _ _ => KConfiguring
  | Verifying _ _ _ => KVerifying | Finalizing _ _ _ => KFinalizing
  | Completed _ _ _ _ => KCompleted | Failed _ _ _ _ _ => KFailed
  | Canceled _ _ _ _ => KCanceled
  end.

Definition kind (m : ScalingManager) : option Kind := kind_of <$> current_phase m.

(** Position in the pipeline; 8 for the terminal phases. *)
Definition rank (k : Kind) : nat :=
  match k with
  | KRequested => 0 | KValidating => 1 | KPlanning => 2 | KResourceAllocating => 3
  | KInstancePreparing => 4 | KConfiguring => 5 | KVerifying => 6 | KFinalizing => 7
  | KCompleted | KFailed | KCanceled => 8
  end.

Definition active (k : option Kind) : Prop :=
  match k with Some k => rank k < 8 | None => False end.

(** The phase a [transition_to_*] call leads to. *)
Definition target (c : call) : option Kind :=
  match c with
  | CValidating _ => Some KValidating
  | CPlanning _ _ => Some KPlanning
  | CResourceAllocating _ _ => Some KResourceAllocating
  | CInstancePreparing _ _ => Some KInstancePreparing
  | CConfiguring _ _ => Some KConfiguring
  | CVerifying _ => Some KVerifying
  | CFinalizing _ _ => Some KFinalizing
  | _ => None
  end.

(** The terminal phase an ending call leads to. *)
Definition ending (c : call) : option Kind :=
  match c with
  | CCancel _ _ => Some KCanceled
  | CFail _ _ _ _ => Some KFailed
  | CComplete _ _ => Some KCompleted
  | _ => None
  end.

Inductive spec_step : call → option Kind → bool → option Kind → Prop :=
| spec_config p t k : spec_step (CSetTimeout p t) k true k
| spec_start t1 t2 op k :
    ¬ active k → spec_step (CStart t1 t2 op) k true (Some KRequested)
| spec_start_busy t1 t2 op k :
    active k → spec_step (CStart t1 t2 op) k false k
| spec_advance c k k' :
    target c = Some k' → rank k' = S (rank k) → spec_step c (Some k) true (Some k')
| spec_advance_refused c k k' :
    target c = Some k' → (∀ k0, k = Some k0 → rank k' ≠ S (rank k0)) →
    spec_step c k false k
| spec_end c k k' :
    ending c = Some k' → active k → spec_step c k true (Some k')
| spec_end_refused c k k' :
    ending c = Some k' → ¬ active k → spec_step c k false k
| spec_result r : spec_step (CAddResult r) (Some KVerifying) true (Some KVerifying)
| spec_result_refused r k :
    k ≠ Some KVerifying → spec_step (CAddResult r) k false k
| spec_timeout t k : active k → spec_step (CCheckTimeouts t) k true (Some KFailed)
| spec_no_timeout t k : spec_step (CCheckTimeouts t) k false k
| spec_rollback t : spec_step (CRollback t) (Some KFailed) true (Some KFailed)
| spec_rollback_refused t k :
    k ≠ Some KFailed → spec_step (CRollback t) k false k.

(** ** Invariants *)

(** What the history says about an operation in phase [p]. *)
Definition record_matches (p : ScalingPhase) (r : ScalingOperationRecord) : Prop :=
  final_phase r = phase_name p ∧
  rec_operation r = operation p ∧
  bool_decide (is_Some (rec_ended_at r)) = is_terminal p ∧
  successful r = bool_decide (kind_of p = KCompleted) ∧
  bool_decide (is_Some (rec_error r)) = bool_decide (kind_of p = KFailed) ∧
  phase_history r = [].

Definition record_closed (r : ScalingOperationRecord) : Prop :=
  ∃ p, is_terminal p ∧ record_matches p r.

Definition manager_inv (m : ScalingManager) : Prop :=
  match current_phase m with
  | None => operation_history m = []
  | Some p => ∃ h r, operation_history m = h ++ [r] ∧ Forall record_closed h ∧
                     record_matches p r
  end.

(** ** Progress and outcomes *)

(** The calls of [cs] that succeed in moving the operation forward, by a
    transition or by ending it. *)
Definition advances (c : call) : bool :=
  match target c, ending c with None, None => false | _, _ => true end.

Fixpoint progress_count (cs : list call) (m : ScalingManager) : nat :=
  match cs with
  | [] => 0
  | c :: cs' =>
      (if advances c && (exec c m).2 then 1 else 0) + progress_count cs' (exec c m).1
  end.

Definition is_start (c : call) : bool :=
  match c with CStart _ _ _ => true | _ => false end.

(** Phases left before the operation is over. *)
Definition phases_left (m : ScalingManager) : nat :=
  match kind m with Some k => 8 - rank k | None => 0 end.

(** The part of a record that tells how the operation went; only the metadata
    may still change once the operation is over. *)
Definition outcome_of (r : ScalingOperationRecord) :=
  (operation_id r, rec_operation r, rec_started_at r, rec_ended_at r, final_phase r,
   successful r, rec_error r).

Definition record_ended (r : ScalingOperationRecord) : Prop := is_Some (rec_ended_at r).

(** The results of a sequence of calls, and the abstract runs over them. *)
Fixpoint outcomes (cs : list call) (m : ScalingManager) : list bool :=
  match cs with
  | [] => []
  | c :: cs' => (exec c m).2 :: outcomes cs' (exec c m).1
  end.

Inductive spec_run : list call → option Kind → list bool → option Kind → Prop :=
| spec_run_nil k : spec_run [] k [] k
| spec_run_cons c cs k ok k' oks k'' :
    spec_step c k ok k' → spec_run cs k' oks k'' →
    spec_run (c :: cs) k (ok :: oks) k''.

Definition sets_timeout (c : call) : bool :=
  match c with CSetTimeout _ _ => true | _ => false end.

(** The eight calls of an operation that goes through every phase. *)
Definition full_pipeline (now : nat → Z) (op : ScalingOperation)
    (pre : option ScalingMetrics) (res : option ScalingResources)
    (ids : list string) (cfg : option string) (tasks : list string)
    (post : option ScalingMetrics) : list call :=
  [CStart (now 0) (now 0) op; CValidating (now 1); CPlanning (now 2) pre;
   CResourceAllocating (now 3) res; CInstancePreparing (now 4) ids;
   CConfiguring (now 5) cfg; CVerifying (now 6); CFinalizing (now 7) tasks;
   CComplete (now 8) post].

(** The entries that the rollback of an operation without phase data adds. *)
Definition rollback_entries (now : Z) : gmap string string :=
  <["rollback_completed_at" := pretty now]> $ <["rollback_status" := "completed"]>
  $ <["rollback_started_at" := pretty now]> ∅.

(** ** Lemmas *)

Ltac unfold_calls :=
  unfold exec, outcome, start_operation, transition_to_validating,
    transition_to_planning, transition_to_resource_allocating,
    transition_to_instance_preparing, transition_to_configuring,
    transition_to_verifying, transition_to_finalizing, transition,
    add_verification_result, cancel_operation, fail_operation, complete_operation,
    active_phase, rollback_operation, set_phase_timeout in *.

(** Case analysis on the current phase of the manager. *)
Ltac by_phase m :=
  let cp := fresh "cp" in let h := fresh "hist" in let ts := fresh "ts" in
  let lc := fresh "lc" in
  destruct m as [cp h ts lc]; destruct cp as [[]|]; simpl in *.

Lemma is_terminal_rank p : is_terminal p = bool_decide (rank (kind_of p) = 8).
Proof. by destruct p. Qed.

Lemma active_kind m :
  active (kind m) ↔ ∃ p, current_phase m = Some p ∧ is_terminal p = false.
Proof.
  unfold kind, active. destruct (current_phase m) as [p|]; simpl.
  - split; [intros Hr; exists p|intros (q & [= <-] & Hq)]; destruct p; simpl in *;
      (done || lia).
  - split; [done|intros (q & ? & _); discriminate].
Qed.

(** The two outcomes of [check_timeouts]. *)
Lemma check_timeouts_cases now m :
  check_timeouts now m =
    (mkManager (current_phase m) (operation_history m) (phase_timeouts m) now, false) ∨
  ∃ p start T err,
    current_phase m = Some p ∧ is_terminal p = false ∧
    start_time p = Some start ∧ phase_timeouts m !! phase_name p = Some T ∧
    (u64_as_i64 T < i64_sub now start)%Z ∧
    check_timeouts now m =
      (mkManager
         (Some (Failed (operation p) now ("Timeout after " +:+ pretty T +:+ " seconds")
                  (phase_name p) None))
         (update_last (set_outcome "Failed" now false (Some err)) (operation_history m))
         (phase_timeouts m) now, true).
Proof.
  unfold check_timeouts. simpl.
  destruct (current_phase m) as [p|] eqn:Hp; [|by left].
  destruct (is_terminal p) eqn:Ht; [by left|].
  destruct (start_time p) as [start|] eqn:Hs; [|by left].
  destruct (phase_timeouts m !! phase_name p) as [T|] eqn:HT; [|by left].
  destruct (u64_as_i64 T <? i64_sub now start)%Z eqn:Hlt; [|by left].
  right. apply Z.ltb_lt in Hlt. eexists p, start, T, _. done.
Qed.

Ltac solve_spec :=
  first
    [ apply spec_config
    | apply spec_start; simpl; lia
    | apply spec_start_busy; simpl; lia
    | apply spec_result
    | apply spec_result_refused; discriminate
    | apply spec_rollback
    | apply spec_rollback_refused; discriminate
    | eapply spec_advance; [reflexivity|reflexivity]
    | eapply spec_advance_refused; [reflexivity|intros ? [=]; subst; discriminate]
    | eapply spec_end; [reflexivity|simpl; lia]
    | eapply spec_end_refused; [reflexivity|simpl; lia] ].

Lemma exec_refines c m : spec_step c (kind m) (exec c m).2 (kind (exec c m).1).
Proof.
  destruct c; try (by_phase m; solve_spec).
  simpl. destruct (check_timeouts_cases now m)
    as [->|(p & start & T & err & Hp & Ht & _ & _ & _ & ->)]; simpl.
  - apply spec_no_timeout.
  - apply spec_timeout, active_kind. eauto.
Qed.

(** Refused calls change nothing; a timeout check that detects nothing only
    records when it ran. *)
Lemma exec_refused c m :
  (exec c m).2 = false →
  (exec c m).1 = m ∨
  ∃ now, c = CCheckTimeouts now ∧
    (exec c m).1 =
      mkManager (current_phase m) (operation_history m) (phase_timeouts m) now.
Proof.
  destruct c; try (by_phase m; by (intros; (left; done) || discriminate)).
  simpl. destruct (check_timeouts_cases now m)
    as [->|(p & start & T & err & _ & _ & _ & _ & _ & ->)]; simpl; [eauto|done].
Qed.

Lemma record_matches_final p p' r :
  record_matches p r → is_terminal p = false → is_terminal p' = false →
  operation p' = operation p → record_matches p' (set_final_phase (phase_name p') r).
Proof.
  unfold record_matches. simpl. intros (_ & -> & -> & -> & -> & ->) Ht Ht' ->.
  rewrite Ht, Ht'. by destruct p, p'.
Qed.

Lemma record_matches_outcome p p' now ok err r :
  record_matches p r → operation p' = operation p → is_terminal p' →
  ok = bool_decide (kind_of p' = KCompleted) →
  bool_decide (is_Some err) = bool_decide (kind_of p' = KFailed) →
  record_matches p' (set_outcome (phase_name p') now ok err r).
Proof.
  unfold record_matches. simpl. intros (_ & -> & _ & _ & _ & ->) -> Ht -> ->.
  apply Is_true_true in Ht. rewrite Ht. done.
Qed.

Lemma record_matches_metadata p extra r :
  record_matches p r → record_matches p (add_metadata extra r).
Proof. done. Qed.

(** Rewriting the last record keeps the invariant when the new record matches
    the new phase. *)
Lemma inv_enter m p p' f ts lc :
  manager_inv m → current_phase m = Some p →
  (∀ r, record_matches p r → record_matches p' (f r)) →
  manager_inv (mkManager (Some p') (update_last f (operation_history m)) ts lc).
Proof.
  unfold manager_inv. intros Hinv Hp Hf. rewrite Hp in Hinv. simpl.
  destruct Hinv as (h & r & -> & Hh & Hr).
  exists h, (f r). rewrite update_last_snoc. auto.
Qed.

Lemma inv_start m t1 id op ts lc :
  manager_inv m → ¬ active (kind m) →
  manager_inv (mkManager (Some (Requested op t1))
    (operation_history m ++
       [mkRecord id op t1 None "Requested" false None [] None ∅ ∅]) ts lc).
Proof.
  unfold manager_inv. intros Hinv Hact. simpl.
  exists (operation_history m).
  eexists. split; [done|]. split; [|done].
  destruct (current_phase m) as [p|] eqn:Hp; [|by rewrite Hinv].
  destruct Hinv as (h & r & -> & Hh & Hr). apply Forall_app. split; [done|].
  constructor; [|done]. exists p. split; [|done].
  destruct (is_terminal p) eqn:Ht; [done|].
  destruct Hact. apply active_kind. eauto.
Qed.

Lemma inv_transition expected name make m :
  manager_inv m →
  (∀ p, expected p = true → is_terminal p = false) →
  (∀ op, phase_name (make op) = name ∧ operation (make op) = op ∧
         is_terminal (make op) = false) →
  manager_inv (transition expected name make m).1.
Proof.
  intros Hinv Hexp Hmake. unfold transition.
  destruct (current_phase m) as [p|] eqn:Hp; [|done].
  destruct (expected p) eqn:He; simpl; [|done].
  destruct (Hmake (operation p)) as (<- & Hop & Ht).
  eapply inv_enter; eauto.
  intros r Hr. eapply record_matches_final; eauto.
Qed.

Lemma inv_ending m p p' now ok err ts lc :
  manager_inv m → current_phase m = Some p →
  operation p' = operation p → is_terminal p' →
  ok = bool_decide (kind_of p' = KCompleted) →
  bool_decide (is_Some err) = bool_decide (kind_of p' = KFailed) →
  manager_inv (mkManager (Some p')
    (update_last (set_outcome (phase_name p') now ok err) (operation_history m)) ts lc).
Proof.
  intros. eapply inv_enter; eauto. intros r Hr.
  eapply record_matches_outcome; eauto.
Qed.

Lemma active_phase_Some m p :
  active_phase m = Some p → current_phase m = Some p ∧ is_terminal p = false.
Proof.
  unfold active_phase. destruct (current_phase m) as [q|]; [|done].
  destruct (is_terminal q) eqn:E; naive_solver.
Qed.

Lemma exec_inv c m : manager_inv m → manager_inv (exec c m).1.
Proof.
  intros Hinv. destruct c; simpl.
  3-9: apply inv_transition; [done|by intros []|done].
  - done.
  - pose proof (inv_start m now1 ("op-" +:+ pretty now2) op (phase_timeouts m)
      (last_check_time m) Hinv) as Hs.
    rewrite active_kind in Hs. unfold start_operation, new_requested.
    destruct (current_phase m) as [p|] eqn:Hp; simpl in *;
      [|apply Hs; by intros (? & ? & _)].
    destruct (is_terminal p) eqn:Ht; simpl; [apply Hs|done].
    intros (q & [= <-] & Hq). congruence.
  - unfold add_verification_result.
    destruct (current_phase m) as [[]|] eqn:Hp; simpl; try exact Hinv.
    unfold manager_inv in *. by rewrite Hp in Hinv.
  - destruct (check_timeouts_cases now m)
      as [->|(p & start & T & err & Hp & Ht & _ & _ & _ & ->)]; simpl; [done|].
    change "Failed" with (phase_name (Failed (operation p) now
      ("Timeout after " +:+ pretty T +:+ " seconds") (phase_name p) None)).
    by eapply inv_ending.
  - unfold cancel_operation. destruct (active_phase m) as [p|] eqn:Ha; simpl; [|done].
    apply active_phase_Some in Ha as [Hp Ht].
    by eapply (inv_ending m p (Canceled _ _ _ _)).
  - unfold fail_operation. destruct (active_phase m) as [p|] eqn:Ha; simpl; [|done].
    apply active_phase_Some in Ha as [Hp Ht].
    by eapply (inv_ending m p (Failed _ _ _ _ _)).
  - unfold complete_operation. destruct (active_phase m) as [p|] eqn:Ha; simpl; [|done].
    apply active_phase_Some in Ha as [Hp Ht].
    by eapply (inv_ending m p (Completed _ _ _ _)).
  - unfold rollback_operation.
    destruct (current_phase m) as [[]|] eqn:Hp; simpl; try exact Hinv.
    eapply inv_enter; eauto using record_matches_metadata.
Qed.

Lemma run_inv cs m : manager_inv m → manager_inv (run cs m).
Proof. revert m. induction cs; simpl; eauto using exec_inv. Qed.

Lemma run_app cs1 cs2 m : run (cs1 ++ cs2) m = run cs2 (run cs1 m).
Proof. revert m. induction cs1; simpl; auto. Qed.

Lemma reachable_inv m : reachable m → manager_inv m.
Proof. intros (now & cs & ->). by apply run_inv. Qed.
#[export] Hint Resolve exec_inv run_inv reachable_inv : formation.

(** *** Progress *)

Lemma rank_target c k : target c = Some k → 1 ≤ rank k ≤ 7.
Proof. destruct c; intros [= <-]; simpl; lia. Qed.

Lemma rank_ending c k : ending c = Some k → rank k = 8.
Proof. destruct c; intros [= <-]; done. Qed.

Lemma exec_phases_left c m :
  is_start c = false →
  (if advances c && (exec c m).2 then 1 else 0) + phases_left (exec c m).1
    ≤ phases_left m.
Proof.
  intros Hc. unfold phases_left. pose proof (exec_refines c m) as Hs.
  destruct (exec c m) as [m' ok]; simpl in *.
  inversion Hs as [| |?????|c' k k' Ht Hr|c' k k' Ht|c' k k' He Ha|c' k k' He| | | | | |];
    subst; simpl in *; try discriminate; rewrite ?andb_false_r; try lia.
  - pose proof (rank_target _ _ Ht). destruct (_ && _); lia.
  - rewrite (rank_ending _ _ He).
    destruct (kind m) as [k0|]; simpl in *; [|done]. destruct (_ && _); lia.
Qed.

Lemma progress_bound cs m :
  Forall (λ c, is_start c = false) cs → progress_count cs m ≤ phases_left m.
Proof.
  intros Hcs. revert m. induction Hcs as [|c cs Hc _ IH]; intros m; simpl; [lia|].
  pose proof (exec_phases_left c m Hc). specialize (IH (exec c m).1). lia.
Qed.

(** *** Closed records *)

Lemma update_last_lookup {A} (f : A → A) l i x :
  l !! i = Some x →
  update_last f l !! i = Some (if decide (S i = length l) then f x else x).
Proof.
  destruct l as [|y l _] using rev_ind; [done|].
  rewrite update_last_snoc, length_app. simpl.
  intros Hi. destruct (decide (S i = length l + 1)).
  - assert (i = length l) as -> by lia.
    rewrite lookup_app_r, Nat.sub_diag in Hi by lia. simplify_eq/=.
    by rewrite lookup_app_r, Nat.sub_diag by lia.
  - apply lookup_lt_Some in Hi as Hlt. rewrite length_app in Hlt. simpl in Hlt.
    rewrite lookup_app_l in Hi by lia. by rewrite lookup_app_l by lia.
Qed.

(** The history after a call: extended, kept, or rewritten in its last record,
    in which case either only metadata changed or the operation was active. *)
Lemma exec_history c m :
  (∃ r, operation_history (exec c m).1 = operation_history m ++ [r]) ∨
  ∃ f, operation_history (exec c m).1 = update_last f (operation_history m) ∧
       ((∀ r, outcome_of (f r) = outcome_of r) ∨ active (kind m)).
Proof.
  assert (operation_history m = update_last id (operation_history m)) as Hid.
  { destruct (operation_history m) as [|r h _] using rev_ind; [done|].
    by rewrite update_last_snoc. }
  destruct c; simpl;
    try (destruct (check_timeouts_cases now m)
      as [->|(p & start & T & err & Hp & Ht & _ & _ & _ & ->)]; simpl;
      [right; exists id; auto
      |right; eexists; split; [done|]; right; apply active_kind; eauto]);
    by_phase m; first
    [ left; eexists; reflexivity
    | right; exists id; split; [exact Hid|by left]
    | right; eexists; split; [reflexivity|right; simpl; lia]
    | right; eexists; split; [reflexivity|by left] ].
Qed.

Lemma ended_inactive m i r :
  manager_inv m → operation_history m !! i = Some r → record_ended r →
  S i = length (operation_history m) → ¬ active (kind m).
Proof.
  intros Hinv Hi Hr Hlast (p & Hp & Ht)%active_kind.
  unfold manager_inv in Hinv. rewrite Hp in Hinv.
  destruct Hinv as (h & r' & Hh & _ & Hm). rewrite Hh in *.
  rewrite length_app in Hlast. simpl in Hlast.
  rewrite lookup_app_r in Hi by lia. replace (i - length h) with 0 in Hi by lia.
  simplify_eq/=. destruct Hm as (_ & _ & He & _). rewrite Ht in He.
  apply bool_decide_eq_false in He. done.
Qed.

Lemma exec_closed c m i r :
  manager_inv m → operation_history m !! i = Some r → record_ended r →
  ∃ r', operation_history (exec c m).1 !! i = Some r' ∧ outcome_of r' = outcome_of r.
Proof.
  intros Hinv Hi Hr. destruct (exec_history c m) as [[r0 ->]|(f & -> & Hf)].
  - exists r. split; [|done]. by apply lookup_app_l_Some.
  - rewrite (update_last_lookup _ _ _ _ Hi). eexists. split; [done|].
    case_decide; [|done]. destruct Hf as [Hf|Hact]; [done|].
    by destruct (ended_inactive m i r).
Qed.

Lemma run_closed cs m i r :
  manager_inv m → operation_history m !! i = Some r → record_ended r →
  ∃ r', operation_history (run cs m) !! i = Some r' ∧ outcome_of r' = outcome_of r.
Proof.
  revert m r. induction cs as [|c cs IH]; intros m r Hinv Hi Hr; simpl; [eauto|].
  destruct (exec_closed c m i r Hinv Hi Hr) as (r1 & Hi1 & Ho1).
  destruct (IH (exec c m).1 r1) as (r2 & Hi2 & Ho2); auto with formation.
  - unfold record_ended, outcome_of in *. congruence.
  - exists r2. split; [done|]. congruence.
Qed.

Lemma run_refines cs m : spec_run cs (kind m) (outcomes cs m) (kind (run cs m)).
Proof.
  revert m. induction cs as [|c cs IH]; intros m; simpl; [constructor|].
  econstructor; [apply exec_refines|apply IH].
Qed.

(** *** Timeouts *)

Lemma exec_timeouts c m :
  sets_timeout c = false → phase_timeouts (exec c m).1 = phase_timeouts m.
Proof.
  destruct c; intros Hc; try discriminate; simpl;
    try (destruct (check_timeouts_cases now m)
      as [->|(p & start & T & err & _ & _ & _ & _ & _ & ->)]; done);
    by by_phase m.
Qed.

Lemma run_timeouts cs m :
  Forall (λ c, sets_timeout c = false) cs → phase_timeouts (run cs m) = phase_timeouts m.
Proof.
  intros Hcs. revert m. induction Hcs as [|c cs Hc _ IH]; intros m; simpl; [done|].
  by rewrite IH, exec_timeouts.
Qed.

Lemma start_time_active p s : start_time p = Some s → is_terminal p = false.
Proof. by destruct p. Qed.

(** What [check_timeouts] decides for a phase with a start time. *)
Lemma check_timeouts_decides now m p start T :
  current_phase m = Some p → start_time p = Some start →
  phase_timeouts m !! phase_name p = Some T →
  (check_timeouts now m).2 = (u64_as_i64 T <? i64_sub now start)%Z.
Proof.
  intros Hp Hs HT. unfold check_timeouts. simpl.
  rewrite Hp, (start_time_active _ _ Hs), Hs, HT. by destruct (_ <? _)%Z.
Qed.

Lemma check_timeouts_fails now m :
  (check_timeouts now m).2 = true → kind (check_timeouts now m).1 = Some KFailed.
Proof.
  destruct (check_timeouts_cases now m)
    as [->|(p & start & T & err & _ & _ & _ & _ & _ & ->)]; done.
Qed.

Lemma default_timeout p now s :
  start_time p = Some s →
  ∃ T, phase_timeouts (new now) !! phase_name p = Some T ∧ (60 ≤ T ≤ 600)%Z.
Proof.
  destruct p; intros [= <-]; (eexists; split; [vm_compute; reflexivity|lia]).
Qed.

(** *** Rollback *)

(** Rolling back a failed operation adds the status and the times only: the record
    has no data of the failed phase. *)
Lemma rollback_status_only now m op t reason fp partial :
  manager_inv m → current_phase m = Some (Failed op t reason fp partial) →
  ∃ h r, operation_history m = h ++ [r] ∧
    record_matches (Failed op t reason fp partial) r ∧
    rollback_operation now m =
      (mkManager (current_phase m) (h ++ [add_metadata (rollback_entries now) r])
         (phase_timeouts m) (last_check_time m), Ok ()).
Proof.
  intros Hinv Hp. unfold manager_inv in Hinv. rewrite Hp in Hinv.
  destruct Hinv as (h & r & Hh & _ & Hr). exists h, r. split; [done|]. split; [done|].
  unfold rollback_operation, failed_phase_data. rewrite Hp, Hh, last_snoc, update_last_snoc.
  destruct Hr as (_ & _ & _ & _ & _ & ->). simpl. do 5 f_equal.
  unfold rollback_metadata, rollback_entries.
  repeat case_decide; by rewrite (insert_insert_eq _ "rollback_status").
Qed.

(** ** Properties *)

(** C1: every sequence of calls on the manager, whatever its arguments and
    clock readings, is a run of the phase automaton: the operation moves to the
    next phase only, ends only when it is active, starts only when none is
    active, and a call the automaton refuses returns an error and leaves the
    phase as it was. *)
Theorem manager_refines_automaton cs m :
  spec_run cs (kind m) (outcomes cs m) (kind (run cs m)).
Proof. apply run_refines. Qed.

(** C2: in every state the manager can reach, the history and the current phase
    agree: there is a record for the current operation, it names the current
    phase and operation, it has an end time exactly when the phase is terminal,
    is successful exactly when it completed and has an error exactly when it
    failed; all earlier records are closed in the same sense. *)
Theorem history_consistent now cs : manager_inv (run cs (new now)).
Proof. by apply run_inv. Qed.

(** C3: once an operation is over, no sequence of calls changes what its record
    says of it (id, operation, times, final phase, success and error). *)
Theorem closed_records_immutable now cs cs' i r :
  operation_history (run cs (new now)) !! i = Some r →
  record_ended r →
  ∃ r', operation_history (run cs' (run cs (new now))) !! i = Some r' ∧
        outcome_of r' = outcome_of r.
Proof. intros. eapply run_closed; auto using run_inv. by apply run_inv. Qed.

Lemma closed_records_immutable_witness :
  ∃ r, operation_history
         (run [CStart 9 9 (ScaleOut 4); CRollback 10; CComplete 11 None]
            (run [CStart 5 5 (ScaleOut 3); CCancel 7 "stop"] (new 0))) !! 0 = Some r ∧
       rec_ended_at r = Some 7%Z.
Proof.
  destruct (closed_records_immutable 0 [CStart 5 5 (ScaleOut 3); CCancel 7 "stop"]
    [CStart 9 9 (ScaleOut 4); CRollback 10; CComplete 11 None] 0
    (mkRecord "op-5" (ScaleOut 3) 5 (Some 7%Z) "Canceled" false None [] None ∅ ∅))
    as (r & Hr & Ho).
  - vm_compute. reflexivity.
  - by exists 7%Z.
  - exists r. split; [exact Hr|]. unfold outcome_of in Ho. by injection Ho.
Defined.

(** C4: a call that returns an error leaves the manager exactly as it was; a
    timeout check that detects nothing only updates the time of the last check. *)
Theorem refused_calls_change_nothing c m :
  (exec c m).2 = false →
  (exec c m).1 =
    match c with
    | CCheckTimeouts now =>
        mkManager (current_phase m) (operation_history m) (phase_timeouts m) now
    | _ => m
    end.
Proof.
  intros H. destruct (exec_refused c m H) as [Hm|(now & -> & ->)]; [|done].
  destruct c; auto. simpl in *.
  destruct (check_timeouts_cases now m)
    as [->|(p & start & T & err & _ & _ & _ & _ & _ & E)]; [done|].
  by rewrite E in H.
Qed.

Lemma refused_calls_change_nothing_witness :
  (exec (CPlanning 6 None) (run [CStart 5 5 (ScaleOut 3)] (new 0))).1 =
  run [CStart 5 5 (ScaleOut 3)] (new 0).
Proof. apply (refused_calls_change_nothing (CPlanning 6 None)). reflexivity. Defined.

(** C5: between two starts at most eight calls can move an operation forward
    (seven transitions and one ending call), and from a given phase at most as
    many as there are phases left; so every operation comes to an end after
    finitely many successful calls. *)
Theorem progress_terminates cs m :
  Forall (λ c, is_start c = false) cs →
  progress_count cs m ≤ phases_left m ∧ phases_left m ≤ 8.
Proof.
  intros. split; [by apply progress_bound|].
  unfold phases_left. destruct (kind m); lia.
Qed.

Lemma progress_terminates_witness :
  progress_count [CValidating 6; CPlanning 7 None; CCancel 8 "x"; CComplete 9 None]
    (run [CStart 5 5 (ScaleOut 3)] (new 0)) ≤ 8.
Proof.
  destruct (progress_terminates
    [CValidating 6; CPlanning 7 None; CCancel 8 "x"; CComplete 9 None]
    (run [CStart 5 5 (ScaleOut 3)] (new 0))) as [H1 H2].
  - repeat constructor.
  - by etransitivity.
Defined.

(** C6: with the default timeouts no operation stays active for ever: whatever
    calls were made before, a timeout check made more than 600 seconds after
    the current phase was entered ends the operation as failed. *)
Theorem default_timeouts_end_operations now0 cs now p s :
  Forall (λ c, sets_timeout c = false) cs →
  current_phase (run cs (new now0)) = Some p →
  start_time p = Some s →
  (s + 600 < now)%Z → in_i64 (now - s) →
  exec (CCheckTimeouts now) (run cs (new now0)) =
    ((exec (CCheckTimeouts now) (run cs (new now0))).1, true) ∧
  kind (exec (CCheckTimeouts now) (run cs (new now0))).1 = Some KFailed.
Proof.
  intros Hcs Hp Hs Hlate Hr. set (m := run cs (new now0)) in *.
  destruct (default_timeout p now0 s Hs) as (T & HT & HTr).
  assert ((check_timeouts now m).2 = true) as Ht.
  { rewrite (check_timeouts_decides now m p s T); auto.
    - apply Z.ltb_lt. unfold i64_sub, u64_as_i64.
      rewrite (i64_wrap_small (now - s)) by done.
      rewrite i64_wrap_small; [lia|]. widths. lia.
    - unfold m. by rewrite run_timeouts. }
  split; [simpl; by rewrite <- Ht, <- surjective_pairing|].
  by apply check_timeouts_fails.
Qed.

Lemma default_timeouts_end_operations_witness :
  kind (exec (CCheckTimeouts 1000)
          (run [CStart 5 5 (ScaleOut 3); CValidating 6] (new 0))).1 = Some KFailed.
Proof.
  apply (default_timeouts_end_operations 0 [CStart 5 5 (ScaleOut 3); CValidating 6] 1000
    (Validating (ScaleOut 3) 6) 6).
  - repeat constructor.
  - reflexivity.
  - reflexivity.
  - reflexivity.
  - vm_compute. split; discriminate.
Defined.

(** A phase timeout [T] that fits in [i64] fires exactly when the phase has
    lasted more than [T] seconds, but one of [2^63] or more (say [u64::MAX], to
    disable the timeout) is cast to a negative number and fires at the first
    check. *)
Theorem timeout_threshold now m p s T :
  current_phase m = Some p → start_time p = Some s →
  phase_timeouts m !! phase_name p = Some T → in_u64 T → in_i64 (now - s) →
  ((T ≤ i64_max)%Z → (exec (CCheckTimeouts now) m).2 = (T <? now - s)%Z) ∧
  ((i64_max < T)%Z → (s ≤ now)%Z → (exec (CCheckTimeouts now) m).2 = true).
Proof.
  intros Hp Hs HT HTr Hr. simpl.
  rewrite (check_timeouts_decides now m p s T) by done.
  unfold i64_sub, u64_as_i64. rewrite (i64_wrap_small (now - s)) by done. split.
  - intros HT'. rewrite i64_wrap_small; [done|]. widths. lia.
  - intros HT' Hn. apply Z.ltb_lt. widths.
    replace (T + 2 ^ 63)%Z with (T - 2 ^ 63 + 1 * 2 ^ 64)%Z by lia.
    rewrite Z_mod_plus_full, Z.mod_small; lia.
Qed.


(** No public method records phase data, so in every state the manager can
    reach, rolling back a failed operation succeeds, leaves the phase and the
    outcome alone, and adds to the metadata of its record the rollback status
    and times only; the resources to release and the configurations to restore
    are never there. *)
Theorem rollback_records_status_only now0 cs now m m' op t reason fp partial :
  m = run cs (new now0) →
  current_phase m = Some (Failed op t reason fp partial) →
  rollback_operation now m = (m', Ok ()) →
  ∃ h r, operation_history m = h ++ [r] ∧ current_phase m' = current_phase m ∧
    operation_history m' = h ++ [add_metadata (rollback_entries now) r].
Proof.
  intros -> Hp Hroll.
  destruct (rollback_status_only now _ _ _ _ _ _ (run_inv cs (new now0) eq_refl) Hp)
    as (h & r & Hh & _ & He).
  exists h, r. rewrite He in Hroll. by injection Hroll as <-.
Qed.


(** The pipeline is live: from any manager with no active operation, the
    eight calls of the pipeline all succeed whatever their arguments, and leave
    one new, successful record whose recorded duration is the time from the
    start to the completion. *)
Theorem full_pipeline_completes m (now : nat → Z) op pre res ids cfg tasks post :
  ¬ active (kind m) →
  (now 0%nat ≤ now 8%nat)%Z → in_i64 (now 8%nat - now 0%nat) →
  ∃ r, outcomes (full_pipeline now op pre res ids cfg tasks post) m = repeat true 9 ∧
    operation_history (run (full_pipeline now op pre res ids cfg tasks post) m) =
      operation_history m ++ [r] ∧
    rec_operation r = op ∧ successful r = true ∧ rec_ended_at r = Some (now 8) ∧
    current_phase (run (full_pipeline now op pre res ids cfg tasks post) m) =
      Some (Completed op (now 8) (now 8%nat - now 0%nat) post).
Proof.
  intros Hact Hmono Hr.
  assert (exec (CStart (now 0) (now 0) op) m =
    (mkManager (Some (Requested op (now 0)))
       (operation_history m ++
          [mkRecord ("op-" +:+ pretty (now 0)) op (now 0) None "Requested" false None []
             None ∅ ∅]) (phase_timeouts m) (last_check_time m), true)) as Hstart.
  { rewrite active_kind in Hact. simpl. unfold start_operation.
    destruct (current_phase m) as [p|]; [|done].
    destruct (is_terminal p) eqn:Ht; [done|]. destruct Hact. eauto. }
  unfold full_pipeline. cbn [outcomes run]. rewrite Hstart. cbn -[pretty].
  unfold complete_operation. cbn -[pretty].
  rewrite !update_last_snoc, last_snoc. cbn -[pretty].
  eexists. repeat split.
  unfold i64_sub, i64_as_u64. rewrite i64_wrap_small by done.
  do 2 f_equal. destruct (now 0%nat <? now 8%nat)%Z eqn:E; bool_to_prop; [|lia].
  apply u64_wrap_small. widths. lia.
Qed.

