(* ===== verification/Policy.v ===== *)
(** * Scaling policies (form-state/src/instances.rs, [ScalingPolicy])

    Bounds on the number of instances, a target CPU utilization and cooldown
    periods; [get_target_instance_count] computes the recommended size with
    [f64] arithmetic. *)

From Stdlib Require Import SpecFloat.
From stdpp Require Import options.
From S2P Require Import Prelude Float64.

Local Open Scope Z_scope.

Record ScalingPolicy : Type := mkScalingPolicy {
  min_instances : Z;
  max_instances : Z;
  target_cpu_utilization : Z;
  scale_in_cooldown_seconds : Z;
  scale_out_cooldown_seconds : Z;
  last_scale_in_time : Z;
  last_scale_out_time : Z;
}.

(** [ScalingPolicy::new]. *)
Definition new_policy (min_i max_i target in_cooldown out_cooldown : Z) : ScalingPolicy :=
  mkScalingPolicy min_i max_i target in_cooldown out_cooldown 0 0.

Definition with_defaults : ScalingPolicy := mkScalingPolicy 1 5 70 300 120 0 0.

Definition validate (p : ScalingPolicy) : result unit string :=
  if max_instances p <? min_instances p then
    Err ("min_instances (" +:+ pretty (min_instances p)
           +:+ ") must not be greater than max_instances ("
           +:+ pretty (max_instances p) +:+ ")")
  else if max_instances p =? 0 then Err "max_instances must be at least 1"
  else if 100 <? target_cpu_utilization p then
    Err ("target_cpu_utilization (" +:+ pretty (target_cpu_utilization p)
           +:+ ") must be between 0 and 100")
  else Ok ().

Definition should_scale_out (p : ScalingPolicy) (current_instances cpu : Z) : bool :=
  if max_instances p <=? current_instances then false
  else target_cpu_utilization p <? cpu.

Definition should_scale_in (p : ScalingPolicy) (current_instances cpu : Z) : bool :=
  if current_instances <=? min_instances p then false
  else
    let scale_in_threshold :=
      if 15 <? target_cpu_utilization p then u32_sub (target_cpu_utilization p) 15
      else 0 in
    cpu <? scale_in_threshold.

Definition is_in_scale_out_cooldown (p : ScalingPolicy) (current_time : Z) : bool :=
  if last_scale_out_time p =? 0 then false
  else i64_sub current_time (last_scale_out_time p) <? scale_out_cooldown_seconds p.

Definition is_in_scale_in_cooldown (p : ScalingPolicy) (current_time : Z) : bool :=
  if last_scale_in_time p =? 0 then false
  else i64_sub current_time (last_scale_in_time p) <? scale_in_cooldown_seconds p.

Definition record_scale_out (timestamp : Z) (p : ScalingPolicy) : ScalingPolicy :=
  mkScalingPolicy (min_instances p) (max_instances p) (target_cpu_utilization p)
    (scale_in_cooldown_seconds p) (scale_out_cooldown_seconds p)
    (last_scale_in_time p) timestamp.

Definition record_scale_in (timestamp : Z) (p : ScalingPolicy) : ScalingPolicy :=
  mkScalingPolicy (min_instances p) (max_instances p) (target_cpu_utilization p)
    (scale_in_cooldown_seconds p) (scale_out_cooldown_seconds p)
    timestamp (last_scale_out_time p).

Definition get_target_instance_count (p : ScalingPolicy) (current_instances cpu : Z)
    (current_time : Z) : option Z :=
  let scale_in :=
    if should_scale_in p current_instances cpu
       && negb (is_in_scale_in_cooldown p current_time) then
      let ratio :=
        if cpu =? 0 then f64_of_Z 0
        else f64_div (f64_of_Z (target_cpu_utilization p)) (f64_of_Z cpu) in
      let desired_instances :=
        f64_floor_as_u32 (f64_div (f64_of_Z current_instances) ratio) in
      let target_instances := Z.max desired_instances (min_instances p) in
      if target_instances <? current_instances then Some target_instances else None
    else None in
  if should_scale_out p current_instances cpu
     && negb (is_in_scale_out_cooldown p current_time) then
    let ratio := f64_div (f64_of_Z cpu) (f64_of_Z (target_cpu_utilization p)) in
    let desired_instances := f64_ceil_as_u32 (f64_mul (f64_of_Z current_instances) ratio) in
    let target_instances := Z.min desired_instances (max_instances p) in
    if current_instances <? target_instances then Some target_instances else scale_in
  else scale_in.

(** The values a policy is built with have the types of the source. *)
Definition policy_typed (p : ScalingPolicy) : Prop :=
  in_u32 (min_instances p) ∧ in_u32 (max_instances p) ∧
  in_u32 (target_cpu_utilization p) ∧
  in_u32 (scale_in_cooldown_seconds p) ∧ in_u32 (scale_out_cooldown_seconds p).

(** ** Lemmas *)

Lemma validate_spec p :
  policy_typed p →
  validate p = Ok () ↔
  min_instances p ≤ max_instances p ∧ 1 ≤ max_instances p ∧ target_cpu_utilization p ≤ 100.
Proof.
  intros (Hmin & Hmax & _). unfold validate. widths.
  destruct (_ <? _) eqn:E1; [bool_to_prop; split; [done|lia]|].
  destruct (_ =? _) eqn:E2; [bool_to_prop; split; [done|lia]|].
  destruct (100 <? _) eqn:E3; bool_to_prop; (split; [done||lia|done||lia]).
Qed.

Lemma should_scale_out_spec p n cpu :
  should_scale_out p n cpu = true ↔ n < max_instances p ∧ target_cpu_utilization p < cpu.
Proof.
  unfold should_scale_out. destruct (_ <=? _) eqn:E; bool_to_prop.
  - split; [done|lia].
  - rewrite Z.ltb_lt. lia.
Qed.

Lemma should_scale_in_spec p n cpu :
  policy_typed p → 0 ≤ cpu →
  should_scale_in p n cpu = true ↔
  min_instances p < n ∧ cpu + 15 < target_cpu_utilization p.
Proof.
  intros (_ & _ & Ht & _) Hcpu. unfold should_scale_in.
  destruct (n <=? _) eqn:E; bool_to_prop; [split; [done|lia]|].
  destruct (15 <? _) eqn:E15; bool_to_prop; rewrite Z.ltb_lt.
  - unfold u32_sub. rewrite u32_wrap_small by (widths; lia). lia.
  - lia.
Qed.

(** Dividing a positive count by zero gives infinity, which the cast to [u32]
    turns into the largest count. *)
Lemma floor_div_zero n :
  0 < n ≤ u32_max → f64_floor_as_u32 (f64_div (f64_of_Z n) (f64_of_Z 0)) = u32_max.
Proof.
  intros Hn. destruct (f64_of_Z_exact n) as (m & s & -> & _); [widths; lia|]. done.
Qed.

(** The two ways a recommendation can come about. *)
Lemma target_cases p n cpu now t :
  get_target_instance_count p n cpu now = Some t →
  (should_scale_out p n cpu = true ∧ is_in_scale_out_cooldown p now = false ∧
   n < t ≤ max_instances p) ∨
  (should_scale_in p n cpu = true ∧ is_in_scale_in_cooldown p now = false ∧
   min_instances p ≤ t < n).
Proof.
  unfold get_target_instance_count.
  destruct (should_scale_in p n cpu && _) eqn:Ein;
    destruct (should_scale_out p n cpu && _) eqn:Eout; bool_to_prop;
    repeat case_match; intros; simplify_eq; bool_to_prop;
    (left; split_and!; done || lia) || (right; split_and!; done || lia).
Qed.

(** ** Properties *)

(** C7: a recommended size always respects the policy: it lies between the
    current size and the maximum when growing and between the minimum and the
    current size when shrinking; it grows only above the target utilization and
    shrinks only more than 15 points below it, so the two never compete. *)
Theorem target_within_bounds p n cpu now t :
  policy_typed p → in_u32 n → in_u32 cpu →
  get_target_instance_count p n cpu now = Some t →
  (target_cpu_utilization p < cpu ∧ n < t ≤ max_instances p) ∨
  (cpu + 15 < target_cpu_utilization p ∧ min_instances p ≤ t < n).
Proof.
  intros Hp Hn Hcpu [(Hs & _ & Ht)|(Hs & _ & Ht)]%target_cases.
  - apply should_scale_out_spec in Hs. left. tauto.
  - apply should_scale_in_spec in Hs; [|done|apply Hcpu]. right. tauto.
Qed.

Lemma target_within_bounds_witness :
  get_target_instance_count with_defaults 3 90 1000 = Some 4 ∧
  (70 < 90 ∧ 3 < 4 ≤ 5 ∨ 90 + 15 < 70 ∧ 1 ≤ 4 < 3).
Proof.
  split; [vm_compute; reflexivity|].
  apply (target_within_bounds with_defaults 3 90 1000 4).
  - vm_compute. intuition discriminate.
  - vm_compute. intuition discriminate.
  - vm_compute. intuition discriminate.
  - vm_compute. reflexivity.
Defined.

(** Scaling out is accurate: outside the cooldown, above the target and
    below the maximum, a recommendation is always made, and it is the exact
    number of instances that brings the utilization down to the target, rounded
    up and capped at the maximum; the [f64] computation may add one instance,
    and only when the exact number is an integer. *)
Theorem scale_out_accurate p n cpu now :
  policy_typed p → validate p = Ok () → 1 ≤ target_cpu_utilization p →
  1 ≤ n → n * cpu ≤ 2 ^ 40 → div_up (n * cpu) (target_cpu_utilization p) < u32_max →
  should_scale_out p n cpu = true → is_in_scale_out_cooldown p now = false →
  ∃ extra, get_target_instance_count p n cpu now =
      Some (Z.min (div_up (n * cpu) (target_cpu_utilization p) + extra) (max_instances p)) ∧
    0 ≤ extra ≤ 1 ∧ ((n * cpu) mod target_cpu_utilization p ≠ 0 → extra = 0).
Proof.
  intros Hp Hv Ht1 Hn Hx Hmax Hs Hc.
  pose proof (proj1 (validate_spec p Hp) Hv) as (_ & _ & Ht).
  pose proof (proj1 (should_scale_out_spec p n cpu) Hs) as [Hroom Hcpu].
  unfold get_target_instance_count. rewrite Hs, Hc. cbn [andb negb].
  set (T := target_cpu_utilization p) in *. set (u := div_up (n * cpu) T) in *.
  destruct (ceil_scaled_quotient u32_max n cpu T) as [Hlow Hup]; try lia.
  fold u in Hlow, Hup. change (cast_unsigned ceil_scaled u32_max) with f64_ceil_as_u32 in *.
  set (d := f64_ceil_as_u32 _) in *.
  assert (n < u) as Hu.
  { pose proof (div_up_bounds (n * cpu) T ltac:(lia)) as Hb. fold u in Hb. nia. }
  rewrite (proj2 (Z.ltb_lt _ _)) by lia.
  exists (d - u). replace (u + (d - u)) with d by lia. split; [done|].
  destruct (_ =? 0) eqn:E; bool_to_prop; split; lia.
Qed.


(** The extra instance does occur: 21 instances at 90% with a target of 70%
    need exactly 27, and the code asks for 28. *)
Theorem scale_out_overshoots :
  21 * 90 = 27 * 70 ∧
  get_target_instance_count (new_policy 1 30 70 300 120) 21 90 0 = Some 28.
Proof. vm_compute. auto. Qed.

(** An idle cluster is never shrunk: at 0% utilization there is no
    recommendation, whatever the policy, although the code's comment says the
    size is then reduced to the minimum (the division by a zero ratio gives
    infinity, hence the largest count). *)
Theorem idle_cluster_never_scales_in p n now :
  policy_typed p → in_u32 n → get_target_instance_count p n 0 now = None.
Proof.
  intros Hp Hn. unfold get_target_instance_count.
  assert (should_scale_out p n 0 = false) as ->.
  { apply not_true_iff_false. rewrite should_scale_out_spec.
    destruct Hp as (_ & _ & Ht & _). widths. lia. }
  destruct (should_scale_in p n 0 && _) eqn:E; [|done]. cbn [andb]. bool_to_prop.
  apply should_scale_in_spec in H; [|done|lia].
  destruct Hp as (Hmin & _). change (0 =? 0) with true. cbv iota.
  rewrite floor_div_zero by (widths; lia).
  rewrite (proj2 (Z.ltb_ge _ _)); [done|]. widths. lia.
Qed.


(** Cooldowns hold: after a scale-out recorded at a non-zero time, no
    recommendation made before the cooldown has elapsed grows the cluster, and
    likewise none shrinks it after a scale-in. *)
Theorem cooldown_respected p n cpu ts now t :
  ts ≠ 0 → in_i64 (now - ts) →
  (now - ts < scale_out_cooldown_seconds p →
   get_target_instance_count (record_scale_out ts p) n cpu now = Some t → t < n) ∧
  (now - ts < scale_in_cooldown_seconds p →
   get_target_instance_count (record_scale_in ts p) n cpu now = Some t → n < t).
Proof.
  intros Hts Hr. split; intros Hcool [(_ & Hc & Ht)|(_ & Hc & Ht)]%target_cases; try lia;
    exfalso; revert Hc; unfold is_in_scale_out_cooldown, is_in_scale_in_cooldown; simpl;
    rewrite (proj2 (Z.eqb_neq _ _) Hts); unfold i64_sub; rewrite i64_wrap_small by done;
    intros Hc; bool_to_prop; lia.
Qed.

