(* ===== verification/Cluster.v ===== *)
(** * Instance clusters (form-state/src/instances.rs, [InstanceCluster])

    Membership, the decisions to scale, the choice of the members to remove, the
    validation of a scaling operation and the entry points of the state
    machine.  The [BTreeMap] of members is a [gmap]; where the order of
    iteration matters the code sees the entries in key order ([btree_iter]). *)

From stdpp Require Import options.
From S2P Require Import Prelude Policy Scaling.

Record ClusterMember : Type := mkMember {
  node_id : string;
  node_public_ip : IpAddr;
  node_formnet_ip : IpAddr;
  instance_id : string;
  instance_formnet_ip : IpAddr;
  status : string;
  last_heartbeat : Z;
  heartbeats_skipped : Z;
}.

Record InstanceCluster : Type := mkCluster {
  members : gmap string ClusterMember;
  scaling_policy : option ScalingPolicy;
  template_instance_id : option string;
  session_affinity_enabled : bool;
  scaling_manager : option ScalingManager;
}.

(** ** Membership *)

Definition set_members (ms : gmap string ClusterMember) (c : InstanceCluster)
    : InstanceCluster :=
  mkCluster ms (scaling_policy c) (template_instance_id c) (session_affinity_enabled c)
    (scaling_manager c).

Definition set_scaling_policy (p : option ScalingPolicy) (c : InstanceCluster)
    : InstanceCluster :=
  mkCluster (members c) p (template_instance_id c) (session_affinity_enabled c)
    (scaling_manager c).

Definition set_template_instance_id (i : option string) (c : InstanceCluster)
    : InstanceCluster :=
  mkCluster (members c) (scaling_policy c) i (session_affinity_enabled c)
    (scaling_manager c).

Definition set_session_affinity_enabled (b : bool) (c : InstanceCluster)
    : InstanceCluster :=
  mkCluster (members c) (scaling_policy c) (template_instance_id c) b
    (scaling_manager c).

Definition set_manager (m : option ScalingManager) (c : InstanceCluster)
    : InstanceCluster :=
  mkCluster (members c) (scaling_policy c) (template_instance_id c)
    (session_affinity_enabled c) m.

Definition get (i : string) (c : InstanceCluster) : option ClusterMember := members c !! i.

Definition insert_member (mb : ClusterMember) (c : InstanceCluster) : InstanceCluster :=
  set_members (<[instance_id mb := mb]> (members c)) c.

Definition remove_member (i : string) (c : InstanceCluster)
    : InstanceCluster * option ClusterMember :=
  (set_members (delete i (members c)) c, members c !! i).

Definition get_member_status (i : string) (c : InstanceCluster) : option string :=
  match get i c with Some mb => Some (status mb) | None => None end.

Definition get_member_last_heartbeat (i : string) (c : InstanceCluster) : option Z :=
  match get i c with Some mb => Some (last_heartbeat mb) | None => None end.

Definition get_member_heartbeats_skipped (i : string) (c : InstanceCluster) : option Z :=
  match get i c with Some mb => Some (heartbeats_skipped mb) | None => None end.

Definition new_with_template (template_id : string) : InstanceCluster :=
  mkCluster ∅ None (Some template_id) false None.

Definition new_with_policy (p : ScalingPolicy) : InstanceCluster :=
  mkCluster ∅ (Some p) None false None.

(** [self.members.len() as u32]. *)
Definition current_count (c : InstanceCluster) : Z :=
  usize_as_u32 (Z.of_nat (size (members c))).

(** ** Scaling decisions *)

Definition validate_scaling_policy (c : InstanceCluster) : result unit string :=
  match scaling_policy c with
  | Some p => validate p
  | None => Ok ()
  end.

Definition cluster_should_scale_out (cpu now : Z) (c : InstanceCluster) : option Z :=
  match scaling_policy c with
  | None => None
  | Some p =>
      if (max_instances p <=? current_count c)%Z then None
      else if is_in_scale_out_cooldown p now then None
      else if should_scale_out p (current_count c) cpu
           then get_target_instance_count p (current_count c) cpu now
           else None
  end.

Definition cluster_should_scale_in (cpu now : Z) (c : InstanceCluster) : option Z :=
  match scaling_policy c with
  | None => None
  | Some p =>
      if (current_count c <=? min_instances p)%Z then None
      else if is_in_scale_in_cooldown p now then None
      else if should_scale_in p (current_count c) cpu
           then get_target_instance_count p (current_count c) cpu now
           else None
  end.

Definition cluster_record_scale_out (timestamp : Z) (c : InstanceCluster)
    : InstanceCluster :=
  set_scaling_policy (record_scale_out timestamp <$> scaling_policy c) c.

Definition cluster_record_scale_in (timestamp : Z) (c : InstanceCluster)
    : InstanceCluster :=
  set_scaling_policy (record_scale_in timestamp <$> scaling_policy c) c.

(** The members with the oldest heartbeats, the template excepted. *)
Definition select_instances_to_remove (count : nat) (c : InstanceCluster) : list string :=
  let sorted := sort_by_key (λ e : string * ClusterMember, last_heartbeat e.2)
                  (btree_iter (members c)) in
  (take count (filter (λ e : string * ClusterMember, template_instance_id c ≠ Some e.1)
                 sorted)).*1.

(** ** The state machine of the cluster *)

Definition phase_names : list string :=
  ["Requested"; "Validating"; "Planning"; "ResourceAllocating"; "InstancePreparing";
   "Configuring"; "Verifying"; "Finalizing"].

Definition init_scaling_manager (now timeout_seconds : Z) (c : InstanceCluster)
    : InstanceCluster :=
  set_manager
    (Some (foldl (λ m phase, set_phase_timeout phase timeout_seconds m) (new now)
             phase_names)) c.

Definition start_scaling_state_machine (now : Z) (now1 now2 : Z) (op : ScalingOperation)
    : method InstanceCluster ScalingError unit := λ c,
  let c :=
    match scaling_manager c with
    | None => init_scaling_manager now 300 c
    | Some _ => c
    end in
  match scaling_manager c with
  | Some m =>
      let '(m', r) := start_operation now1 now2 op m in (set_manager (Some m') c, r)
  | None =>
      (c, Err (mkScalingError "NoScalingManager" "Scaling manager is not initialized"
                 "None"))
  end.

Definition cancel_scaling_state_machine (now : Z) (reason : string)
    : method InstanceCluster ScalingError unit := λ c,
  match scaling_manager c with
  | Some m =>
      let '(m', r) := cancel_operation now reason m in (set_manager (Some m') c, r)
  | None =>
      (c, Err (mkScalingError "NoScalingManager" "Scaling manager is not initialized"
                 "None"))
  end.

(** The first of the given ids that is not a member, as the loop reports it. *)
Fixpoint check_ids (ids : list string) (c : InstanceCluster) : result unit ScalingError :=
  match ids with
  | [] => Ok ()
  | i :: ids' =>
      match members c !! i with
      | None =>
          Err (mkScalingError "InvalidInstanceId"
                 ("Instance " +:+ i +:+ " not found in cluster") "Validating")
      | Some _ => check_ids ids' c
      end
  end.

Definition validate_scaling_operation (now : Z) (op : ScalingOperation)
    (c : InstanceCluster) : result unit ScalingError :=
  match scaling_policy c with
  | None =>
      Err (mkScalingError "NoScalingPolicy" "Cluster does not have a scaling policy"
             "Validating")
  | Some policy =>
      let current_instances := current_count c in
      match op with
      | ScaleOut target_instances =>
          if (max_instances policy <? target_instances)%Z then
            Err (mkScalingError "MaxInstancesExceeded"
                   ("Target instances (" +:+ pretty target_instances
                      +:+ ") exceeds maximum allowed ("
                      +:+ pretty (max_instances policy) +:+ ")") "Validating")
          else if (target_instances <=? current_instances)%Z then
            Err (mkScalingError "InvalidTargetInstances"
                   ("Target instances (" +:+ pretty target_instances
                      +:+ ") must be greater than current instances ("
                      +:+ pretty current_instances +:+ ")") "Validating")
          else if is_in_scale_out_cooldown policy now then
            Err (mkScalingError "InCooldownPeriod"
                   "Cannot scale out during cooldown period" "Validating")
          else Ok ()
      | ScaleIn target_instances instance_ids =>
          if (target_instances <? min_instances policy)%Z then
            Err (mkScalingError "MinInstancesViolated"
                   ("Target instances (" +:+ pretty target_instances
                      +:+ ") is below minimum required ("
                      +:+ pretty (min_instances policy) +:+ ")") "Validating")
          else if (current_instances <=? target_instances)%Z then
            Err (mkScalingError "InvalidTargetInstances"
                   ("Target instances (" +:+ pretty target_instances
                      +:+ ") must be less than current instances ("
                      +:+ pretty current_instances +:+ ")") "Validating")
          else
            (let? _ := check_ids (default [] instance_ids) c in
             if is_in_scale_in_cooldown policy now then
               Err (mkScalingError "InCooldownPeriod"
                      "Cannot scale in during cooldown period" "Validating")
             else Ok ())%rust
      | ReplaceInstances instance_ids =>
          (let? _ := check_ids instance_ids c in
           match template_instance_id c with
           | None =>
               Err (mkScalingError "NoTemplateInstance"
                      "No template instance specified for replacement" "Validating")
           | Some _ => Ok ()
           end)%rust
      end
  end.

(** ** Specifications *)

(** When an operation is admissible for a cluster with policy [p]. *)
Definition admissible (now : Z) (op : ScalingOperation) (p : ScalingPolicy)
    (c : InstanceCluster) : Prop :=
  match op with
  | ScaleOut t =>
      (current_count c < t ≤ max_instances p)%Z ∧ is_in_scale_out_cooldown p now = false
  | ScaleIn t ids =>
      (min_instances p ≤ t < current_count c)%Z ∧
      (∀ i, i ∈ default [] ids → is_Some (members c !! i)) ∧
      is_in_scale_in_cooldown p now = false
  | ReplaceInstances ids =>
      (∀ i, i ∈ ids → is_Some (members c !! i)) ∧ is_Some (template_instance_id c)
  end.

(** Members that may be removed. *)
Definition removable (c : InstanceCluster) (i : string) (mb : ClusterMember) : Prop :=
  members c !! i = Some mb ∧ template_instance_id c ≠ Some i.

(** The candidates for removal, in the order they are considered. *)
Definition candidates (c : InstanceCluster) : list (string * ClusterMember) :=
  filter (λ e : string * ClusterMember, template_instance_id c ≠ Some e.1)
    (sort_by_key (λ e : string * ClusterMember, last_heartbeat e.2)
       (btree_iter (members c))).

(** The members that may be removed, as a map. *)
Definition removable_members (c : InstanceCluster) : gmap string ClusterMember :=
  match template_instance_id c with
  | Some t => delete t (members c)
  | None => members c
  end.

(** Two members under the default policy, for examples. *)
Definition sample_member (i : string) (hb : Z) : ClusterMember :=
  mkMember "node" (V4 1 2 3 4) (V4 10 0 0 1) i (V4 10 0 0 2) "running" hb 0.

Definition sample_cluster : InstanceCluster :=
  set_scaling_policy (Some with_defaults)
    (insert_member (sample_member "a" 10)
       (insert_member (sample_member "b" 20) (new_with_template "a"))).

(** ** Lemmas *)

Lemma check_ids_spec ids c :
  check_ids ids c = Ok () ↔ ∀ i, i ∈ ids → is_Some (members c !! i).
Proof.
  induction ids as [|i ids IH]; simpl; [set_solver|].
  destruct (members c !! i) as [mb|] eqn:Hi.
  - rewrite IH. split; [|set_solver].
    intros H j [->|Hj]%elem_of_cons; [by rewrite Hi|auto].
  - split; [done|]. intros H. destruct (H i); [set_solver|congruence].
Qed.

Lemma elem_of_candidates c i mb : (i, mb) ∈ candidates c ↔ removable c i mb.
Proof.
  unfold candidates, removable.
  rewrite list_elem_of_filter, sort_by_key_perm, elem_of_btree_iter. simpl. tauto.
Qed.

Lemma candidates_sorted c :
  StronglySorted (λ a b : string * ClusterMember,
    (last_heartbeat a.2 ≤ last_heartbeat b.2)%Z) (candidates c).
Proof. apply StronglySorted_filter_take, sort_by_key_sorted. Qed.

Lemma NoDup_fst_filter {A B} (P : A * B → Prop) `{!∀ x, Decision (P x)} (l : list (A * B)) :
  NoDup l.*1 → NoDup (filter P l).*1.
Proof.
  induction l as [|[a b] l IH]; [done|]. simpl. intros [Ha Hl]%NoDup_cons.
  rewrite filter_cons. case_decide; [|auto]. simpl. constructor; [|auto].
  intros ((a' & b') & -> & Hin)%list_elem_of_fmap. apply Ha.
  apply list_elem_of_fmap. apply list_elem_of_filter in Hin as [_ Hin]. eauto.
Qed.

Lemma candidates_NoDup c : NoDup (candidates c).*1.
Proof.
  apply NoDup_fst_filter. rewrite sort_by_key_perm. apply NoDup_btree_iter_keys.
Qed.

Lemma sorted_take {A} (R : relation A) l n x y :
  StronglySorted R l → x ∈ take n l → y ∈ drop n l → R x y.
Proof.
  intros Hs Hx Hy. rewrite <- (take_drop n l) in Hs.
  eapply StronglySorted_app_1_elem_of; eauto.
Qed.

Lemma lookup_removable_members c i mb :
  removable_members c !! i = Some mb ↔ removable c i mb.
Proof.
  unfold removable_members, removable. destruct (template_instance_id c) as [t|].
  - rewrite lookup_delete_Some. split; intros [? ?]; split; congruence.
  - split; [intros ?; split; [done|congruence]|tauto].
Qed.

Lemma length_candidates c : length (candidates c) = size (removable_members c).
Proof.
  rewrite <- length_map_to_list. apply Permutation_length, NoDup_Permutation.
  - eapply NoDup_fmap_1, candidates_NoDup.
  - apply NoDup_map_to_list.
  - intros [i mb]. by rewrite elem_of_candidates, elem_of_map_to_list,
      lookup_removable_members.
Qed.

Lemma elem_of_selected count c i :
  i ∈ select_instances_to_remove count c ↔ ∃ mb, (i, mb) ∈ take count (candidates c).
Proof.
  unfold select_instances_to_remove. fold (candidates c). rewrite list_elem_of_fmap.
  split; [intros ([j mb] & -> & H); eauto|intros (mb & H); by exists (i, mb)].
Qed.

Lemma unselected_dropped count c i mb :
  removable c i mb → i ∉ select_instances_to_remove count c →
  (i, mb) ∈ drop count (candidates c).
Proof.
  intros Hr Hn. apply elem_of_candidates in Hr.
  rewrite <- (take_drop count (candidates c)) in Hr.
  apply elem_of_app in Hr as [Hr|Hr]; [|done].
  destruct Hn. apply elem_of_selected. eauto.
Qed.

Lemma selected_NoDup count c : NoDup (select_instances_to_remove count c).
Proof.
  unfold select_instances_to_remove. fold (candidates c). rewrite fmap_take.
  eapply sublist_NoDup; [apply candidates_NoDup|apply sublist_take].
Qed.

Lemma length_selected count c :
  length (select_instances_to_remove count c) = count `min` size (removable_members c).
Proof.
  unfold select_instances_to_remove. fold (candidates c).
  by rewrite length_fmap, length_take, length_candidates.
Qed.

Lemma selected_removable count c i :
  i ∈ select_instances_to_remove count c → ∃ mb, removable c i mb.
Proof.
  intros (mb & H)%elem_of_selected. exists mb. apply elem_of_candidates.
  eapply elem_of_take in H as (k & H & _). by eapply list_elem_of_lookup_2.
Qed.

Lemma validate_admissible now op c p :
  scaling_policy c = Some p →
  validate_scaling_operation now op c = Ok () ↔ admissible now op p c.
Proof.
  intros Hpol. unfold validate_scaling_operation. rewrite Hpol.
  destruct op as [t|t ids|ids]; simpl.
  - repeat case_match; bool_to_prop; split; (done || intuition (lia || congruence)).
  - destruct (t <? _)%Z eqn:E1; bool_to_prop; [split; [done|lia]|].
    destruct (_ <=? t)%Z eqn:E2; bool_to_prop; [split; [done|lia]|].
    rewrite <- check_ids_spec. destruct (check_ids _ c) as [[]|e]; simpl.
    + destruct (is_in_scale_in_cooldown p now); split; (done || intuition (lia || congruence)).
    + split; [done|intros (_ & ? & _); congruence].
  - rewrite <- check_ids_spec. destruct (check_ids _ c) as [[]|e]; simpl.
    + destruct (template_instance_id c); split; try done.
      by intros [_ [? ?]].
    + split; [done|intros (? & _); congruence].
Qed.

(** ** Properties *)

(** C8: the members selected for removal are distinct members of the cluster,
    never the template; as many are selected as asked for, or all members but the
    template when there are fewer; and among the members other than the template
    none that is left behind has an older heartbeat than a selected one.  The
    template stays whatever its heartbeat. *)
Theorem select_instances_spec count c :
  NoDup (select_instances_to_remove count c) ∧
  length (select_instances_to_remove count c) = count `min` size (removable_members c) ∧
  (∀ i, i ∈ select_instances_to_remove count c → ∃ mb, removable c i mb) ∧
  (∀ i mb j mb',
     i ∈ select_instances_to_remove count c → removable c i mb →
     j ∉ select_instances_to_remove count c → removable c j mb' →
     (last_heartbeat mb ≤ last_heartbeat mb')%Z).
Proof.
  split; [|split; [|split]].
  - apply selected_NoDup.
  - apply length_selected.
  - apply selected_removable.
  - intros i mb j mb' (mb0 & Hi)%elem_of_selected Hri Hnj Hrj.
    assert (removable c i mb0) as Hri0.
    { apply elem_of_candidates. apply elem_of_take in Hi as (k & H & _).
      by eapply list_elem_of_lookup_2. }
    destruct Hri as [Hi1 _], Hri0 as [Hi2 _]. simplify_eq.
    exact (sorted_take _ _ _ _ _ (candidates_sorted c) Hi (unselected_dropped _ _ _ _ Hrj Hnj)).
Qed.

(** Validation accepts exactly the admissible operations: a policy is set;
    the target is on the right side of the current size and within the policy's
    bounds; named instances are members; the cooldown is over; a replacement has
    a template. *)
Theorem validate_scaling_operation_spec now op c :
  validate_scaling_operation now op c = Ok () ↔
  ∃ p, scaling_policy c = Some p ∧ admissible now op p c.
Proof.
  unfold validate_scaling_operation.
  destruct (scaling_policy c) as [p|] eqn:Hpol; [|split; [done|by intros (? & ? & _)]].
  transitivity (admissible now op p c); [|split; [eauto|by intros (? & [= <-] & ?)]].
  rewrite <- (validate_admissible now op c p Hpol). unfold validate_scaling_operation.
  by rewrite Hpol.
Qed.

(** A size the cluster itself recommends for growing is accepted by the
    validation of the operation at the same time: decision and validation
    agree. *)
Theorem recommended_scale_out_validates cpu now c t :
  (∀ p, scaling_policy c = Some p → policy_typed p) → in_u32 cpu →
  cluster_should_scale_out cpu now c = Some t →
  validate_scaling_operation now (ScaleOut t) c = Ok ().
Proof.
  intros Hp Hcpu. unfold cluster_should_scale_out.
  destruct (scaling_policy c) as [p|] eqn:Hpol; [|done].
  destruct (_ <=? _)%Z eqn:E1; [done|]. destruct (is_in_scale_out_cooldown p now) eqn:E2; [done|].
  destruct (should_scale_out p _ cpu) eqn:E3; [|done].
  intros [(_ & _ & Ht)|(Hs & _ & _)]%target_cases.
  - unfold validate_scaling_operation. rewrite Hpol.
    rewrite (proj2 (Z.ltb_ge _ _)) by lia. rewrite (proj2 (Z.leb_gt _ _)) by lia.
    by rewrite E2.
  - apply should_scale_out_spec in E3.
    apply should_scale_in_spec in Hs; [lia|by apply Hp|apply Hcpu].
Qed.


(** Starting the state machine on a cluster that never had one creates a
    manager in which every phase has the default timeout of 300 seconds, and
    the operation is under way; members, policy and template are untouched. *)
Theorem start_creates_manager now now1 now2 op c :
  scaling_manager c = None →
  ∃ m, start_scaling_state_machine now now1 now2 op c = (set_manager (Some m) c, Ok ()) ∧
    current_phase m = Some (Requested op now1) ∧ manager_inv m ∧
    Forall (λ phase, phase_timeouts m !! phase = Some 300%Z) phase_names.
Proof.
  intros Hn. unfold start_scaling_state_machine. rewrite Hn. cbn -[phase_timeouts].
  eexists. split; [done|]. split; [done|]. split.
  - exists []. eexists. split; [done|]. split; [done|]. done.
  - repeat constructor.
Qed.
