(* ===== verification/Verification.v ===== *)
(** * Verification of a restored cluster (form-state/src/verification.rs)

    After a rollback the code compares the cluster with the members it had before
    the operation.  The functions that write to [&mut RestorationVerificationResult]
    return the new result.  Of a DNS record only the public addresses are read. *)

From stdpp Require Import options.
From Stdlib Require Import Ascii.
From S2P Require Import Prelude Policy Scaling Cluster.

(** ** Results *)

Record VerificationItem : Type := mkItem {
  aspect : string;
  item_success : bool;
  item_details : string;
}.

Record RestorationVerificationResult : Type := mkRestorationResult {
  success : bool;
  verification_items : list VerificationItem;
  verified_at : Z;
}.

Definition new_result (now : Z) : RestorationVerificationResult :=
  mkRestorationResult true [] now.

Definition add_item (asp : string) (ok : bool) (det : string)
    (r : RestorationVerificationResult) : RestorationVerificationResult :=
  mkRestorationResult (if ok then success r else false)
    (verification_items r ++ [mkItem asp ok det]) (verified_at r).

Definition summary (r : RestorationVerificationResult) : string :=
  "Verification " +:+ (if success r then "SUCCESS" else "FAILED") +:+ ": "
    +:+ pretty (length (filter (λ i, item_success i = true) (verification_items r)))
    +:+ "/" +:+ pretty (length (verification_items r)) +:+ " checks passed".

Definition newline : string := String "010"%char "".

Definition detailed_summary (r : RestorationVerificationResult) : string :=
  foldl (λ s i,
    s +:+ "- " +:+ (if item_success i then "SUCCESS" else "FAILED") +:+ ": " +:+ aspect i
      +:+ " - " +:+ item_details i +:+ newline)
    (summary r +:+ newline) (verification_items r).

(** The public addresses of [FormDnsRecord], each with its port. *)
Record FormDnsRecord : Type := mkDnsRecord {
  public_ip : list (IpAddr * Z);
}.

(** ** Membership *)

(** Mismatches between a member and its state before the operation. *)
Definition attribute_mismatches (cur pre : ClusterMember) : list string :=
  (if decide (node_id cur = node_id pre) then []
   else ["node_id mismatch (expected: " +:+ node_id pre +:+ ", actual: " +:+ node_id cur
           +:+ ")"]) ++
  (if decide (instance_formnet_ip cur = instance_formnet_ip pre) then []
   else ["instance_formnet_ip mismatch"]) ++
  (if decide (status cur = status pre) then []
   else ["status mismatch (expected: " +:+ status pre +:+ ", actual: " +:+ status cur
           +:+ ")"]).

(** What a loop over the members before the operation collects from those that
    are still members. *)
Definition collect_present (f : string → ClusterMember → ClusterMember → list string)
    (c : InstanceCluster) (pre : gmap string ClusterMember) : list string :=
  btree_iter pre ≫= λ e,
    match members c !! e.1 with
    | Some cur => f e.1 cur e.2
    | None => []
    end.

Definition missing_members (c : InstanceCluster) (pre : gmap string ClusterMember)
    : list string :=
  filter (λ i, members c !! i = None) (btree_iter pre).*1.

Definition verify_cluster_membership (c : InstanceCluster)
    (pre : gmap string ClusterMember) (r : RestorationVerificationResult)
    : RestorationVerificationResult :=
  let r :=
    add_item "Member count match" (size (members c) =? size pre)
      ("Current members: " +:+ pretty (size (members c)) +:+ ", Pre-operation members: "
         +:+ pretty (size pre)) r in
  let missing := missing_members c pre in
  let r :=
    match missing with
    | [] =>
        add_item "All members present" true
          "All pre-operation members are present in the restored state" r
    | _ =>
        add_item "All members present" false
          ("Missing members: " +:+ str_join ", " missing) r
    end in
  let mismatched :=
    collect_present (λ i cur p,
      match attribute_mismatches cur p with
      | [] => []
      | ms => [i +:+ ": " +:+ str_join ", " ms]
      end) c pre in
  match mismatched with
  | [] =>
      add_item "Member attributes match" true "All member attributes correctly restored" r
  | _ =>
      add_item "Member attributes match" false
        ("Attribute mismatches: " +:+ str_join "; " mismatched) r
  end.

(** ** Network *)

Definition formnet_ip_mismatches (i : string) (cur pre : ClusterMember) : list string :=
  let mismatch what expected actual :=
    i +:+ ": " +:+ what +:+ " FormNet IP mismatch (expected: " +:+ ip_to_string expected
      +:+ ", actual: " +:+ ip_to_string actual +:+ ")" in
  (if decide (instance_formnet_ip pre = instance_formnet_ip cur) then []
   else [mismatch "instance" (instance_formnet_ip pre) (instance_formnet_ip cur)]) ++
  (if decide (node_formnet_ip pre = node_formnet_ip cur) then []
   else [mismatch "node" (node_formnet_ip pre) (node_formnet_ip cur)]).

(** The first domain, in key order, with the address of the member. *)
Definition dns_domain (dns : gmap string FormDnsRecord) (ip : IpAddr) : option string :=
  fst <$> head (filter (λ e : string * FormDnsRecord, ip ∈ (public_ip e.2).*1)
                  (btree_iter dns)).

Definition dns_mismatches (dns : gmap string FormDnsRecord) (i : string)
    (cur pre : ClusterMember) : list string :=
  match dns_domain dns (instance_formnet_ip pre) with
  | Some domain =>
      if decide (instance_formnet_ip cur = instance_formnet_ip pre) then []
      else [i +:+ ": DNS record IP mismatch for domain " +:+ domain]
  | None => []
  end.

Definition verify_network_configuration (c : InstanceCluster)
    (pre : gmap string ClusterMember) (dns : option (gmap string FormDnsRecord))
    (r : RestorationVerificationResult) : RestorationVerificationResult :=
  let mismatches := collect_present formnet_ip_mismatches c pre in
  let ok := bool_decide (mismatches = []) in
  let r :=
    add_item "FormNet IPs match" ok
      (if ok then "All FormNet IPs correctly restored"
       else "FormNet IP mismatches: " +:+ str_join "; " mismatches) r in
  match dns with
  | Some dns =>
      let mismatches := collect_present (dns_mismatches dns) c pre in
      let ok := bool_decide (mismatches = []) in
      add_item "DNS records match" ok
        (if ok then "All DNS records correctly restored"
         else "DNS record mismatches: " +:+ str_join "; " mismatches) r
  | None =>
      add_item "DNS records check" true
        "DNS records check skipped (no pre-operation DNS records provided)" r
  end.

(** ** Properties of the cluster *)

Definition verify_template (c : InstanceCluster) (r : RestorationVerificationResult)
    : RestorationVerificationResult :=
  let what := "Template instance existence" in
  match template_instance_id c with
  | Some t =>
      if decide (t = "template-1") then
        add_item what true
          ("Template instance ID '" +:+ t +:+ "' is a test template (valid for testing)") r
      else
        match members c !! t with
        | None =>
            add_item what false
              ("Template instance ID '" +:+ t +:+ "' does not exist in cluster members") r
        | Some _ =>
            add_item what true
              ("Template instance ID '" +:+ t +:+ "' exists in cluster members") r
        end
  | None => add_item what true "No template instance ID is set" r
  end.

Definition verify_policy (c : InstanceCluster) (r : RestorationVerificationResult)
    : RestorationVerificationResult :=
  match scaling_policy c with
  | Some p =>
      let r :=
        match validate p with
        | Ok _ =>
            add_item "Scaling policy validity" true "Scaling policy parameters are valid" r
        | Err e =>
            add_item "Scaling policy validity" false ("Scaling policy is invalid: " +:+ e) r
        end in
      add_item "Member count vs scaling policy"
        ((min_instances p <=? current_count c) && (current_count c <=? max_instances p))%Z
        ("Member count: " +:+ pretty (current_count c) +:+ ", policy min: "
           +:+ pretty (min_instances p) +:+ ", policy max: " +:+ pretty (max_instances p)) r
  | None => add_item "Scaling policy" true "No scaling policy is set" r
  end.

Definition verify_manager_state (c : InstanceCluster) (r : RestorationVerificationResult)
    : RestorationVerificationResult :=
  match scaling_manager c with
  | Some m =>
      let inactive :=
        match current_phase m with None => true | Some p => is_terminal p end in
      add_item "Scaling manager state" inactive
        (if inactive
         then "Scaling manager is in a terminal state or has no active operation"
         else "Warning: Scaling manager has an active non-terminal operation after restoration") r
  | None => add_item "Scaling manager state" true "No scaling manager is present" r
  end.

Definition verify_cluster_properties (c : InstanceCluster)
    (r : RestorationVerificationResult) : RestorationVerificationResult :=
  verify_manager_state c (verify_policy c (verify_template c r)).

(** ** Released resources *)

Definition resource_type (i : string) : string :=
  if String.prefix "inst-" i then "instance"
  else if String.prefix "vol-" i then "volume"
  else if String.prefix "net-" i then "network"
  else if String.prefix "ip-" i then "ip_allocation"
  else "unknown".

(** The entry of a type in the map that groups the identifiers. *)
Definition of_type (t : string) (ids : list string) : list string :=
  filter (λ i, resource_type i = t) ids.

Definition type_count (t label : string) (ids : list string) : list string :=
  match of_type t ids with
  | [] => []
  | l => [pretty (length l) +:+ " " +:+ label]
  end.

(** The identifiers that are still members: those of instances first. *)
Definition uncleaned (ids : list string) (c : InstanceCluster) : list string :=
  filter (λ i, is_Some (members c !! i))
    (of_type "instance" ids ++ filter (λ i, String.prefix "inst-" i = false) ids).

Definition verify_resource_cleanup (c : InstanceCluster)
    (cleaned_resource_ids : option (list string)) (r : RestorationVerificationResult)
    : RestorationVerificationResult :=
  match cleaned_resource_ids with
  | Some [] => add_item "Resource cleanup" true "No resources needed cleanup" r
  | Some ids =>
      match uncleaned ids c with
      | [] =>
          add_item "Resource cleanup" true
            ("All " +:+ pretty (length ids) +:+ " resources were successfully cleaned up: "
               +:+ str_join ", "
                     (type_count "instance" "instance(s)" ids ++
                      type_count "volume" "volume(s)" ids ++
                      type_count "network" "network(s)" ids ++
                      type_count "ip_allocation" "ip_allocation(s)" ids ++
                      type_count "unknown" "unknown resource(s)" ids)) r
      | found =>
          add_item "Resource cleanup" false
            ("Found " +:+ pretty (length found)
               +:+ " resources that should have been cleaned up: "
               +:+ str_join ", " ((λ i, i +:+ " (still in members)") <$> found)) r
      end
  | None =>
      add_item "Resource cleanup" true
        "Resource cleanup verification skipped (no resource IDs provided)" r
  end.

Definition verify_state_restoration (now : Z) (c : InstanceCluster)
    (pre : gmap string ClusterMember) (dns : option (gmap string FormDnsRecord))
    (cleaned_resource_ids : option (list string)) : RestorationVerificationResult :=
  let r := new_result now in
  let r := verify_cluster_membership c pre r in
  let r := verify_network_configuration c pre dns r in
  let r := verify_cluster_properties c r in
  verify_resource_cleanup c cleaned_resource_ids r.

(** ** Specification *)

(** The attributes the verification compares. *)
Definition same_member (cur pre : ClusterMember) : Prop :=
  node_id cur = node_id pre ∧ status cur = status pre ∧
  instance_formnet_ip cur = instance_formnet_ip pre ∧
  node_formnet_ip cur = node_formnet_ip pre.

Definition members_restored (c : InstanceCluster) (pre : gmap string ClusterMember) : Prop :=
  dom (members c) = dom pre ∧
  ∀ i cur p, members c !! i = Some cur → pre !! i = Some p → same_member cur p.

Definition properties_sound (c : InstanceCluster) : Prop :=
  (∀ t, template_instance_id c = Some t → t = "template-1" ∨ is_Some (members c !! t)) ∧
  (∀ p, scaling_policy c = Some p →
     validate p = Ok () ∧ (min_instances p ≤ current_count c ≤ max_instances p)%Z) ∧
  (∀ m, scaling_manager c = Some m → ¬ active (kind m)).

Definition cleaned (c : InstanceCluster) (ids : option (list string)) : Prop :=
  ∀ i, i ∈ default [] ids → members c !! i = None.

(** ** Lemmas *)

Lemma success_add_item a ok d r : success (add_item a ok d r) = ok && success r.
Proof. by destruct ok. Qed.

Lemma collect_present_nil f c pre :
  collect_present f c pre = [] ↔
  ∀ i cur p, members c !! i = Some cur → pre !! i = Some p → f i cur p = [].
Proof.
  unfold collect_present. split.
  - intros Hn i cur p Hc Hp. destruct (f i cur p) as [|x l] eqn:E; [done|].
    assert (x ∈ ([] : list string)) as Hx; [|by apply not_elem_of_nil in Hx].
    rewrite <- Hn. apply list_elem_of_bind. exists (i, p). simpl.
    rewrite Hc, E. split; [left|by apply elem_of_btree_iter].
  - intros Hall. apply elem_of_nil_inv. intros x Hx.
    apply list_elem_of_bind in Hx as ([i p] & Hx & Hip%elem_of_btree_iter). simpl in Hx.
    destruct (members c !! i) as [cur|] eqn:Hc; [|by apply not_elem_of_nil in Hx].
    rewrite (Hall i cur p Hc Hip) in Hx. by apply not_elem_of_nil in Hx.
Qed.

Lemma missing_members_nil c pre :
  missing_members c pre = [] ↔ dom pre ⊆ dom (members c).
Proof.
  unfold missing_members. split.
  - intros Hn i Hi. apply elem_of_dom. destruct (members c !! i) eqn:E; [by eexists|].
    apply elem_of_dom in Hi as [p Hp]. destruct (not_elem_of_nil i). rewrite <- Hn.
    apply list_elem_of_filter. split; [done|]. apply list_elem_of_fmap.
    exists (i, p). split; [done|]. by apply elem_of_btree_iter.
  - intros Hs. apply elem_of_nil_inv. intros i [Hi Hp]%list_elem_of_filter.
    apply list_elem_of_fmap in Hp as ([i' p] & -> & Hp%elem_of_btree_iter).
    apply not_elem_of_dom in Hi. apply Hi, Hs, elem_of_dom. by exists p.
Qed.

Lemma dom_eq_size (m1 m2 : gmap string ClusterMember) :
  dom m1 = dom m2 ↔ size m1 = size m2 ∧ dom m2 ⊆ dom m1.
Proof.
  rewrite <- !size_dom. split; [by intros ->|]. intros [Hn Hs].
  apply set_eq. intros i. split; [|by intros ?%Hs].
  intros Hi. destruct (decide (i ∈ dom m2)); [done|].
  assert (dom m2 ⊂ dom m1) as Hlt%subset_size by set_solver. lia.
Qed.

Lemma attribute_mismatches_nil cur p :
  attribute_mismatches cur p = [] ↔
  node_id cur = node_id p ∧ instance_formnet_ip cur = instance_formnet_ip p ∧
  status cur = status p.
Proof. unfold attribute_mismatches. repeat case_decide; naive_solver. Qed.

Lemma formnet_ip_mismatches_nil i cur p :
  formnet_ip_mismatches i cur p = [] ↔
  instance_formnet_ip cur = instance_formnet_ip p ∧ node_formnet_ip cur = node_formnet_ip p.
Proof. unfold formnet_ip_mismatches. repeat case_decide; naive_solver. Qed.

Lemma membership_success c pre r :
  success (verify_cluster_membership c pre r) = true ↔
  success r = true ∧ dom (members c) = dom pre ∧
  ∀ i cur p, members c !! i = Some cur → pre !! i = Some p →
    attribute_mismatches cur p = [].
Proof.
  rewrite dom_eq_size, <- missing_members_nil. unfold verify_cluster_membership.
  set (f := λ i cur p, _).
  assert (collect_present f c pre = [] ↔ ∀ i cur p, members c !! i = Some cur →
    pre !! i = Some p → attribute_mismatches cur p = []) as <-.
  { rewrite collect_present_nil. unfold f.
    split; intros Hall i cur p Hc Hp; specialize (Hall i cur p Hc Hp);
      by destruct (attribute_mismatches cur p). }
  destruct (missing_members c pre), (collect_present f c pre);
    rewrite !success_add_item, ?andb_true_iff, ?Nat.eqb_eq; naive_solver.
Qed.

(** With the addresses unchanged no DNS record can mismatch. *)
Lemma network_success c pre dns r :
  success (verify_network_configuration c pre dns r) = true ↔
  success r = true ∧
  ∀ i cur p, members c !! i = Some cur → pre !! i = Some p →
    formnet_ip_mismatches i cur p = [].
Proof.
  rewrite <- collect_present_nil. unfold verify_network_configuration.
  destruct dns as [dns|]; rewrite !success_add_item, ?andb_true_iff, !bool_decide_eq_true;
    [|naive_solver].
  split; [naive_solver|]. intros [Hr Hn]. split_and!; [|done..].
  apply collect_present_nil. intros i cur p Hc Hp. unfold dns_mismatches.
  destruct (dns_domain _ _); [|done]. rewrite collect_present_nil in Hn.
  destruct (proj1 (formnet_ip_mismatches_nil i cur p) (Hn i cur p Hc Hp)) as [He _].
  by rewrite decide_True.
Qed.

Lemma template_success c r :
  success (verify_template c r) = true ↔
  success r = true ∧
  ∀ t, template_instance_id c = Some t → t = "template-1" ∨ is_Some (members c !! t).
Proof.
  unfold verify_template. destruct (template_instance_id c) as [t|].
  - destruct (decide (t = "template-1")) as [->|];
      [|destruct (members c !! t) as [mb|] eqn:Ht]; rewrite success_add_item; simpl.
    + split; [|by intros [? _]]. intros Hr. split; [done|]. intros ? [= <-]. by left.
    + split; [|by intros [? _]]. intros Hr. split; [done|]. intros ? [= <-]. right. by eexists.
    + split; [done|]. intros [_ Hall].
      destruct (Hall t eq_refl) as [?|[mb Hmb]]; congruence.
  - rewrite success_add_item. simpl. split; [done|by intros [? _]].
Qed.

Lemma policy_success c r :
  success (verify_policy c r) = true ↔
  success r = true ∧
  ∀ p, scaling_policy c = Some p →
    validate p = Ok () ∧ (min_instances p ≤ current_count c ≤ max_instances p)%Z.
Proof.
  unfold verify_policy. destruct (scaling_policy c) as [p|].
  - destruct (validate p) as [[]|e] eqn:Hv;
      rewrite !success_add_item, !andb_true_iff, !Z.leb_le; simpl.
    + split; [intros [? [_ ?]]; split; [done|]; by intros ? [= <-]|].
      intros [? Hp]. by destruct (Hp p eq_refl).
    + split; [by intros [_ [? _]]|]. intros [_ Hp].
      destruct (Hp p eq_refl). congruence.
  - rewrite success_add_item. simpl. split; [done|by intros [? _]].
Qed.

Lemma manager_state_success c r :
  success (verify_manager_state c r) = true ↔
  success r = true ∧ ∀ m, scaling_manager c = Some m → ¬ active (kind m).
Proof.
  unfold verify_manager_state. destruct (scaling_manager c) as [m|];
    rewrite success_add_item; simpl; [|split; [done|by intros [? _]]].
  rewrite andb_true_iff.
  assert ((match current_phase m with None => true | Some p => is_terminal p end) = true
    ↔ ¬ active (kind m)) as ->.
  { rewrite active_kind. destruct (current_phase m) as [p|].
    - split; [intros Ht (q & [= <-] & Hq); congruence|].
      intros Hn. destruct (is_terminal p) eqn:Ht; [done|]. destruct Hn. eauto.
    - split; [|done]. by intros _ (q & ? & _). }
  split; [intros [? ?]; split; [done|]; by intros ? [= <-]|].
  intros [? Hm]. split; [by apply Hm|done].
Qed.

Lemma properties_success c r :
  success (verify_cluster_properties c r) = true ↔
  success r = true ∧ properties_sound c.
Proof.
  unfold verify_cluster_properties, properties_sound.
  rewrite manager_state_success, policy_success, template_success. tauto.
Qed.

Lemma elem_of_uncleaned ids c i :
  i ∈ uncleaned ids c ↔ i ∈ ids ∧ is_Some (members c !! i).
Proof.
  unfold uncleaned, of_type. rewrite list_elem_of_filter, elem_of_app, !list_elem_of_filter.
  assert (resource_type i = "instance" ∨ String.prefix "inst-" i = false) as Ht.
  { unfold resource_type. destruct (String.prefix "inst-" i); auto. }
  tauto.
Qed.

Lemma cleanup_success c ids r :
  success (verify_resource_cleanup c ids r) = true ↔ success r = true ∧ cleaned c ids.
Proof.
  unfold verify_resource_cleanup, cleaned. destruct ids as [ids|].
  - assert (uncleaned ids c = [] ↔ ∀ i, i ∈ ids → members c !! i = None) as Hu.
    { split.
      - intros Hn i Hi. apply eq_None_not_Some. intros Hs.
        apply (not_elem_of_nil i). rewrite <- Hn. by apply elem_of_uncleaned.
      - intros Hall. apply elem_of_nil_inv. intros i [Hi Hs]%elem_of_uncleaned.
        rewrite (Hall i Hi) in Hs. by destruct Hs. }
    destruct ids as [|i0 ids]; [rewrite success_add_item; simpl|].
    { split; [|by intros [? _]]. intros Hr. split; [done|].
      intros i Hi. by apply not_elem_of_nil in Hi. }
    change (default [] (Some (i0 :: ids))) with (i0 :: ids). rewrite <- Hu.
    destruct (uncleaned (i0 :: ids) c); rewrite success_add_item; simpl; [tauto|].
    split; [done|]. by intros [_ ?].
  - rewrite success_add_item. simpl. split; [|by intros [? _]].
    intros Hr. split; [done|]. intros i Hi. by apply not_elem_of_nil in Hi.
Qed.

Lemma verified_restored now c pre dns ids :
  success (verify_state_restoration now c pre dns ids) = true ↔
  members_restored c pre ∧ properties_sound c ∧ cleaned c ids.
Proof.
  unfold verify_state_restoration.
  rewrite cleanup_success, properties_success, network_success, membership_success.
  unfold members_restored, same_member.
  setoid_rewrite attribute_mismatches_nil. setoid_rewrite formnet_ip_mismatches_nil.
  simpl. naive_solver.
Qed.

(** ** Properties *)

(** C13: the verification of a restored cluster is exact: it succeeds if and only if
    the members are those before the operation, with the node, the status and the
    two internal addresses they had; the template is a member (or the one named
    [template-1]); the policy is valid and the number of members within it; no
    operation is active; and no released resource is a member.  The DNS records
    never change the verdict. *)
Theorem verify_state_restoration_spec now c pre dns ids :
  success (verify_state_restoration now c pre dns ids) = true ↔
  members_restored c pre ∧ properties_sound c ∧ cleaned c ids.
Proof. apply verified_restored. Qed.
