(* ===== verification/Phases.v ===== *)
(** * Carrying out a scaling operation (form-state/src/instances.rs)

    The work of each phase on the cluster (planning, allocation, preparation,
    configuration, verification and finalization) and [process_scaling_phase],
    which does the work of the current phase and advances the state machine.

    The metrics an instance reports over HTTP are an argument ([fetch], [None]
    when the request or its decoding fails; requests to one address in one step get
    one answer); only the fields of [SystemMetrics]
    that are read are kept.  The serialization of a cluster to JSON is a parameter
    ([Serde]). *)

From stdpp Require Import options.
From S2P Require Import Prelude Policy Scaling Cluster.

(** ** Metrics of an instance *)

Record NetworkInterfaceMetrics : Type := mkInterface {
  bytes_sent : Z;
  bytes_received : Z;
}.

Record SystemMetrics : Type := mkSystemMetrics {
  usage_pct : Z;
  mem_total : Z;
  mem_used : Z;
  (** [sectors_written] of each disk. *)
  disks : list Z;
  interfaces : list NetworkInterfaceMetrics;
}.

(** [serde_json::to_string] and [serde_json::from_str] on clusters, with the text
    of the error. *)
Class Serde : Type := {
  to_json : InstanceCluster → result string string;
  from_json : string → result InstanceCluster string;
  members_from_json : string → result (gmap string ClusterMember) string;
}.

Local Open Scope Z_scope.

(** [usage_pct() as u32]. *)
Definition cpu_of (m : SystemMetrics) : Z := u32_wrap (usage_pct m).

(** The sum of the bytes of all interfaces. *)
Definition network_bytes (m : SystemMetrics) : Z :=
  foldl (λ acc i, u64_add acc (u64_add (bytes_received i) (bytes_sent i))) 0 (interfaces m).

(** [(used * 100 / total) as u32]. *)
Definition memory_pct (m : SystemMetrics) : Z :=
  u32_wrap (u64_mul (mem_used m) 100 / mem_total m).

(** Ten gigabytes for each disk, in bytes. *)
Definition disk_space (m : SystemMetrics) : Z :=
  foldl (λ acc _, u64_add acc (10 * 1024 * 1024 * 1024)) 0 (disks m).

(** ** Collecting metrics *)

(** The accumulators of [collect_cluster_metrics]. *)
Record metrics_acc : Type := mkAcc {
  acc_cpu : Z;
  acc_memory : Z;
  acc_network : Z;
  acc_disk_used : Z;
  acc_disk_total : Z;
  acc_metrics : Z;
}.

Definition add_metrics (m : SystemMetrics) (a : metrics_acc) : metrics_acc :=
  let memory_utilization := if 0 <? mem_total m then memory_pct m else 0 in
  let disk_used := foldl u64_add 0 (disks m) in
  let disk_total := foldl (λ acc _, u64_add acc (10 * 10 * 1024 * 1024 * 1024)) 0 (disks m) in
  mkAcc (u32_add (acc_cpu a) (cpu_of m))
    (u32_add (acc_memory a) memory_utilization)
    (u32_add (acc_network a) (u32_wrap (network_bytes m) / 1024 / 1024))
    (u64_add (acc_disk_used a) disk_used) (u64_add (acc_disk_total a) disk_total)
    (u32_add (acc_metrics a) 1).

(** The address of a member always parses back, so no member is skipped. *)
Definition collect_cluster_metrics (fetch : IpAddr → option SystemMetrics)
    (c : InstanceCluster) : option ScalingMetrics :=
  let a := foldl (λ a mb, match fetch (instance_formnet_ip mb) with
                          | Some m => add_metrics m a
                          | None => a
                          end) (mkAcc 0 0 0 0 0 0) (btree_values (members c)) in
  let instance_count := usize_as_u32 (Z.of_nat (size (members c))) in
  if 0 <? acc_metrics a then
    let avg_storage_utilization :=
      if 0 <? acc_disk_total a
      then u32_wrap (u64_mul (acc_disk_used a) 100 / acc_disk_total a) else 0 in
    Some (mkScalingMetrics (acc_cpu a / acc_metrics a) (acc_memory a / acc_metrics a)
            (acc_network a / acc_metrics a) avg_storage_utilization instance_count)
  else Some (mkScalingMetrics 50 60 100 40 instance_count).

(** ** Planning *)

Definition no_resources : ScalingResources := mkScalingResources 0 0 0 0.
Definition default_resources : ScalingResources := mkScalingResources 2 4096 50 1000.

(** Resources of one new instance, from the metrics of the template. *)
Definition scale_out_resources (m : SystemMetrics) : ScalingResources :=
  let cpu := cpu_of m in
  let cores :=
    if 0 <? cpu then if 70 <? cpu then 4 else if cpu <? 30 then 1 else 2 else 2 in
  let memory :=
    if 0 <? mem_total m then
      let mb := u32_wrap (mem_total m / 1024 / 1024) in
      let mb :=
        if 70 <? memory_pct m then u32_mul mb 3 / 2
        else if memory_pct m <? 30 then u32_mul mb 2 / 3 else mb in
      Z.max mb 1024
    else 4096 in
  let storage :=
    if 0 <? disk_space m then Z.max (u32_wrap (disk_space m / 1024 / 1024 / 1024)) 10 else 50 in
  let network := Z.max (u32_wrap (network_bytes m / 1024 / 1024)) 100 in
  mkScalingResources cores memory storage network.

(** Resources freed with one instance. *)
Definition scale_in_resources (m : SystemMetrics) : ScalingResources :=
  let cpu := cpu_of m in
  mkScalingResources (if cpu <=? 30 then 1 else if cpu <=? 60 then 2 else 4)
    (if 0 <? mem_total m then u32_wrap (mem_total m / 1024 / 1024) else 4096)
    (if 0 <? disk_space m then u32_wrap (disk_space m / 1024 / 1024 / 1024) else 50)
    (Z.max (u32_wrap (network_bytes m / 1024 / 1024)) 100).

(** Resources of one replacement, from the metrics of the template. *)
Definition replace_resources (m : SystemMetrics) : ScalingResources :=
  let cpu := cpu_of m in
  mkScalingResources (if cpu <=? 30 then 1 else if cpu <=? 70 then 2 else 4)
    (if 0 <? mem_total m then Z.max (u32_wrap (mem_total m / 1024 / 1024)) 1024 else 4096)
    (if 0 <? disk_space m then Z.max (u32_wrap (disk_space m / 1024 / 1024 / 1024)) 10 else 50)
    (Z.max (u32_wrap (network_bytes m / 1024 / 1024)) 100).

Definition times_resources (n : Z) (r : ScalingResources) : ScalingResources :=
  mkScalingResources (u32_mul n (cpu_cores r)) (u32_mul n (memory_mb r))
    (u32_mul n (storage_gb r)) (u32_mul n (network_bandwidth_mbps r)).

Definition add_resources (r s : ScalingResources) : ScalingResources :=
  mkScalingResources (u32_add (cpu_cores r) (cpu_cores s)) (u32_add (memory_mb r) (memory_mb s))
    (u32_add (storage_gb r) (storage_gb s))
    (u32_add (network_bandwidth_mbps r) (network_bandwidth_mbps s)).

(** The template member, with the errors of the planning phase. *)
Definition template_member (what phase : string) (c : InstanceCluster)
    : result (string * ClusterMember) ScalingError :=
  match template_instance_id c with
  | None =>
      Err (mkScalingError "NoTemplateInstance"
             ("No template instance specified for " +:+ what) phase)
  | Some i =>
      match members c !! i with
      | None =>
          Err (mkScalingError "TemplateNotFound"
                 ("Template instance " +:+ i +:+ " not found in cluster") phase)
      | Some mb => Ok (i, mb)
      end
  end.

Definition plan_scaling_operation (fetch : IpAddr → option SystemMetrics)
    (op : ScalingOperation) (c : InstanceCluster) : result ScalingResources ScalingError :=
  match op with
  | ScaleOut target_instances =>
      let instances_to_add := u32_sub target_instances (current_count c) in
      if instances_to_add =? 0 then Ok no_resources
      else
        (let? t := template_member "scaling planning" "Planning" c in
         let per_instance :=
           match fetch (instance_formnet_ip t.2) with
           | Some m => scale_out_resources m
           | None => default_resources
           end in
         Ok (times_resources instances_to_add per_instance))%rust
  | ScaleIn target_instances instance_ids =>
      let instances_to_remove := u32_sub (current_count c) target_instances in
      if instances_to_remove =? 0 then Ok no_resources
      else
        let ids :=
          match instance_ids with
          | Some ids => ids
          | None => select_instances_to_remove (Z.to_nat instances_to_remove) c
          end in
        Ok (foldl (λ acc i,
              match members c !! i with
              | Some mb =>
                  add_resources acc
                    (match fetch (instance_formnet_ip mb) with
                     | Some m => scale_in_resources m
                     | None => default_resources
                     end)
              | None => acc
              end) no_resources ids)
  | ReplaceInstances instance_ids =>
      match instance_ids with
      | [] => Ok no_resources
      | _ =>
          (let? t := template_member "replacement planning" "Planning" c in
           let per_instance :=
             match fetch (instance_formnet_ip t.2) with
             | Some m => replace_resources m
             | None => default_resources
             end in
           Ok (times_resources (usize_as_u32 (Z.of_nat (length instance_ids))) per_instance))%rust
      end
  end.

(** ** Allocation *)

Definition check_available_resources (c : InstanceCluster)
    : result ScalingResources ScalingError :=
  Ok (mkScalingResources 32 (128 * 1024) 1024 10000).

Definition insufficient (what need_unit have_unit : string) (need have : Z) : ScalingError :=
  mkScalingError "InsufficientResources"
    ("Not enough " +:+ what +:+ ": need " +:+ pretty need +:+ need_unit +:+ ", have "
       +:+ pretty have +:+ have_unit) "ResourceAllocating".

(** A generated identifier, made longer when a member has it already. *)
Definition unique_id (unique : nat → string) (i : nat) (new_id : string) (c : InstanceCluster)
    : string :=
  match members c !! new_id with
  | Some _ => new_id +:+ "-" +:+ unique i
  | None => new_id
  end.

(** The first identifier that is not a member, reported by the loops of the
    phases. *)
Fixpoint ids_exist (what phase : string) (ids : list string) (c : InstanceCluster)
    : result unit ScalingError :=
  match ids with
  | [] => Ok ()
  | i :: ids' =>
      match members c !! i with
      | None =>
          Err (mkScalingError "InstanceNotFound"
                 (what +:+ " " +:+ i +:+ " not found in cluster") phase)
      | Some _ => ids_exist what phase ids' c
      end
  end.

(** The template must not be among the identifiers. *)
Definition template_excluded (error verb phase : string) (ids : list string)
    (c : InstanceCluster) : result unit ScalingError :=
  match template_instance_id c with
  | Some t =>
      if decide (t ∈ ids) then
        Err (mkScalingError error
               ("Cannot " +:+ verb +:+ " template instance " +:+ t) phase)
      else Ok ()
  | None => Ok ()
  end.

(** [timestamp] is the reading the new identifiers carry, [unique i] the eight
    characters drawn for a clash. *)
Definition allocate_resources_for_operation (fetch : IpAddr → option SystemMetrics)
    (timestamp : Z) (unique : nat → string) (op : ScalingOperation) (c : InstanceCluster)
    : result (list string) ScalingError :=
  let needs_template :=
    match op with ScaleOut _ | ReplaceInstances _ => true | ScaleIn _ _ => false end in
  match needs_template, template_instance_id c with
  | true, None =>
      Err (mkScalingError "NoTemplateInstance"
             "No template instance specified for this operation" "ResourceAllocating")
  | _, template =>
      match op with
      | ScaleOut target_instances =>
          let instances_to_add := u32_sub target_instances (current_count c) in
          if instances_to_add =? 0 then Ok []
          else
            (let? r := plan_scaling_operation fetch op c in
             let? a := check_available_resources c in
             if cpu_cores a <? cpu_cores r then
               Err (insufficient "CPU cores available" "" "" (cpu_cores r) (cpu_cores a))
             else if memory_mb a <? memory_mb r then
               Err (insufficient "memory available" " MB" " MB" (memory_mb r) (memory_mb a))
             else if storage_gb a <? storage_gb r then
               Err (insufficient "storage available" " GB" " GB" (storage_gb r) (storage_gb a))
             else if network_bandwidth_mbps a <? network_bandwidth_mbps r then
               Err (insufficient "network bandwidth available" " Mbps" " Mbps"
                      (network_bandwidth_mbps r) (network_bandwidth_mbps a))
             else
               Ok ((λ i, unique_id unique i
                      (default "" template +:+ "-clone-" +:+ pretty timestamp +:+ "-"
                         +:+ pretty (Z.of_nat i)) c)
                     <$> seq 0 (Z.to_nat instances_to_add)))%rust
      | ScaleIn target_instances specified_ids =>
          let instances_to_remove := u32_sub (current_count c) target_instances in
          if instances_to_remove =? 0 then Ok []
          else
            match specified_ids with
            | Some ids =>
                (let? _ := ids_exist "Specified instance" "ResourceAllocating" ids c in
                 let? _ := template_excluded "CannotRemoveTemplate" "remove"
                             "ResourceAllocating" ids c in
                 Ok ids)%rust
            | None =>
                let ids := select_instances_to_remove (Z.to_nat instances_to_remove) c in
                if (Z.of_nat (length ids) <? instances_to_remove) then
                  Err (mkScalingError "NotEnoughInstances"
                         ("Need to remove " +:+ pretty instances_to_remove
                            +:+ " instances but only found "
                            +:+ pretty (Z.of_nat (length ids))) "ResourceAllocating")
                else Ok ids
            end
      | ReplaceInstances instance_ids =>
          (let? _ := ids_exist "Instance" "ResourceAllocating" instance_ids c in
           let? _ := template_excluded "CannotReplaceTemplate" "replace"
                       "ResourceAllocating" instance_ids c in
           let? r := plan_scaling_operation fetch op c in
           let? a := check_available_resources c in
           let temp_cpu_needed := cpu_cores r / 10 in
           let temp_memory_needed := memory_mb r / 10 in
           if cpu_cores a <? temp_cpu_needed then
             Err (insufficient "additional CPU cores for replacement transition" "" ""
                    temp_cpu_needed (cpu_cores a))
           else if memory_mb a <? temp_memory_needed then
             Err (insufficient "additional memory for replacement transition" " MB" " MB"
                    temp_memory_needed (memory_mb a))
           else
             Ok (instance_ids ++
                 imap (λ i old_id, unique_id unique i
                         (old_id +:+ "-replacement-" +:+ pretty timestamp +:+ "-"
                            +:+ pretty (Z.of_nat i)) c) instance_ids))%rust
      end
  end.

(** ** Preparation *)

Fixpoint ids_fresh (phase prefix : string) (old ids : list string) (c : InstanceCluster)
    : result unit ScalingError :=
  match ids with
  | [] => Ok ()
  | i :: ids' =>
      match members c !! i with
      | Some _ =>
          if decide (i ∈ old) then ids_fresh phase prefix old ids' c
          else
            Err (mkScalingError "DuplicateInstanceId"
                   (prefix +:+ " " +:+ i +:+ " already exists in cluster") phase)
      | None => ids_fresh phase prefix old ids' c
      end
  end.

(** The member [prepare_instances] works with when no template is needed or set. *)
Definition dummy_member : ClusterMember :=
  mkMember "" (V4 0 0 0 0) (V4 0 0 0 0) "" (V4 0 0 0 0) "" 0 0.

Definition prepare_instances `{Serde} (op : ScalingOperation) (instance_ids : list string)
    (c : InstanceCluster) : result string ScalingError :=
  let phase := "InstancePreparing" in
  match to_json c with
  | Err e =>
      Err (mkScalingError "SerializationError"
             ("Failed to serialize current configuration: " +:+ e) phase)
  | Ok previous_config =>
      (let? template_instance_info :=
         match op, template_instance_id c with
         | (ScaleOut _ | ReplaceInstances _), Some t =>
             match members c !! t with
             | Some mb => Ok mb
             | None =>
                 Err (mkScalingError "TemplateNotFound"
                        ("Template instance " +:+ t +:+ " not found in cluster") phase)
             end
         | _, _ => Ok dummy_member
         end in
       match op with
       | ScaleOut _ =>
           if decide (instance_id template_instance_info = "") then
             Err (mkScalingError "InvalidTemplate"
                    "Template instance information is incomplete" phase)
           else
             let? _ := ids_fresh phase "Instance ID" [] instance_ids c in
             Ok previous_config
       | ScaleIn _ _ =>
           let? _ := ids_exist "Instance" phase instance_ids c in
           let? _ := template_excluded "CannotRemoveTemplate" "remove" phase instance_ids c in
           Ok previous_config
       | ReplaceInstances old_instance_ids =>
           let? _ := ids_exist "Instance" phase old_instance_ids c in
           let? _ := template_excluded "CannotReplaceTemplate" "replace" phase
                       old_instance_ids c in
           if (length instance_ids <? length old_instance_ids)%nat then
             Err (mkScalingError "InsufficientReplacements"
                    ("Need " +:+ pretty (Z.of_nat (length old_instance_ids))
                       +:+ " new instances to replace old ones, but only got "
                       +:+ pretty (Z.of_nat (length instance_ids))) phase)
           else
             let? _ := ids_fresh phase "New instance ID" old_instance_ids instance_ids c in
             Ok previous_config
       end)%rust
  end.

(** ** Configuration *)

(** The address of the i-th new instance: the last octet of the template's moves
    by [i + 1], modulo 256.  The text of an IPv6 address has no four parts that are
    octets, which is an error. *)
Definition new_formnet_ip (ip : IpAddr) (i : nat) : option IpAddr :=
  match ip with
  | V4 a b c d => Some (V4 a b c ((d + Z.of_nat (i + 1)) mod 256))
  | V6 _ _ _ _ _ _ _ _ => None
  end.

(** A new member modelled on the template. *)
Definition member_like (t : ClusterMember) (new_id : string) (ip : IpAddr) (now : Z)
    : ClusterMember :=
  mkMember (node_id t) (node_public_ip t) (node_formnet_ip t) new_id ip "starting" now 0.

(** The identifier of the i-th new instance. *)
Definition clone_id (template_id : string) (i : nat) : string :=
  "inst-" +:+ template_id +:+ "-" +:+ pretty (Z.of_nat i).

(** The loop that adds members; it leaves those added before an error. *)
Fixpoint add_clones (template_id : string) (t : ClusterMember) (now : Z) (idx : list nat)
    : method InstanceCluster ScalingError unit := λ c,
  match idx with
  | [] => (c, Ok ())
  | i :: idx' =>
      match new_formnet_ip (instance_formnet_ip t) i with
      | None =>
          (c, Err (mkScalingError "InvalidIPAddress"
                     "Failed to generate IP address for new instance" "Configuring"))
      | Some ip =>
          add_clones template_id t now idx'
            (insert_member (member_like t (clone_id template_id i) ip now) c)
      end
  end.

(** The instances to replace with their addresses, or the first error. *)
Fixpoint old_instances (template_id : string) (ids : list string) (c : InstanceCluster)
    : result (list (string * IpAddr)) ScalingError :=
  match ids with
  | [] => Ok []
  | i :: ids' =>
      match members c !! i with
      | None =>
          Err (mkScalingError "InstanceNotFound"
                 ("Instance " +:+ i +:+ " not found in cluster") "Configuring")
      | Some mb =>
          if decide (i = template_id) then
            Err (mkScalingError "CannotReplaceTemplate"
                   ("Cannot replace template instance " +:+ template_id) "Configuring")
          else (let? l := old_instances template_id ids' c in
                Ok ((i, instance_formnet_ip mb) :: l))%rust
      end
  end.

Definition replacement_id (old_id : string) (now : Z) : string :=
  "replacement-" +:+ old_id +:+ "-" +:+ pretty now.

(** One replacement: the old member is removed, the new one added. *)
Definition replace_member (t : ClusterMember) (now : Z) (ms : gmap string ClusterMember)
    (old : string * IpAddr) : gmap string ClusterMember :=
  let new_id := replacement_id old.1 now in
  <[new_id := member_like t new_id old.2 now]> (delete old.1 ms).

(** The check of the number of instances that ends the changes. *)
Definition check_count (target : Z) (c : InstanceCluster) : result unit ScalingError :=
  if negb (current_count c =? target) then
    Err (mkScalingError "ScalingFailed"
           ("Expected " +:+ pretty target +:+ " instances after scaling, but got "
              +:+ pretty (Z.of_nat (size (members c)))) "Configuring")
  else Ok ().

Definition apply_configuration_changes (now : Z) (op : ScalingOperation)
    : method InstanceCluster ScalingError unit := λ c,
  match op with
  | ScaleOut target_instances =>
      let instances_to_add := u32_sub target_instances (current_count c) in
      match template_member "scaling out" "Configuring" c with
      | Err e => (c, Err e)
      | Ok (template_id, t) =>
          let '(c', r) := add_clones template_id t now (seq 0 (Z.to_nat instances_to_add)) c in
          match r with
          | Err e => (c', Err e)
          | Ok _ => (c', check_count target_instances c')
          end
      end
  | ScaleIn target_instances instance_ids =>
      let ids :=
        match instance_ids with
        | Some ids => ids
        | None =>
            select_instances_to_remove
              (Z.to_nat (u32_sub (current_count c) target_instances)) c
        end in
      match (let? _ := template_excluded "CannotRemoveTemplate" "remove" "Configuring" ids c in
             ids_exist "Instance" "Configuring" ids c)%rust with
      | Err e => (c, Err e)
      | Ok _ =>
          let c' := set_members (foldl (λ ms i, delete i ms) (members c) ids) c in
          (c', check_count target_instances c')
      end
  | ReplaceInstances old_instance_ids =>
      match template_member "instance replacement" "Configuring" c with
      | Err e => (c, Err e)
      | Ok (template_id, t) =>
          match old_instances template_id old_instance_ids c with
          | Err e => (c, Err e)
          | Ok olds =>
              let c' := set_members (foldl (replace_member t now) (members c) olds) c in
              (c', if (size (members c') =? size (members c))%nat then Ok ()
                   else Err (mkScalingError "ReplacementFailed"
                          ("Expected " +:+ pretty (Z.of_nat (size (members c)))
                             +:+ " instances after replacement, but got "
                             +:+ pretty (Z.of_nat (size (members c')))) "Configuring"))
          end
      end
  end.

(** ** Verification and finalization *)

Definition verification_failed (msg : string) : ScalingError :=
  mkScalingError "VerificationFailed" msg "Verifying".

Fixpoint ids_gone (ids : list string) (c : InstanceCluster) : result unit ScalingError :=
  match ids with
  | [] => Ok ()
  | i :: ids' =>
      match members c !! i with
      | Some _ => Err (verification_failed ("Instance " +:+ i +:+ " was not replaced"))
      | None => ids_gone ids' c
      end
  end.

Definition verify_scaling_operation (op : ScalingOperation) (c : InstanceCluster)
    : result (list string) ScalingError :=
  let current_instances := current_count c in
  let wrong target :=
    verification_failed ("Expected " +:+ pretty target +:+ " instances, but found "
                           +:+ pretty current_instances) in
  match op with
  | ScaleOut target_instances =>
      if negb (current_instances =? target_instances) then Err (wrong target_instances)
      else Ok ["Update DNS records"; "Update load balancer configuration"; "Log scaling event"]
  | ScaleIn target_instances _ =>
      if negb (current_instances =? target_instances) then Err (wrong target_instances)
      else Ok ["Update DNS records"; "Update load balancer configuration";
               "Clean up instance resources"; "Log scaling event"]
  | ReplaceInstances instance_ids =>
      let original_instances := current_count c in
      if negb (current_instances =? original_instances) then
        Err (verification_failed ("Expected " +:+ pretty original_instances
               +:+ " instances after replacement, but found " +:+ pretty current_instances))
      else
        (let? _ := ids_gone instance_ids c in
         Ok ["Update DNS records"; "Update load balancer configuration";
             "Clean up old instance resources"; "Log replacement event"])%rust
  end.

Definition finalize_scaling_operation (fetch : IpAddr → option SystemMetrics) (now : Z)
    (op : ScalingOperation) : method InstanceCluster ScalingError ScalingMetrics := λ c,
  let c' :=
    match scaling_policy c with
    | None => c
    | Some policy =>
        match op with
        | ScaleOut _ => set_scaling_policy (Some (record_scale_out now policy)) c
        | ScaleIn _ _ => set_scaling_policy (Some (record_scale_in now policy)) c
        | ReplaceInstances _ => c
        end
    end in
  (c', Ok (default (mkScalingMetrics 30 40 80 35 (current_count c'))
             (collect_cluster_metrics fetch c'))).

(** ** One step of the state machine *)

(** What a step reads from outside: the clock when timeouts are checked, when the
    phase does its work and when the machine advances; the metrics and the
    characters drawn. *)
Record env : Type := mkEnv {
  now_check : Z;
  now_work : Z;
  now_advance : Z;
  env_fetch : IpAddr → option SystemMetrics;
  env_unique : nat → string;
}.

(** A call on the manager of the cluster; [?] passes an error on. *)
Definition on_manager (f : method ScalingManager ScalingError unit)
    : method InstanceCluster ScalingError bool := λ c,
  match scaling_manager c with
  | Some m =>
      let '(m', r) := f m in
      (set_manager (Some m') c, match r with Ok _ => Ok true | Err e => Err e end)
  | None => (c, Ok false)
  end.

(** Advance on success, fail the operation with the error otherwise. *)
Definition advance_or_fail {A} (e : env) (r : result A ScalingError)
    (advance : A → method ScalingManager ScalingError unit)
    : method InstanceCluster ScalingError bool :=
  on_manager
    (match r with
     | Ok a => advance a
     | Err err => fail_operation (now_advance e) (error_type err) (message err) None
     end).

Definition process_scaling_phase `{Serde} (e : env)
    : method InstanceCluster ScalingError bool := λ c,
  match scaling_manager c with
  | None => (c, Ok false)
  | Some m0 =>
      let '(m, timed_out) := check_timeouts (now_check e) m0 in
      let c := set_manager (Some m) c in
      if timed_out then (c, Ok true)
      else
        match current_phase m with
        | None => (c, Ok false)
        | Some (Requested _ _) => on_manager (transition_to_validating (now_advance e)) c
        | Some (Validating op _) =>
            let r := validate_scaling_operation (now_work e) op c in
            let pre_metrics :=
              if is_ok r then collect_cluster_metrics (env_fetch e) c else None in
            advance_or_fail e r (λ _, transition_to_planning (now_advance e) pre_metrics) c
        | Some (Planning op _ _) =>
            advance_or_fail e (plan_scaling_operation (env_fetch e) op c)
              (λ res, transition_to_resource_allocating (now_advance e) (Some res)) c
        | Some (ResourceAllocating op _ _) =>
            advance_or_fail e
              (allocate_resources_for_operation (env_fetch e) (now_work e) (env_unique e) op c)
              (λ ids, transition_to_instance_preparing (now_advance e) ids) c
        | Some (InstancePreparing op _ ids) =>
            advance_or_fail e (prepare_instances op ids c)
              (λ prev, transition_to_configuring (now_advance e) (Some prev)) c
        | Some (Configuring op _ _) =>
            let '(c', r) := apply_configuration_changes (now_work e) op c in
            advance_or_fail e r (λ _, transition_to_verifying (now_advance e)) c'
        | Some (Verifying op _ _) =>
            advance_or_fail e (verify_scaling_operation op c)
              (λ tasks, transition_to_finalizing (now_advance e) tasks) c
        | Some (Finalizing op _ _) =>
            let '(c', r) := finalize_scaling_operation (env_fetch e) (now_work e) op c in
            advance_or_fail e r (λ metrics, complete_operation (now_advance e) (Some metrics)) c'
        | Some (Completed _ _ _ _ | Failed _ _ _ _ _ | Canceled _ _ _ _) => (c, Ok false)
        end
  end.

(** A sequence of steps. *)
Definition process_all `{Serde} (es : list env) (c : InstanceCluster) : InstanceCluster :=
  foldl (λ c e, (process_scaling_phase e c).1) c es.

(** ** Specifications *)

(** The phase after a phase whose work succeeds. *)
Definition next_kind (k : Kind) : Kind :=
  match k with
  | KRequested => KValidating
  | KValidating => KPlanning
  | KPlanning => KResourceAllocating
  | KResourceAllocating => KInstancePreparing
  | KInstancePreparing => KConfiguring
  | KConfiguring => KVerifying
  | KVerifying => KFinalizing
  | KFinalizing => KCompleted
  | k => k
  end.

(** What one step does to the kind of the current phase and what it returns. *)
Definition step_outcome (k k' : option Kind) (r : result bool ScalingError) : Prop :=
  match k with
  | Some k0 =>
      if decide (rank k0 < 8)%nat
      then r = Ok true ∧ (k' = Some (next_kind k0) ∨ k' = Some KFailed)
      else r = Ok false ∧ k' = k
  | None => r = Ok false ∧ k' = None
  end.

(** [call] moves the manager to the next phase, or fails the operation. *)
Definition advances_to (call : call) (m : ScalingManager) : Prop :=
  ∃ k, kind m = Some k ∧ (rank k < 8)%nat ∧
    (kind (exec call m).1 = Some (next_kind k) ∨ kind (exec call m).1 = Some KFailed).

(** The clock readings of successive steps stay within [B] seconds of the start of
    the phase they find, the first started at [s]. *)
Fixpoint timely (B s : Z) (es : list env) : bool :=
  match es with
  | [] => true
  | e :: es' => (i64_sub (now_check e) s <=? B) && timely B (now_advance e) es'
  end.

(** The members after a scale-in to [t]. *)
Definition scaled_in (t : Z) (c : InstanceCluster) : gmap string ClusterMember :=
  foldl (λ ms i, delete i ms) (members c)
    (select_instances_to_remove (Z.to_nat (current_count c - t)) c).

(** The members after a scale-out by [n] instances. *)
Definition scaled_out (template_id : string) (t : ClusterMember) (now : Z) (n : nat)
    (ms : gmap string ClusterMember) : gmap string ClusterMember :=
  foldl (λ ms i, match new_formnet_ip (instance_formnet_ip t) i with
                 | Some ip =>
                     <[clone_id template_id i :=
                         member_like t (clone_id template_id i) ip now]> ms
                 | None => ms
                 end) ms (seq 0 n).

(** What the replacement loop does to the members. *)
Definition replaced (tm : ClusterMember) (now : Z) (olds : list (string * IpAddr))
    (ms ms' : gmap string ClusterMember) : Prop :=
  (∀ i ip, (i, ip) ∈ olds → ms' !! i = None ∧
     ms' !! replacement_id i now = Some (member_like tm (replacement_id i now) ip now)) ∧
  (∀ k, k ∉ olds.*1 → (∀ i, i ∈ olds.*1 → k ≠ replacement_id i now) → ms' !! k = ms !! k) ∧
  size ms' = size ms.

(** The cluster [b] with a manager that is in phase [p]. *)
Definition at_phase (p : ScalingPhase) (ts : gmap string Z) (b c : InstanceCluster) : Prop :=
  ∃ m, c = set_manager (Some m) b ∧ current_phase m = Some p ∧ phase_timeouts m = ts.

(** A JSON codec for examples that writes a fixed text. *)
#[local] Instance plain_serde : Serde := {
  to_json _ := Ok "cluster";
  from_json _ := Err "not supported";
  members_from_json _ := Err "not supported";
}.

(** Steps at the instant [t] on instances that report nothing. *)
Definition quiet_env (t : Z) : env := mkEnv t t t (λ _, None) (λ _, "").

(** The manager of a new operation [op] at the instant 1000. *)
Definition requested_manager (op : ScalingOperation) : ScalingManager :=
  (start_operation 1000 1000 op
     (foldl (λ m phase, set_phase_timeout phase 300 m) (new 1000) phase_names)).1.

(** A cluster of three in which a scale-in to two has been requested, and one in
    which a scale-out to three has been requested. *)
Definition member_at (i : string) (last hb : Z) : ClusterMember :=
  mkMember "node" (V4 1 2 3 4) (V4 10 0 0 1) i (V4 10 0 0 last) "running" hb 0.
Definition three_members : InstanceCluster :=
  set_scaling_policy (Some with_defaults)
    (insert_member (member_at "c" 4 30) (insert_member (member_at "b" 3 20)
       (insert_member (member_at "a" 2 10) (new_with_template "a")))).
Definition scaling_in : InstanceCluster :=
  (start_scaling_state_machine 1000 1000 1000 (ScaleIn 2 None) three_members).1.
Definition grown : InstanceCluster :=
  process_all (replicate 8 (quiet_env 1000))
    (start_scaling_state_machine 1000 1000 1000 (ScaleOut 4) three_members).1.

(** ** Lemmas *)

(** *** The manager is out of reach of the work *)

Lemma add_clones_manager i t now idx c :
  scaling_manager (add_clones i t now idx c).1 = scaling_manager c.
Proof.
  revert c. induction idx as [|j idx IH]; intros c; simpl; [done|].
  destruct (new_formnet_ip _ j); [|done]. by rewrite IH.
Qed.

Lemma apply_manager now op c :
  scaling_manager (apply_configuration_changes now op c).1 = scaling_manager c.
Proof.
  destruct op; simpl.
  - destruct (template_member _ _ c) as [[i t]|]; [|done].
    pose proof (add_clones_manager i t now
      (seq 0 (Z.to_nat (u32_sub target_instances (current_count c)))) c) as Hm.
    destruct (add_clones _ _ _ _ c) as [c' []]; done.
  - destruct (result_bind _ _); done.
  - destruct (template_member _ _ c) as [[i t]|]; [|done].
    destruct (old_instances _ _ _); done.
Qed.

Lemma finalize_manager fetch now op c :
  scaling_manager (finalize_scaling_operation fetch now op c).1 = scaling_manager c.
Proof. unfold finalize_scaling_operation. simpl. destruct (scaling_policy c), op; done. Qed.

(** *** One step *)

Lemma on_manager_exec c m f call :
  scaling_manager c = Some m → exec call m = outcome (f m) → is_ok (f m).2 = true →
  on_manager f c = (set_manager (Some (exec call m).1) c, Ok true).
Proof.
  intros Hm He Hok. unfold on_manager. rewrite Hm, He. unfold outcome. simpl.
  destruct (f m) as [m' [u|]]; simpl in *; [by destruct u|done].
Qed.

(** In an active phase the machine advances on success, and the operation fails
    with the error otherwise. *)
Lemma advance_or_fail_exec {A} e (r : result A ScalingError) f c m k :
  scaling_manager c = Some m → kind m = Some k → (rank k < 8)%nat →
  (∀ a, ∃ call, exec call m = outcome (f a m) ∧ is_ok (f a m).2 = true ∧
          kind (exec call m).1 = Some (next_kind k)) →
  ∃ call, advance_or_fail e r f c = (set_manager (Some (exec call m).1) c, Ok true) ∧
    advances_to call m.
Proof.
  intros Hm Hk Hr Hf. unfold advance_or_fail, advances_to. destruct r as [a|err].
  - destruct (Hf a) as (call & He & Hok & Hn). exists call.
    split; [by apply on_manager_exec|eauto].
  - set (call := CFail (now_advance e) (error_type err) (message err) None).
    assert (Ha : active (kind m)) by (by rewrite Hk).
    apply active_kind in Ha as (p & Hp & Ht).
    exists call. split.
    + apply on_manager_exec; [done|done|]. unfold fail_operation, active_phase.
      by rewrite Hp, Ht.
    + exists k. split_and!; [done..|]. right. simpl. unfold fail_operation, active_phase.
      by rewrite Hp, Ht.
Qed.

(** Applies [advance_or_fail_exec] with the call [mk] that each result leads to. *)
Ltac advance_by m mk Hm Hk Hp :=
  match goal with |- context [advance_or_fail ?e ?r ?f ?cc] =>
    let call := fresh "call" in let Heq := fresh in let Hadv := fresh in
    destruct (advance_or_fail_exec e r f cc m _ Hm Hk ltac:(simpl; lia)) as (call & Heq & Hadv);
    [ intros a; exists (mk a); simpl;
      unfold transition_to_planning, transition_to_resource_allocating,
        transition_to_instance_preparing, transition_to_configuring,
        transition_to_verifying, transition_to_finalizing, transition,
        complete_operation, active_phase; by rewrite Hp
    | exists call, cc; split; [exact Heq|exact Hadv] ]
  end.

(** The work of an active phase and the call that follows it. *)
Lemma work_step `{Serde} e c m p :
  scaling_manager c = Some m → current_phase m = Some p → is_terminal p = false →
  check_timeouts (now_check e) m = (m, false) →
  ∃ call c', process_scaling_phase e c = (set_manager (Some (exec call m).1) c', Ok true) ∧
    advances_to call m.
Proof.
  intros Hm Hp Hterm Ht. unfold process_scaling_phase. rewrite Hm, Ht, Hp.
  set (c1 := set_manager (Some m) c).
  assert (Hm1 : scaling_manager c1 = Some m) by done. clearbody c1.
  assert (Hk : kind m = Some (kind_of p)) by (unfold kind; by rewrite Hp).
  destruct p; try discriminate Hterm.
  - exists (CValidating (now_advance e)), c1. split.
    + apply on_manager_exec; [done|done|]. unfold transition_to_validating, transition.
      by rewrite Hp.
    + exists KRequested. split_and!; [done|simpl; lia|]. left. simpl.
      unfold transition_to_validating, transition. by rewrite Hp.
  - advance_by m (λ _ : unit, CPlanning (now_advance e)
      (if is_ok (validate_scaling_operation (now_work e) operation c1)
       then collect_cluster_metrics (env_fetch e) c1 else None)) Hm1 Hk Hp.
  - advance_by m (λ r, CResourceAllocating (now_advance e) (Some r)) Hm1 Hk Hp.
  - advance_by m (λ ids, CInstancePreparing (now_advance e) ids) Hm1 Hk Hp.
  - advance_by m (λ prev, CConfiguring (now_advance e) (Some prev)) Hm1 Hk Hp.
  - pose proof (apply_manager (now_work e) operation c1) as Ha. rewrite Hm1 in Ha.
    destruct (apply_configuration_changes (now_work e) operation c1) as [c2 r].
    advance_by m (λ _ : unit, CVerifying (now_advance e)) Ha Hk Hp.
  - advance_by m (λ tasks, CFinalizing (now_advance e) tasks) Hm1 Hk Hp.
  - pose proof (finalize_manager (env_fetch e) (now_work e) operation c1) as Ha.
    rewrite Hm1 in Ha.
    destruct (finalize_scaling_operation (env_fetch e) (now_work e) operation c1) as [c2 r].
    advance_by m (λ r, CComplete (now_advance e) (Some r)) Ha Hk Hp.
Qed.

(** A timeout check that finds none, repeated at the same instant. *)
Lemma check_timeouts_again now m :
  check_timeouts now m =
    (mkManager (current_phase m) (operation_history m) (phase_timeouts m) now, false) →
  check_timeouts now
    (mkManager (current_phase m) (operation_history m) (phase_timeouts m) now) =
    (mkManager (current_phase m) (operation_history m) (phase_timeouts m) now, false).
Proof.
  intros Ht.
  destruct (check_timeouts_cases now
    (mkManager (current_phase m) (operation_history m) (phase_timeouts m) now))
    as [Ht'|(p & start & T & err & Hp & Hterm & Hs & HT & Hlt & _)]; [exact Ht'|].
  simpl in *. pose proof (check_timeouts_decides now m p start T Hp Hs HT) as Hd.
  rewrite Ht in Hd. simpl in Hd. symmetry in Hd. bool_to_prop. lia.
Qed.

(** Without a timeout a step is one from the manager with its check time set. *)
Lemma process_checked `{Serde} e c m :
  scaling_manager c = Some m →
  let m1 := mkManager (current_phase m) (operation_history m) (phase_timeouts m) (now_check e) in
  check_timeouts (now_check e) m = (m1, false) →
  process_scaling_phase e c = process_scaling_phase e (set_manager (Some m1) c).
Proof.
  intros Hm m1 Ht. unfold process_scaling_phase. simpl scaling_manager.
  rewrite Hm, Ht. unfold m1. by rewrite (check_timeouts_again _ _ Ht).
Qed.

(** A step is a run of the manager: a timeout check and at most one other call. *)
Lemma process_step `{Serde} e c m :
  scaling_manager c = Some m →
  ∃ cs, scaling_manager (process_scaling_phase e c).1 = Some (run cs m) ∧
    step_outcome (kind m) (kind (run cs m)) (process_scaling_phase e c).2.
Proof.
  intros Hm. destruct (check_timeouts_cases (now_check e) m)
    as [Ht|(p & start & T & err & Hp & Hterm & _ & _ & _ & Ht)].
  2: { exists [CCheckTimeouts (now_check e)]. unfold process_scaling_phase.
       simpl. rewrite Hm, Ht. simpl. split; [done|]. unfold kind, step_outcome. rewrite Hp.
       simpl. rewrite decide_True; [by auto|]. destruct p; simpl in *; done || lia. }
  set (m1 := mkManager _ _ _ _) in Ht.
  assert (Hk1 : kind m1 = kind m) by done.
  destruct (current_phase m) as [p|] eqn:Hp; [destruct (is_terminal p) eqn:Hterm|].
  - exists [CCheckTimeouts (now_check e)]. unfold process_scaling_phase. simpl.
    rewrite Hm, Ht. simpl. rewrite Hk1. unfold kind. rewrite Hp.
    destruct p; try discriminate Hterm; done.
  - rewrite (process_checked e c m Hm) by (by rewrite Hp). rewrite Hp. fold m1.
    destruct (work_step e (set_manager (Some m1) c) m1 p) as (call & c' & Heq & k & Hk & Hr & Hn);
      [done|done|done| |].
    { pose proof (check_timeouts_again (now_check e) m) as Hag. rewrite Hp in Hag. auto. }
    rewrite Heq. exists [CCheckTimeouts (now_check e); call]. simpl. rewrite Ht. simpl.
    split; [done|]. rewrite <- Hk1, Hk. simpl. by rewrite decide_True.
  - exists [CCheckTimeouts (now_check e)]. unfold process_scaling_phase. simpl.
    rewrite Hm, Ht. simpl. rewrite Hk1. unfold kind. by rewrite Hp.
Qed.

(** Steps move the pipeline forward until it ends. *)
Lemma process_all_progress `{Serde} es c m k :
  scaling_manager c = Some m → manager_inv m → kind m = Some k →
  ∃ m' k', scaling_manager (process_all es c) = Some m' ∧ manager_inv m' ∧
    kind m' = Some k' ∧ (rank k' = 8 ∨ rank k + length es ≤ rank k')%nat.
Proof.
  revert c m k. induction es as [|e es IH]; intros c m k Hm Hinv Hk.
  { exists m, k. split_and!; [done..|]. simpl. lia. }
  destruct (process_step e c m Hm) as (cs & Hm1 & Hout). rewrite Hk in Hout. simpl in Hout.
  assert (Hinv1 : manager_inv (run cs m)) by auto with formation.
  assert (∃ k1, kind (run cs m) = Some k1 ∧ (rank k1 = 8 ∨ rank k + 1 ≤ rank k1)%nat)
    as (k1 & Hk1 & Hrank).
  { case_decide as Hlt; destruct Hout as [_ Hout].
    - destruct Hout as [Hk1|Hk1]; rewrite Hk1; eexists; (split; [done|]);
        destruct k; simpl in *; lia.
    - rewrite Hout. exists k. split; [done|]. left. destruct k; simpl in *; lia. }
  destruct (IH _ _ k1 Hm1 Hinv1 Hk1) as (m' & k' & ? & ? & ? & ?).
  exists m', k'. split_and!; [done..|]. simpl.
  assert (rank k' ≤ 8)%nat by (destruct k'; simpl; lia). lia.
Qed.

(** *** Steps that succeed *)

Section steps.
Context `{Serde}.
Variable ts : gmap string Z.
Variable B : Z.
Hypothesis B_bound : ∀ ph T, ts !! ph = Some T → B ≤ u64_as_i64 T.

Lemma no_timeout now m p s :
  current_phase m = Some p → phase_timeouts m = ts → start_time p = Some s →
  i64_sub now s ≤ B →
  check_timeouts now m =
    (mkManager (current_phase m) (operation_history m) (phase_timeouts m) now, false).
Proof using B_bound.
  intros Hp Hts Hs Hle. destruct (check_timeouts_cases now m)
    as [Ht|(p' & s' & T & err & Hp' & _ & Hs' & HT & Hlt & _)]; [done|].
  simplify_eq. pose proof (B_bound _ _ HT). lia.
Qed.

(** Runs a step whose timeout check finds none, up to the work of the phase. *)
Ltac run_step :=
  intros (m & -> & Hp & Hts) Ht; unfold process_scaling_phase;
  match goal with |- context [set_manager (Some m) ?b] =>
    change (scaling_manager (set_manager (Some m) b)) with (Some m)
  end; cbv beta iota;
  rewrite (no_timeout _ m _ _ Hp Hts eq_refl Ht); cbv beta iota zeta;
  cbn [current_phase]; rewrite Hp; cbv beta iota zeta;
  match goal with |- context [set_manager ?x (set_manager ?y ?b)] =>
    change (set_manager x (set_manager y b)) with (set_manager x b)
  end.

Ltac finish_step Hp :=
  unfold advance_or_fail, on_manager; simpl;
  unfold transition_to_validating, transition_to_planning, transition_to_resource_allocating,
    transition_to_instance_preparing, transition_to_configuring,
    transition_to_verifying, transition_to_finalizing, transition, complete_operation,
    active_phase; simpl; rewrite ?Hp; simpl; eexists; (split; [reflexivity|done]).

Lemma step_requested op s e b c :
  at_phase (Requested op s) ts b c → i64_sub (now_check e) s ≤ B →
  at_phase (Validating op (now_advance e)) ts b (process_scaling_phase e c).1.
Proof using B_bound. run_step. finish_step Hp. Qed.

Lemma step_validating op s e b c :
  (∀ m, validate_scaling_operation (now_work e) op (set_manager m b) = Ok ()) →
  at_phase (Validating op s) ts b c → i64_sub (now_check e) s ≤ B →
  ∃ x, at_phase (Planning op (now_advance e) x) ts b (process_scaling_phase e c).1.
Proof using B_bound. intros Hw. run_step. rewrite Hw. eexists. finish_step Hp. Qed.

Lemma step_planning op s x e b c :
  (∀ m, is_ok (plan_scaling_operation (env_fetch e) op (set_manager m b)) = true) →
  at_phase (Planning op s x) ts b c → i64_sub (now_check e) s ≤ B →
  ∃ y, at_phase (ResourceAllocating op (now_advance e) y) ts b (process_scaling_phase e c).1.
Proof using B_bound.
  intros Hw. run_step.
  match goal with |- context [plan_scaling_operation _ _ (set_manager ?m' _)] =>
    specialize (Hw m') end.
  destruct (plan_scaling_operation _ _ _); [|done]. eexists. finish_step Hp.
Qed.

Lemma step_allocating op s y e b c ids :
  (∀ m, allocate_resources_for_operation (env_fetch e) (now_work e) (env_unique e) op
          (set_manager m b) = Ok ids) →
  at_phase (ResourceAllocating op s y) ts b c → i64_sub (now_check e) s ≤ B →
  at_phase (InstancePreparing op (now_advance e) ids) ts b (process_scaling_phase e c).1.
Proof using B_bound. intros Hw. run_step. rewrite Hw. finish_step Hp. Qed.

Lemma step_preparing op s ids e b c :
  (∀ m, is_ok (prepare_instances op ids (set_manager m b)) = true) →
  at_phase (InstancePreparing op s ids) ts b c → i64_sub (now_check e) s ≤ B →
  ∃ z, at_phase (Configuring op (now_advance e) z) ts b (process_scaling_phase e c).1.
Proof using B_bound.
  intros Hw. run_step.
  match goal with |- context [prepare_instances _ _ (set_manager ?m' _)] =>
    specialize (Hw m') end.
  destruct (prepare_instances _ _ _); [|done]. eexists. finish_step Hp.
Qed.

Lemma step_configuring op s z e b b' c :
  (∀ m, apply_configuration_changes (now_work e) op (set_manager m b) =
          (set_manager m b', Ok ())) →
  at_phase (Configuring op s z) ts b c → i64_sub (now_check e) s ≤ B →
  at_phase (Verifying op (now_advance e) []) ts b' (process_scaling_phase e c).1.
Proof using B_bound. intros Hw. run_step. rewrite Hw. finish_step Hp. Qed.

Lemma step_verifying op s z e b c :
  (∀ m, is_ok (verify_scaling_operation op (set_manager m b)) = true) →
  at_phase (Verifying op s z) ts b c → i64_sub (now_check e) s ≤ B →
  ∃ tasks, at_phase (Finalizing op (now_advance e) tasks) ts b (process_scaling_phase e c).1.
Proof using B_bound.
  intros Hw. run_step.
  match goal with |- context [verify_scaling_operation _ (set_manager ?m' _)] =>
    specialize (Hw m') end.
  destruct (verify_scaling_operation _ _); [|done]. eexists. finish_step Hp.
Qed.

(** The cluster with the cooldown of the operation recorded. *)
Lemma step_finalizing op s z e b c :
  at_phase (Finalizing op s z) ts b c → i64_sub (now_check e) s ≤ B →
  ∃ p, at_phase p ts (finalize_scaling_operation (env_fetch e) (now_work e) op b).1
         (process_scaling_phase e c).1 ∧ kind_of p = KCompleted.
Proof using B_bound.
  run_step. unfold finalize_scaling_operation. simpl.
  destruct (scaling_policy b), op; simpl; eexists;
    (split; [finish_step Hp|reflexivity]).
Qed.
End steps.

(** *** Removing and adding members *)

Lemma lookup_delete_all ids (ms : gmap string ClusterMember) i :
  foldl (λ ms i, delete i ms) ms ids !! i = if decide (i ∈ ids) then None else ms !! i.
Proof.
  revert ms. induction ids as [|j ids IH]; intros ms.
  { case_decide; [set_solver|done]. }
  cbn [foldl]. rewrite IH. destruct (decide (i = j)) as [->|Hne].
  - rewrite (decide_True (P := j ∈ j :: ids)) by set_solver. case_decide; [done|].
    apply lookup_delete_eq.
  - rewrite lookup_delete_ne by done.
    destruct (decide (i ∈ ids)); [rewrite decide_True|rewrite decide_False]; set_solver.
Qed.

Lemma size_delete_all ids (ms : gmap string ClusterMember) :
  NoDup ids → (∀ i, i ∈ ids → is_Some (ms !! i)) →
  (size (foldl (λ ms i, delete i ms) ms ids) + length ids = size ms)%nat.
Proof.
  revert ms. induction ids as [|j ids IH]; intros ms Hnd Hin; simpl; [lia|].
  apply NoDup_cons in Hnd as [Hj Hnd]. destruct (Hin j) as [mb Hmb]; [set_solver|].
  pose proof (map_size_delete_Some j ms ltac:(eauto)) as Hsz.
  specialize (IH (delete j ms) Hnd).
  assert (0 < size ms)%nat.
  { destruct (size ms) eqn:E; [|lia]. apply map_size_empty_inv in E. subst. done. }
  rewrite <- Nat.add_1_r, Nat.add_assoc, IH; [lia|].
  intros i Hi. rewrite lookup_delete_ne by set_solver. apply Hin. set_solver.
Qed.

Lemma ids_exist_ok w ph ids c :
  (∀ i, i ∈ ids → is_Some (members c !! i)) → ids_exist w ph ids c = Ok ().
Proof.
  induction ids as [|i ids IH]; simpl; [done|]. intros Hin.
  destruct (Hin i) as [mb ->]; [set_solver|]. apply IH. set_solver.
Qed.

Lemma template_excluded_ok err verb ph ids c :
  (∀ t, template_instance_id c = Some t → t ∉ ids) → template_excluded err verb ph ids c = Ok ().
Proof.
  intros Ht. unfold template_excluded. destruct (template_instance_id c) as [t|]; [|done].
  by rewrite decide_False by (by apply Ht).
Qed.

Section scale_in.
Variable c : InstanceCluster.
Variable t : Z.
Hypothesis size_ok : Z.of_nat (size (members c)) ≤ u32_max.
Hypothesis t_ok : 0 ≤ t < Z.of_nat (size (members c)).
Hypothesis enough :
  Z.of_nat (size (members c)) - t ≤ Z.of_nat (size (removable_members c)).

Lemma scale_in_count : u32_sub (current_count c) t = current_count c - t ∧
  current_count c = Z.of_nat (size (members c)).
Proof using size_ok t_ok.
  assert (Hc : current_count c = Z.of_nat (size (members c))).
  { unfold current_count, usize_as_u32. rewrite u32_wrap_small; widths; lia. }
  unfold u32_sub. rewrite Hc, u32_wrap_small; widths; lia.
Qed.

(** The instances to remove. *)
Let ids := select_instances_to_remove (Z.to_nat (current_count c - t)) c.

Lemma selected_enough : Z.of_nat (length ids) = current_count c - t.
Proof using size_ok t_ok enough.
  unfold ids. rewrite length_selected. destruct scale_in_count as [_ Hc]. rewrite Hc. lia.
Qed.

Lemma selected_members i : i ∈ ids → is_Some (members c !! i).
Proof using Type. intros (mb & Hmb & _)%selected_removable. eauto. Qed.

Lemma selected_not_template tm : template_instance_id c = Some tm → tm ∉ ids.
Proof using Type. intros Htm (mb & _ & Hne)%selected_removable. congruence. Qed.

Lemma size_scaled_in : Z.of_nat (size (scaled_in t c)) = t.
Proof using size_ok t_ok enough.
  pose proof (size_delete_all ids (members c) (selected_NoDup _ _) selected_members) as Hs.
  pose proof selected_enough. destruct scale_in_count as [_ Hc]. unfold scaled_in.
  fold ids. lia.
Qed.

Lemma apply_scale_in now :
  apply_configuration_changes now (ScaleIn t None) c = (set_members (scaled_in t c) c, Ok ()).
Proof using size_ok t_ok enough.
  destruct scale_in_count as [Hsub Hc]. simpl. rewrite Hsub. fold ids.
  rewrite template_excluded_ok by apply selected_not_template. simpl.
  rewrite ids_exist_ok by apply selected_members.
  change (foldl (λ ms i, delete i ms) (members c) ids) with (scaled_in t c).
  f_equal. unfold check_count, current_count, usize_as_u32. cbn [members set_members].
  rewrite size_scaled_in, u32_wrap_small, Z.eqb_refl by (widths; lia). done.
Qed.

Lemma allocate_scale_in fetch now u :
  allocate_resources_for_operation fetch now u (ScaleIn t None) c = Ok ids.
Proof using size_ok t_ok enough.
  destruct scale_in_count as [Hsub Hc]. pose proof selected_enough as Hl.
  unfold allocate_resources_for_operation. cbn [template_instance_id].
  rewrite Hsub. fold ids.
  destruct (_ =? 0) eqn:E; bool_to_prop; [lia|].
  destruct (_ <? _) eqn:E2; bool_to_prop; [lia|]. by destruct (template_instance_id c).
Qed.
End scale_in.

(** *** Clones *)

Lemma clone_id_inj tid i j : clone_id tid i = clone_id tid j → i = j.
Proof.
  unfold clone_id. intros Heq. repeat apply (inj (String.append _)) in Heq.
  apply (inj pretty) in Heq. lia.
Qed.

Section clones.
Variable tid : string.
Variable tm : ClusterMember.
Variable now : Z.
Variables a b x d : Z.
Hypothesis tm_v4 : instance_formnet_ip tm = V4 a b x d.

(** The i-th clone. *)
Let clone (i : nat) : ClusterMember :=
  member_like tm (clone_id tid i) (V4 a b x ((d + Z.of_nat (i + 1)) mod 256)) now.
Let clones (idx : list nat) (ms : gmap string ClusterMember) : gmap string ClusterMember :=
  foldl (λ ms i, <[clone_id tid i := clone i]> ms) ms idx.

Lemma scaled_out_clones n ms : scaled_out tid tm now n ms = clones (seq 0 n) ms.
Proof using tm_v4. unfold scaled_out, clones. by rewrite tm_v4. Qed.

Lemma add_clones_ok idx c :
  add_clones tid tm now idx c = (set_members (clones idx (members c)) c, Ok ()).
Proof using tm_v4.
  revert c. induction idx as [|i idx IH]; intros c; simpl; [by destruct c|].
  rewrite tm_v4. simpl. by rewrite IH.
Qed.

Lemma size_clones_le idx ms : (size (clones idx ms) ≤ size ms + length idx)%nat.
Proof using tm_v4.
  revert ms. induction idx as [|i idx IH]; intros ms; simpl; [lia|].
  etransitivity; [apply IH|]. rewrite map_size_insert. case_match; simpl; lia.
Qed.

Lemma lookup_clones_ne idx ms k :
  (∀ i, i ∈ idx → k ≠ clone_id tid i) → clones idx ms !! k = ms !! k.
Proof using tm_v4.
  revert ms. induction idx as [|i idx IH]; intros ms Hk; simpl; [done|].
  rewrite IH by set_solver. apply lookup_insert_ne. symmetry. apply Hk. set_solver.
Qed.

Lemma lookup_clones idx ms i :
  NoDup idx → i ∈ idx → clones idx ms !! clone_id tid i = Some (clone i).
Proof using tm_v4.
  revert ms. induction idx as [|j idx IH]; intros ms Hnd Hi; [set_solver|].
  apply NoDup_cons in Hnd as [Hj Hnd]. simpl. destruct (decide (i = j)) as [->|Hne].
  - rewrite lookup_clones_ne; [apply lookup_insert_eq|].
    intros k Hk ->%clone_id_inj. done.
  - apply IH; [done|set_solver].
Qed.

Lemma size_clones_fresh idx ms :
  NoDup idx → (∀ i, i ∈ idx → ms !! clone_id tid i = None) →
  size (clones idx ms) = (size ms + length idx)%nat.
Proof using tm_v4.
  revert ms. induction idx as [|j idx IH]; intros ms Hnd Hf; simpl; [lia|].
  apply NoDup_cons in Hnd as [Hj Hnd]. rewrite IH; [|done|].
  - rewrite map_size_insert_None by (apply Hf; set_solver). lia.
  - intros i Hi. rewrite lookup_insert_ne; [apply Hf; set_solver|].
    intros ->%clone_id_inj. done.
Qed.

(** A first clone that exists already is overwritten, and one member is missing. *)
Lemma size_clones_clash n ms :
  is_Some (ms !! clone_id tid 0) → (0 < n)%nat →
  (size (clones (seq 0 n) ms) < size ms + n)%nat.
Proof using tm_v4.
  intros Hs Hn. destruct n as [|n]; [lia|]. cbn [seq clones foldl]. fold clones.
  pose proof (size_clones_le (seq 1 n) (<[clone_id tid 0 := clone 0]> ms)) as Hle.
  rewrite map_size_insert_Some, length_seq in Hle by done.
  unfold clones in *. simpl. lia.
Qed.
End clones.

(** The changes of a scale-out, up to the check of the count. *)
Lemma apply_scale_out now t c tid tm a b x d :
  template_instance_id c = Some tid → members c !! tid = Some tm →
  instance_formnet_ip tm = V4 a b x d →
  Z.of_nat (size (members c)) ≤ t ≤ u32_max →
  let ms := scaled_out tid tm now (Z.to_nat (t - Z.of_nat (size (members c)))) (members c) in
  apply_configuration_changes now (ScaleOut t) c =
    (set_members ms c, check_count t (set_members ms c)).
Proof.
  intros Htid Htm Hv4 Ht ms. unfold ms. simpl. unfold template_member. rewrite Htid, Htm.
  assert (u32_sub t (current_count c) = t - Z.of_nat (size (members c))) as ->.
  { unfold u32_sub, current_count, usize_as_u32.
    rewrite (u32_wrap_small (Z.of_nat _)) by (widths; lia).
    rewrite u32_wrap_small by (widths; lia). done. }
  rewrite (add_clones_ok _ _ _ _ _ _ _ Hv4), (scaled_out_clones _ _ _ _ _ _ _ Hv4). done.
Qed.

Lemma check_count_eq t c :
  Z.of_nat (size (members c)) ≤ u32_max →
  check_count t c = Ok () ↔ Z.of_nat (size (members c)) = t.
Proof.
  intros Hs. unfold check_count, current_count, usize_as_u32.
  rewrite u32_wrap_small by (widths; lia).
  destruct (_ =? t) eqn:E; bool_to_prop; simpl; split; done || lia.
Qed.

(** *** Replacements *)

Lemma append_cancel_r s x y : x +:+ s = y +:+ s → x = y.
Proof.
  assert (Hlen : ∀ u v, String.length (u +:+ v) = (String.length u + String.length v)%nat).
  { intros u v. induction u; simpl; [done|]. by rewrite IHu. }
  revert y. induction x as [|k x IH]; intros [|k' y] Heq; [done|..].
  - apply (f_equal String.length) in Heq. rewrite !Hlen in Heq. simpl in Heq. lia.
  - apply (f_equal String.length) in Heq. rewrite !Hlen in Heq. simpl in Heq. lia.
  - simpl in Heq. simplify_eq. f_equal. by apply IH.
Qed.

Lemma replacement_id_inj now i j : replacement_id i now = replacement_id j now → i = j.
Proof.
  unfold replacement_id. intros Heq. apply (inj (String.append _)) in Heq.
  by apply append_cancel_r in Heq.
Qed.

Lemma old_instances_ok tid ids c :
  tid ∉ ids → (∀ i, i ∈ ids → is_Some (members c !! i)) →
  ∃ olds, old_instances tid ids c = Ok olds ∧ olds.*1 = ids ∧
    ∀ i ip, (i, ip) ∈ olds → ∃ mb, members c !! i = Some mb ∧ ip = instance_formnet_ip mb.
Proof.
  induction ids as [|i ids IH]; intros Ht Hin.
  { exists []. split_and!; [done..|set_solver]. }
  destruct IH as (olds & Heq & Hfst & Holds); [set_solver..|].
  destruct (Hin i) as [mb Hmb]; [set_solver|].
  exists ((i, instance_formnet_ip mb) :: olds). simpl. rewrite Hmb, Heq.
  rewrite decide_False by set_solver. simpl. split_and!; [done|f_equal; exact Hfst|].
  intros j ip [[= -> ->]|Hj]%elem_of_cons; [eauto|by apply Holds].
Qed.

Lemma replace_members tm now olds ms :
  NoDup olds.*1 →
  (∀ i, i ∈ olds.*1 → is_Some (ms !! i) ∧ ms !! replacement_id i now = None) →
  replaced tm now olds ms (foldl (replace_member tm now) ms olds).
Proof.
  induction olds as [|[j ip] olds IH] using rev_ind; intros Hnd Hin.
  { split_and!; [set_solver|done|done]. }
  rewrite fmap_app in Hnd, Hin. apply NoDup_app in Hnd as (Hnd & Hdisj & _).
  destruct IH as (Hold & Hother & Hsize); [done|intros; apply Hin; set_solver|].
  rewrite foldl_snoc. set (R := foldl _ ms olds) in *.
  destruct (Hin j) as [[mb Hj] Hfj]; [set_solver|].
  assert (Hjn : j ∉ olds.*1) by (intros Hc; apply (Hdisj j Hc); set_solver).
  assert (Hne : ∀ i, i ∈ olds.*1 → j ≠ replacement_id i now).
  { intros i Hi ->. destruct (Hin i) as [_ Hn]; [set_solver|]. congruence. }
  assert (HRj : R !! j = Some mb) by (by rewrite Hother).
  assert (Hrn : replacement_id j now ∉ olds.*1).
  { intros Hc. destruct (Hin (replacement_id j now)) as [[? ?] _]; [set_solver|congruence]. }
  assert (HRr : R !! replacement_id j now = None).
  { rewrite Hother; [done|done|]. intros i Hi Heq%replacement_id_inj. by subst. }
  assert (Hjr : j ≠ replacement_id j now) by congruence.
  unfold replace_member. simpl. split_and!.
  - intros i ip' [Hi|[[= -> ->]|?%not_elem_of_nil]%elem_of_cons]%elem_of_app; [|split|done].
    + assert (Hi1 : i ∈ olds.*1) by (apply list_elem_of_fmap; by exists (i, ip')).
      destruct (Hold i ip' Hi) as [Hn Hs]. split.
      * rewrite lookup_insert_ne by set_solver. by rewrite lookup_delete_ne by set_solver.
      * rewrite lookup_insert_ne by (intros Heq%replacement_id_inj; by subst).
        rewrite lookup_delete_ne; [done|]. by apply Hne.
    + rewrite lookup_insert_ne by done. apply lookup_delete_eq.
    + apply lookup_insert_eq.
  - intros k Hk Hkr. rewrite fmap_app in Hk, Hkr.
    rewrite lookup_insert_ne by (symmetry; apply Hkr; set_solver).
    rewrite lookup_delete_ne by set_solver. apply Hother; [set_solver|].
    intros i Hi. apply Hkr. set_solver.
  - rewrite map_size_insert_None by (by rewrite lookup_delete_ne).
    rewrite (map_size_delete_Some j) by eauto. rewrite <- Hsize.
    destruct (size R) eqn:E; [|lia]. apply map_size_empty_inv in E. rewrite E in HRj. done.
Qed.

(** *** Scale-in *)

Lemma scale_in_works `{Serde} t c fetch :
  (∀ c', is_ok (to_json c') = true) →
  Z.of_nat (size (members c)) ≤ u32_max → 0 ≤ t < Z.of_nat (size (members c)) →
  Z.of_nat (size (members c)) - t ≤ Z.of_nat (size (removable_members c)) →
  is_ok (plan_scaling_operation fetch (ScaleIn t None) c) = true ∧
  is_ok (prepare_instances (ScaleIn t None)
           (select_instances_to_remove (Z.to_nat (current_count c - t)) c) c) = true ∧
  is_ok (verify_scaling_operation (ScaleIn t None) (set_members (scaled_in t c) c)) = true.
Proof.
  intros Hj Hs Ht He. split_and!.
  - simpl. destruct (_ =? 0); done.
  - unfold prepare_instances. specialize (Hj c). destruct (to_json c); [|done]. simpl.
    rewrite ids_exist_ok by apply selected_members. simpl.
    rewrite template_excluded_ok by apply selected_not_template. done.
  - simpl. unfold current_count, usize_as_u32. simpl.
    rewrite (size_scaled_in c t Hs Ht He), u32_wrap_small, Z.eqb_refl by (widths; lia). done.
Qed.

(** ** Theorems *)

(** C9: an operation ends: whatever the environment answers, after eight steps of
    a cluster with an operation under way the operation is completed, failed or
    cancelled, and the manager is consistent. *)
Theorem pipeline_ends `{Serde} es c m :
  scaling_manager c = Some m → manager_inv m → active (kind m) → (8 ≤ length es)%nat →
  ∃ m' k, scaling_manager (process_all es c) = Some m' ∧ manager_inv m' ∧
    kind m' = Some k ∧ rank k = 8%nat.
Proof.
  intros Hm Hinv Ha Hlen. destruct (kind m) as [k|] eqn:Hk; [|done].
  destruct (process_all_progress es c m k Hm Hinv Hk) as (m' & k' & ? & ? & ? & Hr).
  exists m', k'. split_and!; [done..|].
  assert (rank k' ≤ 8)%nat by (destruct k'; simpl; lia). lia.
Qed.

(** A scale-in of three members to two. *)
Lemma pipeline_ends_witness :
  ∃ m' k, scaling_manager (process_all (replicate 8 (quiet_env 1000)) scaling_in) = Some m' ∧
    manager_inv m' ∧ kind m' = Some k ∧ rank k = 8%nat.
Proof.
  destruct (scaling_manager scaling_in) as [m|] eqn:Hm; [|discriminate Hm].
  apply (pipeline_ends (replicate 8 (quiet_env 1000)) scaling_in m Hm).
  - vm_compute in Hm. injection Hm as <-. exists []. eexists. split; [reflexivity|].
    split; [constructor|]. repeat split.
  - vm_compute in Hm. injection Hm as <-. simpl. lia.
  - simpl. lia.
Defined.

(** C10: a scale-in to [t] members that names no instances completes, when it is
    admissible at its validation (a policy is set, [t] is below the size and not below
    the minimum, no cooldown runs), at least as many members other than the template
    exist as have to go, snapshots can be serialised, and each of eight steps comes
    within a bound [B] that no timeout of a phase is below.  The steps remove exactly
    the instances with the oldest heartbeats besides the template, leave [t] members,
    the others and the template unchanged, and record the cooldown. *)
Theorem scale_in_completes `{Serde} (ts : gmap string Z) B t s p b c e1 e2 e3 e4 e5 e6 e7 e8 :
  (∀ c', is_ok (to_json c') = true) →
  (∀ ph T, ts !! ph = Some T → B ≤ u64_as_i64 T) →
  at_phase (Requested (ScaleIn t None) s) ts b c →
  timely B s [e1; e2; e3; e4; e5; e6; e7; e8] = true →
  scaling_policy b = Some p → admissible (now_work e2) (ScaleIn t None) p b →
  Z.of_nat (size (members b)) ≤ u32_max → 0 ≤ t →
  Z.of_nat (size (members b)) - t ≤ Z.of_nat (size (removable_members b)) →
  let c' := process_all [e1; e2; e3; e4; e5; e6; e7; e8] c in
  members c' = scaled_in t b ∧ Z.of_nat (size (members c')) = t ∧
  template_instance_id c' = template_instance_id b ∧
  scaling_policy c' = Some (record_scale_in (now_work e8) p) ∧
  ∃ m, scaling_manager c' = Some m ∧ kind m = Some KCompleted.
Proof.
  intros Hj HB P1 Htime Hp Hadm Hs Ht0 He c'.
  assert (Ht : 0 ≤ t < Z.of_nat (size (members b))).
  { destruct Hadm as ([_ Hlt] & _). unfold current_count, usize_as_u32 in Hlt.
    rewrite u32_wrap_small in Hlt by (widths; lia). lia. }
  simpl in Htime. bool_to_prop.
  pose proof (λ m, scale_in_works t (set_manager m b) (env_fetch e3)
    Hj Hs Ht He) as Hw.
  apply (step_requested ts B HB _ _ e1) in P1; [|done].
  eapply (step_validating ts B HB _ _ e2) in P1 as [x P2]; [| |done].
  2: { intros m. by apply (validate_admissible _ _ (set_manager m b) p). }
  eapply (step_planning ts B HB _ _ _ e3) in P2 as [y P3]; [|intros m; apply (Hw m)|done].
  eapply (step_allocating ts B HB _ _ _ e4 b _
    (select_instances_to_remove (Z.to_nat (current_count b - t)) b)) in P3;
    [|intros m; apply (allocate_scale_in (set_manager m b) t Hs Ht He)|done].
  eapply (step_preparing ts B HB _ _ _ e5) in P3 as [z P4]; [|intros m; apply (Hw m)|done].
  eapply (step_configuring ts B HB _ _ _ e6 _ (set_members (scaled_in t b) b)) in P4;
    [|intros m; apply (apply_scale_in (set_manager m b) t Hs Ht He)|done].
  eapply (step_verifying ts B HB _ _ _ e7) in P4 as [w P5]; [|intros m; apply (Hw m)|done].
  eapply (step_finalizing ts B HB _ _ _ e8) in P5 as (q & (m & Hc & Hq & _) & Hk); [|done].
  unfold c', process_all. cbn [foldl]. rewrite Hc.
  unfold finalize_scaling_operation. simpl. rewrite Hp. simpl. split_and!; try done.
  - by apply size_scaled_in.
  - exists m. split; [done|]. unfold kind. by rewrite Hq, <- Hk.
Qed.

(** Three members, of which "b" has the oldest heartbeat besides the template. *)
Lemma scale_in_completes_witness :
  let c' := process_all (replicate 8 (quiet_env 1000)) scaling_in in
  members c' !! "b" = None ∧ Z.of_nat (size (members c')) = 2 ∧
  ∃ m, scaling_manager c' = Some m ∧ kind m = Some KCompleted.
Proof.
  cbv zeta. cbn [replicate].
  destruct (scale_in_completes (phase_timeouts (requested_manager (ScaleIn 2 None))) 300 2 1000
    with_defaults three_members scaling_in (quiet_env 1000) (quiet_env 1000) (quiet_env 1000)
    (quiet_env 1000) (quiet_env 1000) (quiet_env 1000) (quiet_env 1000) (quiet_env 1000))
    as (Hm & Hs & _ & _ & Hk).
  - done.
  - assert (Hall : map_Forall (λ _ T, 300 ≤ u64_as_i64 T)
      (phase_timeouts (requested_manager (ScaleIn 2 None)))).
    { apply (bool_decide_unpack _). vm_compute. exact I. }
    intros ph T. apply Hall.
  - exists (requested_manager (ScaleIn 2 None)). done.
  - vm_compute. reflexivity.
  - reflexivity.
  - split_and!; [vm_compute; discriminate|vm_compute; reflexivity|
      intros i Hi; inversion Hi|reflexivity].
  - vm_compute. discriminate.
  - lia.
  - vm_compute. discriminate.
  - split_and!; [rewrite Hm; vm_compute; reflexivity|exact Hs|exact Hk].
Defined.

(** Configuring a scale-out whose new identifiers are free succeeds: exactly
    the missing members are added, modelled on the template with addresses counted
    up from its own, and every member there was is kept as it was. *)
Theorem scale_out_applied now t c tid tm a b x d :
  template_instance_id c = Some tid → members c !! tid = Some tm →
  instance_formnet_ip tm = V4 a b x d →
  Z.of_nat (size (members c)) ≤ t ≤ u32_max →
  let n := Z.to_nat (t - Z.of_nat (size (members c))) in
  (∀ i, (i < n)%nat → members c !! clone_id tid i = None) →
  let '(c', r) := apply_configuration_changes now (ScaleOut t) c in
  r = Ok () ∧ Z.of_nat (size (members c')) = t ∧
  (∀ k mb, members c !! k = Some mb → members c' !! k = Some mb) ∧
  (∀ i, (i < n)%nat → members c' !! clone_id tid i =
     Some (member_like tm (clone_id tid i) (V4 a b x ((d + Z.of_nat (i + 1)) mod 256)) now)).
Proof.
  intros Htid Htm Hv4 Ht n Hfresh. rewrite (apply_scale_out now t c tid tm a b x d) by done.
  fold n. rewrite (scaled_out_clones _ _ _ _ _ _ _ Hv4).
  assert (Hf : ∀ i, i ∈ seq 0 n → members c !! clone_id tid i = None).
  { intros i Hi%elem_of_seq. apply Hfresh. lia. }
  pose proof (size_clones_fresh tid tm now a b x d Hv4 (seq 0 n) (members c)
    (NoDup_seq _ _) Hf) as Hsize. rewrite length_seq in Hsize.
  split_and!.
  - apply check_count_eq; simpl; rewrite Hsize; lia.
  - simpl. rewrite Hsize. lia.
  - intros k mb Hk. simpl. rewrite (lookup_clones_ne _ _ _ _ _ _ _ Hv4); [done|].
    intros i Hi ->. by rewrite Hf in Hk.
  - intros i Hi. simpl. apply (lookup_clones _ _ _ _ _ _ _ Hv4); [apply NoDup_seq|].
    apply elem_of_seq. lia.
Qed.


(** A second scale-out fails: when the cluster has the first clone of its
    template already, configuring any scale-out overwrites that member with a
    starting one, misses the count and returns an error, leaving the changes. *)
Theorem repeated_scale_out_fails now t c tid tm a b x d :
  template_instance_id c = Some tid → members c !! tid = Some tm →
  instance_formnet_ip tm = V4 a b x d →
  Z.of_nat (size (members c)) < t ≤ u32_max →
  is_Some (members c !! clone_id tid 0) →
  let '(c', r) := apply_configuration_changes now (ScaleOut t) c in
  (∃ msg, r = Err (mkScalingError "ScalingFailed" msg "Configuring")) ∧
  members c' !! clone_id tid 0 =
    Some (member_like tm (clone_id tid 0) (V4 a b x ((d + 1) mod 256)) now).
Proof.
  intros Htid Htm Hv4 Ht Hclash. rewrite (apply_scale_out now t c tid tm a b x d) by (done || lia).
  set (n := Z.to_nat _).
  assert (Hn : Z.of_nat n = t - Z.of_nat (size (members c))) by (unfold n; lia).
  clearbody n. rewrite (scaled_out_clones _ _ _ _ _ _ _ Hv4). split.
  - pose proof (size_clones_clash tid tm now a b x d Hv4 n (members c) Hclash ltac:(lia)) as Hlt.
    match type of Hlt with (size ?x < _)%nat => set (ms := x) in * end.
    pose proof (check_count_eq t (set_members ms c)) as Hcc. cbn [members set_members] in Hcc.
    unfold check_count in *. destruct (negb _); [eauto|].
    destruct Hcc as [Hcc _]; [lia|]. specialize (Hcc eq_refl). lia.
  - simpl. apply (lookup_clones _ _ _ _ _ _ _ Hv4); [apply NoDup_seq|].
    apply elem_of_seq. lia.
Qed.


(** Configuring a replacement succeeds when the instances are members other
    than the template and the new identifiers are free: each is replaced by a
    starting member with its address, the others are kept, and their number is
    the same. *)
Theorem replace_applied now ids c tid tm :
  template_instance_id c = Some tid → members c !! tid = Some tm →
  NoDup ids → tid ∉ ids →
  (∀ i, i ∈ ids → is_Some (members c !! i) ∧ members c !! replacement_id i now = None) →
  let '(c', r) := apply_configuration_changes now (ReplaceInstances ids) c in
  r = Ok () ∧ size (members c') = size (members c) ∧
  (∀ i mb, i ∈ ids → members c !! i = Some mb →
     members c' !! i = None ∧
     members c' !! replacement_id i now =
       Some (member_like tm (replacement_id i now) (instance_formnet_ip mb) now)) ∧
  (∀ k mb, k ∉ ids → members c !! k = Some mb → members c' !! k = Some mb).
Proof.
  intros Htid Htm Hnd Ht Hin. simpl. unfold template_member. rewrite Htid, Htm.
  destruct (old_instances_ok tid ids c Ht (λ i Hi, proj1 (Hin i Hi)))
    as (olds & -> & Hfst & Holds).
  destruct (replace_members tm now olds (members c)) as (Hold & Hother & Hsize);
    [by rewrite Hfst|rewrite Hfst; exact Hin|].
  rewrite Hfst in Hother. cbn [members set_members].
  rewrite Hsize, Nat.eqb_refl. split_and!; [done|done| |].
  - intros i mb Hi Hmb.
    assert (∃ ip, (i, ip) ∈ olds) as [ip Hip].
    { rewrite <- Hfst in Hi. apply list_elem_of_fmap in Hi as ([j ip] & -> & Hj). eauto. }
    destruct (Holds i ip Hip) as (mb' & Hmb' & ->). simplify_eq. by apply Hold.
  - intros k mb Hk Hmb. rewrite Hother; [done|done|].
    intros i Hi ->. destruct (Hin i Hi) as [_ Hn]. congruence.
Qed.

