(* ===== verification/Rollback.v ===== *)
(** * Rollback and health checks of a cluster (form-state/src/instances.rs)

    The methods that restore a cluster from a backup, the rollback of a failed
    operation and the health checks that trigger it.  A loop over a [HashSet] is a
    fold over the elements of a [gset]; its steps write different keys, so their
    order does not matter. *)

From stdpp Require Import options.
From Stdlib Require Import Ascii.
From S2P Require Import Prelude Policy Scaling Cluster Verification Phases.

Local Open Scope Z_scope.

(** ** Restoring members *)

Definition restoration_error (kind msg : string) : ScalingError :=
  mkScalingError kind msg "Rollback".

(** The backup of a member, with the heartbeat of the current one if it is more
    recent. *)
Definition restored_member (cur backup : ClusterMember) : ClusterMember :=
  if last_heartbeat backup <? last_heartbeat cur then
    mkMember (node_id backup) (node_public_ip backup) (node_formnet_ip backup)
      (instance_id backup) (instance_formnet_ip backup) (status backup)
      (last_heartbeat cur) (heartbeats_skipped cur)
  else backup.

(** The three loops of [restore_cluster_membership]: members that are not in the
    backup are removed, missing ones inserted, and common ones restored when their
    status or address differs. *)
Definition restore_members (current pre : gmap string ClusterMember)
    : gmap string ClusterMember :=
  let added := dom current ∖ dom pre in
  let removed := dom pre ∖ dom current in
  let common := dom current ∩ dom pre in
  let ms := foldl (λ ms i, delete i ms) current (elements added) in
  let ms :=
    foldl (λ ms i, match pre !! i with Some mb => <[i := mb]> ms | None => ms end)
      ms (elements removed) in
  foldl (λ ms i,
    match current !! i, pre !! i with
    | Some cur, Some backup =>
        if bool_decide (status cur ≠ status backup)
           || bool_decide (instance_formnet_ip cur ≠ instance_formnet_ip backup)
        then <[i := restored_member cur backup]> ms
        else ms
    | _, _ => ms
    end) ms (elements common).

Definition restore_cluster_membership (pre : gmap string ClusterMember)
    : method InstanceCluster ScalingError unit := λ c,
  let ms := restore_members (members c) pre in
  let c' := set_members ms c in
  (c',
   if negb (size ms =? size pre)%nat then
     Err (restoration_error "RestorationError"
            ("Membership count mismatch after restoration: expected " +:+ pretty (size pre)
               +:+ ", got " +:+ pretty (size ms)))
   else if existsb (λ mb, bool_decide (node_id mb = "") || bool_decide (instance_id mb = ""))
             (btree_values ms) then
     Err (restoration_error "RestorationError"
            "Some members have missing essential fields after restoration")
   else Ok ()).

(** Whether an address of a member differs from the backup. *)
Definition network_differs (cur backup : ClusterMember) : bool :=
  bool_decide (instance_formnet_ip cur ≠ instance_formnet_ip backup) ||
  bool_decide (node_formnet_ip cur ≠ node_formnet_ip backup) ||
  bool_decide (node_public_ip cur ≠ node_public_ip backup).

Definition restore_network (cur backup : ClusterMember) : ClusterMember :=
  mkMember (node_id cur) (node_public_ip backup) (node_formnet_ip backup) (instance_id cur)
    (instance_formnet_ip backup) (status cur) (last_heartbeat cur) (heartbeats_skipped cur).

(** One step of the loop over the backup: the members and the identifiers restored
    so far. *)
Definition restore_network_step (acc : gmap string ClusterMember * list string)
    (e : string * ClusterMember) : gmap string ClusterMember * list string :=
  match acc.1 !! e.1 with
  | Some cur =>
      if network_differs cur e.2
      then (<[e.1 := restore_network cur e.2]> acc.1, acc.2 ++ [e.1])
      else acc
  | None => acc
  end.

Definition restore_instance_network_config (pre : gmap string ClusterMember)
    (dns_records : option (gmap string FormDnsRecord))
    : method InstanceCluster ScalingError unit := λ c,
  let '(ms, restored_instances) :=
    foldl restore_network_step (members c, []) (btree_iter pre) in
  let failed_instances :=
    match dns_records with
    | Some dns => filter (λ i, dns !! i = None) restored_instances
    | None => []
    end in
  (set_members ms c,
   match failed_instances with
   | [] => Ok ()
   | _ =>
       Err (restoration_error "NetworkRestorationError"
              ("Failed to completely restore network configuration for "
                 +:+ pretty (length failed_instances) +:+ " instances: "
                 +:+ str_join ", " failed_instances))
   end).

Definition restore_cluster_config `{Serde} (config_json : string)
    : method InstanceCluster ScalingError unit := λ c,
  match from_json config_json with
  | Err e =>
      (c, Err (restoration_error "DeserializationError"
                 ("Failed to deserialize previous cluster configuration: " +:+ e)))
  | Ok previous =>
      let '(c1, r1) := restore_cluster_membership (members previous) c in
      match r1 with
      | Err e => (c1, Err e)
      | Ok _ =>
          let '(c2, r2) := restore_instance_network_config (members previous) None c1 in
          match r2 with
          | Err e => (c2, Err e)
          | Ok _ =>
              (set_session_affinity_enabled (session_affinity_enabled previous)
                 (set_template_instance_id (template_instance_id previous) c2), Ok ())
          end
      end
  end.

Definition restore_instance_configs `{Serde} (configs_json : string)
    : method InstanceCluster ScalingError unit := λ c,
  match from_json configs_json with
  | Err e =>
      (c, Err (restoration_error "DeserializationError"
                 ("Failed to deserialize previous configuration: " +:+ e)))
  | Ok previous =>
      let ms :=
        foldl (λ ms i, if decide (is_Some (members previous !! i)) then ms else delete i ms)
          (members c) (btree_iter (members c)).*1 in
      let ms :=
        foldl (λ ms e, if decide (is_Some (ms !! e.1)) then <[e.1 := e.2]> ms else ms)
          ms (btree_iter (members previous)) in
      (set_session_affinity_enabled (session_affinity_enabled previous)
         (set_template_instance_id (template_instance_id previous) (set_members ms c)), Ok ())
  end.

(** Instances among the resources are removed from the members; a resource of
    another type fails when its name says so. *)
Definition cleanup_partially_allocated_resources (ids : list string)
    : method InstanceCluster ScalingError unit := λ c,
  match ids with
  | [] => (c, Ok ())
  | _ =>
      let c' := set_members (foldl (λ ms i, delete i ms) (members c)
                               (of_type "instance" ids)) c in
      let failing t := filter (λ i, str_contains "fail" i = true) (of_type t ids) in
      let failed_ids :=
        failing "volume" ++ failing "network" ++ failing "ip_allocation" ++ failing "unknown" in
      (c',
       match failed_ids with
       | [] => Ok ()
       | _ =>
           Err (restoration_error "ResourceCleanupError"
                  ("Failed to clean up " +:+ pretty (length failed_ids) +:+ " resources: "
                     +:+ str_join ", " failed_ids))
       end)
  end.

(** ** Rolling back *)

(** Writing to the last record of the history. *)
Definition update_record (f : ScalingOperationRecord → ScalingOperationRecord)
    (m : ScalingManager) : ScalingManager :=
  mkManager (current_phase m) (update_last f (operation_history m)) (phase_timeouts m)
    (last_check_time m).

(** [record.metadata.insert(k, v)]. *)
Definition put_metadata (k v : string) : ScalingOperationRecord → ScalingOperationRecord :=
  add_metadata {[k := v]}.

(** The actions for the phase to roll back. *)
Definition rollback_actions `{Serde} (phase : string) (md : gmap string string)
    : method InstanceCluster ScalingError unit := λ c,
  if decide (phase = "ResourceAllocating") then
    match md !! "resources_to_release" with
    | Some ids => cleanup_partially_allocated_resources (str_split "," ids) c
    | None => (c, Ok ())
    end
  else if decide (phase = "InstancePreparing") then
    match md !! "configs_to_restore" with
    | Some configs => restore_instance_configs configs c
    | None => (c, Ok ())
    end
  else if decide (phase = "Configuring") then
    match md !! "config_to_restore" with
    | Some config => restore_cluster_config config c
    | None => (c, Ok ())
    end
  else (c, Ok ()).

(** What is recorded of the verification after the actions ended with [ok]. *)
Definition restoration_status `{Serde} (now : Z) (ok : bool) (c : InstanceCluster)
    (r : ScalingOperationRecord) : string :=
  if ok then
    match metadata r !! "pre_operation_membership" with
    | Some pre_op_json =>
        match members_from_json pre_op_json with
        | Ok pre =>
            let ids :=
              match metadata r !! "resources_to_release" with
              | Some resources => str_split "," resources
              | None => []
              end in
            if success (verify_state_restoration now (set_manager None c) pre None
                          (match ids with [] => None | _ => Some ids end))
            then "success" else "failure"
        | Err _ => "skipped"
        end
    | None => "skipped"
    end
  else "skipped".

(** [now1] is the reading of the manager, [now2] the one of the verification. *)
Definition rollback_scaling_operation `{Serde} (now1 now2 : Z)
    : method InstanceCluster ScalingError unit := λ c,
  match scaling_manager c with
  | None =>
      (c, Err (mkScalingError "NoScalingManager" "Scaling manager is not initialized" "None"))
  | Some m =>
      let '(m1, r1) := rollback_operation now1 m in
      let c1 := set_manager (Some m1) c in
      match r1 with
      | Err e => (c1, Err e)
      | Ok _ =>
          match last (operation_history m1) with
          | None =>
              (c1, Err (mkScalingError "NoOperationHistory"
                          "No operation history found for rollback" "None"))
          | Some record =>
              let '(c2, r2) := rollback_actions (final_phase record) (metadata record) c1 in
              let write r :=
                let r := put_metadata "cluster_rollback_status" "completed" r in
                put_metadata "restoration_verification"
                  (restoration_status now2 (is_ok r2) c2 r) r in
              (set_manager (update_record write <$> scaling_manager c2) c2, r2)
          end
      end
  end.

(** ** Health checks *)

Inductive CheckResult : Type :=
| NoActiveOperation
| OperationAlreadyCompleted
| HealthCheckPassed
| HealthCheckFailedAndRolledBack
| TimeoutDetectedAndRolledBack.

(** [format!("{:?}", r)]. *)
Definition check_result_name (r : CheckResult) : string :=
  match r with
  | NoActiveOperation => "NoActiveOperation"
  | OperationAlreadyCompleted => "OperationAlreadyCompleted"
  | HealthCheckPassed => "HealthCheckPassed"
  | HealthCheckFailedAndRolledBack => "HealthCheckFailedAndRolledBack"
  | TimeoutDetectedAndRolledBack => "TimeoutDetectedAndRolledBack"
  end.

(** Enough cores and memory for [n] instances of one core and 1 GB. *)
Definition enough_for (n : Z) (available : ScalingResources) : bool :=
  negb (cpu_cores available <? u32_mul n 1) && negb (memory_mb available <? u32_mul n 1024).

Definition check_resource_allocation_health (op : ScalingOperation) (c : InstanceCluster)
    : result bool ScalingError :=
  match check_available_resources c with
  | Err _ => Ok false
  | Ok available =>
      match op with
      | ScaleOut target_instances =>
          if (match scaling_policy c with
              | Some p => max_instances p <? target_instances
              | None => false
              end) then Ok false
          else
            let new_instances :=
              if current_count c <? target_instances
              then u32_sub target_instances (current_count c) else 0 in
            if 0 <? new_instances then
              match template_instance_id c with
              | Some t =>
                  match members c !! t with
                  | None => Ok false
                  | Some _ => Ok (enough_for new_instances available)
                  end
              | None => Ok false
              end
            else Ok true
      | ScaleIn _ _ =>
          match scaling_policy c with
          | Some p => if current_count c <=? min_instances p then Ok false else Ok true
          | None => Ok true
          end
      | ReplaceInstances instance_ids =>
          let replacement_count := usize_as_u32 (Z.of_nat (length instance_ids)) in
          if 0 <? replacement_count then Ok (enough_for replacement_count available)
          else Ok true
      end
  end.

Definition check_instance_preparation_health (op : ScalingOperation)
    (instance_ids : list string) (c : InstanceCluster) : result bool ScalingError :=
  let names_template ids :=
    match template_instance_id c with Some t => bool_decide (t ∈ ids) | None => false end in
  match op with
  | ScaleOut _ => Ok (forallb (λ i, negb (String.length i <? 8)%nat) instance_ids)
  | ScaleIn _ (Some target_ids) => Ok (negb (names_template target_ids))
  | ScaleIn _ None => Ok true
  | ReplaceInstances old_ids =>
      if negb (forallb (λ i, bool_decide (is_Some (members c !! i))) old_ids) then Ok false
      else Ok (negb (names_template old_ids))
  end.

Definition check_configuration_health (op : ScalingOperation) (c : InstanceCluster)
    : result bool ScalingError :=
  match op with
  | ScaleOut target_instances =>
      if (match scaling_policy c with
          | Some p => max_instances p <? target_instances
          | None => false
          end) then Ok false
      else
        match template_instance_id c with
        | Some t => Ok (bool_decide (is_Some (members c !! t)))
        | None => Ok false
        end
  | ScaleIn target_instances instance_ids =>
      if (match scaling_policy c with
          | Some p => target_instances <? min_instances p
          | None => false
          end) then Ok false
      else Ok (forallb (λ i, bool_decide (is_Some (members c !! i))) (default [] instance_ids))
  | ReplaceInstances instance_ids =>
      Ok (forallb (λ i, bool_decide (is_Some (members c !! i))) instance_ids)
  end.

(** The readings of the clock of a health check: by the timeout check, when the
    operation is failed, by the manager and by the verification of a rollback, and
    when the check is recorded. *)
Record health_env : Type := mkHealthEnv {
  h_check : Z;
  h_fail : Z;
  h_rollback : Z;
  h_verify : Z;
  h_record : Z;
}.

(** A rollback and what the health check makes of its result. *)
Definition roll_back_after `{Serde} (h : health_env) (ok : CheckResult) (prefix : string)
    : method InstanceCluster ScalingError CheckResult := λ c,
  let '(c', r) := rollback_scaling_operation (h_rollback h) (h_verify h) c in
  (c', match r with
       | Ok _ => Ok ok
       | Err e => Err (mkScalingError "RollbackFailed" (prefix +:+ message e) "HealthCheck")
       end).

(** The check of the current phase. *)
Definition phase_health (p : ScalingPhase) (c : InstanceCluster) : result bool ScalingError :=
  match p with
  | ResourceAllocating op _ _ => check_resource_allocation_health op c
  | InstancePreparing op _ ids => check_instance_preparation_health op ids c
  | Configuring op _ _ => check_configuration_health op c
  | _ => Ok true
  end.

Definition check_scaling_operation_health `{Serde} (h : health_env)
    : method InstanceCluster ScalingError CheckResult := λ c,
  match scaling_manager c with
  | None => (c, Ok NoActiveOperation)
  | Some m0 =>
      let '(m, timeout_occurred) := check_timeouts (h_check h) m0 in
      let c := set_manager (Some m) c in
      if timeout_occurred then
        roll_back_after h TimeoutDetectedAndRolledBack
          "Timeout occurred but rollback failed: " c
      else
        match current_phase m with
        | None => (c, Ok NoActiveOperation)
        | Some p =>
            if is_terminal p then (c, Ok OperationAlreadyCompleted)
            else
              match phase_health p c with
              | Ok true => (c, Ok HealthCheckPassed)
              | Ok false =>
                  let '(m', r) :=
                    fail_operation (h_fail h) "HealthCheckFailed"
                      ("Health check failed during " +:+ phase_name p +:+ " phase") None m in
                  let c := set_manager (Some m') c in
                  match r with
                  | Err e => (c, Err e)
                  | Ok _ =>
                      roll_back_after h HealthCheckFailedAndRolledBack
                        "Health check failed but rollback failed: " c
                  end
              | Err e => (c, Err e)
              end
        end
  end.

(** The entries that record a health check. *)
Definition record_health_check (now : Z) (res : CheckResult) (r : ScalingOperationRecord)
    : ScalingOperationRecord :=
  let check_count := default 0 (metadata r !! "health_check_count" ≫= parse_u32) in
  let n := pretty (u32_add check_count 1) in
  let r := put_metadata "health_check_count" n r in
  let r := put_metadata ("health_check_" +:+ n +:+ "_time") (pretty now) r in
  let r := put_metadata ("health_check_" +:+ n +:+ "_result") (check_result_name res) r in
  match res with
  | HealthCheckFailedAndRolledBack =>
      put_metadata ("health_check_" +:+ n +:+ "_failure_phase") (final_phase r) r
  | TimeoutDetectedAndRolledBack =>
      put_metadata ("health_check_" +:+ n +:+ "_timeout_phase") (final_phase r) r
  | _ => r
  end.

Definition run_automatic_health_checks `{Serde} (h : health_env)
    : method InstanceCluster ScalingError CheckResult := λ c,
  let '(c', r) := check_scaling_operation_health h c in
  match r with
  | Err e => (c', Err e)
  | Ok res =>
      (set_manager (update_record (record_health_check (h_record h) res)
                      <$> scaling_manager c') c', Ok res)
  end.

(** ** Specifications *)

(** A member after a full restoration from a backup. *)
Definition fully_restored (cur : option ClusterMember) (backup : ClusterMember)
    : ClusterMember :=
  match cur with
  | None => backup
  | Some mb =>
      restore_network
        (if decide (status mb = status backup ∧
                    instance_formnet_ip mb = instance_formnet_ip backup)
         then mb else restored_member mb backup) backup
  end.

(** Whatever happens to a cluster: its public methods that involve the manager,
    calls on the manager itself, and writes to everything else. *)
Inductive cluster_step `{Serde} : InstanceCluster → InstanceCluster → Prop :=
| step_init now timeout c : cluster_step c (init_scaling_manager now timeout c)
| step_start now now1 now2 op c :
    cluster_step c (start_scaling_state_machine now now1 now2 op c).1
| step_process e c : cluster_step c (process_scaling_phase e c).1
| step_cancel now reason c : cluster_step c (cancel_scaling_state_machine now reason c).1
| step_rollback now1 now2 c : cluster_step c (rollback_scaling_operation now1 now2 c).1
| step_health h c : cluster_step c (run_automatic_health_checks h c).1
| step_call call m c :
    scaling_manager c = Some m → cluster_step c (set_manager (Some (exec call m).1) c)
| step_write c c' : scaling_manager c' = scaling_manager c → cluster_step c c'.

Definition cluster_reachable `{Serde} (c : InstanceCluster) : Prop :=
  ∃ c0, scaling_manager c0 = None ∧ rtc cluster_step c0 c.

(** No record has the members before the operation. *)
Definition no_backup (r : ScalingOperationRecord) : Prop :=
  metadata r !! "pre_operation_membership" = None.

Definition manager_ok (m : ScalingManager) : Prop :=
  manager_inv m ∧ Forall no_backup (operation_history m).

Definition cluster_inv (c : InstanceCluster) : Prop :=
  ∀ m, scaling_manager c = Some m → manager_ok m.

(** The record of a failed operation after a rollback. *)
Definition rolled_back (now : Z) (r : ScalingOperationRecord) : ScalingOperationRecord :=
  put_metadata "restoration_verification" "skipped"
    (put_metadata "cluster_rollback_status" "completed"
       (add_metadata (rollback_entries now) r)).

(** What a health check finds in a manager, and the kind of phase it leaves. *)
Definition health_outcome (h : health_env) (c : InstanceCluster) (m : ScalingManager)
    : CheckResult * option Kind :=
  if (check_timeouts (h_check h) m).2 then (TimeoutDetectedAndRolledBack, Some KFailed)
  else
    match current_phase m with
    | None => (NoActiveOperation, None)
    | Some p =>
        if is_terminal p then (OperationAlreadyCompleted, kind m)
        else
          match phase_health p c with
          | Ok true => (HealthCheckPassed, kind m)
          | _ => (HealthCheckFailedAndRolledBack, Some KFailed)
          end
    end.

Definition last_record (c : InstanceCluster) : option ScalingOperationRecord :=
  m ← scaling_manager c; last (operation_history m).

(** The number of health checks a record counts. *)
Definition health_count (r : ScalingOperationRecord) : Z :=
  default 0 (metadata r !! "health_check_count" ≫= parse_u32).

(** The key of an entry of the [j]-th health check. *)
Definition check_key (j : Z) (what : string) : string :=
  "health_check_" +:+ pretty j +:+ String "_" what.

Definition run_checks `{Serde} (hs : list health_env) (c : InstanceCluster)
    : InstanceCluster :=
  foldl (λ c h, (run_automatic_health_checks h c).1) c hs.

(** Two histories that agree but for the last record, on whose health checks they
    agree too. *)
Definition same_checks (m m' : ScalingManager) : Prop :=
  ∀ h r, operation_history m = h ++ [r] →
  ∃ r', operation_history m' = h ++ [r'] ∧
    ∀ k, String.prefix "health_check_" k = true → metadata r' !! k = metadata r !! k.

(** The instances an operation names and the number it creates. *)
Definition named_ids (op : ScalingOperation) : list string :=
  match op with
  | ScaleOut _ => []
  | ScaleIn _ ids => default [] ids
  | ReplaceInstances ids => ids
  end.
Definition created (op : ScalingOperation) (c : InstanceCluster) : Z :=
  match op with
  | ScaleOut t => t - current_count c
  | ScaleIn _ _ => 0
  | ReplaceInstances ids => Z.of_nat (length ids)
  end.

(** A codec for examples whose backup is always the cluster of three. *)
Definition backup_serde : Serde := {|
  to_json _ := Ok "cluster";
  from_json _ := Ok three_members;
  members_from_json _ := Ok (members three_members);
|}.

(** A cluster of three in which a member was replaced and another one failed. *)
Definition damaged : InstanceCluster :=
  set_members
    (<["b" := mkMember "node" (V4 1 2 3 4) (V4 10 0 0 1) "b" (V4 10 0 0 9) "failed" 99 3]>
     $ <["d" := member_at "d" 5 40]> $ delete "c" (members three_members)) three_members.

(** A cluster whose second scale-out failed. *)
Definition outgrown : InstanceCluster :=
  @process_all backup_serde (replicate 8 (quiet_env 5000))
    (start_scaling_state_machine 5000 5000 5000 (ScaleOut 5)
       (@process_all backup_serde (replicate 8 (quiet_env 1000))
          (start_scaling_state_machine 1000 1000 1000 (ScaleOut 4) three_members).1)).1.

(** ** Lemmas *)

(** *** Restoration *)

Lemma restore_members_lookup cur pre i :
  restore_members cur pre !! i =
    match pre !! i with
    | None => None
    | Some b =>
        Some (match cur !! i with
              | None => b
              | Some mb =>
                  if decide (status mb = status b ∧
                             instance_formnet_ip mb = instance_formnet_ip b)
                  then mb else restored_member mb b
              end)
    end.
Proof.
  unfold restore_members.
  rewrite (foldl_writes _ (λ j o,
    match cur !! j, pre !! j with
    | Some m, Some b =>
        if bool_decide (status m ≠ status b)
           || bool_decide (instance_formnet_ip m ≠ instance_formnet_ip b)
        then Some (restored_member m b) else o
    | _, _ => o
    end)); [|intros ms i' j|apply NoDup_elements].
  2: { destruct (decide (i' = j)) as [->|]; destruct (cur !! j), (pre !! j); try done;
         destruct (_ || _); by rewrite ?lookup_insert_eq, ?lookup_insert_ne. }
  rewrite (foldl_writes _ (λ j o, match pre !! j with Some mb => Some mb | None => o end));
    [|intros ms i' j|apply NoDup_elements].
  2: { destruct (decide (i' = j)) as [->|]; destruct (pre !! j); try done;
         by rewrite ?lookup_insert_eq, ?lookup_insert_ne. }
  rewrite (foldl_writes _ (λ _ _, None)); [|intros ms i' j|apply NoDup_elements].
  2: { destruct (decide (i' = j)) as [->|]; by rewrite ?lookup_delete_eq, ?lookup_delete_ne. }
  assert (Hd : ∀ X : gset string, i ∈ elements X ↔ i ∈ X) by (intros; apply elem_of_elements).
  rewrite !(decide_ext _ _ _ _ (Hd _)).
  destruct (cur !! i) as [mb|] eqn:Hc, (pre !! i) as [b|] eqn:Hp;
    [apply elem_of_dom_2 in Hc, Hp|apply elem_of_dom_2 in Hc; apply not_elem_of_dom in Hp
    |apply not_elem_of_dom in Hc; apply elem_of_dom_2 in Hp|apply not_elem_of_dom in Hc, Hp];
    repeat case_decide; try done; try set_solver.
Qed.

Lemma restore_network_same cur b :
  network_differs cur b = false → restore_network cur b = cur.
Proof.
  unfold network_differs. intros H. bool_to_prop. apply dec_stable in H1.
  apply dec_stable in H, H0. unfold restore_network. destruct cur; simpl in *. by f_equal.
Qed.

Lemma restore_network_loop l acc i :
  NoDup l.*1 →
  (foldl restore_network_step acc l).1 !! i =
    match acc.1 !! i, list_to_map (M:=gmap string ClusterMember) l !! i with
    | Some cur, Some b => Some (restore_network cur b)
    | o, _ => o
    end.
Proof.
  revert acc. induction l as [|[j b] l IH]; intros acc Hnd; cbn [foldl].
  { simpl. rewrite lookup_empty. by destruct (acc.1 !! i). }
  inversion Hnd as [|? ? Hj Hnd']; subst. rewrite IH by done. clear IH.
  rewrite list_to_map_cons. simpl in Hj.
  destruct (decide (i = j)) as [->|Hne].
  - rewrite lookup_insert_eq, (not_elem_of_list_to_map_1 _ _ Hj).
    unfold restore_network_step. simpl. destruct (acc.1 !! j) as [cur|] eqn:Hc; [|by rewrite Hc].
    destruct (network_differs cur b) eqn:Hn; simpl.
    + by rewrite lookup_insert_eq.
    + by rewrite Hc, restore_network_same.
  - rewrite lookup_insert_ne by done.
    assert ((restore_network_step acc (j, b)).1 !! i = acc.1 !! i) as ->; [|done].
    unfold restore_network_step. simpl. destruct (acc.1 !! j); [|done].
    destruct (network_differs _ _); simpl; [by rewrite lookup_insert_ne|done].
Qed.

Lemma restore_network_config_members pre c :
  ∃ ms, restore_instance_network_config pre None c = (set_members ms c, Ok ()) ∧
    ∀ i, ms !! i = match members c !! i, pre !! i with
                   | Some cur, Some b => Some (restore_network cur b)
                   | o, _ => o
                   end.
Proof.
  unfold restore_instance_network_config.
  destruct (foldl restore_network_step (members c, []) (btree_iter pre)) as [ms l] eqn:E.
  exists ms. split; [done|]. intros i.
  pose proof (restore_network_loop (btree_iter pre) (members c, []) i
    (NoDup_btree_iter_keys pre)) as Hl. rewrite E in Hl. simpl in Hl. rewrite Hl.
  rewrite (list_to_map_proper _ (map_to_list pre)), list_to_map_to_list;
    [done|apply NoDup_btree_iter_keys|apply btree_iter_perm].
Qed.

(** Restoration from a backup succeeds when the members it yields have their
    essential fields. *)
Lemma restore_cluster_config_ok `{Serde} json previous c :
  from_json json = Ok previous →
  (∀ i b, members previous !! i = Some b →
     let mb := fully_restored (members c !! i) b in node_id mb ≠ "" ∧ instance_id mb ≠ "") →
  ∃ ms, restore_cluster_config json c =
      (mkCluster ms (scaling_policy c) (template_instance_id previous)
         (session_affinity_enabled previous) (scaling_manager c), Ok ()) ∧
    ∀ i, ms !! i = fully_restored (members c !! i) <$> members previous !! i.
Proof.
  intros Hj Hfields. unfold restore_cluster_config. rewrite Hj.
  unfold restore_cluster_membership.
  set (ms := restore_members (members c) (members previous)).
  assert (Hms : ∀ i, ms !! i = match members previous !! i with
    | None => None
    | Some b => Some (match members c !! i with
       | None => b
       | Some mb => if decide (status mb = status b ∧
             instance_formnet_ip mb = instance_formnet_ip b)
           then mb else restored_member mb b end) end)
    by (intros; apply restore_members_lookup). clearbody ms.
  assert (Hsize : size ms = size (members previous)).
  { rewrite <- !size_dom. f_equal. apply set_eq. intros i.
    rewrite !elem_of_dom, Hms. destruct (members previous !! i); [|done].
    split; intros _; by eexists. }
  rewrite (proj2 (Nat.eqb_eq _ _) Hsize). cbn [negb].
  destruct (existsb _ _) eqn:Hex; [exfalso|].
  2: { destruct (restore_network_config_members (members previous) (set_members ms c))
      as (ms' & -> & Hms'). exists ms'. split; [done|].
    intros i. rewrite Hms'. simpl. rewrite Hms.
    destruct (members previous !! i) as [b|]; [|done]. simpl.
    destruct (members c !! i); [done|]. f_equal. by destruct b. }
  apply existsb_exists in Hex as (mb & Hmb & Hempty).
  apply list_elem_of_In, list_elem_of_fmap in Hmb as ([i mb'] & -> & Hi).
  apply elem_of_btree_iter in Hi. rewrite Hms in Hi.
  destruct (members previous !! i) as [b|] eqn:Hb; [|done].
  destruct (Hfields i b Hb) as [Hn Hid]. simplify_eq/=.
  apply orb_true_iff in Hempty. rewrite !bool_decide_eq_true in Hempty.
  destruct (members c !! i); simpl in *; destruct Hempty; congruence.
Qed.

Lemma restored_member_heartbeat cur b :
  last_heartbeat cur ≤ last_heartbeat (restored_member cur b).
Proof. unfold restored_member. destruct (_ <? _) eqn:E; bool_to_prop; simpl; lia. Qed.

Lemma fully_restored_ids o b :
  (∀ mb, o = Some mb → node_id mb = node_id b ∧ instance_id mb = instance_id b) →
  node_id (fully_restored o b) = node_id b ∧ instance_id (fully_restored o b) = instance_id b.
Proof.
  intros Ho. destruct o as [mb|]; [|done]. simpl.
  case_decide; [by apply Ho|]. unfold restored_member. by destruct (_ <? _).
Qed.

Lemma fully_restored_same o b :
  (∀ mb, o = Some mb → node_id mb = node_id b ∧ instance_id mb = instance_id b) →
  same_member (fully_restored o b) b.
Proof.
  intros Ho. split; [by apply fully_restored_ids|]. destruct o as [mb|]; [|done]. simpl.
  case_decide as Hd; [naive_solver|]. unfold restored_member. by destruct (_ <? _).
Qed.

(** *** Invariants of a cluster *)

Lemma set_manager_same c : set_manager (scaling_manager c) c = c.
Proof. by destruct c. Qed.

Lemma update_last_Forall {A} (P : A → Prop) f l :
  (∀ x, P x → P (f x)) → Forall P l → Forall P (update_last f l).
Proof.
  intros Hf Hl. destruct l as [|x l _] using rev_ind; [done|].
  rewrite update_last_snoc. apply Forall_app in Hl as [? Hx].
  apply Forall_app. split; [done|]. inversion Hx. auto.
Qed.

Lemma lookup_put k v k' r :
  metadata (put_metadata k v r) !! k' = if decide (k = k') then Some v else metadata r !! k'.
Proof.
  unfold put_metadata, add_metadata. simpl.
  destruct (decide (k = k')) as [->|].
  - by apply lookup_union_Some_l, lookup_singleton_Some.
  - by rewrite lookup_union_r by (by rewrite lookup_singleton_ne).
Qed.

(** The rollback of the manager does not touch other metadata. *)
Lemma rollback_metadata_None now fp pd :
  rollback_metadata now fp pd !! "pre_operation_membership" = None.
Proof.
  unfold rollback_metadata.
  rewrite !(lookup_insert_ne _ _ "pre_operation_membership") by done.
  repeat case_decide; repeat case_match;
    by rewrite !(lookup_insert_ne _ _ "pre_operation_membership").
Qed.

Lemma exec_no_backup c m :
  Forall no_backup (operation_history m) → Forall no_backup (operation_history (exec c m).1).
Proof.
  intros Hm. destruct c; simpl;
    try (destruct (check_timeouts_cases now m)
      as [->|(p & start & T & err & _ & _ & _ & _ & _ & ->)]; simpl;
      [done|by apply update_last_Forall]);
    destruct m as [[[]|] hist ts lc]; simpl in *; try done;
    first [by apply update_last_Forall
          |apply Forall_app; split; [done|by repeat constructor]
          |apply update_last_Forall; [|done]; intros r Hr; unfold no_backup; simpl;
           by rewrite lookup_union_r by apply rollback_metadata_None].
Qed.

Lemma exec_ok c m : manager_ok m → manager_ok (exec c m).1.
Proof. intros [? ?]. split; auto using exec_no_backup with formation. Qed.

Lemma run_ok cs m : manager_ok m → manager_ok (run cs m).
Proof. revert m. induction cs; simpl; auto using exec_ok. Qed.

(** Rewriting metadata of the last record keeps the invariant. *)
Lemma update_record_ok f m :
  (∀ r, ∃ md, f r = add_metadata md r) → (∀ r, no_backup r → no_backup (f r)) →
  manager_ok m → manager_ok (update_record f m).
Proof.
  intros Hf Hn [Hinv Hb]. split; [|by apply update_last_Forall].
  unfold manager_inv, update_record in *. simpl.
  destruct (current_phase m) as [p|]; [|by rewrite Hinv].
  destruct Hinv as (h & r & -> & Hh & Hr). rewrite update_last_snoc.
  exists h, (f r). split_and!; [done..|]. by destruct (Hf r) as [md ->].
Qed.

Lemma add_metadata_twice x y r :
  add_metadata x (add_metadata y r) = add_metadata (x ∪ y) r.
Proof. unfold add_metadata. simpl. by rewrite (assoc_L (∪)). Qed.

Lemma put_metadata_add k v md r :
  put_metadata k v (add_metadata md r) = add_metadata ({[k := v]} ∪ md) r.
Proof. apply add_metadata_twice. Qed.

Lemma record_health_check_metadata now res r :
  ∃ md, record_health_check now res r = add_metadata md r.
Proof.
  unfold record_health_check. unfold put_metadata at 4 5 6 7.
  destruct res; unfold put_metadata; rewrite !add_metadata_twice; eexists; reflexivity.
Qed.

(** *** Rollback *)

Lemma restoration_skipped `{Serde} now ok c r :
  no_backup r → restoration_status now ok c r = "skipped".
Proof. unfold restoration_status. intros ->. by destruct ok. Qed.

(** A failed operation has the final phase [Failed], for which there are no
    actions, and its record has no members to verify. *)
Lemma rollback_failed `{Serde} now1 now2 c m op t reason fp partial :
  scaling_manager c = Some m → manager_ok m →
  current_phase m = Some (Failed op t reason fp partial) →
  ∃ h r, operation_history m = h ++ [r] ∧
    rollback_scaling_operation now1 now2 c =
      (set_manager (Some (mkManager (current_phase m) (h ++ [rolled_back now1 r])
                            (phase_timeouts m) (last_check_time m))) c, Ok ()).
Proof.
  intros Hm [Hinv Hb] Hp.
  destruct (rollback_status_only now1 m _ _ _ _ _ Hinv Hp) as (h & r & Hh & Hr & He).
  exists h, r. split; [done|]. unfold rollback_scaling_operation. rewrite Hm, He.
  cbn [operation_history]. rewrite last_snoc. destruct Hr as [Hf _].
  cbn [final_phase add_metadata]. rewrite Hf.
  change (rollback_actions _ _ ?c1) with (c1, @Ok unit ScalingError ()).
  cbn [set_manager scaling_manager fmap option_fmap option_map]. unfold update_record.
  cbn [operation_history current_phase phase_timeouts last_check_time].
  rewrite update_last_snoc, restoration_skipped; [done|].
  unfold no_backup. rewrite lookup_put, decide_False by done. simpl.
  rewrite lookup_union_r by done. rewrite Hh in Hb. apply Forall_app in Hb as [_ Hb].
  by inversion Hb.
Qed.

Lemma rollback_refused `{Serde} now1 now2 c :
  (∀ m, scaling_manager c = Some m → kind m ≠ Some KFailed) →
  (rollback_scaling_operation now1 now2 c).1 = c.
Proof.
  intros Hk. unfold rollback_scaling_operation.
  destruct (scaling_manager c) as [m|] eqn:Hm; [|done].
  assert (∃ e, rollback_operation now1 m = (m, Err e)) as [e ->].
  { specialize (Hk m eq_refl). unfold rollback_operation, kind in *.
    destruct (current_phase m) as [[]|]; eauto. done. }
  simpl. rewrite <- Hm. apply set_manager_same.
Qed.

Lemma rolled_back_add now r : ∃ md, rolled_back now r = add_metadata md r.
Proof. unfold rolled_back. rewrite !put_metadata_add. eauto. Qed.

Lemma rolled_back_lookup now r k :
  k ≠ "restoration_verification" → k ≠ "cluster_rollback_status" →
  rollback_entries now !! k = None → metadata (rolled_back now r) !! k = metadata r !! k.
Proof.
  intros. unfold rolled_back. rewrite !lookup_put, !decide_False by done. simpl.
  by rewrite lookup_union_r.
Qed.

(** The manager after the rollback of a failed operation. *)
Lemma rolled_back_ok now m h r :
  manager_ok m → operation_history m = h ++ [r] →
  manager_ok (mkManager (current_phase m) (h ++ [rolled_back now r])
                (phase_timeouts m) (last_check_time m)).
Proof.
  intros Hm Hh.
  assert (update_record (rolled_back now) m =
    mkManager (current_phase m) (h ++ [rolled_back now r]) (phase_timeouts m)
      (last_check_time m)) as <- by (unfold update_record; by rewrite Hh, update_last_snoc).
  apply update_record_ok; [apply rolled_back_add| |done].
  intros r' Hr'. unfold no_backup. by rewrite rolled_back_lookup.
Qed.

(** *** Health checks *)

Lemma phase_health_Ok p c : ∃ b, phase_health p c = Ok b.
Proof.
  destruct p; simpl; eauto;
    unfold check_resource_allocation_health, check_instance_preparation_health,
      check_configuration_health; simpl; destruct operation; simpl;
    repeat case_match; simplify_eq/=; eauto.
Qed.

Lemma rolled_back_checks now m h r ph ts lc :
  operation_history m = h ++ [r] →
  same_checks m (mkManager ph (h ++ [rolled_back now r]) ts lc).
Proof.
  intros Hh h' r' Hh'. rewrite Hh in Hh'. apply app_inj_tail in Hh' as [<- <-].
  exists (rolled_back now r). split; [done|]. intros k Hk.
  apply rolled_back_lookup; [intros ->; discriminate Hk..|].
  unfold rollback_entries. rewrite !lookup_insert_ne; [done|intros <-; discriminate Hk..].
Qed.

Lemma roll_back_after_failed `{Serde} h res pre c m :
  scaling_manager c = Some m → manager_ok m → kind m = Some KFailed →
  ∃ m', roll_back_after h res pre c = (set_manager (Some m') c, Ok res) ∧
    manager_ok m' ∧ kind m' = Some KFailed ∧ same_checks m m'.
Proof.
  intros Hm Hok Hk. unfold kind in Hk.
  destruct (current_phase m) as [p|] eqn:Hp; [|done]. destruct p; try discriminate Hk.
  destruct (rollback_failed (h_rollback h) (h_verify h) c m _ _ _ _ _ Hm Hok Hp)
    as (hi & r & Hh & He).
  unfold roll_back_after. rewrite He. eexists. split; [reflexivity|].
  split; [by apply rolled_back_ok|]. split; [unfold kind; simpl; by rewrite Hp|].
  by apply rolled_back_checks.
Qed.

(** A call that ends an operation leaves the metadata alone. *)
Lemma update_outcome_checks m m' name t ok err :
  operation_history m' = update_last (set_outcome name t ok err) (operation_history m) →
  same_checks m m'.
Proof.
  intros Hm' h r Hh. rewrite Hh, update_last_snoc in Hm'. eauto.
Qed.

Lemma same_checks_trans m1 m2 m3 :
  same_checks m1 m2 → same_checks m2 m3 → same_checks m1 m3.
Proof.
  intros H12 H23 h r Hh. destruct (H12 h r Hh) as (r' & Hh' & Hk).
  destruct (H23 h r' Hh') as (r'' & Hh'' & Hk'). exists r''. split; [done|].
  intros k Hp. by rewrite Hk', Hk.
Qed.

Lemma health_check `{Serde} h c m :
  scaling_manager c = Some m → manager_ok m →
  ∃ m', check_scaling_operation_health h c =
      (set_manager (Some m') c, Ok (health_outcome h c m).1) ∧
    manager_ok m' ∧ kind m' = (health_outcome h c m).2 ∧ same_checks m m'.
Proof.
  intros Hm Hok. unfold check_scaling_operation_health, health_outcome. rewrite Hm.
  pose proof (exec_ok (CCheckTimeouts (h_check h)) m Hok) as Hok1. simpl in Hok1.
  destruct (check_timeouts_cases (h_check h) m)
    as [Ht|(p & start & T & err & Hp & Hterm & _ & _ & _ & Ht)]; rewrite Ht in *; simpl in Hok1.
  2: { simpl. destruct (roll_back_after_failed h TimeoutDetectedAndRolledBack
         "Timeout occurred but rollback failed: " (set_manager (Some _) c) _ eq_refl Hok1 eq_refl)
         as (m' & -> & ? & ? & Hs).
       exists m'. split_and!; [done..|].
       eapply same_checks_trans; [|exact Hs]. by eapply update_outcome_checks. }
  cbn [current_phase snd fst].
  assert (Hs1 : same_checks m (mkManager (current_phase m) (operation_history m)
    (phase_timeouts m) (h_check h))) by (intros hi r Hh; eauto).
  destruct (current_phase m) as [p|] eqn:Hp.
  2: { eexists. split; [done|]. split_and!; [done|done|]. done. }
  destruct (is_terminal p) eqn:Hterm.
  { eexists. split; [done|]. split_and!; [done| |done]. unfold kind. by rewrite Hp. }
  change (phase_health p (set_manager _ c)) with (phase_health p c).
  destruct (phase_health_Ok p c) as [[] ->].
  { eexists. split; [done|]. split_and!; [done| |done]. unfold kind. by rewrite Hp. }
  pose proof (exec_ok (CFail (h_fail h) "HealthCheckFailed"
    ("Health check failed during " +:+ phase_name p +:+ " phase") None) _ Hok1) as Hok2.
  simpl in Hok2. unfold fail_operation, active_phase in *. cbn [current_phase] in *.
  rewrite Hterm in *. cbn [negb fst] in *.
  destruct (roll_back_after_failed h HealthCheckFailedAndRolledBack
    "Health check failed but rollback failed: "
    (set_manager (Some _) (set_manager (Some (mkManager (Some p) (operation_history m)
      (phase_timeouts m) (h_check h))) c)) _ eq_refl Hok2 eq_refl) as (m' & -> & ? & ? & Hs).
  exists m'. split_and!; [done..|].
  eapply same_checks_trans; [|exact Hs]. by eapply update_outcome_checks.
Qed.

Lemma record_health_check_no_backup now res r :
  no_backup r → no_backup (record_health_check now res r).
Proof.
  unfold no_backup, record_health_check. intros Hr.
  destruct res; rewrite !lookup_put, !decide_False; try done; by intros [=].
Qed.

(** An automatic check, its result and what it records. *)
Lemma automatic_check `{Serde} h c m :
  scaling_manager c = Some m → manager_ok m →
  let res := (health_outcome h c m).1 in
  ∃ m1, run_automatic_health_checks h c =
      (set_manager (Some (update_record (record_health_check (h_record h) res) m1)) c, Ok res) ∧
    manager_ok (update_record (record_health_check (h_record h) res) m1) ∧
    kind m1 = (health_outcome h c m).2 ∧ same_checks m m1.
Proof.
  intros Hm Hok res. destruct (health_check h c m Hm Hok) as (m1 & He & Hok1 & Hk & Hs).
  exists m1. unfold run_automatic_health_checks. rewrite He. split; [done|].
  split; [|done]. apply update_record_ok; [..|done].
  - intros r. apply record_health_check_metadata.
  - intros r. apply record_health_check_no_backup.
Qed.

(** *** Every step keeps the invariant *)

Lemma new_ok now : manager_ok (new now).
Proof. split; [done|constructor]. Qed.

Lemma init_ok now timeout c m :
  scaling_manager (init_scaling_manager now timeout c) = Some m → manager_ok m.
Proof. intros [= <-]. split; [done|constructor]. Qed.

Lemma rollback_inv `{Serde} now1 now2 c :
  cluster_inv c → cluster_inv (rollback_scaling_operation now1 now2 c).1.
Proof.
  intros Hinv. destruct (scaling_manager c) as [m|] eqn:Hm;
    [destruct (decide (kind m = Some KFailed)) as [Hk|Hk]|].
  - unfold kind in Hk. destruct (current_phase m) as [p|] eqn:Hp; [|done].
    destruct p; try discriminate Hk.
    destruct (rollback_failed now1 now2 c m _ _ _ _ _ Hm (Hinv m Hm) Hp) as (h & r & Hh & ->).
    intros m' [= <-]. apply rolled_back_ok; auto.
  - rewrite rollback_refused; [done|]. intros m' Hm'. congruence.
  - rewrite rollback_refused; [done|]. intros m' Hm'. congruence.
Qed.

Lemma cluster_step_inv `{Serde} c c' : cluster_step c c' → cluster_inv c → cluster_inv c'.
Proof.
  intros Hstep Hinv m Hm'.
  destruct Hstep as [now timeout c0|now now1 now2 op c0|e c0|now reason c0|now1 now2 c0|h c0
                    |call m0 c0 Hm0|c0 c' Hw].
  - by eapply init_ok.
  - unfold start_scaling_state_machine in Hm'. cbv zeta in Hm'.
    set (c1 := match scaling_manager c0 with None => _ | Some _ => _ end) in Hm'.
    assert (Hinv1 : cluster_inv c1).
    { unfold c1. destruct (scaling_manager c0) eqn:E; [done|]. intros m'. apply init_ok. }
    clearbody c1. destruct (scaling_manager c1) as [m1|] eqn:Hm1; [|simpl in Hm'; congruence].
    pose proof (exec_ok (CStart now1 now2 op) m1 (Hinv1 m1 Hm1)) as Hok. simpl in Hok.
    destruct (start_operation now1 now2 op m1) as [m2 r]. simpl in *. by simplify_eq.
  - destruct (scaling_manager c0) as [m0|] eqn:Hm0.
    + destruct (process_step e c0 m0 Hm0) as (cs & Hcs & _). rewrite Hcs in Hm'.
      simplify_eq. apply run_ok. auto.
    + unfold process_scaling_phase in Hm'. rewrite Hm0 in Hm'. simpl in Hm'. congruence.
  - unfold cancel_scaling_state_machine in Hm'.
    destruct (scaling_manager c0) as [m0|] eqn:Hm0; [|simpl in Hm'; congruence].
    pose proof (exec_ok (CCancel now reason) m0 (Hinv m0 Hm0)) as Hok. simpl in Hok.
    destruct (cancel_operation now reason m0) as [m2 r]. simpl in *. by simplify_eq.
  - by apply (rollback_inv now1 now2 c0 Hinv).
  - destruct (scaling_manager c0) as [m0|] eqn:Hm0.
    + destruct (automatic_check h c0 m0 Hm0 (Hinv m0 Hm0)) as (m1 & He & Hok & _).
      rewrite He in Hm'. simpl in Hm'. by simplify_eq.
    + unfold run_automatic_health_checks, check_scaling_operation_health in Hm'.
      rewrite Hm0 in Hm'. simpl in Hm'. rewrite Hm0 in Hm'. done.
  - simpl in Hm'. simplify_eq. apply exec_ok. auto.
  - apply Hinv. congruence.
Qed.

Lemma reachable_cluster_inv `{Serde} c : cluster_reachable c → cluster_inv c.
Proof.
  intros (c0 & H0 & Hsteps).
  assert (Hinv : cluster_inv c0) by (intros m Hm; congruence). clear H0.
  induction Hsteps; eauto using cluster_step_inv.
Qed.

Lemma process_all_steps `{Serde} es c : rtc cluster_step c (process_all es c).
Proof.
  revert c. induction es as [|e es IH]; intros c; [done|].
  eapply rtc_l; [apply (step_process e)|apply IH].
Qed.

(** *** Numbered entries *)

Lemma str_before_digits s acc x t :
  parse_digits s acc = Some x → str_before "_" (s +:+ String "_" t) = s.
Proof.
  revert acc. induction s as [|a s IH]; intros acc Hs; [done|].
  simpl in *. destruct (decide (a = "_"%char)) as [->|Ha]; [done|].
  f_equal. destruct (digit_value a); [|done]. destruct (_ <=? _); [|done]. eauto.
Qed.

Lemma str_before_pretty j t : in_u32 j → str_before "_" (pretty j +:+ String "_" t) = pretty j.
Proof.
  intros Hj. pose proof (parse_u32_pretty j Hj) as Hp. unfold parse_u32 in Hp.
  destruct (pretty j) as [|a s] eqn:Hs; [done|].
  destruct (decide (a = "+"%char)) as [->|]; [|by eapply str_before_digits].
  destruct s as [|a s]; [done|].
  change (String "+" (str_before "_" (String a s +:+ String "_" t)) =
    String "+" (String a s)). f_equal. by eapply str_before_digits.
Qed.

Lemma check_key_inj i j v w :
  in_u32 i → in_u32 j → check_key i v = check_key j w → i = j ∧ v = w.
Proof.
  unfold check_key. intros Hi Hj Heq. apply (inj (String.append "health_check_")) in Heq.
  assert (pretty i = pretty j) as He.
  { rewrite <- (str_before_pretty i v Hi), <- (str_before_pretty j w Hj). by rewrite Heq. }
  rewrite He in Heq. apply (inj (String.append (pretty j))) in Heq. injection Heq as ->.
  split; [|done]. apply (f_equal parse_u32) in He.
  rewrite !parse_u32_pretty in He by done. by injection He.
Qed.

Lemma check_key_prefix j w : String.prefix "health_check_" (check_key j w) = true.
Proof. unfold check_key. by destruct (pretty j +:+ String "_" w). Qed.

Lemma check_key_not_count j w : in_u32 j → check_key j w ≠ "health_check_count".
Proof.
  intros Hj Heq. change "health_check_count" with ("health_check_" +:+ "count") in Heq.
  apply (inj (String.append "health_check_")), (f_equal (str_before "_")) in Heq.
  rewrite str_before_pretty in Heq by done. apply (f_equal parse_u32) in Heq.
  by rewrite parse_u32_pretty in Heq.
Qed.

Lemma health_count_range r : 0 ≤ health_count r ≤ u32_max.
Proof.
  unfold health_count. destruct (metadata r !! _) as [s|]; simpl; [|by vm_compute].
  destruct (parse_u32 s) as [x|] eqn:Hp; simpl; [|by vm_compute].
  apply parse_u32_range in Hp. exact Hp.
Qed.

(** Decides the tests on keys of entries. *)
Ltac look_up :=
  repeat first
    [ rewrite decide_True by reflexivity
    | match goal with
      | H : ∀ v w, v ≠ w → check_key _ v ≠ check_key _ w |- _ =>
          rewrite decide_False by (apply H; discriminate)
      | H : ∀ v, check_key _ v ≠ _ |- _ => rewrite decide_False by apply H
      end ].

(** What recording a health check does to the entries of all checks. *)
Lemma record_health_check_spec now res r :
  health_count r + 1 ≤ u32_max →
  let r' := record_health_check now res r in
  health_count r' = health_count r + 1 ∧
  metadata r' !! check_key (health_count r + 1) "time" = Some (pretty now) ∧
  metadata r' !! check_key (health_count r + 1) "result" = Some (check_result_name res) ∧
  ∀ j w, 0 ≤ j ≤ health_count r → metadata r' !! check_key j w = metadata r !! check_key j w.
Proof.
  intros Hle. pose proof (health_count_range r) as Hr. unfold record_health_check.
  fold (health_count r).
  assert (u32_add (health_count r) 1 = health_count r + 1) as ->
    by (unfold u32_add; apply u32_wrap_small; unfold in_u32; lia).
  set (n := health_count r + 1) in *. assert (Hn : in_u32 n) by (unfold in_u32, n; lia).
  change ("health_check_" +:+ pretty n +:+ "_time") with (check_key n "time").
  change ("health_check_" +:+ pretty n +:+ "_result") with (check_key n "result").
  change ("health_check_" +:+ pretty n +:+ "_failure_phase") with (check_key n "failure_phase").
  change ("health_check_" +:+ pretty n +:+ "_timeout_phase") with (check_key n "timeout_phase").
  assert (Hne : ∀ v w, v ≠ w → check_key n v ≠ check_key n w)
    by (intros v w Hv Hk; by apply check_key_inj in Hk as [_ ?]).
  assert (Hnc : ∀ v, check_key n v ≠ "health_check_count")
    by (intros v; by apply check_key_not_count).
  assert (Hlt : health_count r < n) by (unfold n; lia). clearbody n.
  split_and!.
  - unfold health_count. destruct res; rewrite !lookup_put; look_up; simpl;
      by rewrite parse_u32_pretty.
  - destruct res; rewrite !lookup_put; by look_up.
  - destruct res; rewrite !lookup_put; by look_up.
  - intros j w Hj. assert (in_u32 j) by (unfold in_u32; lia).
    assert (Hj' : ∀ v, check_key n v ≠ check_key j w).
    { intros v Hk. apply check_key_inj in Hk as [? _]; [|done..]. lia. }
    assert ("health_check_count" ≠ check_key j w) by (intros Hk; by eapply check_key_not_count).
    destruct res; by rewrite !lookup_put, !decide_False.
Qed.

(** One automatic check of a cluster with a record. *)
Lemma automatic_check_record `{Serde} h c r :
  cluster_inv c → last_record c = Some r → health_count r + 1 ≤ u32_max →
  ∃ m' r' res, run_automatic_health_checks h c = (set_manager (Some m') c, Ok res) ∧
    manager_ok m' ∧ last (operation_history m') = Some r' ∧
    health_count r' = health_count r + 1 ∧
    metadata r' !! check_key (health_count r + 1) "time" = Some (pretty (h_record h)) ∧
    metadata r' !! check_key (health_count r + 1) "result" = Some (check_result_name res) ∧
    ∀ j w, 0 ≤ j ≤ health_count r →
      metadata r' !! check_key j w = metadata r !! check_key j w.
Proof.
  intros Hinv Hr Hle. unfold last_record in Hr.
  destruct (scaling_manager c) as [m|] eqn:Hm; [|done]. simpl in Hr.
  apply last_Some in Hr as [hi Hh].
  destruct (automatic_check h c m Hm (Hinv m Hm)) as (m1 & He & Hok & _ & Hs).
  set (res := (health_outcome h c m).1) in *. clearbody res.
  destruct (Hs hi r Hh) as (r1 & Hh1 & Hk).
  assert (Hc : health_count r1 = health_count r) by (unfold health_count; by rewrite Hk).
  destruct (record_health_check_spec (h_record h) res r1) as (H1 & H2 & H3 & H4);
    [by rewrite Hc|]. rewrite Hc in *.
  eexists _, (record_health_check (h_record h) res r1), res.
  split; [exact He|]. split; [exact Hok|].
  split; [unfold update_record; simpl; by rewrite Hh1, update_last_snoc, last_snoc|].
  split_and!; [done..|]. intros j w Hj. rewrite H4 by done. apply Hk, check_key_prefix.
Qed.

Lemma run_checks_numbered `{Serde} hs c r :
  cluster_inv c → last_record c = Some r →
  health_count r + Z.of_nat (length hs) ≤ u32_max →
  ∃ m r', run_checks hs c = set_manager (Some m) c ∧
    last (operation_history m) = Some r' ∧
    health_count r' = health_count r + Z.of_nat (length hs) ∧
    (∀ j h, hs !! j = Some h → ∃ res,
       (run_automatic_health_checks h (run_checks (take j hs) c)).2 = Ok res ∧
       let n := health_count r + Z.of_nat (S j) in
       metadata r' !! check_key n "time" = Some (pretty (h_record h)) ∧
       metadata r' !! check_key n "result" = Some (check_result_name res)) ∧
    ∀ j w, 0 ≤ j ≤ health_count r →
      metadata r' !! check_key j w = metadata r !! check_key j w.
Proof.
  revert c r. induction hs as [|h hs IH]; intros c r Hinv Hr Hle.
  { unfold last_record in Hr. destruct (scaling_manager c) as [m|] eqn:Hm; [|done].
    exists m, r. simpl in *. split; [by rewrite <- Hm, set_manager_same|].
    split_and!; [done|lia|done|done]. }
  cbn [length] in Hle.
  destruct (automatic_check_record h c r Hinv Hr) as
    (m1 & r1 & res & He & Hok & Hl & Hc & Ht & Hres & Hkeep); [lia|].
  pose proof (health_count_range r) as Hrange.
  destruct (IH (set_manager (Some m1) c) r1) as (m' & r' & Hrun & Hl' & Hc' & Hent & Hkeep').
  - intros m [= <-]. done.
  - done.
  - lia.
  - exists m', r'. split.
    { unfold run_checks in *. cbn [foldl]. rewrite He. cbn [fst]. by rewrite Hrun. }
    split; [done|]. split; [cbn [length]; lia|]. split.
    + intros [|j] hj Hj; cbn [lookup list_lookup] in Hj.
      * injection Hj as <-. exists res. cbn [take]. unfold run_checks. cbn [foldl].
        rewrite He. split; [done|]. change (Z.of_nat 1) with 1.
        rewrite !Hkeep' by lia. done.
      * destruct (Hent j hj Hj) as (res' & Hr' & Ht' & Hs'). exists res'. split.
        { rewrite <- Hr'. cbn [take]. unfold run_checks. cbn [foldl]. by rewrite He. }
        replace (health_count r + Z.of_nat (S (S j))) with (health_count r1 + Z.of_nat (S j))
          by lia. done.
    + intros j w Hj. rewrite Hkeep' by lia. by apply Hkeep.
Qed.

(** *** Health of admissible operations *)

Lemma forallb_members (c : InstanceCluster) ids :
  (∀ i, i ∈ ids → is_Some (members c !! i)) →
  forallb (λ i, bool_decide (is_Some (members c !! i))) ids = true.
Proof.
  intros Hi. apply forallb_forall. intros i Hin%list_elem_of_In.
  by apply bool_decide_eq_true, Hi.
Qed.

Lemma enough_small n :
  0 ≤ n ≤ 32 →
  enough_for n (mkScalingResources 32 (128 * 1024) 1024 10000) = true.
Proof.
  intros Hn. unfold enough_for, u32_mul. simpl. rewrite !u32_wrap_small by (widths; lia).
  apply andb_true_iff. rewrite !negb_true_iff, !Z.ltb_ge. lia.
Qed.

(** New identifiers have at least eight characters. *)
Lemma allocated_ids_long fetch t unique n c ids :
  allocate_resources_for_operation fetch t unique (ScaleOut n) c = Ok ids →
  forallb (λ i, negb (String.length i <? 8)%nat) ids = true.
Proof.
  intros Ha. unfold allocate_resources_for_operation in Ha.
  destruct (template_instance_id c) as [tid|]; [|done].
  destruct (_ =? 0); [by simplify_eq|].
  destruct (plan_scaling_operation _ _ _); [|done]. simpl in Ha.
  repeat (destruct (_ <? _); [done|]). simplify_eq.
  apply forallb_forall. intros i Hi%list_elem_of_In.
  apply list_elem_of_fmap in Hi as (j & -> & _).
  apply negb_true_iff, Nat.ltb_ge. unfold unique_id.
  destruct (members c !! _); rewrite ?str_length_app; simpl; rewrite ?str_length_app; simpl; lia.
Qed.

(** ** Properties *)

(** C11: rolling back restores nothing.  In every cluster that can be reached by its
    methods, calls on its manager and writes to its other fields, the rollback of a
    failed operation returns [Ok] and changes the manager only: the members, the
    policy, the template and the affinity stay as the failed operation left them,
    whatever the phase it failed in, while its record says that the rollback is
    completed and its verification skipped. *)
Theorem rollback_restores_nothing `{Serde} now1 now2 c m :
  cluster_reachable c → scaling_manager c = Some m → kind m = Some KFailed →
  ∃ m' r, rollback_scaling_operation now1 now2 c = (set_manager (Some m') c, Ok ()) ∧
    kind m' = Some KFailed ∧ last (operation_history m') = Some r ∧
    metadata r !! "cluster_rollback_status" = Some "completed" ∧
    metadata r !! "restoration_verification" = Some "skipped".
Proof.
  intros Hc Hm Hk. pose proof (reachable_cluster_inv c Hc m Hm) as Hok.
  unfold kind in Hk. destruct (current_phase m) as [p|] eqn:Hp; [|done].
  destruct p; try discriminate Hk.
  destruct (rollback_failed now1 now2 c m _ _ _ _ _ Hm Hok Hp) as (h & r & Hh & He).
  eexists _, (rolled_back now1 r). split; [exact He|].
  split; [unfold kind; simpl; by rewrite Hp|]. split; [apply last_snoc|].
  unfold rolled_back. rewrite !lookup_put. by vm_compute.
Qed.

(** The cluster left by the second of two scale-outs: the rollback leaves it with
    the member the operation overwrote. *)
Lemma rollback_restores_nothing_witness :
  ∃ c', @rollback_scaling_operation backup_serde 6000 6000 outgrown = (c', Ok ()) ∧
    members c' = members outgrown ∧
    last_heartbeat <$> members outgrown !! clone_id "a" 0 = Some 5000.
Proof.
  destruct (scaling_manager outgrown) as [m|] eqn:Hm; [|vm_compute in Hm; discriminate].
  destruct (@rollback_restores_nothing backup_serde 6000 6000 outgrown m)
    as (m' & r & He & _).
  - exists three_members. split; [reflexivity|]. unfold outgrown.
    eapply rtc_l; [apply (step_start 1000 1000 1000 (ScaleOut 4))|].
    etransitivity; [apply process_all_steps|].
    eapply rtc_l; [apply (step_start 5000 5000 5000 (ScaleOut 5))|].
    apply process_all_steps.
  - exact Hm.
  - vm_compute in Hm. by injection Hm as <-.
  - eexists. split; [exact He|]. split; [done|vm_compute; reflexivity].
Defined.

(** C12: restoring a cluster from a backup does what the verification asks for.
    When the backup decodes, its members have a node and an identifier, and no
    member has moved to another node, the restoration succeeds: the members are
    those of the backup with their status and all their addresses, no heartbeat
    goes back in time, the template and the affinity are those of the backup, the
    policy and the manager are kept, and the verification succeeds if the template
    and the policy allow it. *)
Theorem restored_cluster_verifies `{Serde} json previous c now :
  from_json json = Ok previous →
  (∀ i b, members previous !! i = Some b → node_id b ≠ "" ∧ instance_id b ≠ "") →
  (∀ i mb b, members c !! i = Some mb → members previous !! i = Some b →
     node_id mb = node_id b ∧ instance_id mb = instance_id b) →
  ∃ ms, let c' := mkCluster ms (scaling_policy c) (template_instance_id previous)
                    (session_affinity_enabled previous) (scaling_manager c) in
    restore_cluster_config json c = (c', Ok ()) ∧
    members_restored c' (members previous) ∧
    (∀ i mb' b, ms !! i = Some mb' → members previous !! i = Some b →
       node_public_ip mb' = node_public_ip b) ∧
    (∀ i mb mb', members c !! i = Some mb → ms !! i = Some mb' →
       last_heartbeat mb ≤ last_heartbeat mb') ∧
    (properties_sound (set_manager None c') →
     success (verify_state_restoration now (set_manager None c') (members previous) None None)
       = true).
Proof.
  intros Hj Hf Hsame.
  destruct (restore_cluster_config_ok json previous c Hj) as (ms & He & Hms).
  { intros i b Hb. cbv zeta. destruct (Hf i b Hb). destruct (fully_restored_ids (members c !! i) b)
      as [-> ->]; [|done]. intros mb Hmb. by apply (Hsame i). }
  exists ms. intros c'.
  assert (Hr : members_restored c' (members previous)).
  { split.
    - apply set_eq. intros i. simpl. rewrite !elem_of_dom, Hms, fmap_is_Some. done.
    - intros i cur b Hc Hb. simpl in Hc. rewrite Hms, Hb in Hc. simplify_eq/=.
      apply fully_restored_same. intros mb Hmb. by apply (Hsame i). }
  split; [done|]. split; [done|]. split_and!.
  - intros i mb' b Hi Hb. rewrite Hms, Hb in Hi. simplify_eq/=.
    by destruct (members c !! i).
  - intros i mb mb' Hi Hi'. rewrite Hms in Hi'.
    destruct (members previous !! i) as [b|]; [|done]. rewrite Hi in Hi'. simplify_eq/=.
    case_decide; [done|]. apply restored_member_heartbeat.
  - intros Hp. apply verified_restored. split; [done|]. split; [done|].
    intros i Hi. by apply not_elem_of_nil in Hi.
Qed.

(** A member that failed and moved to another address, a member that is gone and a
    new one: the cluster of three comes back, with the last heartbeat. *)
Lemma restored_cluster_verifies_witness :
  ∃ c', @restore_cluster_config backup_serde "backup" damaged = (c', Ok ()) ∧
    members_restored c' (members three_members) ∧
    success (verify_state_restoration 7 (set_manager None c') (members three_members)
               None None) = true.
Proof.
  destruct (@restored_cluster_verifies backup_serde "backup" three_members damaged 7)
    as (ms & He & Hr & _ & _ & Hv).
  - reflexivity.
  - apply (bool_decide_unpack (map_Forall (λ _ b, node_id b ≠ "" ∧ instance_id b ≠ "") _)).
    vm_compute. exact I.
  - intros i mb b Hi Hb. split.
    + assert (Hn : ∀ c, bool_decide (map_Forall (λ _ b, node_id b = "node") (members c)) = true →
        ∀ i b, members c !! i = Some b → node_id b = "node")
        by (intros c Hc; by apply bool_decide_eq_true in Hc).
      by rewrite (Hn damaged eq_refl i mb Hi), (Hn three_members eq_refl i b Hb).
    + assert (Hn : ∀ c, bool_decide (map_Forall (λ i b, instance_id b = i) (members c)) = true →
        ∀ i b, members c !! i = Some b → instance_id b = i)
        by (intros c Hc; by apply bool_decide_eq_true in Hc).
      by rewrite (Hn damaged eq_refl i mb Hi), (Hn three_members eq_refl i b Hb).
  - eexists. split; [exact He|]. split; [exact Hr|]. apply Hv.
    assert (Hs : size ms = 3%nat).
    { destruct Hr as [Hd _]. apply (f_equal size) in Hd. rewrite !size_dom in Hd. exact Hd. }
    split_and!.
    + intros t [= <-]. right. simpl. destruct Hr as [Hd _]. apply elem_of_dom.
      simpl in Hd. rewrite Hd. apply elem_of_dom. by eexists.
    + intros p [= <-]. split; [vm_compute; reflexivity|]. unfold current_count. simpl.
      rewrite Hs. vm_compute. split; discriminate.
    + intros m [=].
Defined.

(** A health check always ends and decides as it should.  In every reachable
    cluster with a manager, an automatic check returns [Ok] and changes the manager
    only.  It reports a timeout exactly when the manager detects one, no operation or
    a completed one when none is active, success when the check of the current phase
    passes and failure when it does not; the operation is then failed in the two
    cases that roll back and in the same phase in all others. *)
Theorem health_check_decides `{Serde} h c m :
  cluster_reachable c → scaling_manager c = Some m →
  ∃ m', run_automatic_health_checks h c =
      (set_manager (Some m') c, Ok (health_outcome h c m).1) ∧
    kind m' = (health_outcome h c m).2.
Proof.
  intros Hc Hm.
  destruct (automatic_check h c m Hm (reachable_cluster_inv c Hc m Hm)) as (m1 & He & _ & Hk & _).
  eexists. split; [exact He|]. done.
Qed.


(** Health checks are numbered.  After any checks of a reachable cluster with a
    record, as long as the count fits in 32 bits, the record counts them all, the
    entries of the [j]-th one hold its time and its result, and the entries of
    earlier checks are as they were. *)
Theorem health_checks_numbered `{Serde} hs c r :
  cluster_reachable c → last_record c = Some r →
  health_count r + Z.of_nat (length hs) ≤ u32_max →
  ∃ m r', run_checks hs c = set_manager (Some m) c ∧
    last (operation_history m) = Some r' ∧
    health_count r' = health_count r + Z.of_nat (length hs) ∧
    (∀ j h, hs !! j = Some h → ∃ res,
       (run_automatic_health_checks h (run_checks (take j hs) c)).2 = Ok res ∧
       let n := health_count r + Z.of_nat (S j) in
       metadata r' !! check_key n "time" = Some (pretty (h_record h)) ∧
       metadata r' !! check_key n "result" = Some (check_result_name res)) ∧
    ∀ j w, 0 ≤ j ≤ health_count r →
      metadata r' !! check_key j w = metadata r !! check_key j w.
Proof. intros Hc. apply run_checks_numbered. by apply reachable_cluster_inv. Qed.


(** The health checks raise no false alarm.  For an operation that is admissible,
    creates at most 32 instances and does not name the template, which is a member,
    the checks of the three phases pass in an unchanged cluster, with the
    identifiers that the allocation yields. *)
Theorem admissible_stays_healthy fetch t unique now op p c tid ids s1 s2 s3 x y :
  scaling_policy c = Some p → admissible now op p c →
  template_instance_id c = Some tid → is_Some (members c !! tid) →
  tid ∉ named_ids op → created op c ≤ 32 →
  allocate_resources_for_operation fetch t unique op c = Ok ids →
  phase_health (ResourceAllocating op s1 x) c = Ok true ∧
  phase_health (InstancePreparing op s2 ids) c = Ok true ∧
  phase_health (Configuring op s3 y) c = Ok true.
Proof.
  intros Hp Ha Ht [tm Htm] Hid Hn Hal. unfold phase_health.
  unfold check_resource_allocation_health, check_instance_preparation_health,
    check_configuration_health, check_available_resources.
  rewrite Hp, Ht, Htm. destruct op as [n|n o|l]; simpl in Ha, Hid, Hn.
  - destruct Ha as [[Hlt Hle] _].
    rewrite (proj2 (Z.ltb_ge _ _) Hle), (proj2 (Z.ltb_lt _ _) Hlt).
    pose proof (u32_wrap_range (Z.of_nat (size (members c)))) as Hr.
    unfold current_count, usize_as_u32 in *.
    assert (Hadd : u32_sub n (u32_wrap (Z.of_nat (size (members c)))) =
      n - u32_wrap (Z.of_nat (size (members c))))
      by (unfold u32_sub; apply u32_wrap_small; widths; lia).
    rewrite Hadd. rewrite (proj2 (Z.ltb_lt 0 _)) by lia.
    rewrite enough_small by lia. rewrite (allocated_ids_long _ _ _ _ _ _ Hal). done.
  - destruct Ha as ([Hmin Hlt] & Hids & _).
    rewrite (proj2 (Z.leb_gt _ _)) by lia. rewrite (proj2 (Z.ltb_ge _ _) Hmin).
    rewrite forallb_members by done. split; [done|]. split; [|done].
    destruct o as [l|]; [|done]. by rewrite bool_decide_false.
  - destruct Ha as [Hids _]. rewrite forallb_members by done.
    rewrite bool_decide_false by done. split; [|done].
    unfold usize_as_u32. rewrite u32_wrap_small by (widths; lia).
    destruct (0 <? _); [|done]. by rewrite enough_small by lia.
Qed.

