(* ===== verification/Billing.v ===== *)
(** * Billing (form-state/src/billing/mod.rs)

    Subscription tiers and their quotas, and the usage tracker that books token
    and agent usage under several views (per model, month, day and week) and
    charges credits for it.  Instants are integers (nanoseconds since the
    epoch); the calendar functions of the chrono crate that turn an instant into
    a key are a parameter ([Chrono]). *)

From Stdlib Require Import SpecFloat.
From stdpp Require Import options.
From S2P Require Import Prelude Float64.

(** The parts of chrono the tracker uses: [format("%Y-%m")],
    [format("%Y-%m-%d")], the year and ISO week key, [date_naive()] and
    [hour()]. *)
Class Chrono : Type := {
  month_key : Z → string;
  day_key : Z → string;
  week_key : Z → string;
  date_naive : Z → Z;
  hour : Z → nat;
}.

(** [hour()] is documented to be between 0 and 23. *)
Class ChronoLaws (C : Chrono) : Prop := {
  hour_bound t : hour t < 24;
}.

(** ** Tiers and quotas *)

Inductive SubscriptionTier : Type := Free | Pro | ProPlus | Power | PowerPlus.

#[global] Instance SubscriptionTier_eq_dec : EqDecision SubscriptionTier.
Proof. solve_decision. Defined.

Record SubscriptionQuota : Type := mkQuota {
  q_max_agents : Z;
  q_inference_credits : Z;
  q_daily_token_limit : option Z;
  q_max_api_keys : Z;
  q_model_access : list string;
  q_additional_agent_discount : Z;
  q_max_premium_models : Z;
  q_premium_agent_access : bool;
}.

Definition tier_quota (t : SubscriptionTier) : SubscriptionQuota :=
  match t with
  | Free => mkQuota 1 100 (Some 100000%Z) 2 ["basic"] 0 0 false
  | Pro => mkQuota 3 500 (Some 500000%Z) 5 ["basic"; "standard"] 10 1 true
  | ProPlus => mkQuota 5 1000 None 10 ["basic"; "standard"; "advanced"] 15 3 true
  | Power =>
      mkQuota 10 5000 None 20 ["basic"; "standard"; "advanced"; "enterprise"] 20 10 true
  | PowerPlus =>
      mkQuota 25 10000 None 50
        ["basic"; "standard"; "advanced"; "enterprise"; "expert"] 25 25 true
  end.

Inductive SubscriptionStatus : Type :=
| Active | Trial | PastDue | SCanceled | SExpired | SError.

Record SubscriptionInfo : Type := mkSubscription {
  stripe_customer_id : option string;
  stripe_subscription_id : option string;
  tier : SubscriptionTier;
  sub_status : SubscriptionStatus;
  sub_created_at : Z;
  sub_period_start : Z;
  sub_period_end : Z;
  auto_renew : bool;
  max_agents : Z;
  inference_credits_per_period : Z;
}.

Definition sub_quota (s : SubscriptionInfo) : SubscriptionQuota := tier_quota (tier s).

(** 30 days in nanoseconds. *)
Definition thirty_days : Z := (30 * 86400 * 1000000000)%Z.

Definition new_subscription (now : Z) (t : SubscriptionTier) : SubscriptionInfo :=
  let quota := tier_quota t in
  mkSubscription None None t Trial now now (now + thirty_days)%Z false
    (q_max_agents quota) (q_inference_credits quota).

Definition default_subscription (now : Z) : SubscriptionInfo :=
  let free_quota := tier_quota Free in
  mkSubscription None None Free Trial now now (now + thirty_days)%Z false
    (q_max_agents free_quota) (q_inference_credits free_quota).

(** ** Usage records *)

Record ModelUsage : Type := mkModelUsage {
  mu_input_tokens : Z;
  mu_output_tokens : Z;
  mu_request_count : Z;
  mu_last_used : Z;
}.

Record PeriodUsage : Type := mkPeriodUsage {
  pu_tokens_consumed : Z;
  pu_input_tokens : Z;
  pu_output_tokens : Z;
  pu_agent_requests : Z;
  pu_model_breakdown : gmap string ModelUsage;
  pu_last_activity : Z;
}.

Record DailyUsage : Type := mkDailyUsage {
  du_date : Z;
  du_total_tokens : Z;
  du_hourly_breakdown : list Z;
  du_agent_requests : Z;
}.

Record AgentUsageStats : Type := mkAgentUsageStats {
  au_total_hours_ms : Z;
  au_hire_count : Z;
  au_last_used : Z;
}.

Record AgentPeriodUsage : Type := mkAgentPeriodUsage {
  ap_total_hours_ms : Z;
  ap_hire_count : Z;
  ap_agent_breakdown : gmap string AgentUsageStats;
  ap_last_activity : Z;
}.

Record UsageTracker : Type := mkTracker {
  token_usage : gmap string PeriodUsage;
  agent_requests : gmap string PeriodUsage;
  model_usage : gmap string ModelUsage;
  daily_usage : gmap string DailyUsage;
  weekly_usage : gmap string PeriodUsage;
  current_period_start : Z;
  current_period_credits_used : Z;
  last_token_usage : Z;
  last_agent_usage : Z;
  agent_usage : gmap string AgentUsageStats;
  agent_usage_periods : gmap string AgentPeriodUsage;
}.

Definition default_model_usage (now : Z) : ModelUsage := mkModelUsage 0 0 0 now.
Definition default_period_usage (now : Z) : PeriodUsage := mkPeriodUsage 0 0 0 0 ∅ now.
Definition default_daily_usage `{Chrono} (now : Z) : DailyUsage :=
  mkDailyUsage (date_naive now) 0 (repeat 0%Z 24) 0.
(** Derived defaults: the epoch for the instants. *)
Definition default_agent_stats : AgentUsageStats := mkAgentUsageStats 0 0 0.
Definition default_agent_period : AgentPeriodUsage := mkAgentPeriodUsage 0 0 ∅ 0.

Definition new_tracker (now : Z) : UsageTracker :=
  mkTracker ∅ ∅ ∅ ∅ ∅ now 0 now now ∅ ∅.

(** ** Booking tokens *)

(** Tokens added to one model's usage at [now]. *)
Definition add_model_tokens (now i o : Z) (u : ModelUsage) : ModelUsage :=
  mkModelUsage (u64_add (mu_input_tokens u) i) (u64_add (mu_output_tokens u) o)
    (u64_add (mu_request_count u) 1) now.

(** Tokens added to a month, its model breakdown included. *)
Definition add_period_tokens (now : Z) (model_id : string) (i o : Z) (p : PeriodUsage)
    : PeriodUsage :=
  mkPeriodUsage (u64_add (pu_tokens_consumed p) (u64_add i o))
    (u64_add (pu_input_tokens p) i) (u64_add (pu_output_tokens p) o)
    (pu_agent_requests p)
    (upsert (default_model_usage now) (add_model_tokens now i o) model_id
       (pu_model_breakdown p))
    now.

(** Tokens added to a week, which has no breakdown. *)
Definition add_week_tokens (now i o : Z) (p : PeriodUsage) : PeriodUsage :=
  mkPeriodUsage (u64_add (pu_tokens_consumed p) (u64_add i o))
    (u64_add (pu_input_tokens p) i) (u64_add (pu_output_tokens p) o)
    (pu_agent_requests p) (pu_model_breakdown p) now.

(** Tokens added to a day and to the hour of the day. *)
Definition add_day_tokens (h : nat) (i o : Z) (d : DailyUsage) : DailyUsage :=
  mkDailyUsage (du_date d) (u64_add (du_total_tokens d) (u64_add i o))
    (alter (λ x, u64_add x (u64_add i o)) h (du_hourly_breakdown d))
    (du_agent_requests d).

Definition calculate_token_cost (input_tokens output_tokens : Z) : Z :=
  let total_tokens := u64_add input_tokens output_tokens in
  f64_ceil_as_u64 (f64_div (f64_of_Z total_tokens) (f64_of_Z 1000)).

(** [now] is the reading the method takes; [now2] the one the default of a new
    day record takes for its date. *)
Definition record_token_usage `{Chrono} (now now2 : Z) (model_id : string)
    (i o : Z) (t : UsageTracker) : UsageTracker * Z :=
  let token_cost := calculate_token_cost i o in
  (mkTracker
     (upsert (default_period_usage now) (add_period_tokens now model_id i o)
        (month_key now) (token_usage t))
     (agent_requests t)
     (upsert (default_model_usage now) (add_model_tokens now i o) model_id (model_usage t))
     (upsert (default_daily_usage now2) (add_day_tokens (hour now) i o)
        (day_key now) (daily_usage t))
     (upsert (default_period_usage now) (add_week_tokens now i o)
        (week_key now) (weekly_usage t))
     (current_period_start t)
     (u64_add (current_period_credits_used t) token_cost)
     now (last_agent_usage t) (agent_usage t) (agent_usage_periods t),
   token_cost).

(** ** Booking agents *)

Definition add_agent_hours (now ms : Z) (a : AgentUsageStats) : AgentUsageStats :=
  mkAgentUsageStats (u64_add (au_total_hours_ms a) ms) (u64_add (au_hire_count a) 1) now.

Definition add_period_hours (now : Z) (agent_id : string) (ms : Z) (p : AgentPeriodUsage)
    : AgentPeriodUsage :=
  mkAgentPeriodUsage (u64_add (ap_total_hours_ms p) ms) (u64_add (ap_hire_count p) 1)
    (upsert default_agent_stats (add_agent_hours now ms) agent_id (ap_agent_breakdown p))
    now.

Definition add_day_request (d : DailyUsage) : DailyUsage :=
  mkDailyUsage (du_date d) (du_total_tokens d) (du_hourly_breakdown d)
    (u64_add (du_agent_requests d) 1).

Definition calculate_agent_cost (duration_hours : f64) : Z := f64_ceil_as_u64 duration_hours.

Definition record_agent_usage `{Chrono} (now now2 : Z) (agent_id : string)
    (duration_hours : f64) (t : UsageTracker) : UsageTracker * Z :=
  let ms := f64_as_u64 (f64_mul duration_hours (f64_of_Z 1000)) in
  let agent_cost := calculate_agent_cost duration_hours in
  (mkTracker (token_usage t) (agent_requests t) (model_usage t)
     (upsert (default_daily_usage now2) add_day_request (day_key now) (daily_usage t))
     (weekly_usage t) (current_period_start t)
     (u64_add (current_period_credits_used t) agent_cost)
     (last_token_usage t) now
     (upsert default_agent_stats (add_agent_hours now ms) agent_id (agent_usage t))
     (upsert default_agent_period (add_period_hours now agent_id ms) (month_key now)
        (agent_usage_periods t)),
   agent_cost).

Definition reset_period_usage (t : UsageTracker) : UsageTracker :=
  mkTracker (token_usage t) (agent_requests t) (model_usage t) (daily_usage t)
    (weekly_usage t) (current_period_start t) 0 (last_token_usage t)
    (last_agent_usage t) (agent_usage t) (agent_usage_periods t).

(** ** Queries *)

Definition current_usage `{Chrono} (now : Z) (t : UsageTracker) : PeriodUsage :=
  default (default_period_usage now) (token_usage t !! month_key (current_period_start t)).

Definition today_usage `{Chrono} (now now2 : Z) (t : UsageTracker) : DailyUsage :=
  default (default_daily_usage now2) (daily_usage t !! day_key now).

(** The method [model_usage(model_id)]. *)
Definition model_usage_of (now : Z) (model_id : string) (t : UsageTracker) : ModelUsage :=
  default (default_model_usage now) (model_usage t !! model_id).

Definition total_tokens_consumed (t : UsageTracker) : Z :=
  u64_sum ((λ u, u64_add (mu_input_tokens u) (mu_output_tokens u)) <$>
             btree_values (model_usage t)).

Definition current_period_tokens `{Chrono} (now : Z) (t : UsageTracker) : Z :=
  pu_tokens_consumed (current_usage now t).

Definition remaining_credits (total_credits_per_period : Z) (t : UsageTracker) : Z :=
  if (total_credits_per_period <=? current_period_credits_used t)%Z then 0%Z
  else u64_sub total_credits_per_period (current_period_credits_used t).

Definition has_sufficient_credits (total_credits_per_period required_credits : Z)
    (t : UsageTracker) : bool :=
  (required_credits <=? remaining_credits total_credits_per_period t)%Z.

Definition estimate_token_cost (estimated_input_tokens estimated_output_tokens : Z) : Z :=
  calculate_token_cost estimated_input_tokens estimated_output_tokens.

(** [now] is read only when no period is given. *)
Definition total_agent_hours `{Chrono} (now : Z) (period : option string)
    (t : UsageTracker) : f64 :=
  default (f64_of_Z 0)
    ((λ p, f64_div (f64_of_Z (ap_total_hours_ms p)) (f64_of_Z 1000)) <$>
       agent_usage_periods t !! default (month_key now) period).

Definition agent_usage_stats (agent_id : string) (t : UsageTracker)
    : option AgentUsageStats := agent_usage t !! agent_id.

(** ** Histories of calls *)

(** A call of one of the methods that change the tracker, with its readings of
    the clock. *)
Inductive usage_call : Type :=
| CallTokens (now now2 : Z) (model_id : string) (i o : Z)
| CallAgent (now now2 : Z) (agent_id : string) (duration_hours : f64)
| CallReset.

Definition usage_exec `{Chrono} (t : UsageTracker) (c : usage_call) : UsageTracker :=
  match c with
  | CallTokens now now2 model_id i o => (record_token_usage now now2 model_id i o t).1
  | CallAgent now now2 agent_id d => (record_agent_usage now now2 agent_id d t).1
  | CallReset => reset_period_usage t
  end.

(** The tracker after a history of calls on a new one. *)
Definition usage_run `{Chrono} (start : Z) (log : list usage_call) : UsageTracker :=
  foldl usage_exec (new_tracker start) log.

(** What a history says: a sum over its calls, without any tracker. *)
Definition logged (amount : usage_call → Z) (log : list usage_call) : Z :=
  Zsum (amount <$> log).

(** The tokens of a call, those of a call of model [m], and those booked under
    the key [k] by [key]. *)
Definition input_of (c : usage_call) : Z :=
  match c with CallTokens _ _ _ i _ => i | _ => 0 end.
Definition output_of (c : usage_call) : Z :=
  match c with CallTokens _ _ _ _ o => o | _ => 0 end.
Definition tokens_of (c : usage_call) : Z := (input_of c + output_of c)%Z.
Definition for_model (m : string) (amount : usage_call → Z) (c : usage_call) : Z :=
  match c with
  | CallTokens _ _ m' _ _ => if decide (m' = m) then amount c else 0
  | _ => 0
  end.
Definition under_key (key : Z → string) (k : string) (amount : usage_call → Z)
    (c : usage_call) : Z :=
  match c with
  | CallTokens now _ _ _ _ | CallAgent now _ _ _ =>
      if decide (key now = k) then amount c else 0
  | CallReset => 0
  end.
Definition hires_of (c : usage_call) : Z :=
  match c with CallAgent _ _ _ _ => 1 | _ => 0 end.
Definition for_agent (a : string) (amount : usage_call → Z) (c : usage_call) : Z :=
  match c with
  | CallAgent _ _ a' _ => if decide (a' = a) then amount c else 0
  | _ => 0
  end.

(** The charge of a call, and the calls after the last reset. *)
Definition charge_of (c : usage_call) : Z :=
  match c with
  | CallTokens _ _ _ i o => calculate_token_cost i o
  | CallAgent _ _ _ d => calculate_agent_cost d
  | CallReset => 0
  end.
Definition since_reset (log : list usage_call) : list usage_call :=
  foldl (λ acc c, match c with CallReset => [] | _ => acc ++ [c] end) [] log.

(** A day's record is consistent: 24 hours that sum to its total. *)
Definition day_consistent (d : DailyUsage) : Prop :=
  length (du_hourly_breakdown d) = 24 ∧ u64_sum (du_hourly_breakdown d) = du_total_tokens d.

(** The order of tiers by what they grant. *)
Definition tier_rank (t : SubscriptionTier) : Z :=
  match t with Free => 0 | Pro => 1 | ProPlus => 2 | Power => 3 | PowerPlus => 4 end.
Definition limit_le (a b : option Z) : Prop :=
  match a, b with _, None => True | None, Some _ => False | Some x, Some y => (x ≤ y)%Z end.
Definition quota_le (a b : SubscriptionQuota) : Prop :=
  (q_max_agents a ≤ q_max_agents b)%Z ∧
  (q_inference_credits a ≤ q_inference_credits b)%Z ∧
  limit_le (q_daily_token_limit a) (q_daily_token_limit b) ∧
  (q_max_api_keys a ≤ q_max_api_keys b)%Z ∧
  q_model_access a ⊆ q_model_access b ∧
  (q_additional_agent_discount a ≤ q_additional_agent_discount b)%Z ∧
  (q_max_premium_models a ≤ q_max_premium_models b)%Z ∧
  (q_premium_agent_access a → q_premium_agent_access b).

(** A calendar of 24-hour days and 30-day months, for examples. *)
Definition hour_ns : Z := (3600 * 1000000000)%Z.
#[local] Instance simple_calendar : Chrono := {
  month_key t := pretty (t / (720 * hour_ns))%Z;
  day_key t := pretty (t / (24 * hour_ns))%Z;
  week_key t := pretty (t / (168 * hour_ns))%Z;
  date_naive t := (t / (24 * hour_ns))%Z;
  hour t := Z.to_nat ((t / hour_ns) mod 24);
}.
#[local] Instance simple_calendar_laws : ChronoLaws simple_calendar.
Proof. constructor. intros t. simpl. pose proof (Z.mod_pos_bound (t / hour_ns) 24). lia. Qed.

(** ** Lemmas *)

Section views.
Context `{Chrono}.

Lemma usage_run_snoc start log c :
  usage_run start (log ++ [c]) = usage_exec (usage_run start log) c.
Proof. unfold usage_run. by rewrite foldl_snoc. Qed.

Lemma logged_snoc amount log c :
  logged amount (log ++ [c]) = (logged amount log + amount c)%Z.
Proof. unfold logged. rewrite fmap_app, Zsum_app. unfold Zsum. simpl. lia. Qed.

(** A counter that every call moves by the amount of the call, modulo the
    width, equals the logged amount. *)
Lemma counter_follows_log (view : UsageTracker → Z) (amount : usage_call → Z) start log :
  view (new_tracker start) = 0%Z →
  (∀ t c, in_u64 (view t) → view (usage_exec t c) = u64_add (view t) (amount c)) →
  view (usage_run start log) = u64_wrap (logged amount log).
Proof.
  intros H0 Hstep. induction log as [|c log IH] using rev_ind.
  - done.
  - rewrite usage_run_snoc, logged_snoc, Hstep, IH; unfold u64_add; autorewrite with u64; [done|].
    rewrite IH. apply u64_wrap_range.
Qed.

(** Solves the equation between a counter and the log, after naming the view:
    the calls that update the view's map and those that leave it. *)
Ltac view_follows v :=
  apply (counter_follows_log v); [done|];
  intros t [] Ht; unfold tokens_of; simpl in *; rewrite ?u64_add_0 by done; try done;
  rewrite ?counter_upsert_same by done;
  try (erewrite counter_upsert; [|done|intros; simpl; first [apply u64_add_add|done]]);
  repeat case_decide; by rewrite ?u64_add_0.

Lemma month_view start log k :
  counter pu_tokens_consumed (token_usage (usage_run start log)) k =
    u64_wrap (logged (under_key month_key k tokens_of) log).
Proof. view_follows (λ t, counter pu_tokens_consumed (token_usage t) k). Qed.

Lemma week_view start log k :
  counter pu_tokens_consumed (weekly_usage (usage_run start log)) k =
    u64_wrap (logged (under_key week_key k tokens_of) log).
Proof. view_follows (λ t, counter pu_tokens_consumed (weekly_usage t) k). Qed.

Lemma day_view start log k :
  counter du_total_tokens (daily_usage (usage_run start log)) k =
    u64_wrap (logged (under_key day_key k tokens_of) log).
Proof. view_follows (λ t, counter du_total_tokens (daily_usage t) k). Qed.

Lemma model_input_view start log m :
  counter mu_input_tokens (model_usage (usage_run start log)) m =
    u64_wrap (logged (for_model m input_of) log).
Proof. view_follows (λ t, counter mu_input_tokens (model_usage t) m). Qed.

Lemma model_output_view start log m :
  counter mu_output_tokens (model_usage (usage_run start log)) m =
    u64_wrap (logged (for_model m output_of) log).
Proof. view_follows (λ t, counter mu_output_tokens (model_usage t) m). Qed.

Lemma agent_view start log a :
  counter au_hire_count (agent_usage (usage_run start log)) a =
    u64_wrap (logged (for_agent a hires_of) log).
Proof. view_follows (λ t, counter au_hire_count (agent_usage t) a). Qed.

Lemma agent_month_view start log k :
  counter ap_hire_count (agent_usage_periods (usage_run start log)) k =
    u64_wrap (logged (under_key month_key k hires_of) log).
Proof. view_follows (λ t, counter ap_hire_count (agent_usage_periods t) k). Qed.
(** The month's record of one model, input and output tokens. *)
Lemma breakdown_upsert (c : ModelUsage → Z) x now model_id i o k m mm :
  c (default_model_usage now) = 0%Z →
  (∀ u, c (add_model_tokens now i o u) = u64_add (c u) x) →
  in_u64 (counter (λ p, counter c (pu_model_breakdown p) m) mm k) →
  counter (λ p, counter c (pu_model_breakdown p) m)
    (upsert (default_period_usage now) (add_period_tokens now model_id i o) (month_key now) mm) k =
  u64_add (counter (λ p, counter c (pu_model_breakdown p) m) mm k)
    (if decide (month_key now = k) then if decide (model_id = m) then x else 0 else 0).
Proof.
  intros H0 Hx Hr. destruct (decide (model_id = m)) as [->|Hm].
  - rewrite (counter_upsert _ _ _ x); [|done|].
    + case_decide; by rewrite ?u64_add_0.
    + intros p. simpl. rewrite (counter_upsert _ _ _ x) by done. by rewrite decide_True.
  - rewrite counter_upsert_same; [|done|].
    + case_decide; by rewrite u64_add_0.
    + intros p. simpl. rewrite (counter_upsert _ _ _ x) by done. by rewrite decide_False.
Qed.

Lemma breakdown_view start log k m :
  counter (λ p, counter mu_input_tokens (pu_model_breakdown p) m)
      (token_usage (usage_run start log)) k =
    u64_wrap (logged (under_key month_key k (for_model m input_of)) log) ∧
  counter (λ p, counter mu_output_tokens (pu_model_breakdown p) m)
      (token_usage (usage_run start log)) k =
    u64_wrap (logged (under_key month_key k (for_model m output_of)) log).
Proof.
  split.
  - apply (counter_follows_log
      (λ t, counter (λ p, counter mu_input_tokens (pu_model_breakdown p) m) (token_usage t) k));
      [done|].
    intros t [] Ht; simpl; [by apply breakdown_upsert| |by rewrite u64_add_0].
    case_decide; by rewrite u64_add_0.
  - apply (counter_follows_log
      (λ t, counter (λ p, counter mu_output_tokens (pu_model_breakdown p) m) (token_usage t) k));
      [done|].
    intros t [] Ht; simpl; [by apply breakdown_upsert| |by rewrite u64_add_0].
    case_decide; by rewrite u64_add_0.
Qed.

(** *** Totals *)

Lemma total_tokens_map_sum t :
  total_tokens_consumed t =
    u64_wrap (map_sum (λ u, u64_add (mu_input_tokens u) (mu_output_tokens u)) (model_usage t)).
Proof. unfold total_tokens_consumed. by rewrite u64_sum_spec, Zsum_btree_values. Qed.

(** A sum over a map that token calls increase by their tokens. *)
Ltac total_follows v :=
  apply (counter_follows_log v); [done|];
  intros t [] Ht; unfold tokens_of; simpl in *; rewrite ?u64_add_0 by done; try done;
  etransitivity; [apply map_sum_upsert|symmetry; apply u64_wrap_add_l]; [done|].

Lemma model_total start log :
  total_tokens_consumed (usage_run start log) = u64_wrap (logged tokens_of log).
Proof.
  rewrite total_tokens_map_sum.
  total_follows (λ t, u64_wrap (map_sum
    (λ u, u64_add (mu_input_tokens u) (mu_output_tokens u)) (model_usage t))).
  intros v. simpl. unfold u64_add. autorewrite with u64. f_equal. lia.
Qed.

Lemma month_total start log :
  u64_wrap (map_sum pu_tokens_consumed (token_usage (usage_run start log))) =
    u64_wrap (logged tokens_of log).
Proof.
  total_follows (λ t, u64_wrap (map_sum pu_tokens_consumed (token_usage t))).
  intros v. apply u64_add_add.
Qed.

Lemma week_total start log :
  u64_wrap (map_sum pu_tokens_consumed (weekly_usage (usage_run start log))) =
    u64_wrap (logged tokens_of log).
Proof.
  total_follows (λ t, u64_wrap (map_sum pu_tokens_consumed (weekly_usage t))).
  intros v. apply u64_add_add.
Qed.
End views.

(** *** Days *)

Lemma add_day_tokens_consistent h i o d :
  h < 24 → day_consistent d → day_consistent (add_day_tokens h i o d).
Proof.
  intros Hh [Hlen Hsum]. split; simpl; [by rewrite length_alter|].
  destruct (lookup_lt_is_Some_2 (du_hourly_breakdown d) h) as [x Hx]; [lia|].
  rewrite <- Hsum, !u64_sum_spec, (Zsum_alter _ _ _ x Hx). unfold u64_add.
  autorewrite with u64. rewrite <- Z.add_sub_assoc, Z.add_comm.
  unfold u64_wrap. rewrite Zplus_mod, Zminus_mod, Z.mod_mod by lia.
  rewrite <- Zminus_mod, <- Zplus_mod. f_equal. lia.
Qed.

Lemma days_consistent (C : Chrono) (L : ChronoLaws C) start log :
  map_Forall (λ _ d, day_consistent d) (daily_usage (usage_run start log)).
Proof.
  assert (Hdef : ∀ n, day_consistent (default_daily_usage n)) by done.
  induction log as [|c log IH] using rev_ind; [apply map_Forall_empty|].
  rewrite usage_run_snoc.
  assert (Hd : ∀ n k, day_consistent
    (default (default_daily_usage n) (daily_usage (usage_run start log) !! k))).
  { intros n k. destruct (_ !! k) eqn:E; [exact (IH _ _ E)|apply Hdef]. }
  destruct c; simpl; [..|done]; apply map_Forall_insert_2; try done.
  - apply add_day_tokens_consistent; [apply hour_bound|apply Hd].
  - apply Hd.
Qed.

(** *** Credits *)

Lemma since_reset_snoc log c :
  since_reset (log ++ [c]) =
    match c with CallReset => [] | _ => since_reset log ++ [c] end.
Proof. unfold since_reset. by rewrite foldl_snoc. Qed.

Lemma credits_follow_charges `{Chrono} start log :
  current_period_credits_used (usage_run start log) =
    u64_wrap (logged charge_of (since_reset log)).
Proof.
  induction log as [|c log IH] using rev_ind; [done|].
  rewrite usage_run_snoc, since_reset_snoc.
  destruct c; simpl; [..|done]; rewrite logged_snoc, IH; apply u64_wrap_add_l.
Qed.

Lemma period_start_fixed `{Chrono} start log :
  current_period_start (usage_run start log) = start.
Proof.
  induction log as [|c log IH] using rev_ind; [done|].
  rewrite usage_run_snoc. by destruct c.
Qed.

(** *** Charges *)

(** Below 2^53 tokens the floating-point computation is exact. *)
Lemma token_cost_div_up i o :
  (0 ≤ i)%Z → (0 ≤ o)%Z → (i + o < 2 ^ 53)%Z →
  calculate_token_cost i o = div_up (i + o) 1000.
Proof.
  intros Hi Ho Hlt.
  unfold calculate_token_cost, u64_add. rewrite u64_wrap_small by (widths; lia).
  destruct (decide (i + o = 0)%Z) as [->|Hnz]; [done|].
  pose proof (div_up_bounds (i + o) 1000 ltac:(lia)).
  apply ceil_quotient_exact; [lia..|widths; lia].
Qed.

(** ** Theorems *)

(** C35: the views agree with the history.  After any calls on a new tracker,
    every counter (tokens per month, week and day, input and output tokens per
    model and per model within a month, hires per agent and per month) is the
    sum, modulo 2^64, of what the history says for its key, however long ago that
    was: days and weeks are never dropped, although the fields are documented as the
    last 90 days and the last 12 weeks. *)
Theorem views_match_log `{Chrono} start log k m :
  let t := usage_run start log in
  counter pu_tokens_consumed (token_usage t) k =
    u64_wrap (logged (under_key month_key k tokens_of) log) ∧
  counter pu_tokens_consumed (weekly_usage t) k =
    u64_wrap (logged (under_key week_key k tokens_of) log) ∧
  counter du_total_tokens (daily_usage t) k =
    u64_wrap (logged (under_key day_key k tokens_of) log) ∧
  counter mu_input_tokens (model_usage t) m = u64_wrap (logged (for_model m input_of) log) ∧
  counter mu_output_tokens (model_usage t) m = u64_wrap (logged (for_model m output_of) log) ∧
  counter (λ p, counter mu_input_tokens (pu_model_breakdown p) m) (token_usage t) k =
    u64_wrap (logged (under_key month_key k (for_model m input_of)) log) ∧
  counter (λ p, counter mu_output_tokens (pu_model_breakdown p) m) (token_usage t) k =
    u64_wrap (logged (under_key month_key k (for_model m output_of)) log) ∧
  counter au_hire_count (agent_usage t) m = u64_wrap (logged (for_agent m hires_of) log) ∧
  counter ap_hire_count (agent_usage_periods t) k =
    u64_wrap (logged (under_key month_key k hires_of) log).
Proof.
  intros t. unfold t. destruct (breakdown_view start log k m) as [? ?].
  eauto 12 using month_view, week_view, day_view, model_input_view, model_output_view,
    agent_view, agent_month_view.
Qed.

(** The total the tracker reports is the sum of all tokens ever recorded,
    modulo 2^64, and so are the sums of its monthly and of its weekly records. *)
Theorem totals_match_log `{Chrono} start log :
  let t := usage_run start log in
  total_tokens_consumed t = u64_wrap (logged tokens_of log) ∧
  u64_wrap (map_sum pu_tokens_consumed (token_usage t)) = u64_wrap (logged tokens_of log) ∧
  u64_wrap (map_sum pu_tokens_consumed (weekly_usage t)) = u64_wrap (logged tokens_of log).
Proof. intros t. split_and!; [apply model_total|apply month_total|apply week_total]. Qed.

(** Every daily record has 24 hourly counters whose sum is the total of the
    day; the index into them is never out of range. *)
Theorem hours_sum_to_day (C : Chrono) (L : ChronoLaws C) start log k d :
  daily_usage (usage_run start log) !! k = Some d → day_consistent d.
Proof. intros Hd. exact (days_consistent C L start log k d Hd). Qed.


(** The charge computed in floating point is exact for all requests below
    2^53 tokens: the tokens divided by 1000, rounded up; and an estimate equals
    the charge. *)
Theorem token_cost_exact `{Chrono} i o now now2 model_id t :
  (0 ≤ i)%Z → (0 ≤ o)%Z → (i + o < 2 ^ 53)%Z →
  (record_token_usage now now2 model_id i o t).2 = div_up (i + o) 1000 ∧
  estimate_token_cost i o = div_up (i + o) 1000.
Proof. intros. split; by apply token_cost_div_up. Qed.

Lemma token_cost_exact_witness :
  (record_token_usage 0 0 "m" 1500 501 (new_tracker 0)).2 = 3%Z ∧
  estimate_token_cost 1500 501 = 3%Z.
Proof. apply (token_cost_exact 1500 501 0 0 "m" (new_tracker 0)); lia. Defined.

(** The credits left are the credits of the period less the charges since
    the last reset, never below zero; and credits suffice exactly when that many
    are left. *)
Theorem remaining_credits_exact `{Chrono} start log total required :
  in_u64 total → in_u64 (logged charge_of (since_reset log)) →
  let left := Z.max 0 (total - logged charge_of (since_reset log)) in
  remaining_credits total (usage_run start log) = left ∧
  has_sufficient_credits total required (usage_run start log) = (required <=? left)%Z.
Proof.
  intros Ht Hl left.
  assert (Heq : remaining_credits total (usage_run start log) = left).
  { unfold remaining_credits, left.
    rewrite credits_follow_charges, u64_wrap_small by done.
    destruct (total <=? _)%Z eqn:E; bool_to_prop; [lia|].
    unfold u64_sub. rewrite u64_wrap_small; widths; lia. }
  split; [done|]. unfold has_sufficient_credits. by rewrite Heq.
Qed.


(** The current period is stuck at the month in which the tracker was
    created: whatever is called later, the current usage is that month's, so
    tokens recorded in any other month never count. *)
Theorem current_period_stuck `{Chrono} now start log :
  current_period_tokens now (usage_run start log) =
    u64_wrap (logged (under_key month_key (month_key start) tokens_of) log).
Proof.
  rewrite <- (month_view start log). unfold current_period_tokens, current_usage, counter.
  rewrite period_start_fixed. by destruct (_ !! _).
Qed.

(** A higher tier grants at least as much of everything as a lower one. *)
Theorem quota_monotone t1 t2 :
  (tier_rank t1 ≤ tier_rank t2)%Z → quota_le (tier_quota t1) (tier_quota t2).
Proof.
  intros Hle. destruct t1, t2; simpl in Hle; try lia;
    (repeat split; simpl; try lia; try done; set_solver).
Qed.
