(* ===== verification/ApiKeys.v ===== *)
(** * API keys (form-state/src/api_keys/mod.rs)

    Creation, validity, scopes and secrets of API keys.  The identifiers the uuid
    crate draws are arguments, as are the readings of the clock. *)

From stdpp Require Import options.
From S2P Require Import Prelude.

Inductive ApiKeyStatus : Type := KActive | KRevoked | KExpired.
Inductive ApiKeyScope : Type := ReadOnly | ReadWrite | Admin.

#[global] Instance ApiKeyStatus_eq_dec : EqDecision ApiKeyStatus.
Proof. solve_decision. Defined.
#[global] Instance ApiKeyScope_eq_dec : EqDecision ApiKeyScope.
Proof. solve_decision. Defined.

Record ApiKey : Type := mkApiKey {
  key_id : string;
  key_name : string;
  account_id : string;
  hashed_secret : string;
  scope : ApiKeyScope;
  key_status : ApiKeyStatus;
  key_created_at : Z;
  expires_at : option Z;
  description : option string;
}.

Record ApiKeyMetadata : Type := mkMetadata {
  md_id : string;
  md_name : string;
  md_scope : ApiKeyScope;
  md_status : ApiKeyStatus;
  md_created_at : Z;
  md_expires_at : option Z;
  md_description : option string;
}.

#[global] Instance ApiKey_eq_dec : EqDecision ApiKey.
Proof. solve_decision. Defined.

(** [ApiKey::new]; [uuid1] and [uuid2] are the two identifiers drawn. *)
Definition new_key (now : Z) (uuid1 uuid2 name account_id : string) (scope : ApiKeyScope)
    (description : option string) : ApiKey * string :=
  let id := "key_" +:+ uuid1 in
  let secret := "sk_" +:+ uuid2 in
  let hashed_secret := "hashed_" +:+ secret in
  (mkApiKey id name account_id hashed_secret scope KActive now None description, secret).

Definition is_valid (now : Z) (k : ApiKey) : bool :=
  match key_status k with
  | KActive => match expires_at k with Some e => (now <? e)%Z | None => true end
  | _ => false
  end.

Definition is_allowed_from_ip (_ip : string) (k : ApiKey) : bool := true.

Definition can_perform_operation (operation : string) (k : ApiKey) : bool :=
  match scope k with
  | Admin => true
  | ReadWrite => negb (String.prefix "admin." operation)
  | ReadOnly => String.prefix "models.get" operation || String.prefix "models.list" operation
  end.

Definition verify_secret (full_key : string) (k : ApiKey) : bool :=
  bool_decide (hashed_secret k = "hashed_" +:+ full_key).

Definition revoke (k : ApiKey) : ApiKey :=
  mkApiKey (key_id k) (key_name k) (account_id k) (hashed_secret k) (scope k) KRevoked
    (key_created_at k) (expires_at k) (description k).

(** [ApiKeyMetadata::from]. *)
Definition metadata_of (k : ApiKey) : ApiKeyMetadata :=
  mkMetadata (key_id k) (key_name k) (scope k) (key_status k) (key_created_at k)
    (expires_at k) (description k).

(** ** Specification *)

Definition scope_rank (s : ApiKeyScope) : Z :=
  match s with ReadOnly => 0 | ReadWrite => 1 | Admin => 2 end.

(** ** Lemmas *)

Lemma prefix_admin_not_read op :
  String.prefix "models.get" op = true ∨ String.prefix "models.list" op = true →
  String.prefix "admin." op = false.
Proof.
  destruct op as [|a op]; [by intros [|]|].
  cbn [String.prefix].
  match goal with |- context [Ascii.ascii_dec ?x a] => destruct (Ascii.ascii_dec x a) as [<-|] end;
    first [done|by intros [|]].
Qed.

Lemma verify_secret_new now u1 u2 name acct sc d full_key :
  verify_secret full_key (new_key now u1 u2 name acct sc d).1 = true ↔
  full_key = (new_key now u1 u2 name acct sc d).2.
Proof.
  unfold verify_secret. rewrite bool_decide_eq_true. simpl. split; [|by intros ->].
  intros Heq. by simplify_eq/=.
Qed.

(** ** Theorems *)

(** Scopes are ordered: whatever a key may do, a key of a higher scope may
    do too. *)
Theorem scope_monotone op k1 k2 :
  (scope_rank (scope k1) ≤ scope_rank (scope k2))%Z →
  can_perform_operation op k1 = true → can_perform_operation op k2 = true.
Proof.
  unfold can_perform_operation. intros Hle Hop.
  destruct (scope k1) eqn:E1, (scope k2) eqn:E2; simpl in Hle; try done; try lia.
  apply orb_true_iff in Hop. by rewrite (prefix_admin_not_read op Hop).
Qed.
