(* ===== verification/RateLimiter.v ===== *)
(** * Rate limiting of API keys (form-state/src/api_keys/rate_limiter.rs)

    Three counters per key, for a minute, an hour and a day.  Instants are
    integers in nanoseconds; the reading of the clock is an argument, and the
    monotonicity of [std::time::Instant] appears as a hypothesis on sequences
    of calls.  The mutex serialises the calls, so the shared table is the state. *)

From stdpp Require Import options.
From S2P Require Import Prelude Billing.

Record RateLimitConfig : Type := mkConfig {
  requests_per_minute : Z;
  requests_per_hour : Z;
  requests_per_day : Z;
}.

Definition for_subscription_tier (t : SubscriptionTier) : RateLimitConfig :=
  match t with
  | Free => mkConfig 30 500 5000
  | Pro => mkConfig 60 1000 10000
  | ProPlus => mkConfig 120 2500 25000
  | Power => mkConfig 300 10000 100000
  | PowerPlus => mkConfig 600 25000 250000
  end.

Record RateLimiterEntry : Type := mkEntry {
  entry_key_id : string;
  minute_requests : Z;
  minute_window_start : Z;
  hour_requests : Z;
  hour_window_start : Z;
  day_requests : Z;
  day_window_start : Z;
}.

Inductive RateLimitCheckResult : Type :=
| Allowed (remaining_minute remaining_hour remaining_day : Z)
| ExceededPerMinute (current limit reset_after : Z)
| ExceededPerHour (current limit reset_after : Z)
| ExceededPerDay (current limit reset_after : Z).

Definition new_entry (now : Z) (key_id : string) : RateLimiterEntry :=
  mkEntry key_id 0 now 0 now 0 now.

(** [Duration::from_secs] and [Duration::as_secs], in nanoseconds. *)
Definition from_secs (s : Z) : Z := (s * 1000000000)%Z.
Definition as_secs (d : Z) : Z := (d / 1000000000)%Z.
(** [a.duration_since(b)]: zero when [b] is later. *)
Definition duration_since (a b : Z) : Z := Z.max 0 (a - b).

(** One counter and the start of its window, reset when the window is over. *)
Definition refresh (now secs : Z) (w : Z * Z) : Z * Z :=
  if (from_secs secs <? duration_since now w.2)%Z then (0%Z, now) else w.

Definition refresh_entry (now : Z) (e : RateLimiterEntry) : RateLimiterEntry :=
  let m := refresh now 60 (minute_requests e, minute_window_start e) in
  let h := refresh now 3600 (hour_requests e, hour_window_start e) in
  let d := refresh now 86400 (day_requests e, day_window_start e) in
  mkEntry (entry_key_id e) m.1 m.2 h.1 h.2 d.1 d.2.

Definition check_and_update (now : Z) (config : RateLimitConfig) (e0 : RateLimiterEntry)
    : RateLimiterEntry * RateLimitCheckResult :=
  let e := refresh_entry now e0 in
  if (requests_per_minute config <=? minute_requests e)%Z then
    (e, ExceededPerMinute (minute_requests e) (requests_per_minute config)
          (u64_sub 60 (as_secs (duration_since now (minute_window_start e)))))
  else if (requests_per_hour config <=? hour_requests e)%Z then
    (e, ExceededPerHour (hour_requests e) (requests_per_hour config)
          (u64_sub 3600 (as_secs (duration_since now (hour_window_start e)))))
  else if (requests_per_day config <=? day_requests e)%Z then
    (e, ExceededPerDay (day_requests e) (requests_per_day config)
          (u64_sub 86400 (as_secs (duration_since now (day_window_start e)))))
  else
    let e' := mkEntry (entry_key_id e)
      (u32_add (minute_requests e) 1) (minute_window_start e)
      (u32_add (hour_requests e) 1) (hour_window_start e)
      (u32_add (day_requests e) 1) (day_window_start e) in
    (e', Allowed (u32_sub (requests_per_minute config) (minute_requests e'))
           (u32_sub (requests_per_hour config) (hour_requests e'))
           (u32_sub (requests_per_day config) (day_requests e'))).

Definition get_rate_limit_headers (r : RateLimitCheckResult) : gmap string string :=
  match r with
  | Allowed m h d =>
      <["X-RateLimit-Remaining-Day" := pretty d]> $ <["X-RateLimit-Limit-Day" := pretty d]> $
      <["X-RateLimit-Remaining-Hour" := pretty h]> $ <["X-RateLimit-Limit-Hour" := pretty h]> $
      <["X-RateLimit-Remaining-Minute" := pretty m]> $
      <["X-RateLimit-Limit-Minute" := pretty m]> ∅
  | ExceededPerMinute _ limit reset =>
      <["Retry-After" := pretty reset]> $ <["X-RateLimit-Reset" := pretty reset]> $
      <["X-RateLimit-Remaining-Minute" := "0"]> $
      <["X-RateLimit-Limit-Minute" := pretty limit]> ∅
  | ExceededPerHour _ limit reset =>
      <["Retry-After" := pretty reset]> $ <["X-RateLimit-Reset" := pretty reset]> $
      <["X-RateLimit-Remaining-Hour" := "0"]> $ <["X-RateLimit-Limit-Hour" := pretty limit]> ∅
  | ExceededPerDay _ limit reset =>
      <["Retry-After" := pretty reset]> $ <["X-RateLimit-Reset" := pretty reset]> $
      <["X-RateLimit-Remaining-Day" := "0"]> $ <["X-RateLimit-Limit-Day" := pretty limit]> ∅
  end.

(** The table of entries behind the mutex. *)
Notation ApiKeyRateLimiter := (gmap string RateLimiterEntry).
Definition new_limiter : ApiKeyRateLimiter := ∅.

(** [now1] is read when the entry is created, [now] when it is checked. *)
Definition check_rate_limit (now1 now : Z) (key_id : string) (t : SubscriptionTier)
    (entries : ApiKeyRateLimiter) : ApiKeyRateLimiter * RateLimitCheckResult :=
  let config := for_subscription_tier t in
  let entry := default (new_entry now1 key_id) (entries !! key_id) in
  let '(entry', r) := check_and_update now config entry in
  (<[key_id := entry']> entries, r).

Definition cleanup_expired (now : Z) (entries : ApiKeyRateLimiter) : ApiKeyRateLimiter :=
  filter (λ p, (duration_since now (day_window_start p.2) < from_secs 86400)%Z) entries.

(** ** Traces *)

Definition is_allowed (r : RateLimitCheckResult) : bool :=
  match r with Allowed _ _ _ => true | _ => false end.

(** A call of [check_rate_limit] with its two readings of the clock. *)
Record request : Type := mkRequest {
  req_key : string;
  req_tier : SubscriptionTier;
  req_created : Z;
  req_now : Z;
}.

(** What happens to the table: a request, or the clean-up that runs every hour. *)
Inductive event : Type :=
| Ask (r : request)
| Cleanup (now : Z).

(** The clock never goes back between two readings. *)
Fixpoint clock_ordered (last : Z) (evs : list event) : bool :=
  match evs with
  | [] => true
  | Ask r :: evs' =>
      (last <=? req_created r)%Z && (req_created r <=? req_now r)%Z &&
      clock_ordered (req_now r) evs'
  | Cleanup now :: evs' => (last <=? now)%Z && clock_ordered now evs'
  end.

(** The instants at which requests of the key [k] are allowed, in a sequence of
    requests of any keys and clean-ups. *)
Fixpoint limiter_allowed (k : string) (entries : ApiKeyRateLimiter) (evs : list event)
    : list Z :=
  match evs with
  | [] => []
  | Ask r :: evs' =>
      let '(entries', res) :=
        check_rate_limit (req_created r) (req_now r) (req_key r) (req_tier r) entries in
      (if bool_decide (req_key r = k) && is_allowed res then [req_now r] else []) ++
      limiter_allowed k entries' evs'
  | Cleanup now :: evs' => limiter_allowed k (cleanup_expired now entries) evs'
  end.

(** The instants of the clean-ups. *)
Definition cleanups (evs : list event) : list Z :=
  omap (λ ev, match ev with Cleanup now => Some now | Ask _ => None end) evs.

(** The requests of the key [k] have the tier [t]. *)
Definition asks_tier (k : string) (t : SubscriptionTier) (ev : event) : Prop :=
  match ev with Ask r => req_key r = k → req_tier r = t | Cleanup _ => True end.

(** How many of [l] lie in the closed interval from [a] to [b]. *)
Definition count_in (a b : Z) (l : list Z) : Z :=
  Z.of_nat (length (filter (λ t, (a ≤ t ≤ b)%Z) l)).

(** A window of length [W] with limit [L] of an entry that was created at [b] or later,
    after the requests [acc] that the entry allowed: its count is that of the requests
    since its start, the requests before the start that are within [W] of it are at
    most [L], any interval of length [W] holds at most [2 L], and the first one,
    from [b], at most [L]. *)
Definition window_inv (W L b : Z) (w : Z * Z) (acc : list Z) : Prop :=
  Forall (λ t, (b ≤ t ≤ w.2 + W)%Z) acc ∧
  count_in w.2 (w.2 + W) acc = w.1 ∧ (0 ≤ w.1 ≤ L)%Z ∧
  (count_in (w.2 - W) (w.2 - 1) acc ≤ L)%Z ∧
  (∀ a, (count_in a (a + W) acc ≤ 2 * L)%Z) ∧
  (b ≤ w.2)%Z ∧ ((b + W < w.2)%Z ∨ Forall (λ t, (w.2 ≤ t)%Z) acc) ∧
  (count_in b (b + W) acc ≤ L)%Z.

(** Requests allowed by the entries of a key that were dropped, the last of them at [b],
    while the clean-ups [cl] ran: an interval of length [W] without a clean-up holds at
    most [2 L], one of length [V] at most [K + 1] times [L], and when it reaches [b] at
    most [K] times. *)
Definition past_inv (V W L K b : Z) (cl past : list Z) : Prop :=
  (past = [] ∨ b ∈ cl) ∧ Forall (λ t, (t ≤ b)%Z) past ∧
  (∀ a, count_in a (a + W) cl = 0 → (count_in a (a + W) past ≤ 2 * L)%Z)%Z ∧
  (∀ a, (count_in a (a + V) past ≤ (K + 1) * L)%Z) ∧
  (∀ a, (b - V ≤ a)%Z → (count_in a (a + V) past ≤ K * L)%Z).

(** What a result tells the caller is true of the entry it leaves: the remaining
    requests of an allowed one, and the time until the window of a refused one is
    over. *)
Definition result_sound (now : Z) (c : RateLimitConfig) (e : RateLimiterEntry)
    (r : RateLimitCheckResult) : Prop :=
  let waits secs start reset :=
    (0 ≤ reset ≤ secs)%Z ∧ (start + from_secs secs < now + from_secs (reset + 1))%Z in
  match r with
  | Allowed m h d =>
      (m = requests_per_minute c - minute_requests e ∧ 0 ≤ m ∧
       h = requests_per_hour c - hour_requests e ∧ 0 ≤ h ∧
       d = requests_per_day c - day_requests e ∧ 0 ≤ d)%Z
  | ExceededPerMinute n limit reset =>
      n = minute_requests e ∧ limit = requests_per_minute c ∧ (limit ≤ n)%Z ∧
      waits 60%Z (minute_window_start e) reset
  | ExceededPerHour n limit reset =>
      n = hour_requests e ∧ limit = requests_per_hour c ∧ (limit ≤ n)%Z ∧
      waits 3600%Z (hour_window_start e) reset
  | ExceededPerDay n limit reset =>
      n = day_requests e ∧ limit = requests_per_day c ∧ (limit ≤ n)%Z ∧
      waits 86400%Z (day_window_start e) reset
  end.

(** The limits of a configuration are representable. *)
Definition config_typed (c : RateLimitConfig) : Prop :=
  (0 < requests_per_minute c ≤ u32_max)%Z ∧ (0 < requests_per_hour c ≤ u32_max)%Z ∧
  (0 < requests_per_day c ≤ u32_max)%Z.

(** The three windows of an entry that was created at [b] or later. *)
Definition entry_inv (c : RateLimitConfig) (b : Z) (e : RateLimiterEntry) (last : Z)
    (acc : list Z) : Prop :=
  window_inv (from_secs 60) (requests_per_minute c) b
    (minute_requests e, minute_window_start e) acc ∧
  window_inv (from_secs 3600) (requests_per_hour c) b
    (hour_requests e, hour_window_start e) acc ∧
  window_inv (from_secs 86400) (requests_per_day c) b
    (day_requests e, day_window_start e) acc ∧
  (minute_window_start e ≤ last ∧ hour_window_start e ≤ last ∧ day_window_start e ≤ last)%Z ∧
  Forall (λ t, (t ≤ last)%Z) acc.

(** What the entry of a key, if it has one, knows of the requests [acc] since [b]. *)
Definition key_inv (c : RateLimitConfig) (b : Z) (o : option RateLimiterEntry) (last : Z)
    (acc : list Z) : Prop :=
  (b ≤ last)%Z ∧ match o with Some e => entry_inv c b e last acc | None => acc = [] end.

(** The requests of the entries dropped before. *)
Definition dropped_inv (c : RateLimitConfig) (b : Z) (cl past : list Z) : Prop :=
  past_inv (from_secs 60) (from_secs 60) (requests_per_minute c) 2 b cl past ∧
  past_inv (from_secs 3600) (from_secs 3600) (requests_per_hour c) 2 b cl past ∧
  past_inv (from_secs 86400 - 1) (from_secs 86400) (requests_per_day c) 1 b cl past.

(** The bounds on the requests allowed while the clean-ups [cl] ran. *)
Definition within_bounds (c : RateLimitConfig) (cl allowed : list Z) : Prop :=
  let steady secs limit :=
    ∀ a, count_in a (a + from_secs secs) cl = 0%Z →
      (count_in a (a + from_secs secs) allowed ≤ 2 * limit)%Z in
  let always span factor limit := ∀ a, (count_in a (a + span) allowed ≤ factor * limit)%Z in
  steady 60%Z (requests_per_minute c) ∧ always (from_secs 60) 3%Z (requests_per_minute c) ∧
  steady 3600%Z (requests_per_hour c) ∧ always (from_secs 3600) 3%Z (requests_per_hour c) ∧
  steady 86400%Z (requests_per_day c) ∧ always (from_secs 86400 - 1)%Z 2%Z (requests_per_day c).

(** The counters of an entry are non-negative and its windows have begun. *)
Definition entry_typed (now : Z) (e : RateLimiterEntry) : Prop :=
  (0 ≤ minute_requests e ∧ 0 ≤ hour_requests e ∧ 0 ≤ day_requests e ∧
   minute_window_start e ≤ now ∧ hour_window_start e ≤ now ∧ day_window_start e ≤ now)%Z.

(** A free key with a first request at 0 and one that starts a new minute window late
    in the day, bursts at the end of that window, after it, and after a clean-up. *)
Definition cleaned_trace : list event :=
  let at_time now := Ask (mkRequest "k" Free now now) in
  [at_time 0%Z; at_time (from_secs 86339)] ++
  replicate 29 (at_time (from_secs 86399)) ++ replicate 30 (at_time (from_secs 86399 + 1)%Z) ++
  [Cleanup (from_secs 86400)] ++ replicate 40 (at_time (from_secs 86400)).

(** ** Lemmas *)

Section counting.
Local Open Scope Z_scope.

Lemma count_in_cons a b t l :
  count_in a b (t :: l) = (if decide (a ≤ t ≤ b) then 1 else 0) + count_in a b l.
Proof. unfold count_in. rewrite filter_cons. case_decide; simpl; lia. Qed.

Lemma count_in_nonneg a b l : 0 ≤ count_in a b l.
Proof. unfold count_in. lia. Qed.

Lemma count_in_mono a b a' b' l :
  a' ≤ a → b ≤ b' → count_in a b l ≤ count_in a' b' l.
Proof.
  intros. induction l as [|t l IH]; [done|]. rewrite !count_in_cons.
  repeat case_decide; lia.
Qed.

Lemma count_in_split a b c l :
  count_in a c l ≤ count_in a (b - 1) l + count_in b c l.
Proof.
  induction l as [|t l IH]; [done|]. rewrite !count_in_cons. repeat case_decide; lia.
Qed.

Lemma count_in_above a b c l :
  Forall (λ t, t ≤ c) l → c < a → count_in a b l = 0.
Proof.
  intros Hl Hc. induction Hl as [|t l Ht _ IH]; [done|].
  rewrite count_in_cons, IH. case_decide; lia.
Qed.

Lemma count_in_from a b c c' l :
  Forall (λ t, b ≤ t) l → c ≤ c' → count_in a c l ≤ count_in b c' l.
Proof.
  intros Hl Hc. induction Hl as [|t l Ht _ IH]; [done|]. rewrite !count_in_cons.
  repeat case_decide; lia.
Qed.

Lemma count_in_below a b c l :
  Forall (λ t, c ≤ t) l → b < c → count_in a b l = 0.
Proof.
  intros Hl Hc. induction Hl as [|t l Ht _ IH]; [done|].
  rewrite count_in_cons, IH. case_decide; lia.
Qed.

Lemma count_in_app a b l1 l2 : count_in a b (l1 ++ l2) = count_in a b l1 + count_in a b l2.
Proof. unfold count_in. rewrite filter_app, length_app. lia. Qed.

Lemma count_in_elem a b t l : t ∈ l → a ≤ t ≤ b → 0 < count_in a b l.
Proof.
  intros Ht Hr. induction Ht as [t l|t t' l _ IH]; rewrite count_in_cons; pose proof (count_in_nonneg a b l).
  - rewrite decide_True by done. lia.
  - specialize (IH Hr). case_decide; lia.
Qed.

Lemma window_upper W L b w acc : window_inv W L b w acc → Forall (λ t, t ≤ w.2 + W) acc.
Proof. intros [Hall _]. eapply Forall_impl; [exact Hall|]. simpl. lia. Qed.

(** The requests since the start of a window are counted. *)
Lemma window_since W L b w acc a c : window_inv W L b w acc → w.2 ≤ a → count_in a c acc ≤ L.
Proof.
  intros Hw Ha. pose proof (window_upper _ _ _ _ _ Hw) as Hup. destruct Hw as (_ & Hcnt & Hb & _).
  pose proof (count_in_split a (w.2 + W + 1) c acc) as Hs.
  rewrite (count_in_above (w.2 + W + 1) _ (w.2 + W)) in Hs by (done || lia).
  pose proof (count_in_mono a (w.2 + W + 1 - 1) w.2 (w.2 + W) acc). lia.
Qed.

(** Restarting a window that is over. *)
Lemma window_restart W L b w acc now :
  0 ≤ W → window_inv W L b w acc → w.2 + W < now → window_inv W L b (0, now) acc.
Proof.
  intros HW Hw Hlt. pose proof (window_upper _ _ _ _ _ Hw) as Hup.
  pose proof (λ a c, window_since _ _ _ _ _ a c Hw) as Hs.
  destruct Hw as (Hall & Hcnt & Hb & Hprev & Hany & Hbw & Hor & Hfirst).
  unfold window_inv. simpl. split_and!; [| |lia|lia| |done|lia|left; lia|done].
  - eapply Forall_impl; [exact Hall|]. simpl. lia.
  - by apply (count_in_above _ _ (w.2 + W)).
  - pose proof (count_in_mono (now - W) (now - 1) w.2 (now - 1) acc).
    specialize (Hs w.2 (now - 1)). lia.
Qed.

Lemma refresh_inv W L b secs w acc now :
  window_inv W L b w acc → W = from_secs secs → 0 ≤ W → w.2 ≤ now →
  window_inv W L b (refresh now secs w) acc ∧
  (refresh now secs w).2 ≤ now ≤ (refresh now secs w).2 + W.
Proof.
  intros Hinv -> HW Hle. unfold refresh, duration_since.
  destruct (_ <? _) eqn:E; bool_to_prop; simpl.
  - split; [apply (window_restart _ _ _ w); [done..|lia]|lia].
  - split; [done|lia].
Qed.

(** Allowing a request in a window that is not full. *)
Lemma window_accept W L b w acc now :
  0 ≤ W → window_inv W L b w acc → w.2 ≤ now ≤ w.2 + W → w.1 < L →
  window_inv W L b (w.1 + 1, w.2) (now :: acc).
Proof.
  intros HW Hw Hnow Hlt. pose proof (window_upper _ _ _ _ _ Hw) as Hup.
  destruct Hw as (Hall & Hcnt & Hb & Hprev & Hany & Hbw & Hor & Hfirst).
  unfold window_inv. cbn [fst snd].
  assert (Hnew : count_in w.2 (w.2 + W) (now :: acc) = w.1 + 1).
  { rewrite count_in_cons, decide_True by lia. lia. }
  split_and!; [constructor; [lia|done]|done|lia|lia| | |done| |].
  - rewrite count_in_cons, decide_False by lia. lia.
  - intros a. rewrite count_in_cons. specialize (Hany a). case_decide; [|lia].
    pose proof (count_in_split a w.2 (a + W) acc).
    pose proof (count_in_mono a (w.2 - 1) (w.2 - W) (w.2 - 1) acc).
    assert (count_in w.2 (a + W) acc ≤ w.1).
    { pose proof (count_in_split w.2 (w.2 + W + 1) (a + W) acc) as Hs.
      rewrite (count_in_above (w.2 + W + 1) _ (w.2 + W)) in Hs by (done || lia).
      replace (w.2 + W + 1 - 1) with (w.2 + W) in Hs by lia. lia. }
    lia.
  - destruct Hor as [?|?]; [by left|right]. constructor; [lia|done].
  - destruct Hor as [?|Hge].
    + rewrite count_in_cons, decide_False by lia. lia.
    + transitivity (count_in w.2 (w.2 + W) (now :: acc)); [|lia].
      apply count_in_from; [constructor; [lia|done]|lia].
Qed.

Lemma window_inv_new W L b now : 0 ≤ L → b ≤ now → window_inv W L b (0, now) [].
Proof.
  intros. unfold window_inv, count_in. cbn -[Z.mul]. split_and!; try done; try lia. by right.
Qed.

(** ** Entries that are dropped *)

Lemma past_inv_new V W L K b cl : 0 ≤ L → 0 ≤ K → past_inv V W L K b cl [].
Proof.
  intros. unfold past_inv, count_in. simpl.
  split_and!; [by left|constructor|intros; lia|intros; nia|intros; nia].
Qed.

Lemma past_inv_cleanup V W L K b cl past now :
  past_inv V W L K b cl past → past_inv V W L K b (now :: cl) past.
Proof.
  intros (Hb & Hall & Hno & ? & ?). split_and!; [|done| |done..].
  - destruct Hb as [?|?]; [by left|right; by apply list_elem_of_further].
  - intros a Ha. apply Hno. rewrite count_in_cons in Ha.
    pose proof (count_in_nonneg a (a + W) cl). case_decide; lia.
Qed.

(** The requests of the present entry and of those dropped before. *)
Lemma past_inv_combine V W L K b cl past w acc :
  V ≤ W → 1 ≤ K → past_inv V W L K b cl past → window_inv W L b w acc →
  (∀ a, count_in a (a + W) cl = 0 → count_in a (a + W) (acc ++ past) ≤ 2 * L) ∧
  (∀ a, count_in a (a + V) (acc ++ past) ≤ (K + 1) * L).
Proof.
  intros HV HK (Hb & Hpast & Hno & Hany & Hreach) (Hall & _ & HL & _ & Hacc & _ & _ & Hfirst).
  assert (Hge : Forall (λ t, b ≤ t) acc) by (eapply Forall_impl; [exact Hall|]; simpl; lia).
  split; intros a.
  - intros Hcl. rewrite count_in_app. specialize (Hacc a). specialize (Hno a Hcl).
    destruct (Z.ltb_spec b a); [rewrite (count_in_above _ _ b past) by done; lia|].
    destruct (Z.ltb_spec (a + W) b); [rewrite (count_in_below _ _ b acc) by done; lia|].
    destruct Hb as [->|Hin]; [unfold count_in at 2; simpl; lia|].
    pose proof (count_in_elem a (a + W) b cl Hin ltac:(lia)). lia.
  - rewrite count_in_app. specialize (Hany a).
    destruct (Z.ltb_spec b a).
    { rewrite (count_in_above _ _ b past) by done.
      pose proof (count_in_mono a (a + V) a (a + W) acc). specialize (Hacc a). nia. }
    destruct (Z.ltb_spec (a + V) b); [rewrite (count_in_below _ _ b acc) by done; lia|].
    specialize (Hreach a ltac:(lia)).
    pose proof (count_in_from a b (a + V) (b + W) acc Hge). lia.
Qed.

(** Dropping an entry. *)
Lemma past_inv_drop V W L K b cl past w acc now :
  0 ≤ V ≤ W → 1 ≤ K → past_inv V W L K b cl past → window_inv W L b w acc →
  Forall (λ t, t ≤ now) acc → b < now - V →
  (∀ a, now - V ≤ a → count_in a (a + V) acc ≤ K * L) →
  past_inv V W L K now (now :: cl) (acc ++ past).
Proof.
  intros HV HK Hp Hw Hnow Hb Hreach.
  destruct (past_inv_combine _ _ _ _ _ _ _ _ _ (proj2 HV) HK Hp Hw) as [H1 H2].
  destruct Hp as (_ & Hpast & _). split_and!; [right; by apply list_elem_of_here| | |done|].
  - apply Forall_app. split; [done|]. eapply Forall_impl; [exact Hpast|]. simpl. intros t.
    lia.
  - intros a Ha. apply H1. rewrite count_in_cons in Ha.
    pose proof (count_in_nonneg a (a + W) cl). case_decide; lia.
  - intros a Ha. rewrite count_in_app, (count_in_above _ _ b past) by (done || lia).
    specialize (Hreach a Ha). lia.
Qed.
End counting.

Lemma cleanup_lookup now (entries : ApiKeyRateLimiter) k :
  cleanup_expired now entries !! k =
  (e ← entries !! k; if decide (duration_since now (day_window_start e) < from_secs 86400)%Z
                     then Some e else None).
Proof.
  unfold cleanup_expired. rewrite map_lookup_filter. destruct (entries !! k) as [e|]; [|done].
  simpl. by repeat case_guard || case_decide.
Qed.

Section entries.
Local Open Scope Z_scope.
Variable c : RateLimitConfig.
Hypothesis c_typed : config_typed c.

Lemma new_entry_inv b now k : b ≤ now → entry_inv c b (new_entry now k) now [].
Proof using c_typed.
  intros. destruct c_typed as (? & ? & ?).
  unfold entry_inv. simpl. split_and!; try lia; [apply window_inv_new; lia..|constructor].
Qed.

(** A refreshed entry keeps the invariant, and the present lies in each of its
    windows. *)
Lemma refresh_entry_inv b e last acc now :
  entry_inv c b e last acc → last ≤ now →
  let e' := refresh_entry now e in
  entry_inv c b e' now acc ∧ now ≤ minute_window_start e' + from_secs 60 ∧
  now ≤ hour_window_start e' + from_secs 3600 ∧ now ≤ day_window_start e' + from_secs 86400.
Proof using Type.
  intros (Hm & Hh & Hd & Hl & Hall) Hle e'.
  destruct (refresh_inv _ _ _ 60 _ _ now Hm eq_refl ltac:(done) ltac:(simpl; lia)).
  destruct (refresh_inv _ _ _ 3600 _ _ now Hh eq_refl ltac:(done) ltac:(simpl; lia)).
  destruct (refresh_inv _ _ _ 86400 _ _ now Hd eq_refl ltac:(done) ltac:(simpl; lia)).
  assert (Forall (λ t, t ≤ now) acc) by (eapply Forall_impl; [exact Hall|]; simpl; lia).
  unfold entry_inv, e', refresh_entry. simpl.
  rewrite <- !surjective_pairing. intuition.
Qed.

(** A request is recorded exactly when it is allowed. *)
Lemma check_and_update_inv b e last acc now :
  entry_inv c b e last acc → last ≤ now →
  let '(e', r) := check_and_update now c e in
  entry_inv c b e' now (if is_allowed r then now :: acc else acc).
Proof using c_typed.
  intros Hinv Hle. destruct c_typed as (? & ? & ?).
  destruct (refresh_entry_inv b e last acc now Hinv Hle) as (Hr & ? & ? & ?).
  unfold check_and_update. set (e1 := refresh_entry now e) in *. clearbody e1.
  destruct (requests_per_minute c <=? minute_requests e1) eqn:?; [exact Hr|].
  destruct (requests_per_hour c <=? hour_requests e1) eqn:?; [exact Hr|].
  destruct (requests_per_day c <=? day_requests e1) eqn:?; [exact Hr|]. bool_to_prop.
  destruct Hr as (Hm & Hh & Hd & ? & Hall). unfold entry_inv, u32_add. cbn -[from_secs].
  pose proof (proj1 (proj2 (proj2 Hm))). pose proof (proj1 (proj2 (proj2 Hh))).
  pose proof (proj1 (proj2 (proj2 Hd))). cbn [fst snd] in *.
  rewrite !u32_wrap_small by (widths; lia).
  refine (conj _ (conj _ (conj _ (conj _ _)))); [..|done|by constructor].
  - apply (window_accept _ _ _ (minute_requests e1, minute_window_start e1)); cbn [fst snd]; done || lia.
  - apply (window_accept _ _ _ (hour_requests e1, hour_window_start e1)); cbn [fst snd]; done || lia.
  - apply (window_accept _ _ _ (day_requests e1, day_window_start e1)); cbn [fst snd]; done || lia.
Qed.

Lemma key_inv_later b o last last' acc :
  key_inv c b o last acc → last ≤ last' → key_inv c b o last' acc.
Proof using Type.
  intros [? Ho] ?. split; [lia|]. destruct o as [e|]; [|done].
  destruct Ho as (? & ? & ? & ? & Hall). unfold entry_inv. split_and!; try done || lia.
  eapply Forall_impl; [exact Hall|]. simpl. lia.
Qed.

Lemma key_inv_entry k b o created acc :
  key_inv c b o created acc → entry_inv c b (default (new_entry created k) o) created acc.
Proof using c_typed. destruct o; [by intros [_ ?]|]. intros [? ->]. by apply new_entry_inv. Qed.

(** A request of the key. *)
Lemma key_inv_request k b o created now acc :
  key_inv c b o created acc → created ≤ now →
  let '(e, r) := check_and_update now c (default (new_entry created k) o) in
  key_inv c b (Some e) now (if is_allowed r then now :: acc else acc).
Proof using c_typed.
  intros Hk Hle. pose proof (check_and_update_inv _ _ _ _ now (key_inv_entry k _ _ _ _ Hk) Hle) as Hs.
  destruct (check_and_update _ _ _) as [e r]. split; [|exact Hs]. destruct Hk. lia.
Qed.

(** A clean-up keeps the entry of the key, or drops it and its requests become past. *)
Lemma key_inv_cleanup b o last now cl acc past :
  key_inv c b o last acc → last ≤ now → dropped_inv c b cl past →
  ∃ b' acc' past',
    key_inv c b' (e ← o; if decide (duration_since now (day_window_start e) < from_secs 86400)
                         then Some e else None) now acc' ∧
    dropped_inv c b' (now :: cl) past' ∧ acc' ++ past' = acc ++ past.
Proof using Type.
  intros Hk Hle (Hm & Hh & Hd). destruct o as [e|]; simpl; [case_decide as Hday|].
  - exists b, acc, past. split_and!; [by eapply key_inv_later| |done].
    split_and!; by apply past_inv_cleanup.
  - destruct Hk as [_ (Wm & Wh & Wd & Hl & Hall)]. exists now, [], (acc ++ past).
    split_and!; [split; [lia|done]| |done]. unfold duration_since in Hday.
    assert (Hb : b ≤ day_window_start e) by apply Wd.
    assert (Hnow : Forall (λ t, t ≤ now) acc) by (eapply Forall_impl; [exact Hall|]; simpl; lia).
    split_and!.
    + eapply past_inv_drop; try done; try (unfold from_secs in *; lia). intros a _. apply Wm.
    + eapply past_inv_drop; try done; try (unfold from_secs in *; lia). intros a _. apply Wh.
    + eapply past_inv_drop; try done; try (unfold from_secs in *; lia). intros a Ha. rewrite Z.mul_1_l.
      eapply window_since; [exact Wd|]. unfold from_secs in *. simpl. lia.
  - destruct Hk as [? ->]. exists b, [], past. split_and!; [split; [lia|done]| |done].
    split_and!; by apply past_inv_cleanup.
Qed.

(** The invariants hold along a trace. *)
Lemma limiter_trace_inv k t entries last b cl acc past evs :
  for_subscription_tier t = c →
  key_inv c b (entries !! k) last acc → dropped_inv c b cl past →
  clock_ordered last evs = true → Forall (asks_tier k t) evs →
  ∃ o last' b' acc' past', key_inv c b' o last' acc' ∧
    dropped_inv c b' (rev (cleanups evs) ++ cl) past' ∧
    acc' ++ past' ≡ₚ limiter_allowed k entries evs ++ acc ++ past.
Proof using c_typed.
  intros Ht. revert entries last b cl acc past.
  induction evs as [|[r|now] evs IH]; intros entries last b cl acc past Hinv Hd Hs Htier.
  { by exists (entries !! k), last, b, acc, past. }
  all: apply Forall_cons in Htier as [Hr Htier']; simpl in Hs; bool_to_prop.
  - assert (Hinv' : key_inv c b (entries !! k) (req_created r) acc) by (by eapply key_inv_later).
    cbn [limiter_allowed]. unfold check_rate_limit.
    destruct (decide (req_key r = k)) as [<-|Hne].
    + rewrite Hr, Ht by done. rewrite bool_decide_true by done.
      pose proof (key_inv_request (req_key r) _ _ _ (req_now r) _ Hinv' ltac:(done)) as Hstep.
      destruct (check_and_update _ _ _) as [e1 res].
      edestruct (IH (<[req_key r := e1]> entries)) as (o & last' & b' & acc' & past' & ? & ? & Hp);
        [rewrite lookup_insert_eq; exact Hstep|done..|].
      exists o, last', b', acc', past'. split_and!; [done..|]. rewrite Hp.
      destruct (is_allowed res); simpl; [|done]. symmetry; apply Permutation_middle.
    + destruct (check_and_update _ _ _) as [e1 res]. rewrite bool_decide_false by done.
      edestruct (IH (<[req_key r := e1]> entries)) as (o & last' & b' & acc' & past' & ? & ? & Hp);
        [rewrite lookup_insert_ne by done; eapply key_inv_later; done|done..|].
      by exists o, last', b', acc', past'.
  - destruct (key_inv_cleanup _ _ _ now _ _ _ Hinv ltac:(done) Hd) as (b' & acc' & past' & Hk & Hd' & E).
    rewrite <-cleanup_lookup in Hk. rewrite <-E. simpl. rewrite <-app_assoc.
    by apply (IH _ now b').
Qed.

Lemma key_inv_bounds b o last cl acc past :
  key_inv c b o last acc → dropped_inv c b cl past → within_bounds c cl (acc ++ past).
Proof using Type.
  intros [_ Ho] (Hm & Hh & Hd). destruct o as [e|].
  - destruct Ho as (Wm & Wh & Wd & _).
    destruct (past_inv_combine (from_secs 60) (from_secs 60) _ 2 _ _ _ _ _ ltac:(done) ltac:(done) Hm Wm) as [??].
    destruct (past_inv_combine (from_secs 3600) (from_secs 3600) _ 2 _ _ _ _ _ ltac:(done) ltac:(done) Hh Wh) as [??].
    destruct (past_inv_combine (from_secs 86400 - 1) (from_secs 86400) _ 1 _ _ _ _ _ ltac:(done) ltac:(done) Hd Wd) as [??].
    by split_and!.
  - subst acc. destruct Hm as (_ & _ & ? & ? & _), Hh as (_ & _ & ? & ? & _), Hd as (_ & _ & ? & ? & _).
    by split_and!.
Qed.
End entries.

#[global] Instance count_in_proper a b : Proper ((≡ₚ) ==> eq) (count_in a b).
Proof. intros l1 l2 Hp. unfold count_in. by rewrite Hp. Qed.

#[global] Instance within_bounds_proper c : Proper ((≡ₚ) ==> (≡ₚ) ==> iff) (within_bounds c).
Proof.
  intros cl cl' Hcl l l' Hl. unfold within_bounds.
  by split; intros (H1 & H2 & H3 & H4 & H5 & H6); split_and!; intros a; specialize (H1 a);
    specialize (H2 a); specialize (H3 a); specialize (H4 a); specialize (H5 a); specialize (H6 a);
    rewrite Hl, Hcl in * || rewrite <-Hl, <-Hcl in *.
Qed.

Lemma rev_permutation {A} (l : list A) : rev l ≡ₚ l.
Proof. symmetry. apply Permutation_rev. Qed.

Lemma tier_config_typed t : config_typed (for_subscription_tier t).
Proof. destruct t; unfold config_typed; simpl; widths; lia. Qed.

(** The time left in a window that is not over. *)
Lemma reset_bounds now start secs :
  (0 ≤ secs ≤ 86400)%Z → (start ≤ now)%Z → (now ≤ start + from_secs secs)%Z →
  let reset := u64_sub secs (as_secs (duration_since now start)) in
  (0 ≤ reset ≤ secs)%Z ∧ (start + from_secs secs < now + from_secs (reset + 1))%Z.
Proof.
  unfold from_secs, as_secs, duration_since. intros Hs Hle Hin.
  rewrite Z.max_r by lia. set (d := (now - start)%Z).
  pose proof (Z.div_mod d 1000000000 ltac:(lia)).
  pose proof (Z.mod_pos_bound d 1000000000 ltac:(lia)).
  unfold u64_sub. rewrite u64_wrap_small by (widths; lia). lia.
Qed.

Lemma refresh_typed now secs w :
  (0 ≤ w.1 ∧ w.2 ≤ now)%Z →
  (0 ≤ (refresh now secs w).1 ∧ (refresh now secs w).2 ≤ now ≤
     (refresh now secs w).2 + Z.max 0 (from_secs secs))%Z.
Proof.
  intros. unfold refresh, duration_since.
  destruct (_ <? _)%Z eqn:E; bool_to_prop; cbn [fst snd]; lia.
Qed.

(** ** Theorems *)

(** C36: whatever the requests of all keys and their times, on a clock that does not go back,
    and whenever the table is cleaned up, a key whose tier does not change is allowed at most twice the limit of its tier
    in any minute, hour and day during which no clean-up runs.  With clean-ups, which
    drop entries that are in use, it is at most three times the limit of the tier in
    any minute and hour, and still twice in any 24 hours, the last instant excluded. *)
Theorem allowed_rate t k start evs :
  clock_ordered start evs = true → Forall (asks_tier k t) evs →
  within_bounds (for_subscription_tier t) (cleanups evs) (limiter_allowed k new_limiter evs).
Proof.
  intros Hs Ht. pose proof (tier_config_typed t) as Hc. destruct (Hc) as (? & ? & ?).
  destruct (limiter_trace_inv _ Hc k t new_limiter start start [] [] [] evs)
    as (o & last & b & acc & past & Hk & Hd & Hp); try done.
  { split_and!; apply past_inv_new; lia. }
  rewrite !app_nil_r in Hp, Hd. rewrite <-Hp, <-rev_permutation. by eapply key_inv_bounds.
Qed.

Lemma cleaned_trace_tier : Forall (asks_tier "k" Free) cleaned_trace.
Proof. repeat (apply Forall_app; split); try apply Forall_replicate; repeat constructor. Qed.

(** 89 requests of a free key within two seconds, around a clean-up that drops its entry. *)
Lemma allowed_rate_witness :
  count_in (from_secs 86399) (from_secs 86401) (limiter_allowed "k" new_limiter cleaned_trace) = 89%Z ∧
  (count_in (from_secs 86399) (from_secs 86399 + from_secs 60)
    (limiter_allowed "k" new_limiter cleaned_trace) ≤ 3 * requests_per_minute (for_subscription_tier Free))%Z.
Proof.
  split; [vm_compute; reflexivity|].
  pose proof (allowed_rate Free "k" 0 cleaned_trace ltac:(vm_compute; reflexivity) cleaned_trace_tier) as H.
  exact (proj1 (proj2 H) (from_secs 86399)).
Defined.

(** The windows do not slide: a free key, limited to 30 requests per
    minute, is allowed 59 of them within one nanosecond. *)
Theorem burst_across_windows :
  let at_time now := Ask (mkRequest "k" Free now now) in
  let reqs := at_time 0%Z :: replicate 29 (at_time (from_secs 60)) ++
                replicate 30 (at_time (from_secs 60 + 1)%Z) in
  count_in (from_secs 60) (from_secs 60 + 1) (limiter_allowed "k" new_limiter reqs) = 59%Z.
Proof. vm_compute. reflexivity. Qed.

(** The numbers reported are right and no subtraction underflows: an allowed
    request reports the limits less the counts, a refused one a time of at most
    the window's length after which the window is over. *)
Theorem check_reports_truth now c e :
  config_typed c → entry_typed now e →
  let '(e', r) := check_and_update now c e in result_sound now c e' r.
Proof.
  intros (? & ? & ?) (? & ? & ? & ? & ? & ?).
  pose proof (refresh_typed now 60 (minute_requests e, minute_window_start e) ltac:(done)).
  pose proof (refresh_typed now 3600 (hour_requests e, hour_window_start e) ltac:(done)).
  pose proof (refresh_typed now 86400 (day_requests e, day_window_start e) ltac:(done)).
  unfold check_and_update, refresh_entry. cbv zeta.
  destruct (refresh now 60 _) as [m ms], (refresh now 3600 _) as [h hs],
    (refresh now 86400 _) as [d ds].
  cbn [minute_requests minute_window_start hour_requests hour_window_start
       day_requests day_window_start fst snd] in *.
  destruct (requests_per_minute c <=? m)%Z eqn:?; bool_to_prop.
  { refine (conj eq_refl (conj eq_refl (conj _ _))); [done|].
    apply reset_bounds; unfold from_secs in *; lia. }
  destruct (requests_per_hour c <=? h)%Z eqn:?; bool_to_prop.
  { refine (conj eq_refl (conj eq_refl (conj _ _))); [done|].
    apply reset_bounds; unfold from_secs in *; lia. }
  destruct (requests_per_day c <=? d)%Z eqn:?; bool_to_prop.
  { refine (conj eq_refl (conj eq_refl (conj _ _))); [done|].
    apply reset_bounds; unfold from_secs in *; lia. }
  unfold result_sound, u32_add, u32_sub.
  cbn [minute_requests hour_requests day_requests].
  rewrite !(u32_wrap_small (_ + 1)), !u32_wrap_small by (widths; lia). lia.
Qed.


(** Cleaning up forgets a key in use: a free key that has just used up its
    minute is allowed 30 more requests at the same instant when the table is
    cleaned in between, because the entry is judged by the start of its day. *)
Theorem cleanup_forgets_active_key :
  let day := from_secs 86400 in
  let check entries now := check_rate_limit now now "k" Free entries in
  let burst entries := foldl (λ es _, (check es day).1) entries (seq 0 30) in
  let used := burst (check new_limiter 0%Z).1 in
  is_allowed (check used day).2 = false ∧
  is_allowed (check (burst (cleanup_expired day used)) day).2 = false ∧
  length (limiter_allowed "k" (cleanup_expired day used)
            (replicate 40 (Ask (mkRequest "k" Free day day)))) = 30.
Proof. vm_compute. auto. Qed.
