(* ===== verification/Accounts.v ===== *)
(** * Accounts (form-state/src/accounts.rs)

    User accounts: ownership and authorization of instances, credits, limits on
    tokens and agents, API keys; and the replicated state that holds them.  The
    replicated map of the crdts crate is a parameter ([AccountMap]). *)

From Stdlib Require Import SpecFloat Ascii.
From stdpp Require Import options.
From S2P Require Import Prelude Float64 Billing ApiKeys.

(** [ReadOnly] is the name of a scope of API keys already. *)
Inductive AuthorizationLevel : Type := Owner | Manager | Operator | ReadOnlyLevel.

#[global] Instance AuthorizationLevel_eq_dec : EqDecision AuthorizationLevel.
Proof. solve_decision. Defined.

Record Account : Type := mkAccount {
  address : string;
  acc_name : option string;
  owned_instances : gset string;
  owned_agents : gset string;
  owned_models : gset string;
  authorized_instances : gmap string AuthorizationLevel;
  subscription : option SubscriptionInfo;
  usage : option UsageTracker;
  credits : Z;
  hired_agents : gset string;
  api_keys : gmap string ApiKey;
  acc_created_at : Z;
  acc_updated_at : Z;
}.

(** [now] is the timestamp in seconds, [now_t] the tracker's reading. *)
Definition new_account (now now_t : Z) (address : string) : Account :=
  mkAccount address None ∅ ∅ ∅ ∅ None (Some (new_tracker now_t)) 100 ∅ ∅ now now.

(** Field updates. *)
Definition set_owned_instances (s : gset string) (a : Account) : Account :=
  mkAccount (address a) (acc_name a) s (owned_agents a) (owned_models a)
    (authorized_instances a) (subscription a) (usage a) (credits a) (hired_agents a)
    (api_keys a) (acc_created_at a) (acc_updated_at a).
Definition set_owned_agents (s : gset string) (a : Account) : Account :=
  mkAccount (address a) (acc_name a) (owned_instances a) s (owned_models a)
    (authorized_instances a) (subscription a) (usage a) (credits a) (hired_agents a)
    (api_keys a) (acc_created_at a) (acc_updated_at a).
Definition set_owned_models (s : gset string) (a : Account) : Account :=
  mkAccount (address a) (acc_name a) (owned_instances a) (owned_agents a) s
    (authorized_instances a) (subscription a) (usage a) (credits a) (hired_agents a)
    (api_keys a) (acc_created_at a) (acc_updated_at a).
Definition set_authorized (m : gmap string AuthorizationLevel) (a : Account) : Account :=
  mkAccount (address a) (acc_name a) (owned_instances a) (owned_agents a) (owned_models a)
    m (subscription a) (usage a) (credits a) (hired_agents a)
    (api_keys a) (acc_created_at a) (acc_updated_at a).
Definition set_usage (u : option UsageTracker) (a : Account) : Account :=
  mkAccount (address a) (acc_name a) (owned_instances a) (owned_agents a) (owned_models a)
    (authorized_instances a) (subscription a) u (credits a) (hired_agents a)
    (api_keys a) (acc_created_at a) (acc_updated_at a).
Definition set_credits (c : Z) (a : Account) : Account :=
  mkAccount (address a) (acc_name a) (owned_instances a) (owned_agents a) (owned_models a)
    (authorized_instances a) (subscription a) (usage a) c (hired_agents a)
    (api_keys a) (acc_created_at a) (acc_updated_at a).
Definition set_hired_agents (s : gset string) (a : Account) : Account :=
  mkAccount (address a) (acc_name a) (owned_instances a) (owned_agents a) (owned_models a)
    (authorized_instances a) (subscription a) (usage a) (credits a) s
    (api_keys a) (acc_created_at a) (acc_updated_at a).
Definition set_api_keys (m : gmap string ApiKey) (a : Account) : Account :=
  mkAccount (address a) (acc_name a) (owned_instances a) (owned_agents a) (owned_models a)
    (authorized_instances a) (subscription a) (usage a) (credits a) (hired_agents a)
    m (acc_created_at a) (acc_updated_at a).
(** [self.updated_at = Utc::now().timestamp()]. *)
Definition touch (now : Z) (a : Account) : Account :=
  mkAccount (address a) (acc_name a) (owned_instances a) (owned_agents a) (owned_models a)
    (authorized_instances a) (subscription a) (usage a) (credits a) (hired_agents a)
    (api_keys a) (acc_created_at a) now.

(** ** Ownership and authorization *)

Definition add_owned_instance (now : Z) (id : string) (a : Account) : Account :=
  touch now (set_owned_instances ({[id]} ∪ owned_instances a) a).
Definition add_owned_agent (now : Z) (id : string) (a : Account) : Account :=
  touch now (set_owned_agents ({[id]} ∪ owned_agents a) a).
Definition add_owned_model (now : Z) (id : string) (a : Account) : Account :=
  touch now (set_owned_models ({[id]} ∪ owned_models a) a).

Definition remove_owned_instance (now : Z) (id : string) (a : Account) : Account * bool :=
  if decide (id ∈ owned_instances a)
  then (touch now (set_owned_instances (owned_instances a ∖ {[id]}) a), true)
  else (a, false).
Definition remove_owned_agent (now : Z) (id : string) (a : Account) : Account * bool :=
  if decide (id ∈ owned_agents a)
  then (touch now (set_owned_agents (owned_agents a ∖ {[id]}) a), true)
  else (a, false).
Definition remove_owned_model (now : Z) (id : string) (a : Account) : Account * bool :=
  if decide (id ∈ owned_models a)
  then (touch now (set_owned_models (owned_models a ∖ {[id]}) a), true)
  else (a, false).

Definition add_authorization (now : Z) (id : string) (level : AuthorizationLevel)
    (a : Account) : Account :=
  touch now (set_authorized (<[id := level]> (authorized_instances a)) a).

Definition remove_authorization (now : Z) (id : string) (a : Account)
    : Account * option AuthorizationLevel :=
  match authorized_instances a !! id with
  | Some l => (touch now (set_authorized (delete id (authorized_instances a)) a), Some l)
  | None => (a, None)
  end.

Definition get_authorization_level (id : string) (a : Account) : option AuthorizationLevel :=
  if decide (id ∈ owned_instances a) then Some Owner else authorized_instances a !! id.

Definition owns_agent (id : string) (a : Account) : bool := bool_decide (id ∈ owned_agents a).
Definition owned_agent_count (a : Account) : Z := Z.of_nat (size (owned_agents a)).

(** ** Credits *)

Definition available_credits (a : Account) : Z :=
  let subscription_credits :=
    match subscription a with
    | Some sub =>
        match sub_status sub with
        | Active | Trial | PastDue => inference_credits_per_period sub
        | _ => 0
        end
    | None => 0
    end%Z in
  if (0 <? subscription_credits)%Z then subscription_credits else credits a.

Definition add_credits (now amount : Z) (a : Account) : Account :=
  touch now (set_credits (u64_saturating_add (credits a) amount) a).

Definition deduct_credits (now amount : Z) (a : Account) : Account * bool :=
  if (amount <=? credits a)%Z
  then (touch now (set_credits (u64_sub (credits a) amount) a), true)
  else (a, false).

(** [usage_tracker()] installs a tracker when there is none and hands out a
    mutable reference to it: the account and the tracker. *)
Definition usage_tracker (now_t : Z) (a : Account) : Account * UsageTracker :=
  match usage a with
  | Some u => (a, u)
  | None => let u := new_tracker now_t in (set_usage (Some u) a, u)
  end.

Definition get_usage (a : Account) : option UsageTracker := usage a.

Definition total_token_usage (a : Account) : Z :=
  match usage a with Some u => total_tokens_consumed u | None => 0 end.
Definition current_period_token_usage `{Chrono} (now : Z) (a : Account) : Z :=
  match usage a with Some u => current_period_tokens now u | None => 0 end.
Definition today_token_usage `{Chrono} (now now2 : Z) (a : Account) : Z :=
  match usage a with Some u => du_total_tokens (today_usage now now2 u) | None => 0 end.

Definition has_sufficient_credits_for_tokens (token_count : Z) (token_cost_per_1k : f64)
    (a : Account) : bool :=
  let cost := f64_mul (f64_div (f64_of_Z token_count) (f64_of_Z 1000)) token_cost_per_1k in
  (f64_ceil_as_u64 cost <=? available_credits a)%Z.

(** ** Tokens *)

(** The test for a premium model, on the model asked for and on those used. *)
Definition premium_model (model_id : string) : bool :=
  str_contains "premium" model_id ||
  bool_decide (str_before "_"%char model_id = "enterprise") ||
  bool_decide (str_before "_"%char model_id = "expert").

Definition premium_count (u : UsageTracker) : Z :=
  usize_as_u32 (Z.of_nat (length (filter (λ m, premium_model m = true)
    (btree_iter (model_usage u)).*1))).

Definition can_use_tokens `{Chrono} (now now2 : Z) (model_id : string) (i o : Z)
    (a : Account) : bool :=
  match usage a with
  | None => (0 <? available_credits a)%Z
  | Some usage =>
      let required_credits := estimate_token_cost i o in
      if (available_credits a <? required_credits)%Z then false
      else
        match subscription a with
        | Some sub =>
            let quota := sub_quota sub in
            let model_tier := str_before "_"%char model_id in
            if negb (bool_decide (model_tier ∈ q_model_access quota)) then false
            else if premium_model model_id && (q_max_premium_models quota <=? premium_count usage)%Z
            then false
            else
              match q_daily_token_limit quota with
              | Some daily_limit =>
                  let today := du_total_tokens (today_usage now now2 usage) in
                  negb (daily_limit <? u64_add (u64_add today i) o)%Z
              | None => true
              end
        | None => true
        end
  end.

(** ** Agents *)

Definition hired_agent_count (a : Account) : Z := Z.of_nat (size (hired_agents a)).

Definition hire_agent (now : Z) (id : string) (a : Account) : Account :=
  touch now (set_hired_agents ({[id]} ∪ hired_agents a) a).

Definition fire_agent (now : Z) (id : string) (a : Account) : Account * bool :=
  if decide (id ∈ hired_agents a)
  then (touch now (set_hired_agents (hired_agents a ∖ {[id]}) a), true)
  else (a, false).

Definition max_allowed_agents (a : Account) : Z :=
  match subscription a with Some sub => max_agents sub | None => 1 end.

Definition can_hire_additional_agent (a : Account) : bool :=
  (usize_as_u32 (hired_agent_count a) <? max_allowed_agents a)%Z || (10 <=? credits a)%Z.

Definition premium_agent (agent_id : string) : bool :=
  str_contains "premium_" agent_id || str_contains "expert_" agent_id.

Definition additional_agent_cost (quota : option SubscriptionQuota) : Z :=
  let base_cost := 10%Z in
  match quota with
  | Some q =>
      if (0 <? q_additional_agent_discount q)%Z then
        let discount := f64_ceil_as_u64 (f64_mul (f64_of_Z base_cost)
          (f64_div (f64_of_Z (q_additional_agent_discount q)) (f64_of_Z 100))) in
        u64_saturating_sub base_cost discount
      else base_cost
  | None => base_cost
  end.

Definition can_hire_agent (agent_id : string) (a : Account) : bool :=
  if decide (agent_id ∈ hired_agents a) then false
  else
    let quota := sub_quota <$> subscription a in
    let current := usize_as_u32 (hired_agent_count a) in
    if (current <? max_allowed_agents a)%Z then
      if premium_agent agent_id then
        match quota with
        | Some q => if negb (q_premium_agent_access q) then false else true
        | None => false
        end
      else true
    else if (available_credits a <? additional_agent_cost quota)%Z then false
    else
      match subscription a with
      | Some s =>
          if premium_agent agent_id && negb (q_premium_agent_access (sub_quota s)) then false
          else if bool_decide (tier s = Free) && (2 <=? current)%Z then false
          else if bool_decide (tier s = Pro) && (5 <=? current)%Z then false
          else if bool_decide (tier s = ProPlus) && (10 <=? current)%Z then false
          else if bool_decide (tier s = Power) && (20 <=? current)%Z then false
          else if bool_decide (tier s = PowerPlus) && (50 <=? current)%Z then false
          else true
      | None => true
      end.

(** ** API keys *)

Definition max_allowed_api_keys (a : Account) : Z :=
  match subscription a with
  | Some s => q_max_api_keys (tier_quota (tier s))
  | None => 5
  end.

Definition add_api_key (now : Z) (k : ApiKey) : method Account string unit := λ a,
  let max_allowed := max_allowed_api_keys a in
  let current_count := usize_as_u32 (Z.of_nat (size (api_keys a))) in
  if (max_allowed <=? current_count)%Z then
    (a, Err ("API key limit reached (" +:+ pretty current_count +:+ "/" +:+
             pretty max_allowed +:+ ")"))
  else (touch now (set_api_keys (<[key_id k := k]> (api_keys a)) a), Ok tt).

Definition remove_api_key (now : Z) (id : string) (a : Account) : Account * bool :=
  match api_keys a !! id with
  | Some _ => (touch now (set_api_keys (delete id (api_keys a)) a), true)
  | None => (a, false)
  end.

Definition get_api_key (id : string) (a : Account) : option ApiKey := api_keys a !! id.

Definition get_api_key_by_secret (full_key : string) (a : Account) : option ApiKey :=
  if negb (str_has_char "_"%char full_key) then None
  else List.find (verify_secret full_key) (btree_values (api_keys a)).

Definition list_active_api_keys (now : Z) (a : Account) : list ApiKey :=
  filter (λ k, is_valid now k = true) (btree_values (api_keys a)).
Definition list_all_api_keys (a : Account) : list ApiKey := btree_values (api_keys a).

Definition revoke_api_key (now : Z) (id : string) (a : Account) : Account * bool :=
  match api_keys a !! id with
  | Some k => (touch now (set_api_keys (<[id := revoke k]> (api_keys a)) a), true)
  | None => (a, false)
  end.

(** [create_api_key] of api_keys/mod.rs: [now_k] is the key's creation time. *)
Definition create_api_key (now_k now : Z) (uuid1 uuid2 name : string) (sc : ApiKeyScope)
    (description : option string) : method Account string (ApiKeyMetadata * string) := λ a,
  let '(k, secret) := new_key now_k uuid1 uuid2 name (address a) sc description in
  match add_api_key now k a with
  | (a', Ok _) => (a', Ok (metadata_of k, secret))
  | (a', Err e) => (a', Err e)
  end.

(** ** Replicated state *)

(** The operations of [crdts::Map] and [crdts::BFTReg] the state uses, with
    [reg_val] for [reg.val()] followed by [v.value()].  [map_update] is the whole
    of building a signed update of one account, [None] when the signing key does
    not decode or the update cannot be signed, in which case the code panics. *)
Class AccountMap : Type := {
  amap : Type;
  areg : Type;
  aop : Type;
  aupdate : Type;
  ahash : Type;
  map_new : amap;
  map_get : amap → string → option areg;
  map_iter : amap → list (string * areg);
  reg_val : areg → option Account;
  dag_contains : areg → ahash → bool;
  is_head : areg → ahash → bool;
  is_orphaned : areg → ahash → bool;
  map_update : amap → string → string → string → Account → option aop;
  map_rm : amap → string → aop;
  map_apply : amap → aop → amap;
  (** The actor and the key of an [Op::Up], [None] for an [Op::Rm]. *)
  op_target : aop → option (string * string);
  update_value : aupdate → Account;
  update_hash : aupdate → ahash;
}.

(** Iteration visits the entries that [get] finds. *)
Class AccountMapLaws (M : AccountMap) : Prop := {
  map_iter_get m k r : (k, r) ∈ map_iter m ↔ map_get m k = Some r;
}.

Record AccountState `{AccountMap} : Type := mkState {
  node_id : string;
  pk : string;
  state_map : amap;
}.

Section state.
Context `{AccountMap}.

Definition new_state (node_id pk : string) : AccountState := mkState _ node_id pk map_new.

(** The operation is built and returned; it is applied by [account_op]. *)
Definition update_account_local (account : Account) (s : AccountState) : option aop :=
  map_update (state_map s) (node_id s) (pk s) (address account) account.

Definition account_op (op : aop) (s : AccountState) : AccountState * option (string * string) :=
  (mkState _ (node_id s) (pk s) (map_apply (state_map s) op), op_target op).

(** [value_eqb] is the derived equality of accounts. *)
Definition account_op_success (value_eqb : Account → Account → bool) (key : string)
    (update : aupdate) (s : AccountState) : bool * Account :=
  match map_get (state_map s) key with
  | Some reg =>
      match reg_val reg with
      | Some v =>
          if value_eqb v (update_value update) then (true, v)
          else if dag_contains reg (update_hash update) && is_head reg (update_hash update)
          then (true, v)
          else if is_orphaned reg (update_hash update) then (true, v)
          else (false, v)
      | None => (false, update_value update)
      end
  | None => (false, update_value update)
  end.

Definition remove_instance_local (id : string) (s : AccountState) : aop :=
  map_rm (state_map s) id.
Definition remove_account_local (address : string) (s : AccountState) : aop :=
  map_rm (state_map s) address.

Definition get_account (address : string) (s : AccountState) : option Account :=
  match map_get (state_map s) address with
  | Some reg => reg_val reg
  | None => None
  end.

Definition list_accounts (s : AccountState) : list Account :=
  omap (λ e, reg_val e.2) (map_iter (state_map s)).

Definition get_owners_of_instance (id : string) (s : AccountState) : list Account :=
  omap (λ e, match reg_val e.2 with
             | Some account => if decide (id ∈ owned_instances account) then Some account else None
             | None => None
             end) (map_iter (state_map s)).

Definition verify_authorization (address id : string) (required_level : AuthorizationLevel)
    (s : AccountState) : bool :=
  match get_account address s with
  | Some account =>
      match get_authorization_level id account with
      | Some level =>
          match level, required_level with
          | Owner, _ => true
          | Manager, Owner => false
          | Manager, _ => true
          | Operator, (Owner | Manager) => false
          | Operator, _ => true
          | ReadOnlyLevel, ReadOnlyLevel => true
          | ReadOnlyLevel, _ => false
          end
      | None => false
      end
  | None => false
  end.
End state.

(** ** Specification *)

(** Levels from the least to the most powerful. *)
Definition level_rank (l : AuthorizationLevel) : Z :=
  match l with ReadOnlyLevel => 0 | Operator => 1 | Manager => 2 | Owner => 3 end.

(** The calls that change what an account may do on instances, at the instants they
    are made. *)
Inductive rights_call : Type :=
| AddOwnedInstance (now : Z) (id : string)
| RemoveOwnedInstance (now : Z) (id : string)
| AddAuthorization (now : Z) (id : string) (level : AuthorizationLevel)
| RemoveAuthorization (now : Z) (id : string).

Definition rights_exec (a : Account) (c : rights_call) : Account :=
  match c with
  | AddOwnedInstance now id => add_owned_instance now id a
  | RemoveOwnedInstance now id => (remove_owned_instance now id a).1
  | AddAuthorization now id level => add_authorization now id level a
  | RemoveAuthorization now id => (remove_authorization now id a).1
  end.

(** What a call says of the ownership of the instance [id], and of the level granted. *)
Definition ownership_said (id : string) (c : rights_call) : option bool :=
  match c with
  | AddOwnedInstance _ i => if decide (i = id) then Some true else None
  | RemoveOwnedInstance _ i => if decide (i = id) then Some false else None
  | _ => None
  end.
Definition level_said (id : string) (c : rights_call) : option (option AuthorizationLevel) :=
  match c with
  | AddAuthorization _ i l => if decide (i = id) then Some (Some l) else None
  | RemoveAuthorization _ i => if decide (i = id) then Some None else None
  | _ => None
  end.

(** What the last call that says something of the instance says. *)
Definition owns_by (id : string) (calls : list rights_call) : bool :=
  default false (last (omap (ownership_said id) calls)).
Definition level_by (id : string) (calls : list rights_call) : option AuthorizationLevel :=
  default None (last (omap (level_said id) calls)).

(** The hard cap on agents the comments of [can_hire_agent] state for each tier. *)
Definition hard_cap (t : SubscriptionTier) : Z :=
  match t with Free => 2 | Pro => 5 | ProPlus => 10 | Power => 20 | PowerPlus => 50 end.

(** The subscription's cached limits are those of its tier, as [new] sets them. *)
Definition sub_coherent (s : SubscriptionInfo) : Prop :=
  max_agents s = q_max_agents (tier_quota (tier s)) ∧
  inference_credits_per_period s = q_inference_credits (tier_quota (tier s)).

(** The instance of the replicated map with a single writer, where an update
    replaces the account of its key. *)
Definition local_op : Type := string * string * option Account.
#[local] Instance local_map : AccountMap := {
  amap := gmap string Account;
  areg := Account;
  aop := local_op;
  aupdate := Account;
  ahash := unit;
  map_new := ∅;
  map_get m k := m !! k;
  map_iter m := map_to_list m;
  reg_val := Some;
  dag_contains _ _ := false;
  is_head _ _ := false;
  is_orphaned _ _ := false;
  map_update _ actor _ k a := Some (actor, k, Some a);
  map_rm _ k := ("", k, None);
  map_apply m '(_, k, v) := match v with Some a => <[k := a]> m | None => delete k m end;
  op_target '(actor, k, v) := match v with Some _ => Some (actor, k) | None => None end;
  update_value := id;
  update_hash _ := tt;
}.
#[local] Instance local_map_laws : AccountMapLaws local_map.
Proof. constructor. intros m k r. apply elem_of_map_to_list. Qed.

(** Keys are stored under their own identifier. *)
Definition keys_wf (a : Account) : Prop := map_Forall (λ id k, key_id k = id) (api_keys a).

(** A new account on the Pro tier. *)
Definition pro_account : Account :=
  mkAccount "x" None ∅ ∅ ∅ ∅ (Some (new_subscription 0 Pro)) (Some (new_tracker 0))
    100 ∅ ∅ 0 0.

(** ** Lemmas *)

Lemma additional_cost_of_tier t :
  additional_agent_cost (Some (tier_quota t)) =
    match t with Free => 10 | Pro => 9 | ProPlus => 8 | Power => 8 | PowerPlus => 7 end%Z.
Proof. destruct t; vm_compute; reflexivity. Qed.

Lemma count_u32 n : (Z.of_nat n ≤ u32_max)%Z → usize_as_u32 (Z.of_nat n) = Z.of_nat n.
Proof. intros. unfold usize_as_u32. apply u32_wrap_small. widths. lia. Qed.

Lemma available_nonneg a :
  (0 ≤ credits a)%Z → (0 ≤ available_credits a)%Z.
Proof. intros. unfold available_credits. destruct (_ <? _)%Z eqn:E; bool_to_prop; lia. Qed.

(** What a successful check tells of an account with a subscription. *)
Lemma can_hire_agent_capped id a s :
  subscription a = Some s → sub_coherent s → (hired_agent_count a ≤ u32_max)%Z →
  can_hire_agent id a = true →
  id ∉ hired_agents a ∧ (hired_agent_count a < hard_cap (tier s))%Z ∧
  (premium_agent id = true → q_premium_agent_access (sub_quota s) = true) ∧
  (q_max_agents (sub_quota s) ≤ hired_agent_count a →
   additional_agent_cost (Some (sub_quota s)) ≤ available_credits a)%Z.
Proof.
  intros Hs [Hmax _] Hsz. unfold can_hire_agent, max_allowed_agents, hired_agent_count in *.
  rewrite Hs, Hmax. simpl. rewrite count_u32 by done. case_decide; [done|].
  unfold sub_quota. destruct (_ <? _)%Z eqn:E1; bool_to_prop.
  - intros Hp. split_and!; [done| | |lia].
    + destruct (tier s); simpl in *; lia.
    + intros Hprem. rewrite Hprem in Hp. by destruct (q_premium_agent_access _).
  - destruct (available_credits a <? _)%Z eqn:E2; bool_to_prop; [done|]. intros Hp.
    split_and!; [done| | |lia].
    + destruct (premium_agent id && _); [done|].
      destruct (tier s); simpl in Hp |- *;
        destruct (_ <=? Z.of_nat _)%Z eqn:?; simpl in Hp; bool_to_prop; done || lia.
    + intros Hprem. rewrite Hprem in Hp. by destruct (q_premium_agent_access _).
Qed.

Lemma size_hire now id a :
  id ∉ hired_agents a → hired_agent_count (hire_agent now id a) = (hired_agent_count a + 1)%Z.
Proof.
  intros. unfold hired_agent_count. simpl. rewrite size_union by set_solver.
  rewrite size_singleton. lia.
Qed.

Lemma elem_of_btree_values {V} (m : gmap string V) v :
  v ∈ btree_values m ↔ ∃ k, m !! k = Some v.
Proof.
  unfold btree_values. rewrite list_elem_of_fmap. split.
  - intros ([k w] & -> & Hin). exists k. by apply elem_of_btree_iter.
  - intros [k Hk]. exists (k, v). by rewrite elem_of_btree_iter.
Qed.

Lemma find_unique (p : ApiKey → bool) l k :
  k ∈ l → p k = true → (∀ k', k' ∈ l → p k' = true → k' = k) → List.find p l = Some k.
Proof.
  intros Hin Hp Hu. induction l as [|x l IH]; [by apply not_elem_of_nil in Hin|].
  simpl. destruct (p x) eqn:E.
  - f_equal. apply Hu; [by left|done].
  - apply IH; [|intros; apply Hu; [by right|done]].
    inversion Hin; subst; congruence || done.
Qed.

Lemma length_premium_pos (u : UsageTracker) m x :
  model_usage u !! m = Some x → premium_model m = true →
  1 ≤ length (filter (λ m, premium_model m = true) (btree_iter (model_usage u)).*1).
Proof.
  intros Hm Hp.
  assert (Hin : m ∈ filter (λ m, premium_model m = true) (btree_iter (model_usage u)).*1).
  { apply list_elem_of_filter. split; [done|]. apply list_elem_of_fmap.
    exists (m, x). by rewrite elem_of_btree_iter. }
  destruct (filter _ _); [by apply not_elem_of_nil in Hin|simpl; lia].
Qed.

Lemma omap_last_snoc {A B} (f : A → option B) l x :
  last (omap f (l ++ [x])) = match f x with Some y => Some y | None => last (omap f l) end.
Proof.
  rewrite omap_app. simpl. destruct (f x); [by rewrite last_snoc|by rewrite app_nil_r].
Qed.

(** The account records the last call about each instance. *)
Lemma rights_recorded now now_t addr calls id :
  let a := foldl rights_exec (new_account now now_t addr) calls in
  (id ∈ owned_instances a ↔ owns_by id calls = true) ∧
  authorized_instances a !! id = level_by id calls.
Proof.
  induction calls as [|c calls [IHo IHl]] using rev_ind; [by split; [set_solver|]|].
  rewrite foldl_snoc. unfold owns_by, level_by in *. rewrite !omap_last_snoc.
  set (a := foldl rights_exec _ calls) in *. clearbody a.
  destruct c as [t i|t i|t i l|t i]; cbn [rights_exec ownership_said level_said].
  - split; [|done]. cbn. rewrite elem_of_union, elem_of_singleton.
    case_decide; [naive_solver|]. rewrite <-IHo. naive_solver.
  - unfold remove_owned_instance. case_decide as Hi; cbn.
    + split; [|done]. rewrite elem_of_difference, elem_of_singleton.
      case_decide; [naive_solver|]. rewrite <-IHo. naive_solver.
    + split; [|done]. case_decide; [naive_solver|done].
  - split; [done|]. cbn. case_decide as Hi; [subst; by rewrite lookup_insert_eq|].
    by rewrite lookup_insert_ne.
  - unfold remove_authorization. destruct (authorized_instances a !! i) as [l|] eqn:E; cbn.
    + split; [done|]. case_decide as Hi; [subst; by rewrite lookup_delete_eq|].
      by rewrite lookup_delete_ne.
    + split; [done|]. case_decide as Hi; [by subst|done].
Qed.

(** ** Theorems *)

(** C37: whatever instances were added to and removed from a new account, and whatever levels
    were granted to it and taken from it, in any order, the stored account is authorised
    for an instance exactly when the last call about its ownership added it, or the last
    call about its level granted one at least as high as the level required (read only,
    operator, manager, owner); an address without an account is authorised for
    nothing. *)
Theorem verify_authorization_spec `{AccountMap} now now_t addr calls id required s :
  (∀ r, map_get (state_map s) addr = Some r →
     reg_val r = Some (foldl rights_exec (new_account now now_t addr) calls) →
     verify_authorization addr id required s = true ↔
     owns_by id calls = true ∨
     ∃ l, level_by id calls = Some l ∧ (level_rank required ≤ level_rank l)%Z) ∧
  ((∀ r, map_get (state_map s) addr = Some r → reg_val r = None) →
     verify_authorization addr id required s = false).
Proof.
  destruct (rights_recorded now now_t addr calls id) as [Ho Hl].
  unfold verify_authorization, get_account. split.
  - intros r -> ->. unfold get_authorization_level. rewrite Hl.
    case_decide as Hd; rewrite Ho in Hd; [by rewrite Hd; naive_solver|].
    destruct (level_by id calls) as [l|]; [destruct l, required|]; simpl; naive_solver lia.
  - destruct (map_get _ _) as [r|]; [|done]. intros Hr. by rewrite (Hr r eq_refl).
Qed.

(** An operator who bought the instance, gave it back, and is an operator again. *)
Lemma verify_authorization_spec_witness :
  let calls := [AddAuthorization 1 "i" Operator; AddOwnedInstance 2 "i"; RemoveOwnedInstance 3 "i"] in
  let a := foldl rights_exec (new_account 0 0 "x") calls in
  let s := mkState local_map "n" "p" (<["x" := a]> ∅) in
  verify_authorization "x" "i" ReadOnlyLevel s = true ∧
  verify_authorization "y" "i" ReadOnlyLevel s = false.
Proof.
  intros calls a s. split.
  - apply (proj1 (verify_authorization_spec (H := local_map) 0 0 "x" calls "i" ReadOnlyLevel s) a);
      [reflexivity..|]. right. exists Operator. split; [reflexivity|simpl; lia].
  - apply (proj2 (verify_authorization_spec (H := local_map) 0 0 "y" calls "i" ReadOnlyLevel s)).
    intros r Hr. vm_compute in Hr. discriminate Hr.
Defined.

(** The owners listed for an instance are exactly the accounts of the state
    that own it, and each of them is authorised for everything on it. *)
Theorem owners_listed_and_authorised (M : AccountMap) (L : AccountMapLaws M) id s a :
  (a ∈ get_owners_of_instance id s ↔
   ∃ addr, get_account addr s = Some a ∧ id ∈ owned_instances a) ∧
  (a ∈ get_owners_of_instance id s →
   ∃ addr, ∀ required, verify_authorization addr id required s = true).
Proof.
  assert (Hiff : a ∈ get_owners_of_instance id s ↔
    ∃ addr, get_account addr s = Some a ∧ id ∈ owned_instances a).
  { unfold get_owners_of_instance, get_account. rewrite list_elem_of_omap. split.
    - intros ([k r] & Hin & Hr). apply map_iter_get in Hin. simpl in Hr.
      exists k. rewrite Hin. destruct (reg_val r); [|done]. case_decide; by simplify_eq.
    - intros (k & Hk & Hid). destruct (map_get (state_map s) k) as [r|] eqn:Hr; [|done].
      exists (k, r). split; [by apply map_iter_get|]. simpl. rewrite Hk.
      by rewrite decide_True. }
  split; [done|]. intros (addr & Ha & Hid)%Hiff. exists addr. intros required.
  unfold verify_authorization, get_authorization_level. rewrite Ha.
  rewrite decide_True by done. done.
Qed.


(** Hiring an agent after a successful check keeps a subscriber within the
    hard cap of the tier; the agent was not hired before, a premium agent needs a
    tier with premium access, and beyond the included agents the discounted price
    must be available. *)
Theorem hire_respects_caps now id a s :
  subscription a = Some s → sub_coherent s → (hired_agent_count a ≤ u32_max)%Z →
  can_hire_agent id a = true →
  id ∉ hired_agents a ∧
  (hired_agent_count (hire_agent now id a) ≤ hard_cap (tier s))%Z ∧
  (premium_agent id = true → q_premium_agent_access (sub_quota s) = true) ∧
  (q_max_agents (sub_quota s) ≤ hired_agent_count a →
   match tier s with Free => 10 | Pro => 9 | ProPlus => 8 | Power => 8 | PowerPlus => 7 end
     ≤ available_credits a)%Z.
Proof.
  intros Hs Hc Hsz Hh. rewrite <- additional_cost_of_tier.
  destruct (can_hire_agent_capped id a s Hs Hc Hsz Hh) as (? & ? & ? & ?).
  rewrite size_hire by done. split_and!; [done|lia|done..].
Qed.


(** An account without a subscription has no cap: once it has hired one
    agent it may hire any other, premium ones included, while it holds 10
    credits. *)
Theorem unsubscribed_uncapped id a :
  subscription a = None → id ∉ hired_agents a → (10 ≤ credits a)%Z →
  (1 ≤ hired_agent_count a ≤ u32_max)%Z →
  can_hire_agent id a = true.
Proof.
  intros Hs Hid Hc Hsz. unfold can_hire_agent, max_allowed_agents, available_credits.
  rewrite decide_False by done. rewrite Hs. simpl.
  unfold hired_agent_count in *. rewrite count_u32 by lia.
  destruct (_ <? 1)%Z eqn:E1; bool_to_prop; [lia|].
  destruct (_ <? 10)%Z eqn:E2; bool_to_prop; [lia|done].
Qed.


(** Without overflow, a subscriber's tokens are granted exactly when the
    charge is covered, the model's tier is accessible, a premium model is within
    the premium limit and the day's tokens stay within the daily limit. *)
Theorem can_use_tokens_spec `{Chrono} now now2 m i o a u s :
  usage a = Some u → subscription a = Some s →
  (0 ≤ i)%Z → (0 ≤ o)%Z → (i + o < 2 ^ 53)%Z →
  let today := du_total_tokens (today_usage now now2 u) in
  (0 ≤ today)%Z → (today + i + o ≤ u64_max)%Z →
  can_use_tokens now now2 m i o a = true ↔
    (div_up (i + o) 1000 ≤ available_credits a)%Z ∧
    str_before "_"%char m ∈ q_model_access (sub_quota s) ∧
    (premium_model m = true → premium_count u < q_max_premium_models (sub_quota s))%Z ∧
    limit_le (Some (today + i + o)%Z) (q_daily_token_limit (sub_quota s)).
Proof.
  intros Hu Hs Hi Ho Hlt today Ht Hov. unfold can_use_tokens, estimate_token_cost.
  rewrite Hu, Hs, token_cost_div_up by done. cbv zeta. fold today.
  unfold u64_add. rewrite !u64_wrap_small by (rewrite ?u64_wrap_small; widths; lia).
  destruct (available_credits a <? _)%Z eqn:E1; bool_to_prop; [split; [done|intros (? & _); lia]|].
  destruct (negb _) eqn:E2; bool_to_prop; [split; [done|intros (_ & ? & _); done]|].
  destruct (premium_model m && _) eqn:E3; bool_to_prop.
  { split; [done|]. intros (_ & _ & Hp & _). specialize (Hp ltac:(done)). lia. }
  assert (Hp : premium_model m = true → (premium_count u < q_max_premium_models (sub_quota s))%Z).
  { intros Hm. rewrite Hm in E3. simpl in E3. bool_to_prop. lia. }
  unfold limit_le. destruct (q_daily_token_limit _) as [limit|]; [|by split].
  rewrite negb_true_iff, Z.ltb_ge. split; [auto|]. by intros (_ & _ & _ & ?).
Qed.


(** The sums wrap around: an account with a tracker and no subscription,
    whatever its credits, is granted 2^64 tokens, which are charged nothing. *)
Theorem token_overflow_granted `{Chrono} now now2 m a u :
  usage a = Some u → subscription a = None → (0 ≤ credits a)%Z →
  can_use_tokens now now2 m u64_max 1 a = true ∧
  (record_token_usage now now2 m u64_max 1 u).2 = 0%Z.
Proof.
  intros Hu Hs Hc. split; [|done]. unfold can_use_tokens. rewrite Hu, Hs.
  replace (estimate_token_cost u64_max 1) with 0%Z by (vm_compute; reflexivity).
  pose proof (available_nonneg a Hc).
  destruct (_ <? 0)%Z eqn:E; bool_to_prop; [lia|done].
Qed.


(** On the Pro tier, which allows one premium model, a premium model can be
    used once: after its first recorded use the account is refused the same
    model. *)
Theorem premium_model_used_once `{Chrono} now now2 now3 now4 m i o i' o' a u s :
  subscription a = Some s → tier s = Pro → premium_model m = true →
  (Z.of_nat (size (model_usage u)) < u32_max)%Z →
  usage a = Some (record_token_usage now now2 m i o u).1 →
  can_use_tokens now3 now4 m i' o' a = false.
Proof.
  intros Hs Ht Hm Hsz Hu. unfold can_use_tokens. rewrite Hu, Hs.
  destruct (_ <? _)%Z; [done|]. destruct (negb _); [done|]. rewrite Hm.
  set (u' := (record_token_usage now now2 m i o u).1).
  pose proof (length_premium_pos u' m _ (lookup_insert_eq _ _ _) Hm) as Hpos.
  assert (Hle : (premium_count u' =
    Z.of_nat (length (filter (λ m, premium_model m = true) (btree_iter (model_usage u')).*1)))%Z).
  { apply count_u32. pose proof (length_filter (λ m, premium_model m = true)
      (btree_iter (model_usage u')).*1) as Hlen.
    rewrite length_fmap, length_btree_iter in Hlen.
    assert (size (model_usage u') ≤ S (size (model_usage u)))%nat; [|lia].
    simpl. unfold upsert. rewrite map_size_insert. case_match; simpl; lia. }
  unfold sub_quota. rewrite Ht. simpl.
  destruct (_ <=? premium_count u')%Z eqn:E; bool_to_prop; [done|lia].
Qed.


(** Use never exhausts the credits of a tier without a daily limit: for a
    model that is not premium, the decision is the same whatever has been
    recorded, as the credits already used are not consulted. *)
Theorem credits_never_exhausted `{Chrono} now now2 m i o a s u u' :
  subscription a = Some s → q_daily_token_limit (sub_quota s) = None →
  premium_model m = false →
  can_use_tokens now now2 m i o (set_usage (Some u) a) =
  can_use_tokens now now2 m i o (set_usage (Some u') a).
Proof.
  intros Hs Hd Hm. unfold can_use_tokens. simpl. rewrite Hs, Hm, Hd. done.
Qed.


(** C38: a created key authenticates: its secret finds it, with the metadata
    returned and valid, provided no key of the account had the same secret; it is
    stored under its identifier and the account stays within its limit of keys. *)
Theorem created_key_authenticates now_k now u1 u2 name sc d a a' md secret later :
  (Z.of_nat (size (api_keys a)) ≤ u32_max)%Z →
  create_api_key now_k now u1 u2 name sc d a = (a', Ok (md, secret)) →
  (∀ id k, api_keys a !! id = Some k → verify_secret secret k = false) →
  ∃ k, get_api_key_by_secret secret a' = Some k ∧ metadata_of k = md ∧
    get_api_key (md_id md) a' = Some k ∧ is_valid later k = true ∧
    (Z.of_nat (size (api_keys a')) ≤ max_allowed_api_keys a')%Z.
Proof.
  intros Hsz Hc Hfresh. unfold create_api_key, add_api_key in Hc.
  pose proof (verify_secret_new now_k u1 u2 name (address a) sc d secret) as Hv.
  destruct (new_key now_k u1 u2 name (address a) sc d) as [k sec] eqn:Hk.
  rewrite count_u32 in Hc by done.
  destruct (_ <=? _)%Z eqn:E; bool_to_prop; simplify_eq. simpl in Hv.
  exists k. unfold get_api_key_by_secret, get_api_key. simpl.
  assert (Hkey : verify_secret secret k = true) by (by apply Hv).
  split_and!.
  - assert (Hu : str_has_char "_"%char secret = true).
    { unfold new_key in Hk. by simplify_eq/=. }
    rewrite Hu. simpl. apply find_unique; [|done|].
    + apply elem_of_btree_values. exists (key_id k). apply lookup_insert_eq.
    + intros k' (id & Hid)%elem_of_btree_values Hk'.
      apply lookup_insert_Some in Hid as [[_ ?]|[_ Hid]]; [done|].
      by rewrite (Hfresh id k' Hid) in Hk'.
  - done.
  - apply lookup_insert_eq.
  - unfold new_key in Hk. by simplify_eq/=.
  - rewrite map_size_insert. unfold max_allowed_api_keys in *. simpl.
    destruct (api_keys a !! key_id k); simpl; lia.
Qed.

Lemma created_key_authenticates_witness :
  ∃ k, get_api_key_by_secret "sk_2"
         (create_api_key 0 0 "1" "2" "n" Admin None (new_account 0 0 "x")).1 = Some k ∧
       is_valid 100 k = true.
Proof.
  destruct (created_key_authenticates 0 0 "1" "2" "n" Admin None (new_account 0 0 "x")
    (create_api_key 0 0 "1" "2" "n" Admin None (new_account 0 0 "x")).1
    (metadata_of (new_key 0 "1" "2" "n" "x" Admin None).1) "sk_2" 100)
    as (k & Hk & _ & _ & Hv & _);
    [vm_compute; discriminate|vm_compute; reflexivity|
     intros id k Hk; destruct (lookup_empty_Some id k Hk)|exists k; exact (conj Hk Hv)].
Defined.

(** A revoked key is never listed as active again, at any time, and
    revoking does not touch the other keys. *)
Theorem revoked_key_inactive now id a a' later :
  keys_wf a → revoke_api_key now id a = (a', true) →
  keys_wf a' ∧ Forall (λ k, key_id k ≠ id) (list_active_api_keys later a') ∧
  (∀ id', id' ≠ id → get_api_key id' a' = get_api_key id' a).
Proof.
  unfold revoke_api_key. intros Hwf Hr.
  destruct (api_keys a !! id) as [k|] eqn:Hk; simplify_eq.
  assert (Hwf' : keys_wf (touch now (set_api_keys (<[id := revoke k]> (api_keys a)) a))).
  { apply map_Forall_insert_2; [exact (Hwf id k Hk)|done]. }
  split_and!; [done| |].
  - apply Forall_forall. intros x [Hv [id' Hx]%elem_of_btree_values]%list_elem_of_filter Hid.
    assert (id' = id) as -> by (rewrite <- Hid; symmetry; exact (Hwf' id' x Hx)).
    cbn [api_keys touch set_api_keys] in Hx. rewrite lookup_insert_eq in Hx. by simplify_eq.
  - intros id' Hne. by apply lookup_insert_ne.
Qed.

