(* ===== verification/CircuitBreaker.v ===== *)
(** * Circuit breaker (form-usage-events/src/circuit_breaker.rs)

    Each method reads the state under the lock and then acts on what it read.
    Time is in seconds since the epoch and an argument of the methods that read
    the clock.  A call is modelled as one step; requests that overlap are
    sequences in which a request is allowed and its outcome recorded after the
    calls of other requests. *)

From stdpp Require Import options.
From S2P Require Import Prelude.
Local Open Scope Z_scope.

Inductive CircuitState : Type := Closed | Open | HalfOpen.

#[global] Instance CircuitState_eq_dec : EqDecision CircuitState.
Proof. solve_decision. Defined.

(** [reset_timeout] is in nanoseconds. *)
Record CircuitBreakerConfig : Type := mkBreakerConfig {
  failure_threshold : Z;
  reset_timeout : Z;
  half_open_allowed_calls : Z;
}.

Definition default_breaker_config : CircuitBreakerConfig := mkBreakerConfig 5 30000000000 1.

Record CircuitBreaker : Type := mkBreaker {
  state : CircuitState;
  failures : Z;
  successes : Z;
  last_failure_time : Z;
  config : CircuitBreakerConfig;
}.

Definition new_breaker (c : CircuitBreakerConfig) : CircuitBreaker := mkBreaker Closed 0 0 0 c.

(** [reset_timeout.as_secs()]. *)
Definition timeout_secs (c : CircuitBreakerConfig) : Z := reset_timeout c / 1000000000.

Definition allow_request (now : Z) (cb : CircuitBreaker) : CircuitBreaker * bool :=
  match state cb with
  | Closed => (cb, true)
  | Open =>
      let elapsed := u64_saturating_sub now (last_failure_time cb) in
      if timeout_secs (config cb) <=? elapsed then
        (mkBreaker HalfOpen (failures cb) 0 (last_failure_time cb) (config cb), true)
      else (cb, false)
  | HalfOpen => (cb, successes cb <? half_open_allowed_calls (config cb))
  end.

Definition record_success (cb : CircuitBreaker) : CircuitBreaker :=
  match state cb with
  | Closed => mkBreaker Closed 0 (successes cb) (last_failure_time cb) (config cb)
  | HalfOpen =>
      let success_count := u64_add (successes cb) 1 in
      if half_open_allowed_calls (config cb) <=? success_count
      then mkBreaker Closed 0 0 (last_failure_time cb) (config cb)
      else mkBreaker HalfOpen (failures cb) success_count (last_failure_time cb) (config cb)
  | Open => mkBreaker HalfOpen (failures cb) 1 (last_failure_time cb) (config cb)
  end.

Definition record_failure (now : Z) (cb : CircuitBreaker) : CircuitBreaker :=
  match state cb with
  | Closed =>
      let n := u64_add (failures cb) 1 in
      mkBreaker (if failure_threshold (config cb) <=? n then Open else Closed)
        n (successes cb) now (config cb)
  | HalfOpen => mkBreaker Open (failures cb) 0 now (config cb)
  | Open => mkBreaker Open (failures cb) (successes cb) now (config cb)
  end.

(** ** Clients *)

(** The calls a client makes. *)
Inductive breaker_call : Type :=
| CallAllow (now : Z)
| CallSuccess
| CallFailure (now : Z).

Definition breaker_exec (cb : CircuitBreaker) (c : breaker_call) : CircuitBreaker :=
  match c with
  | CallAllow now => (allow_request now cb).1
  | CallSuccess => record_success cb
  | CallFailure now => record_failure now cb
  end.

(** One request of a client that waits for it before the next: ask, and if
    allowed record the outcome. *)
Record attempt : Type := mkAttempt { asked_at : Z; succeeds : bool; ended_at : Z }.

Definition serve (cb : CircuitBreaker) (r : attempt) : CircuitBreaker :=
  let '(cb', allowed) := allow_request (asked_at r) cb in
  if allowed then if succeeds r then record_success cb' else record_failure (ended_at r) cb'
  else cb'.

(** The requests that were let through, the latest first. *)
Definition observe (p : CircuitBreaker * list attempt) (r : attempt) : CircuitBreaker * list attempt :=
  (serve p.1 r, if (allow_request (asked_at r) p.1).2 then r :: p.2 else p.2).

Definition history (c : CircuitBreakerConfig) (rs : list attempt) : list attempt :=
  (foldl observe (new_breaker c, []) rs).2.

(** [n] consecutive outcomes [b]. *)
Definition streak (b : bool) (n : Z) (h : list bool) : Prop :=
  ∃ h1 h2, h = h1 ++ replicate (Z.to_nat n) b ++ h2.

(** The outcomes, the latest first, have [failure_threshold] consecutive failures and
    after them never [half_open_allowed_calls] consecutive successes. *)
Definition tripped (c : CircuitBreakerConfig) (h : list bool) : Prop :=
  ∃ later earlier, h = later ++ replicate (Z.to_nat (failure_threshold c)) false ++ earlier ∧
    ¬ streak true (half_open_allowed_calls c) later.

(** How many of the latest outcomes are [b]. *)
Fixpoint leading (b : bool) (h : list bool) : nat :=
  match h with
  | [] => 0
  | x :: h => if Bool.eqb x b then S (leading b h) else 0
  end.

(** The configuration is usable: representable, and with positive counts. *)
Definition breaker_config_typed (c : CircuitBreakerConfig) : Prop :=
  0 < failure_threshold c ≤ u64_max ∧ 0 < half_open_allowed_calls c ≤ u64_max.

(** What the fields say of the requests [h] let through, the latest first. *)
Definition breaker_inv (c : CircuitBreakerConfig) (p : CircuitBreaker * list attempt) : Prop :=
  let '(cb, h) := p in
  let outcomes := succeeds <$> h in
  config cb = c ∧
  match state cb with
  | Closed => ¬ tripped c outcomes ∧ failures cb = Z.of_nat (leading false outcomes) ∧
      failures cb < failure_threshold c
  | Open => tripped c outcomes ∧
      ∃ r, head h = Some r ∧ succeeds r = false ∧ last_failure_time cb = ended_at r
  | HalfOpen => tripped c outcomes ∧ successes cb = Z.of_nat (leading true outcomes) ∧
      0 < successes cb < half_open_allowed_calls c
  end.

(** Half-open with its probes used up. *)
Definition wedged (cb : CircuitBreaker) : Prop :=
  state cb = HalfOpen ∧ half_open_allowed_calls (config cb) ≤ successes cb.

(** ** Lemmas *)

Lemma leading_prefix b n h : (∃ t, h = replicate n b ++ t) ↔ (n ≤ leading b h)%nat.
Proof.
  revert n. induction h as [|x h IH]; intros n; simpl.
  - split; [|intros ?; assert (n = 0)%nat as -> by lia; by exists []].
    intros [t E]. destruct n; [lia|done].
  - destruct n as [|n]; [split; [lia|by exists (x :: h)]|]. simpl.
    destruct (Bool.eqb_spec x b) as [->|Hne].
    + rewrite <-Nat.succ_le_mono, <-IH. split; intros [t E]; exists t; congruence.
    + split; [intros [t E]; congruence|lia].
Qed.

Lemma leading_stop h l : leading true (h ++ false :: l) = leading true h.
Proof. induction h as [|[] h IH]; simpl; congruence. Qed.

Lemma streak_leading b n h : n ≤ Z.of_nat (leading b h) → streak b n h.
Proof. intros Hn. destruct (proj2 (leading_prefix b (Z.to_nat n) h)) as [t ->]; [lia|by exists [], t]. Qed.

Lemma streak_cons b n x h :
  streak b n (x :: h) ↔ n ≤ Z.of_nat (leading b (x :: h)) ∨ streak b n h.
Proof.
  split.
  - intros ([|y h1] & h2 & E); [left|right].
    + enough (Z.to_nat n ≤ leading b (x :: h))%nat by lia. apply leading_prefix. by exists h2.
    + injection E as _ ->. by exists h1, h2.
  - intros [?|(h1 & h2 & ->)]; [by apply streak_leading|by exists (x :: h1), h2].
Qed.

Tactic Notation "fields" :=
  cbn [fst snd state config failures successes last_failure_time].
Tactic Notation "fields" "in" "*" :=
  cbn [fst snd state config failures successes last_failure_time] in *.

Section Tripped.
Context (c : CircuitBreakerConfig) (Hc : breaker_config_typed c).
#[local] Set Default Proof Using "All".

(** Enough failures in a row trip the breaker. *)
Lemma tripped_failures h : failure_threshold c ≤ Z.of_nat (leading false h) → tripped c h.
Proof.
  intros Hn. destruct Hc. destruct (proj2 (leading_prefix false (Z.to_nat (failure_threshold c)) h)) as [t ->]; [lia|].
  exists [], t. split; [done|]. intros (h1 & h2 & E).
  destruct (Z.to_nat (half_open_allowed_calls c)) eqn:?; [lia|]. by destruct h1.
Qed.

(** Enough successes in a row close it. *)
Lemma untripped_successes h : half_open_allowed_calls c ≤ Z.of_nat (leading true h) → ¬ tripped c h.
Proof.
  destruct Hc. intros Hn (l & e & -> & Hno). destruct (Z.to_nat (failure_threshold c)) eqn:?; [lia|].
  simpl in Hn. rewrite leading_stop in Hn. by apply Hno, streak_leading.
Qed.

(** What one more outcome changes. *)
Lemma tripped_cons_inv x h : tripped c (x :: h) → failure_threshold c ≤ Z.of_nat (leading false (x :: h)) ∨ tripped c h.
Proof.
  intros ([|y l] & e & E & Hno); [left|right].
  - enough (Z.to_nat (failure_threshold c) ≤ leading false (x :: h))%nat by lia. apply leading_prefix. by exists e.
  - injection E as _ ->. exists l, e. split; [done|]. intros Hs. apply Hno, streak_cons. by right.
Qed.

Lemma tripped_cons x h :
  tripped c h → Z.of_nat (leading true (x :: h)) < half_open_allowed_calls c → tripped c (x :: h).
Proof.
  destruct Hc. intros (l & e & -> & Hno) Hx. exists (x :: l), e. split; [done|].
  rewrite streak_cons. intros [Hs|Hs]; [|done]. revert Hx.
  destruct (Z.to_nat (failure_threshold c)) eqn:?; [lia|]. simpl in *. rewrite leading_stop. lia.
Qed.

Lemma untripped_success h : ¬ tripped c h → ¬ tripped c (true :: h).
Proof. destruct Hc. intros Hno [Ht|?]%tripped_cons_inv; simpl in *; [lia|done]. Qed.

(** One more failure of a tripped breaker. *)
Lemma tripped_failure h : tripped c h → tripped c (false :: h).
Proof. destruct Hc. intros Ht. apply tripped_cons; simpl; [done|lia]. Qed.

(** A success after [n] others: enough close the breaker. *)
Lemma probe_succeeds cb h r n :
  config cb = c → state cb = HalfOpen → successes cb = n → n = Z.of_nat (leading true (succeeds <$> h)) →
  n < half_open_allowed_calls c → tripped c (succeeds <$> h) → succeeds r = true →
  breaker_inv c (record_success cb, r :: h).
Proof.
  destruct Hc. intros Hcfg Hst Hs Hn Hlt Ht Hr. unfold record_success, u64_add. rewrite Hst, Hcfg, Hs.
  rewrite u64_wrap_small by (widths; lia). unfold breaker_inv. rewrite fmap_cons, Hr.
  destruct (Z.leb_spec (half_open_allowed_calls c) (n + 1)); fields.
  - split; [done|]. split_and!; [apply untripped_successes; simpl; lia|done|lia].
  - split; [done|]. split_and!; [apply tripped_cons; [done|simpl; lia]|simpl; lia..].
Qed.

Lemma observe_inv p r : breaker_inv c p → breaker_inv c (observe p r).
Proof.
  destruct Hc, p as [[st f s l cfg] h]. intros [Hcfg Hinv]. cbn in Hcfg. subst cfg.
  unfold observe, serve, allow_request. fields in *.
  destruct st; cbn [fst snd].
  - destruct Hinv as (Ht & -> & Hlt). destruct (succeeds r) eqn:Er; unfold breaker_inv; rewrite fmap_cons, Er.
    + unfold record_success. fields. split_and!; [done|by apply untripped_success|done|lia].
    + unfold record_failure, u64_add. fields. rewrite u64_wrap_small by (widths; lia).
      split; [done|]. destruct (Z.leb_spec (failure_threshold c) (Z.of_nat (leading false (succeeds <$> h)) + 1)).
      * split; [apply tripped_failures; simpl; lia|by exists r].
      * split_and!; [|simpl; lia|done]. intros [Hn|?]%tripped_cons_inv; simpl in *; [lia|done].
  - destruct Hinv as (Ht & r' & Hh & Hr' & ->). destruct (_ <=? _); cbn [fst snd]; [|split; [done|split; [done|by exists r']]].
    destruct (succeeds r) eqn:Er.
    + eapply (probe_succeeds _ _ _ 0); try done; [|lia]. destruct h as [|? h]; [done|].
      injection Hh as ->. rewrite fmap_cons, Hr'. done.
    + split; [done|]. rewrite fmap_cons, Er. split; [by apply tripped_failure|by exists r].
  - destruct Hinv as (Ht & -> & Hlt). destruct (_ <? _); cbn [fst snd]; [|done].
    destruct (succeeds r) eqn:Er; [by eapply probe_succeeds; try apply Hlt|].
    split; [done|]. rewrite fmap_cons, Er. split; [by apply tripped_failure|by exists r].
Qed.

Lemma history_inv rs : breaker_inv c (foldl observe (new_breaker c, []) rs).
Proof.
  cut (breaker_inv c (new_breaker c, [])).
  { generalize (new_breaker c, [] : list attempt). induction rs as [|r rs IH]; [done|].
    intros p Hp. by apply IH, observe_inv. }
  destruct Hc. split; [done|]. simpl. split_and!; [|done|lia]. intros (l & e & E & _).
  destruct (Z.to_nat (failure_threshold c)) eqn:?; [lia|]. by destruct l.
Qed.

End Tripped.

Lemma observe_breaker p rs : (foldl observe p rs).1 = foldl serve p.1 rs.
Proof. revert p. induction rs as [|r rs IH]; intros p; [done|]. apply IH. Qed.

(** ** Theorems *)

(** C39: a client waits for each request before it asks for the next.  The breaker, with
    positive counts in its configuration, refuses a request exactly when the last
    request that it let through failed less than the timeout, in whole seconds, ago, and the outcomes so
    far contain [failure_threshold] consecutive failures that were not followed by
    [half_open_allowed_calls] consecutive successes.  So it refuses nothing once the
    timeout since the last failure is over. *)
Theorem sequential_client_served c rs now :
  breaker_config_typed c →
  (allow_request now (foldl serve (new_breaker c) rs)).2 = false ↔
  tripped c (succeeds <$> history c rs) ∧
  ∃ r, head (history c rs) = Some r ∧ succeeds r = false ∧
    u64_saturating_sub now (ended_at r) < timeout_secs c.
Proof.
  intros Hc. pose proof (history_inv c Hc rs) as Hinv.
  pose proof (observe_breaker (new_breaker c, []) rs) as E. unfold history. simpl in E. rewrite <-E.
  destruct (foldl observe _ rs) as [cb h]. destruct Hinv as [Hcfg Hinv]. simpl.
  unfold allow_request. rewrite Hcfg. destruct (state cb).
  - destruct Hinv as [Ht _]. split; [done|]. by intros [? _].
  - destruct Hinv as (Ht & r & Hr & Hf & ->). destruct (Z.leb_spec (timeout_secs c) (u64_saturating_sub now (ended_at r))); simpl.
    + split; [done|]. intros (_ & r' & Hr' & _ & Hlt). simplify_eq. lia.
    + split; [intros _; by eauto|done].
  - destruct Hinv as (_ & Hs & Hlt). destruct (Z.ltb_spec (successes cb) (half_open_allowed_calls c)); simpl; [|lia].
    split; [done|]. intros (_ & r & Hr & Hf & _). destruct h as [|? h]; [done|].
    injection Hr as ->. simpl in Hs. rewrite Hf in Hs. simpl in Hs. lia.
Qed.

(** Five failures open the default breaker, a sixth request after the timeout fails
    too; 29 seconds after that it refuses. *)
Lemma sequential_client_served_witness :
  (allow_request 169
     (foldl serve (new_breaker default_breaker_config)
        (replicate 5 (mkAttempt 100 false 100) ++ [mkAttempt 130 false 140]))).2 = false.
Proof.
  apply (sequential_client_served default_breaker_config
    (replicate 5 (mkAttempt 100 false 100) ++ [mkAttempt 130 false 140]) 169).
  - unfold breaker_config_typed; simpl; widths; lia.
  - split.
    + exists [false], []. split; [vm_compute; done|]. intros ([|? [|? h]] & h2 & E); discriminate E.
    + exists (mkAttempt 130 false 140). vm_compute. done.
Defined.

(** Requests that overlap can wedge the default breaker: when one of six
    requests in flight succeeds after the five others failed, every later request
    is refused, at any time and whatever other requests are asked. *)
Theorem overlap_wedges_breaker asks now :
  let in_flight := replicate 6 (CallAllow 100) ++ replicate 5 (CallFailure 101) ++ [CallSuccess] in
  let cb := foldl breaker_exec (new_breaker default_breaker_config) in_flight in
  wedged cb ∧ (allow_request now (foldl breaker_exec cb (CallAllow <$> asks))).2 = false.
Proof.
  intros in_flight cb. split; [by vm_compute|].
  assert (Hcb : foldl breaker_exec cb (CallAllow <$> asks) = cb); [|by rewrite Hcb].
  induction asks as [|t asks IH]; [done|exact IH].
Qed.
