(* ===== verification/Retry.v ===== *)
(** * Retries (form-usage-events/src/retry.rs)

    The retry loop with exponential backoff and jitter.  The operation is given
    by the outcome of each attempt, and the random number generator by the number
    it draws for each retry; both are arguments.  Durations are in nanoseconds. *)

From Stdlib Require Import SpecFloat.
From stdpp Require Import options.
From S2P Require Import Prelude Float64.
Local Open Scope Z_scope.

(** The payloads of third-party errors are kept as text. *)
Inductive UsageEventError : Type :=
| SerializationError (e : string)
| PublishError (e : string)
| CircuitBreakerOpen
| ConnectionError (e : string)
| HttpError (e : string)
| OtherError (e : string).

Record RetryConfig : Type := mkRetryConfig {
  max_retries : Z;
  initial_backoff : Z;
  max_backoff : Z;
  backoff_multiplier : f64;
  jitter_factor : f64;
}.

(** [Duration]: nanoseconds up to 2^64 seconds. *)
Definition duration_max : Z := 2 ^ 64 * 1000000000 - 1.
Definition from_millis (ms : Z) : Z := ms * 1000000.
Definition as_millis (d : Z) : Z := d / 1000000.
Definition duration_saturating_add (a b : Z) : Z := Z.min duration_max (a + b).

(** The literals 2.0 and 0.1; 0.1 is the correctly rounded quotient. *)
Definition default_retry_config : RetryConfig :=
  mkRetryConfig 3 (from_millis 100) (10 * 1000000000) (f64_of_Z 2)
    (f64_div (f64_of_Z 1) (f64_of_Z 10)).

(** Which errors are tried again. *)
Definition retryable (e : UsageEventError) : bool :=
  match e with
  | ConnectionError _ | HttpError _ | PublishError _ => true
  | CircuitBreakerOpen => false
  | SerializationError _ | OtherError _ => false
  end.

Definition jitter_range (c : RetryConfig) (current_backoff : Z) : Z :=
  f64_as_u64 (f64_mul (f64_of_Z (as_millis current_backoff)) (jitter_factor c)).

Definition sleep_duration (c : RetryConfig) (gen_range : Z → Z) (current_backoff : Z) : Z :=
  let r := jitter_range c current_backoff in
  let jitter := if 0 <? r then gen_range r else 0 in
  duration_saturating_add current_backoff (from_millis jitter).

Definition next_backoff (c : RetryConfig) (current_backoff : Z) : Z :=
  let next_backoff_millis :=
    f64_mul (f64_of_Z (as_millis current_backoff)) (backoff_multiplier c) in
  from_millis (f64_as_u64 (f64_min next_backoff_millis (f64_of_Z (as_millis (max_backoff c))))).

Section retry.
Context {T : Type}.
(** The outcome of the n-th attempt, and the draw [gen_range(0..r)] before the
    n-th retry. *)
Variable operation : nat → result T UsageEventError.
Variable rng : nat → Z → Z.
Variable c : RetryConfig.

(** The loop from an attempt on; it returns the result with the number of
    attempts made and the sleeps between them, [None] when the fuel is spent. *)
Fixpoint retry_loop (fuel : nat) (attempts : nat) (current_retry current_backoff : Z)
    (sleeps : list Z) : option (result T UsageEventError * nat * list Z) :=
  match fuel with
  | O => None
  | S fuel' =>
      match operation attempts with
      | Ok x => Some (Ok x, S attempts, sleeps)
      | Err e =>
          if max_retries c <=? current_retry then Some (Err e, S attempts, sleeps)
          else if retryable e then
            retry_loop fuel' (S attempts) (u32_add current_retry 1)
              (next_backoff c current_backoff)
              (sleeps ++ [sleep_duration c (rng attempts) current_backoff])
          else Some (Err e, S attempts, sleeps)
      end
  end.

Definition with_retry (fuel : nat) : option (result T UsageEventError * nat * list Z) :=
  retry_loop fuel 0 0 (initial_backoff c) [].

(** ** Specification *)

(** Whether an outcome ends the loop before the last retry. *)
Definition final (r : result T UsageEventError) : bool :=
  match r with Ok _ => true | Err e => negb (retryable e) end.

(** The attempts are made until the first final outcome, at most [n + 1]. *)
Fixpoint first_final (n : nat) (attempts : nat) : nat :=
  match n with
  | O => attempts
  | S n' => if final (operation attempts) then attempts else first_final n' (S attempts)
  end.

(** The first [n] backoffs. *)
Fixpoint backoffs (n : nat) (b : Z) : list Z :=
  match n with O => [] | S n' => b :: backoffs n' (next_backoff c b) end.

(** ** Lemmas *)

Lemma first_final_bounds n a : (a ≤ first_final n a ≤ a + n)%nat.
Proof using Type.
  revert a. induction n as [|n IH]; intros a; simpl; [lia|].
  destruct (final _); [lia|]. specialize (IH (S a)). lia.
Qed.

(** With [n] retries left, the loop makes the attempts of the specification. *)
Lemma retry_loop_spec n fuel a r b sleeps :
  0 ≤ r → r + Z.of_nat n = max_retries c → max_retries c ≤ u32_max → (n < fuel)%nat →
  ∃ more, retry_loop fuel a r b sleeps =
      Some (operation (first_final n a), S (first_final n a), sleeps ++ more) ∧
    Forall2 (λ s bk, ∃ i, s = sleep_duration c (rng i) bk)
      more (backoffs (first_final n a - a) b).
Proof using Type.
  revert fuel a r b sleeps. induction n as [|n IH]; intros fuel a r b sleeps Hr Hn Hmax Hf;
    (destruct fuel as [|fuel]; [lia|]); simpl.
  - exists []. rewrite app_nil_r, Nat.sub_diag. split; [|constructor].
    destruct (operation a); [done|].
    destruct (_ <=? r) eqn:E; bool_to_prop; [done|lia].
  - unfold final. destruct (operation a) as [x|e] eqn:Ho.
    { exists []. rewrite app_nil_r, Nat.sub_diag, Ho. split; [done|constructor]. }
    destruct (_ <=? r) eqn:E; bool_to_prop; [lia|].
    destruct (retryable e); simpl.
    + destruct (IH fuel (S a) (u32_add r 1) (next_backoff c b)
        (sleeps ++ [sleep_duration c (rng a) b])) as (more & -> & Hmore);
        [unfold u32_add; rewrite ?u32_wrap_small by (widths; lia); lia..|].
      exists (sleep_duration c (rng a) b :: more). rewrite <- app_assoc. split; [done|].
      pose proof (first_final_bounds n (S a)).
      replace (first_final n (S a) - a)%nat with (S (first_final n (S a) - S a)) by lia.
      simpl. constructor; [by exists a|done].
    + exists []. rewrite app_nil_r, Nat.sub_diag, Ho. split; [done|constructor].
Qed.

(** Before the attempt of the specification no outcome is final. *)
Lemma before_first_final n a j :
  (a ≤ j < first_final n a)%nat → final (operation j) = false.
Proof using Type.
  revert a. induction n as [|n IH]; intros a Hj; simpl in Hj; [lia|].
  destruct (final (operation a)) eqn:E; [lia|].
  destruct (decide (j = a)) as [->|]; [done|]. apply (IH (S a)). lia.
Qed.

Lemma at_first_final n a :
  first_final n a = (a + n)%nat ∨ final (operation (first_final n a)) = true.
Proof using Type.
  revert a. induction n as [|n IH]; intros a; simpl; [left; lia|].
  destruct (final (operation a)) eqn:E; [by right|].
  destruct (IH (S a)); [left; lia|by right].
Qed.
End retry.

(** C40: the loop ends: it returns the outcome of the first attempt that
    succeeds or fails with an error that is not retried, or that of attempt
    [max_retries + 1]; it makes no other attempts, and before each retry sleeps
    the backoff of the exponential sequence with its jitter. *)
Theorem with_retry_terminates {T} (operation : nat → result T UsageEventError) rng c :
  in_u32 (max_retries c) →
  ∃ j sleeps,
    with_retry operation rng c (S (Z.to_nat (max_retries c))) =
      Some (operation j, S j, sleeps) ∧
    (Z.of_nat j ≤ max_retries c)%Z ∧
    (∀ i, (i < j)%nat → final (operation i) = false) ∧
    (Z.of_nat j = max_retries c ∨ final (operation j) = true) ∧
    Forall2 (λ s bk, ∃ i, s = sleep_duration c (rng i) bk) sleeps
      (backoffs c j (initial_backoff c)).
Proof.
  intros Hc. set (n := Z.to_nat (max_retries c)).
  destruct (retry_loop_spec operation rng c n (S n) 0 0 (initial_backoff c) [])
    as (sleeps & Heq & Hs); [widths; lia..|].
  exists (first_final operation n 0), sleeps.
  pose proof (first_final_bounds operation n 0).
  rewrite Nat.sub_0_r in Hs. split_and!; [done|widths; lia| | |done].
  - intros i Hi. apply (before_first_final operation n 0). lia.
  - destruct (at_first_final operation n 0) as [Hj|Hj]; [left; widths; lia|by right].
Qed.

(** The default configuration on an operation that fails twice. *)
Lemma with_retry_terminates_witness :
  ∃ j sleeps,
    with_retry (λ n, if decide (n < 2)%nat then Err (ConnectionError "down") else Ok n)
      (λ _ _, 0) default_retry_config 4 = Some (Ok 2%nat, 3%nat, sleeps) ∧ j = 2%nat ∧
    sleeps = [from_millis 100; from_millis 200].
Proof.
  destruct (with_retry_terminates
    (λ n, if decide (n < 2)%nat then Err (ConnectionError "down") else Ok n)
    (λ _ _, 0) default_retry_config) as (j & sleeps & Heq & _);
    [unfold in_u32; simpl; widths; lia|].
  vm_compute in Heq. exists 2%nat, sleeps. vm_compute.
  injection Heq as _ _ Hs. rewrite <- Hs. auto.
Defined.
