(* ===== verification/Words.v ===== *)
(** * Words and maps keyed by words

    What the models of the virtual machine monitor (form-vmm) share: checked and
    bitwise operations on [u64], alignment to a power of two, and the iteration of
    a [BTreeMap] whose keys are integers in the order of the keys. *)

From S2P Require Import Prelude.
From stdpp Require Import options.
Local Open Scope Z_scope.

(** ** Operations of [u64] *)

Definition u64_checked_add (a b : Z) : option Z :=
  if a + b <=? u64_max then Some (a + b) else None.
Definition u64_checked_sub (a b : Z) : option Z :=
  if b <=? a then Some (a - b) else None.
(** The bitwise complement [!x]. *)
Definition u64_not (x : Z) : Z := u64_max - x.
Definition is_power_of_two (x : Z) : bool := (0 <? x) && (2 ^ Z.log2 x =? x).

(** The least multiple of [al] that is at least [x], and the greatest that is at
    most [x]. *)
Definition align_up (x al : Z) : Z := (x + al - 1) `div` al * al.
Definition align_down (x al : Z) : Z := x `div` al * al.

(** ** Ordered maps *)

Definition zkey_le {V} (p q : Z * V) : Prop := p.1 ≤ q.1.
#[global] Instance zkey_le_dec {V} : RelDecision (@zkey_le V) :=
  λ p q, Z_le_dec p.1 q.1.
#[global] Instance zkey_le_total {V} : Total (@zkey_le V).
Proof. intros p q. unfold zkey_le. lia. Qed.
#[global] Instance zkey_le_trans {V} : Transitive (@zkey_le V).
Proof. intros p q r. unfold zkey_le. lia. Qed.

(** [iter()] of a [BTreeMap] with integer keys. *)
Definition zmap_iter {V} (m : gmap Z V) : list (Z * V) :=
  merge_sort zkey_le (map_to_list m).

(** ** Lemmas on words *)

Lemma u64_checked_add_Some a b c :
  u64_checked_add a b = Some c ↔ c = a + b ∧ a + b ≤ u64_max.
Proof. unfold u64_checked_add. destruct (Z.leb_spec (a + b) u64_max); naive_solver lia. Qed.

Lemma u64_checked_sub_Some a b c :
  u64_checked_sub a b = Some c ↔ c = a - b ∧ b ≤ a.
Proof. unfold u64_checked_sub. destruct (Z.leb_spec b a); naive_solver lia. Qed.

Lemma is_power_of_two_spec x :
  is_power_of_two x = true ↔ ∃ k, 0 ≤ k ∧ x = 2 ^ k.
Proof.
  unfold is_power_of_two. rewrite andb_true_iff, Z.ltb_lt, Z.eqb_eq. split.
  - intros [Hx Hp]. exists (Z.log2 x). split; [apply Z.log2_nonneg | done].
  - intros (k & Hk & ->). rewrite Z.log2_pow2 by done.
    split; [apply Z.pow_pos_nonneg; lia | done].
Qed.

(** The powers of two of 64 bits divide 2^64. *)
Lemma power_of_two_divides al :
  is_power_of_two al = true → al ≤ u64_max → (al | 2 ^ 64).
Proof.
  intros (k & Hk & ->)%is_power_of_two_spec Hle.
  assert (k < 64) by (apply (Z.pow_lt_mono_r_iff 2); [lia | lia | unfold u64_max in Hle; lia]).
  exists (2 ^ (64 - k)). rewrite <-Z.pow_add_r by lia. f_equal. lia.
Qed.

Lemma power_of_two_pos al : is_power_of_two al = true → 0 < al.
Proof. unfold is_power_of_two. rewrite andb_true_iff, Z.ltb_lt. tauto. Qed.

Lemma land_mask x p : is_power_of_two p = true → Z.land x (p - 1) = x `mod` p.
Proof.
  intros (k & Hk & ->)%is_power_of_two_spec.
  rewrite <-Z.land_ones by done. f_equal. rewrite Z.ones_equiv. lia.
Qed.

Lemma land_not_mask x p :
  is_power_of_two p = true → in_u64 x → p ≤ 2 ^ 63 →
  Z.land x (u64_not (p - 1)) = align_down x p.
Proof.
  intros Hp Hx Hle.
  assert (Z.land x (u64_not (p - 1)) = Z.ldiff x (p - 1)) as ->.
  { apply is_power_of_two_spec in Hp as (k & Hk & ->).
    assert (k < 64) by (apply (Z.pow_lt_mono_r_iff 2); [lia | lia |];
      apply Z.le_lt_trans with (2 ^ 63); [done | lia]).
    assert (2 ^ k - 1 = Z.ones k) as -> by (rewrite Z.ones_equiv; lia).
    assert (u64_not (Z.ones k) = Z.ldiff (Z.ones 64) (Z.ones k)) as ->.
    { unfold u64_not, u64_max. rewrite <-Z.sub_nocarry_ldiff.
      - rewrite (Z.ones_equiv 64). lia.
      - rewrite Z.ldiff_ones_r by lia.
        apply Z.shiftl_eq_0_iff; [lia|]. rewrite Z.shiftr_eq_0; [done | |].
        + rewrite Z.ones_equiv. assert (0 < 2 ^ k) by (apply Z.pow_pos_nonneg; lia). lia.
        + rewrite Z.ones_equiv. destruct (Z.eq_dec k 0) as [->|]; [done|].
          apply Z.log2_lt_pow2.
          * assert (2 ^ 1 ≤ 2 ^ k) by (apply Z.pow_le_mono_r; lia). lia.
          * lia. }
    apply Z.bits_inj'. intros n Hn. rewrite Z.land_spec, !Z.ldiff_spec.
    destruct (Z.ltb_spec n 64).
    - rewrite (Z.ones_spec_low 64) by lia. by rewrite andb_true_l.
    - rewrite (Z.bits_above_log2 x n); [done | unfold in_u64 in Hx; lia |].
      destruct (Z.eq_dec x 0) as [->|]; [rewrite Z.log2_nonpos; lia|].
      apply Z.log2_lt_pow2; [unfold in_u64 in Hx; lia|].
      apply Z.lt_le_trans with (2 ^ 64); [unfold in_u64, u64_max in Hx; lia|].
      apply Z.pow_le_mono_r; lia. }
  apply is_power_of_two_spec in Hp as (k & Hk & ->).
  assert (2 ^ k - 1 = Z.ones k) as -> by (rewrite Z.ones_equiv; lia).
  rewrite Z.ldiff_ones_r by done. rewrite Z.shiftl_mul_pow2, Z.shiftr_div_pow2 by done.
  done.
Qed.

(** ** Lemmas on alignment *)

Section Align.
Context (al : Z) (Hal : 0 < al).

Lemma align_down_spec x : (al | align_down x al) ∧ align_down x al ≤ x < align_down x al + al.
Proof using Hal.
  unfold align_down. split; [by exists (x `div` al)|].
  pose proof (Z.div_mod x al ltac:(lia)). pose proof (Z.mod_pos_bound x al Hal). nia.
Qed.

Lemma align_up_spec x : (al | align_up x al) ∧ x ≤ align_up x al < x + al.
Proof using Hal.
  unfold align_up. split; [by eexists|].
  pose proof (Z.div_mod (x + al - 1) al ltac:(lia)).
  pose proof (Z.mod_pos_bound (x + al - 1) al Hal). nia.
Qed.

(** A multiple of [al] at most [x] is at most [align_down x al]. *)
Lemma align_down_greatest a x : (al | a) → a ≤ x → a ≤ align_down x al.
Proof using Hal.
  intros [q ->] Hle. unfold align_down.
  apply Z.mul_le_mono_nonneg_r; [lia|]. apply Z.div_le_lower_bound; lia.
Qed.

Lemma align_up_least a x : (al | a) → x ≤ a → align_up x al ≤ a.
Proof using Hal.
  intros [q ->] Hle. unfold align_up.
  apply Z.mul_le_mono_nonneg_r; [lia|].
  enough ((x + al - 1) `div` al < q + 1) by lia. apply Z.div_lt_upper_bound; lia.
Qed.

Lemma align_up_down x : align_up (x - (al - 1)) al = align_down x al.
Proof using. unfold align_up, align_down. do 2 f_equal. lia. Qed.

Lemma align_up_aligned x : (al | x) → align_up x al = x.
Proof using Hal.
  intros Hd. apply Z.le_antisymm; [by apply align_up_least|]. apply align_up_spec.
Qed.

Lemma align_up_add_period x p : (al | p) → align_up (x + p) al = align_up x al + p.
Proof using Hal.
  intros [q ->]. unfold align_up.
  replace (x + q * al + al - 1) with ((x + al - 1) + q * al) by lia.
  rewrite Z.div_add by lia. lia.
Qed.
End Align.

(** The idiom [x + (al - x % al)] when [x] is not aligned computes [align_up]. *)
Lemma align_up_adjust x al :
  0 < al →
  x + (if x `mod` al =? 0 then 0 else al - x `mod` al) = align_up x al.
Proof.
  intros Hal. pose proof (Z.div_mod x al ltac:(lia)) as Hx.
  pose proof (Z.mod_pos_bound x al Hal). destruct (Z.eqb_spec (x `mod` al) 0) as [E|E].
  - rewrite Z.add_0_r. symmetry. apply align_up_aligned; [done|].
    by apply Z.mod_divide; lia.
  - apply Z.le_antisymm.
    + pose proof (align_up_spec al Hal x) as [[q Hq] Hb]. rewrite Hq in *.
      assert (x `div` al < q) by nia. nia.
    + apply align_up_least; [done | exists (x `div` al + 1); lia | lia].
Qed.

(** ** Lemmas on ordered maps *)

Lemma zmap_iter_perm {V} (m : gmap Z V) : zmap_iter m ≡ₚ map_to_list m.
Proof. apply merge_sort_Permutation. Qed.

Lemma elem_of_zmap_iter {V} (m : gmap Z V) k v :
  (k, v) ∈ zmap_iter m ↔ m !! k = Some v.
Proof. rewrite zmap_iter_perm. apply elem_of_map_to_list. Qed.

Lemma NoDup_zmap_iter_keys {V} (m : gmap Z V) : NoDup (zmap_iter m).*1.
Proof. rewrite zmap_iter_perm. apply NoDup_fst_map_to_list. Qed.

Lemma StronglySorted_strict_keys {V} (l : list (Z * V)) :
  NoDup l.*1 → StronglySorted zkey_le l → StronglySorted (λ p q, p.1 < q.1) l.
Proof.
  induction l as [|p l IH]; intros Hnd Hs; [constructor|].
  apply NoDup_cons in Hnd as [Hni Hnd]. inversion Hs as [|?? Hs' Hall]; subst.
  constructor; [by apply IH|]. rewrite Forall_forall in Hall |- *. intros q Hq.
  specialize (Hall q Hq). unfold zkey_le in Hall.
  enough (p.1 ≠ q.1) by lia. intros E. apply Hni. rewrite E.
  by apply list_elem_of_fmap_2.
Qed.

(** The iteration is strictly increasing in the keys. *)
Lemma zmap_iter_sorted {V} (m : gmap Z V) :
  StronglySorted (λ p q, p.1 < q.1) (zmap_iter m).
Proof.
  apply StronglySorted_strict_keys; [apply NoDup_zmap_iter_keys|].
  apply StronglySorted_merge_sort; apply _.
Qed.

Lemma StronglySorted_reverse {A} (R : relation A) (l : list A) :
  StronglySorted R l → StronglySorted (λ x y, R y x) (reverse l).
Proof.
  induction 1 as [|x l Hs IH Hall]; [constructor|].
  rewrite reverse_cons. apply StronglySorted_app_2; [|done|repeat constructor].
  intros y z Hy Hz. rewrite elem_of_reverse in Hy. apply list_elem_of_singleton in Hz as ->.
  rewrite Forall_forall in Hall. cbn beta. exact (Hall y Hy).
Qed.
