(* ===== verification/VmAllocator.v ===== *)
(** * The allocators of the virtual machine monitor

    form-vmm/vm-allocator: address ranges (address.rs), interrupt numbers (gsi.rs),
    memory slots (memory_slot.rs), page alignment (page_size.rs) and the system
    allocator that combines them (system.rs), each in a module.  A [GuestAddress] is
    its raw [u64]; its operations come from the crate vm-memory and are the class
    [GuestAddressOps], with their documented behaviour in [GuestAddressLaws].  The
    page size is [sysconf]'s and a parameter too. *)

From S2P Require Import Prelude Words.
From stdpp Require Import options.
Local Open Scope Z_scope.

(** ** The parameters *)

(** The trait [vm_memory::Address] at [GuestAddress]. *)
Class GuestAddressOps := {
  ga_checked_add : Z → Z → option Z;
  ga_checked_sub : Z → Z → option Z;
  ga_unchecked_add : Z → Z → Z;
  ga_unchecked_sub : Z → Z → Z;
}.

(** The documentation of the trait: a checked operation is [None] on overflow, an
    unchecked one silently wraps in release builds. *)
Class GuestAddressLaws `{GuestAddressOps} : Prop := {
  ga_checked_add_law a b : ga_checked_add a b = u64_checked_add a b;
  ga_checked_sub_law a b : ga_checked_sub a b = u64_checked_sub a b;
  ga_unchecked_add_law a b : ga_unchecked_add a b = u64_add a b;
  ga_unchecked_sub_law a b : ga_unchecked_sub a b = u64_sub a b;
}.

(** [libc::sysconf(_SC_PAGESIZE)]. *)
Class PageSize := sysconf_page_size : Z.

(** ** Address ranges *)

Module Address.

Inductive Error := Overflow | Overlap | UnalignedAddress.

Record AddressAllocator := {
  base : Z;
  end_ : Z;
  ranges : gmap Z Z;
}.

Section Ops.
Context `{GuestAddressOps}.

Definition new (base size : Z) : option AddressAllocator :=
  if size =? 0 then None
  else
    end_ ← ga_checked_add base (size - 1);
    marker ← ga_checked_add base size;
    Some {| base := base; end_ := end_; ranges := <[marker := 0]> ∅ |}.

Definition align_address (address alignment : Z) : Z :=
  let align_adjust :=
    if address `mod` alignment =? 0 then 0 else alignment - address `mod` alignment in
  ga_unchecked_add address align_adjust.

(** The loop of [available_range] over the ranges in order. *)
Fixpoint scan_ranges (aligned_address req_size prev_end_address : Z)
    (l : list (Z * Z)) : result Z Error :=
  match l with
  | [] => Err Overflow
  | (address, size) :: l =>
      if aligned_address <=? address then
        if aligned_address <? prev_end_address then Err Overlap
        else if ga_unchecked_sub address aligned_address <? req_size then Err Overlap
        else Ok aligned_address
      else scan_ranges aligned_address req_size (ga_unchecked_add address size) l
  end.

Definition available_range (a : AddressAllocator) (req_address req_size alignment : Z)
    : result Z Error :=
  let aligned_address := align_address req_address alignment in
  if negb (aligned_address =? req_address) then Err UnalignedAddress
  else if (end_ a <=? aligned_address) || (aligned_address <? base a) then Err Overflow
  else scan_ranges aligned_address req_size (base a) (zmap_iter (ranges a)).

(** The loop of [first_available_range] over the ranges in reverse order. *)
Fixpoint scan_reversed (base req_size alignment : Z) (l : list (Z * Z)) : option Z :=
  match l with
  | [] => None
  | (address, _) :: rest =>
      let prev_end_address :=
        match rest with
        | [] => base
        | (address', size') :: _ => ga_unchecked_add address' size'
        end in
      let try_next := scan_reversed base req_size alignment rest in
      match ga_checked_sub address (align_address prev_end_address alignment) with
      | Some size_delta =>
          let adjust := if 1 <? alignment then alignment - 1 else 0 in
          if req_size <=? size_delta then
            Some (align_address (ga_unchecked_sub address (u64_add req_size adjust)) alignment)
          else try_next
      | None => try_next
      end
  end.

Definition first_available_range (a : AddressAllocator) (req_size alignment : Z) : option Z :=
  scan_reversed (base a) req_size alignment (reverse (zmap_iter (ranges a))).

Definition allocate (address : option Z) (size : Z) (align_size : option Z)
    (a : AddressAllocator) : AddressAllocator * option Z :=
  let alignment := default 4 align_size in
  if size =? 0 then (a, None)
  else if negb (is_power_of_two alignment) || (alignment =? 0) then (a, None)
  else
    let new_addr :=
      match address with
      | Some req_address =>
          match available_range a req_address size alignment with
          | Ok addr => Some addr
          | Err _ => None
          end
      | None => first_available_range a size alignment
      end in
    match new_addr with
    | Some addr =>
        ({| base := base a; end_ := end_ a; ranges := <[addr := size]> (ranges a) |}, Some addr)
    | None => (a, None)
    end.

Definition free (address size : Z) (a : AddressAllocator) : AddressAllocator :=
  match ranges a !! address with
  | Some range_size =>
      if size =? range_size then
        {| base := base a; end_ := end_ a; ranges := delete address (ranges a) |}
      else a
  | None => a
  end.

End Ops.
End Address.

(** ** Interrupts *)

Module Gsi.

Inductive Error := Overflow.

Record GsiApic := { apic_base : Z; apic_irqs : Z }.

Record GsiAllocator := {
  apics : gmap Z Z;
  next_irq : Z;
  next_gsi : Z;
}.

(** The body of the loop of [new] (x86-64). *)
Definition add_apic (g : GsiAllocator) (apic : GsiApic) : GsiAllocator :=
  let top := u32_add (apic_base apic) (apic_irqs apic) in
  {| apics := <[apic_base apic := apic_irqs apic]> (apics g);
     next_irq := if apic_base apic <? next_irq g then apic_base apic else next_irq g;
     next_gsi := if next_gsi g <? top then top else next_gsi g |}.

Definition new (l : list GsiApic) : GsiAllocator :=
  foldl add_apic {| apics := ∅; next_irq := 0xffffffff; next_gsi := 0 |} l.

Definition allocate_gsi : method GsiAllocator Error Z := λ g,
  if next_gsi g + 1 <=? u32_max then
    ({| apics := apics g; next_irq := next_irq g; next_gsi := next_gsi g + 1 |},
     Ok (next_gsi g))
  else (g, Err Overflow).

(** The loop of [allocate_irq] (x86-64): [(next_irq, irq)] after each controller. *)
Definition irq_step (st : Z * Z) (p : Z * Z) : Z * Z :=
  let '(next, irq) := st in
  if (p.1 <=? next) && (next <? u32_add p.1 p.2) then (u32_add next 1, next) else (next, irq).

Definition allocate_irq : method GsiAllocator Error Z := λ g,
  let '(next, irq) := foldl irq_step (next_irq g, 0) (zmap_iter (apics g)) in
  let g' := {| apics := apics g; next_irq := next; next_gsi := next_gsi g |} in
  if irq =? 0 then (g', Err Overflow) else (g', Ok irq).

End Gsi.

(** ** Memory slots *)

Module MemorySlot.

Record MemorySlotAllocator := {
  next_slot : Z;
  free_list : list Z;
}.

(** The free list is a [Vec] used as a stack: its last element is popped. *)
Definition next_memory_slot (m : MemorySlotAllocator) : MemorySlotAllocator * Z :=
  match last (free_list m) with
  | Some slot_id =>
      ({| next_slot := next_slot m; free_list := removelast (free_list m) |}, slot_id)
  | None => ({| next_slot := u32_add (next_slot m) 1; free_list := free_list m |}, next_slot m)
  end.

Definition free_memory_slot (slot : Z) (m : MemorySlotAllocator) : MemorySlotAllocator :=
  {| next_slot := next_slot m; free_list := free_list m ++ [slot] |}.

End MemorySlot.

(** ** Pages *)

Module Page.
Section Ops.
Context `{PageSize}.

Definition get_page_size : Z := u64_wrap sysconf_page_size.

Definition align_page_size_up (address : Z) : Z :=
  let page_size := get_page_size in
  Z.land (u64_sub (u64_add address page_size) 1) (u64_not (u64_sub page_size 1)).

Definition align_page_size_down (address : Z) : Z :=
  let page_size := get_page_size in
  Z.land address (u64_not (u64_sub page_size 1)).

Definition is_4k_aligned (address : Z) : bool := Z.land address 0xfff =? 0.
Definition is_4k_multiple (size : Z) : bool := Z.land size 0xfff =? 0.

Definition is_page_size_aligned (address : Z) : bool :=
  let page_size := get_page_size in
  Z.land address (u64_sub page_size 1) =? 0.

End Ops.
End Page.

(** ** The system allocator *)

Module System.

Record SystemAllocator := {
  io_address_space : Address.AddressAllocator;
  platform_mmio_address_space : Address.AddressAllocator;
  gsi_allocator : Gsi.GsiAllocator;
}.

Section Ops.
Context `{GuestAddressOps} `{PageSize}.

Definition new (io_base io_size platform_mmio_base platform_mmio_size : Z)
    (apics : list Gsi.GsiApic) : option SystemAllocator :=
  io ← Address.new io_base io_size;
  mmio ← Address.new platform_mmio_base platform_mmio_size;
  Some {| io_address_space := io; platform_mmio_address_space := mmio;
          gsi_allocator := Gsi.new apics |}.

Definition with_gsi (s : SystemAllocator) (g : Gsi.GsiAllocator) : SystemAllocator :=
  {| io_address_space := io_address_space s;
     platform_mmio_address_space := platform_mmio_address_space s; gsi_allocator := g |}.
Definition with_io (s : SystemAllocator) (a : Address.AddressAllocator) : SystemAllocator :=
  {| io_address_space := a;
     platform_mmio_address_space := platform_mmio_address_space s;
     gsi_allocator := gsi_allocator s |}.
Definition with_mmio (s : SystemAllocator) (a : Address.AddressAllocator) : SystemAllocator :=
  {| io_address_space := io_address_space s;
     platform_mmio_address_space := a; gsi_allocator := gsi_allocator s |}.

(** [Result::ok]. *)
Definition ok {A E} (r : result A E) : option A :=
  match r with Ok a => Some a | Err _ => None end.

Definition allocate_irq (s : SystemAllocator) : SystemAllocator * option Z :=
  let '(g, r) := Gsi.allocate_irq (gsi_allocator s) in (with_gsi s g, ok r).

Definition allocate_gsi (s : SystemAllocator) : SystemAllocator * option Z :=
  let '(g, r) := Gsi.allocate_gsi (gsi_allocator s) in (with_gsi s g, ok r).

Definition allocate_io_addresses (address : option Z) (size : Z) (align_size : option Z)
    (s : SystemAllocator) : SystemAllocator * option Z :=
  let '(a, r) :=
    Address.allocate address size (Some (default 0x1 align_size)) (io_address_space s) in
  (with_io s a, r).

Definition allocate_platform_mmio_addresses (address : option Z) (size : Z)
    (align_size : option Z) (s : SystemAllocator) : SystemAllocator * option Z :=
  let '(a, r) :=
    Address.allocate address size (Some (default Page.get_page_size align_size))
      (platform_mmio_address_space s) in
  (with_mmio s a, r).

Definition free_io_addresses (address size : Z) (s : SystemAllocator) : SystemAllocator :=
  with_io s (Address.free address size (io_address_space s)).

Definition free_platform_mmio_addresses (address size : Z) (s : SystemAllocator)
    : SystemAllocator :=
  with_mmio s (Address.free address size (platform_mmio_address_space s)).

End Ops.
End System.

(** ** What the allocators promise *)

Section Spec.
Import Address.

(** The state of an address allocator: a marker of size zero after the last address,
    and disjoint, non-empty ranges before it. *)
Record wf (a : AddressAllocator) : Prop := {
  wf_bounds : 0 ≤ base a ≤ end_ a ∧ end_ a < u64_max;
  wf_marker : ranges a !! (end_ a + 1) = Some 0;
  wf_range b s : ranges a !! b = Some s → b ≠ end_ a + 1 →
    base a ≤ b ∧ 0 < s ∧ b + s ≤ end_ a + 1;
  wf_disjoint b s b' s' : ranges a !! b = Some s → ranges a !! b' = Some s' → b < b' →
    b + s ≤ b';
}.

(** The [n] addresses from [x] are managed by [a] and not allocated. *)
Definition fits (a : AddressAllocator) (x n : Z) : Prop :=
  base a ≤ x ∧ x + n ≤ end_ a + 1 ∧
  ∀ b s, ranges a !! b = Some s → b + s ≤ x ∨ x + n ≤ b.

Definition highest_fit (a : AddressAllocator) (n al x : Z) : Prop :=
  (al | x) ∧ fits a x n ∧ ∀ y, (al | y) → fits a y n → y ≤ x.

Definition with_ranges (a : AddressAllocator) (m : gmap Z Z) : AddressAllocator :=
  {| base := base a; end_ := end_ a; ranges := m |}.

(** Calls of the public methods. *)
Inductive call :=
| Allocate (address : option Z) (size : Z) (align_size : option Z)
| Free (address size : Z).

Definition exec `{GuestAddressOps} (c : call) (a : AddressAllocator) : AddressAllocator :=
  match c with
  | Allocate address size align_size => (allocate address size align_size a).1
  | Free address size => free address size a
  end.

Definition run `{GuestAddressOps} (cs : list call) (a : AddressAllocator) : AddressAllocator :=
  foldl (λ a c, exec c a) a cs.

(** The calls the theorems cover: sizes and alignments are words, aligning the end of
    the space does not overflow, and the marker is not freed. *)
Definition proper_call (a : AddressAllocator) (c : call) : Prop :=
  match c with
  | Allocate address size align_size =>
      in_u64 size ∧ in_u64 (default 4 align_size) ∧
      align_up (end_ a + 1) (default 4 align_size) ≤ u64_max ∧
      (∀ x, address = Some x → in_u64 x)
  | Free address size => address ≠ end_ a + 1
  end.

(** Two live ranges of an allocator do not meet. *)
Definition live (a : AddressAllocator) (b s : Z) : Prop :=
  ranges a !! b = Some s ∧ b ≠ end_ a + 1.

(** [x] can hold [n] addresses below the first entry of [l] and beside the others. *)
Definition free_in (lo n : Z) (l : list (Z * Z)) (x : Z) : Prop :=
  lo ≤ x ∧ match l with [] => False | (a, _) :: _ => x + n ≤ a end ∧
  Forall (λ p, p.1 + p.2 ≤ x ∨ x + n ≤ p.1) l.

Definition highest_in (lo n al : Z) (l : list (Z * Z)) (r : option Z) : Prop :=
  match r with
  | Some x => (al | x) ∧ free_in lo n l x ∧ ∀ y, (al | y) → free_in lo n l y → y ≤ x
  | None => ∀ y, (al | y) → ¬ free_in lo n l y
  end.

Definition entry_ok (lo hi : Z) (p : Z * Z) : Prop := lo ≤ p.1 ∧ 0 ≤ p.2 ∧ p.1 + p.2 ≤ hi.

(** Where the gap below the first entry starts. *)
Definition gap_start (lo : Z) (rest : list (Z * Z)) : Z :=
  match rest with [] => lo | (a', s') :: _ => a' + s' end.

End Spec.

(** The memory slots in use, in a history of calls. *)
Section SlotSpec.
Import MemorySlot.

Inductive slot_call := NextSlot | FreeSlot (slot : Z).

(** [None] when a slot is freed that is not in use. *)
Definition slot_exec (c : slot_call) (st : MemorySlotAllocator * list Z)
    : option (MemorySlotAllocator * list Z) :=
  match c with
  | NextSlot => let '(m, slot) := next_memory_slot st.1 in Some (m, slot :: st.2)
  | FreeSlot slot =>
      if decide (slot ∈ st.2)
      then Some (free_memory_slot slot st.1, filter (λ x, x ≠ slot) st.2)
      else None
  end.

Fixpoint slot_run (cs : list slot_call) (st : MemorySlotAllocator * list Z)
    : option (MemorySlotAllocator * list Z) :=
  match cs with
  | [] => Some st
  | c :: cs => st' ← slot_exec c st; slot_run cs st'
  end.

(** Slots in use and free slots are distinct and below the next slot. *)
Definition slots_ok (st : MemorySlotAllocator * list Z) : Prop :=
  NoDup (st.2 ++ free_list st.1) ∧ Forall (λ x, x < next_slot st.1) (st.2 ++ free_list st.1).

End SlotSpec.

(** The interrupts that [n] calls return. *)
Fixpoint irqs_of (n : nat) (g : Gsi.GsiAllocator) : list (result Z Gsi.Error) :=
  match n with
  | O => []
  | S n => let '(g', r) := Gsi.allocate_irq g in r :: irqs_of n g'
  end.

(** The instance of the parameters used by the examples. *)
#[global] Instance u64_guest_address : GuestAddressOps := {
  ga_checked_add := u64_checked_add; ga_checked_sub := u64_checked_sub;
  ga_unchecked_add := u64_add; ga_unchecked_sub := u64_sub }.
#[global] Instance u64_guest_address_laws : GuestAddressLaws.
Proof. by split. Qed.

Definition example_allocator : Address.AddressAllocator :=
  {| Address.base := 0x1000; Address.end_ := 0x10fff; Address.ranges := <[0x11000 := 0]> ∅ |}.

(** ** Address ranges: lemmas *)

Section AddressFacts.
Import Address.
#[local] Set Default Proof Using "Type*".
Context `{GuestAddressLaws}.

Lemma align_address_wrap x al : 0 < al → align_address x al = u64_wrap (align_up x al).
Proof. intros Hal. unfold align_address. rewrite ga_unchecked_add_law. unfold u64_add.
  by rewrite align_up_adjust. Qed.

Lemma align_address_small x al :
  0 < al → 0 ≤ x → align_up x al ≤ u64_max → align_address x al = align_up x al.
Proof.
  intros Hal Hx Hle. rewrite align_address_wrap by done. apply u64_wrap_small.
  pose proof (align_up_spec al Hal x). unfold in_u64. lia.
Qed.

Lemma align_address_fixed x al :
  0 < al ≤ u64_max → in_u64 x → align_address x al = x ↔ (al | x).
Proof.
  intros Hal Hx. rewrite align_address_wrap by lia.
  pose proof (align_up_spec al ltac:(lia) x) as [Hd Hb]. split.
  - intros Hw. unfold u64_wrap in Hw. unfold in_u64, u64_max in *.
    assert (align_up x al = x) as <-; [|done].
    pose proof (Z.div_mod (align_up x al) (2 ^ 64) ltac:(lia)) as Hdm. rewrite Hw in Hdm. nia.
  - intros Hd'. rewrite align_up_aligned by (done || lia). by apply u64_wrap_small.
Qed.

(** The address computed for the top of a gap: the subtraction may wrap, the result
    is the highest aligned address below. *)
Lemma top_of_gap address n al :
  is_power_of_two al = true → al ≤ u64_max → 0 ≤ n ≤ address → address ≤ u64_max →
  align_address (ga_unchecked_sub address
    (u64_add n (if 1 <? al then al - 1 else 0))) al = align_down (address - n) al.
Proof.
  intros Hp Hle Hn Ha. pose proof (power_of_two_pos al Hp) as Hpos.
  assert ((if 1 <? al then al - 1 else 0) = al - 1) as ->
    by (destruct (Z.ltb_spec 1 al); lia).
  rewrite align_address_wrap, ga_unchecked_sub_law by done.
  unfold u64_sub, u64_add.
  assert (u64_wrap (address - u64_wrap (n + (al - 1))) = u64_wrap (address - n - (al - 1))) as ->.
  { unfold u64_wrap. rewrite Zminus_mod_idemp_r. f_equal. lia. }
  rewrite <-(align_up_down al). set (z := address - n - (al - 1)).
  assert (∃ k, u64_wrap z = z + k * 2 ^ 64) as [k ->].
  { exists (- (z `div` 2 ^ 64)). unfold u64_wrap.
    pose proof (Z.div_mod z (2 ^ 64) ltac:(lia)). lia. }
  rewrite align_up_add_period; [|done|apply Z.divide_mul_r, power_of_two_divides; done].
  assert (u64_wrap (align_up z al + k * 2 ^ 64) = u64_wrap (align_up z al)) as ->
    by (unfold u64_wrap; apply Z_mod_plus_full).
  apply u64_wrap_small. unfold z. rewrite align_up_down.
  pose proof (align_down_spec al Hpos (address - n)).
  pose proof (align_down_greatest al Hpos 0 (address - n) ltac:(apply Z.divide_0_r) ltac:(lia)).
  unfold in_u64. lia.
Qed.

Lemma align_up_mono x y al : 0 < al → x ≤ y → align_up x al ≤ align_up y al.
Proof.
  intros Hal Hle. pose proof (align_up_spec al Hal y). apply align_up_least; [done|tauto|lia].
Qed.

(** ** The reverse scan *)

Section Reverse.
Context (lo hi n al : Z).
Context (Hlo : 0 ≤ lo) (Hp : is_power_of_two al = true) (Hle : al ≤ u64_max).
Context (Hn : 0 < n) (Hhi : align_up hi al ≤ u64_max).

Lemma hi_max : hi ≤ u64_max.
Proof. pose proof (align_up_spec al (power_of_two_pos al Hp) hi). lia. Qed.

Lemma scan_reversed_cons a s rest :
  Forall (entry_ok lo hi) ((a, s) :: rest) →
  scan_reversed lo n al ((a, s) :: rest) =
  if align_up (gap_start lo rest) al + n <=? a then Some (align_down (a - n) al)
  else scan_reversed lo n al rest.
Proof.
  intros [Ha Hrest]%Forall_cons. pose proof (power_of_two_pos al Hp). pose proof hi_max.
  cbn [scan_reversed].
  assert (match rest with [] => lo | (a', s') :: _ => ga_unchecked_add a' s' end
          = gap_start lo rest ∧ 0 ≤ gap_start lo rest ≤ hi) as [-> Hg].
  { unfold entry_ok in *. destruct rest as [|[a' s'] rest]; simpl in *; [lia|].
    apply Forall_cons in Hrest as [(? & ? & ?) _]; simpl in *.
    rewrite ga_unchecked_add_law. split; [apply u64_wrap_small; unfold in_u64|]; lia. }
  pose proof (align_up_mono (gap_start lo rest) hi al ltac:(done) ltac:(lia)).
  rewrite align_address_small by lia.
  rewrite ga_checked_sub_law. unfold u64_checked_sub, entry_ok in *. simpl in Ha.
  pose proof (align_up_spec al ltac:(done) (gap_start lo rest)).
  destruct (Z.leb_spec (align_up (gap_start lo rest) al) a),
    (Z.leb_spec (align_up (gap_start lo rest) al + n) a); [| |lia|done].
  - destruct (Z.leb_spec n (a - align_up (gap_start lo rest) al)); [|lia].
    f_equal. apply top_of_gap; try done; lia.
  - destruct (Z.leb_spec n (a - align_up (gap_start lo rest) al)); [lia|done].
Qed.

(** The reverse scan finds the highest aligned address with room. *)
Lemma scan_reversed_highest l :
  StronglySorted (λ p q, q.1 + q.2 ≤ p.1) l → Forall (entry_ok lo hi) l →
  highest_in lo n al l (scan_reversed lo n al l).
Proof.
  pose proof (power_of_two_pos al Hp) as Hpos.
  induction l as [|[a s] rest IH]; intros Hs Hok.
  { intros y _ (_ & [] & _). }
  rewrite scan_reversed_cons by done.
  inversion Hs as [|?? Hs' Hbelow]; subst. apply Forall_cons in Hok as [Ha Hok].
  specialize (IH Hs' Hok). pose proof (align_up_spec al Hpos (gap_start lo rest)) as Hup.
  assert (Forall (λ q, q.1 + q.2 ≤ gap_start lo rest) rest) as Hgap.
  { destruct rest as [|[a' s'] rest]; [constructor|]. simpl. constructor; simpl; [lia|].
    inversion Hs' as [|?? _ Hb]; subst. apply Forall_cons in Hok as [(_ & ? & _) _].
    eapply Forall_impl; [exact Hb|]. intros q. simpl in *. lia. }
  assert (lo ≤ gap_start lo rest) as Hlow.
  { destruct rest as [|[a' s'] rest]; [simpl; lia|].
    apply Forall_cons in Hok as [(? & ? & _) _]. simpl in *. lia. }
  destruct (Z.leb_spec (align_up (gap_start lo rest) al + n) a) as [Hroom|Hroom].
  - pose proof (align_down_spec al Hpos (a - n)) as [Hd Hb].
    pose proof (align_down_greatest al Hpos _ (a - n) (proj1 Hup) ltac:(lia)) as Hg.
    split; [done|]. split.
    + split_and!; [lia|lia|]. constructor; [simpl; lia|].
      eapply Forall_impl; [exact Hgap|]. intros q. simpl. lia.
    + intros y Hy (_ & Hya & _). by apply align_down_greatest; [|done|lia].
  - assert (∀ y, (al | y) → free_in lo n ((a, s) :: rest) y ↔ free_in lo n rest y) as Hsame.
    { intros y Hy. unfold free_in. rewrite Forall_cons.
      assert (gap_start lo rest ≤ y → y + n ≤ a → False) as Hno.
      { intros Hge Hya. pose proof (align_up_least al Hpos y _ Hy Hge). lia. }
      destruct rest as [|[a' s'] rest]; simpl in *; [naive_solver|].
      apply Forall_cons in Hbelow as [Hb _]. apply Forall_cons in Hok as [(? & ? & _) _].
      rewrite Forall_cons. simpl in *. naive_solver lia. }
    destruct (scan_reversed lo n al rest) as [x|]; simpl in *.
    + destruct IH as (Hx & Hf & Hmax). rewrite Hsame by done.
      split_and!; [done..|]. intros y Hy. rewrite Hsame by done. auto.
    + intros y Hy. rewrite Hsame by done. auto.
Qed.
End Reverse.

(** ** The forward scan *)

Lemma scan_ranges_spec x n l prev :
  0 ≤ x → 0 < n →
  StronglySorted (λ p q, p.1 + p.2 ≤ q.1) l →
  Forall (λ p, prev ≤ p.1 ∧ (x < p.1 ∨ 0 < p.2) ∧ 0 ≤ p.2 ∧ p.1 + p.2 ≤ u64_max ∧ 0 ≤ p.1) l →
  Exists (λ p, x ≤ p.1) l →
  ∀ r, scan_ranges x n prev l = Ok r ↔
    r = x ∧ prev ≤ x ∧ Forall (λ p, p.1 + p.2 ≤ x ∨ x + n ≤ p.1) l.
Proof.
  intros Hx Hn. revert prev.
  induction l as [|[a s] l IH]; intros prev Hs Hok Hex r; [by inversion Hex|].
  inversion Hs as [|?? Hs' Habove]; subst.
  apply Forall_cons in Hok as [(Hprev & Hpos & Hs0 & Hmax & Ha0) Hok]. simpl in *.
  rewrite Forall_cons. simpl. destruct (Z.leb_spec x a) as [Hxa|Hxa].
  - rewrite ga_unchecked_sub_law. unfold u64_sub. rewrite u64_wrap_small by (unfold in_u64; lia).
    assert (Forall (λ p : Z * Z, p.1 + p.2 ≤ x ∨ x + n ≤ p.1) l ∨ ¬ x + n ≤ a) as Hrest.
    { destruct (Z.leb_spec (x + n) a); [left|right; lia].
      eapply Forall_impl; [exact Habove|]. intros q. simpl. lia. }
    destruct (Z.ltb_spec x prev); [naive_solver lia|].
    destruct (Z.ltb_spec (a - x) n); naive_solver lia.
  - rewrite ga_unchecked_add_law. unfold u64_add. rewrite u64_wrap_small by (unfold in_u64; lia).
    rewrite IH; [naive_solver lia|done| |].
    + rewrite Forall_forall in Habove, Hok |- *. intros q Hq.
      specialize (Habove q Hq). specialize (Hok q Hq). simpl in *. naive_solver lia.
    + inversion Hex as [? ? Hh | ? ? Ht]; subst; [simpl in *; lia | done].
Qed.

(** ** The allocator *)

Section WF.
Context (a : AddressAllocator) (Hwf : wf a).

Lemma wf_entry b s : ranges a !! b = Some s → entry_ok (base a) (end_ a + 1) (b, s).
Proof.
  intros Hb. pose proof (wf_bounds a Hwf). unfold entry_ok. simpl.
  destruct (decide (b = end_ a + 1)) as [->|Hne].
  - rewrite (wf_marker a Hwf) in Hb. simplify_eq. lia.
  - pose proof (wf_range a Hwf b s Hb Hne). lia.
Qed.

Lemma wf_entries : Forall (entry_ok (base a) (end_ a + 1)) (zmap_iter (ranges a)).
Proof.
  rewrite Forall_forall. intros [b s] Hin. apply wf_entry.
  by apply elem_of_zmap_iter.
Qed.

Lemma wf_sorted : StronglySorted (λ p q, p.1 + p.2 ≤ q.1) (zmap_iter (ranges a)).
Proof.
  assert (∀ p, p ∈ zmap_iter (ranges a) → ranges a !! p.1 = Some p.2) as Hin
    by (intros [b s] ?; by apply elem_of_zmap_iter).
  revert Hin. induction (zmap_iter_sorted (ranges a)) as [|p l Hs IH Hall]; intros Hin;
    constructor.
  - apply IH. intros q Hq. apply Hin. by constructor.
  - rewrite Forall_forall in Hall |- *. intros q Hq.
    apply (wf_disjoint a Hwf p.1 p.2 q.1 q.2); [apply Hin; by constructor..|by apply Hall].
Qed.

(** Beside the ranges in the list of the iteration, and beside the ranges. *)
Lemma fits_Forall x n :
  Forall (λ p, p.1 + p.2 ≤ x ∨ x + n ≤ p.1) (zmap_iter (ranges a)) ↔
  ∀ b s, ranges a !! b = Some s → b + s ≤ x ∨ x + n ≤ b.
Proof.
  rewrite Forall_forall. split.
  - intros Hall b s Hb. by apply (Hall (b, s)), elem_of_zmap_iter.
  - intros Hall [b s] Hin. by apply Hall, elem_of_zmap_iter.
Qed.

(** What a request of an address is answered. *)
Lemma available_range_spec x n al r :
  0 < al ≤ u64_max → in_u64 x → in_u64 n → 0 < n →
  available_range a x n al = Ok r ↔ r = x ∧ (al | x) ∧ x < end_ a ∧ fits a x n.
Proof.
  intros Hal Hx Hn Hpos. pose proof (wf_bounds a Hwf) as Hb.
  pose proof (align_address_fixed x al ltac:(lia) Hx) as Hfix.
  unfold available_range. destruct (Z.eqb_spec (align_address x al) x) as [E|E]; simpl;
    [|naive_solver].
  rewrite E. unfold fits.
  destruct (Z.leb_spec (end_ a) x), (Z.ltb_spec x (base a)); simpl; [naive_solver lia..|].
  rewrite scan_ranges_spec; [|unfold in_u64 in *; lia|done|apply wf_sorted| |].
  - rewrite fits_Forall. split; [|naive_solver].
    intros (-> & Hbx & Hall). split_and!; try done; [by apply Hfix|].
    destruct (Hall _ _ (wf_marker a Hwf)); lia.
  - rewrite Forall_forall. intros [b s] Hin%elem_of_zmap_iter. simpl.
    pose proof (wf_entry b s Hin) as He. unfold entry_ok in He. simpl in He.
    destruct (decide (b = end_ a + 1)) as [->|Hne]; [lia|].
    pose proof (wf_range a Hwf b s Hin Hne). lia.
  - apply Exists_exists. exists (end_ a + 1, 0). split; [|simpl; lia].
    apply elem_of_zmap_iter, (wf_marker a Hwf).
Qed.

(** The first entry of the reverse iteration is the marker. *)
Lemma reverse_head x n :
  match reverse (zmap_iter (ranges a)) with [] => False | (h, _) :: _ => x + n ≤ h end ↔
  x + n ≤ end_ a + 1.
Proof.
  assert ((end_ a + 1, 0) ∈ reverse (zmap_iter (ranges a))) as Hm
    by apply elem_of_reverse, elem_of_zmap_iter, (wf_marker a Hwf).
  pose proof (StronglySorted_reverse _ _ wf_sorted) as Hs.
  pose proof wf_entries as He. rewrite <-(Forall_reverse _ (zmap_iter _)) in He.
  destruct (reverse (zmap_iter (ranges a))) as [|[h s] l]; [by apply elem_of_nil in Hm|].
  apply Forall_cons in He as [(_ & ? & ?) _]. simpl in *.
  assert (h = end_ a + 1) as ->; [|done].
  apply elem_of_cons in Hm as [Hm|Hm]; [by simplify_eq|].
  inversion Hs as [|?? _ Hall]; subst. rewrite Forall_forall in Hall.
  specialize (Hall _ Hm). simpl in Hall. lia.
Qed.

Lemma free_in_fits n x :
  free_in (base a) n (reverse (zmap_iter (ranges a))) x ↔ fits a x n.
Proof.
  unfold free_in, fits. rewrite reverse_head, Forall_reverse, fits_Forall. done.
Qed.

(** What a request without an address is answered. *)
Lemma first_available_range_spec n al :
  is_power_of_two al = true → al ≤ u64_max → 0 < n →
  align_up (end_ a + 1) al ≤ u64_max →
  match first_available_range a n al with
  | Some x => highest_fit a n al x
  | None => ∀ x, (al | x) → ¬ fits a x n
  end.
Proof.
  intros Hp Hle Hn Hhi. unfold first_available_range.
  pose proof (wf_bounds a Hwf).
  pose proof (scan_reversed_highest (base a) (end_ a + 1) n al ltac:(lia) Hp Hle Hn Hhi
    (reverse (zmap_iter (ranges a))) (StronglySorted_reverse _ _ wf_sorted)
    ltac:(apply Forall_reverse, wf_entries)) as Hh.
  destruct (scan_reversed _ _ _ _) as [x|]; unfold highest_in in Hh.
  - destruct Hh as (Hx & Hf & Hmax). split; [done|]. rewrite <-free_in_fits.
    split; [done|]. intros y Hy. rewrite <-free_in_fits. auto.
  - intros x Hx. rewrite <-free_in_fits. auto.
Qed.

(** Room for a range means that no range starts there. *)
Lemma fits_fresh x n : 0 < n → fits a x n → ranges a !! x = None.
Proof.
  intros Hn (Hlo & Hhi & Hall). destruct (ranges a !! x) as [s|] eqn:E; [|done].
  destruct (Hall x s E) as [Hs|Hs]; [|lia].
  destruct (decide (x = end_ a + 1)) as [->|Hne]; [lia|].
  pose proof (wf_range a Hwf x s E Hne). lia.
Qed.

Lemma insert_wf x n : 0 < n → fits a x n → wf (with_ranges a (<[x := n]> (ranges a))).
Proof.
  intros Hn (Hlo & Hhi & Hall). pose proof (wf_bounds a Hwf) as Hb.
  constructor; simpl; [done| | |].
  - rewrite lookup_insert_ne by lia. apply (wf_marker a Hwf).
  - intros b s [[-> ->]|[Hne Hb']]%lookup_insert_Some Hnm; [lia|].
    by apply (wf_range a Hwf).
  - intros b s b' s' [[-> ->]|[? Hl]]%lookup_insert_Some
      [[-> ->]|[? Hl']]%lookup_insert_Some Hlt; [lia| | |].
    + pose proof (wf_entry b' s' Hl') as (_ & ? & _). simpl in *.
      destruct (Hall b' s' Hl'); lia.
    + destruct (Hall b s Hl); [done|lia].
    + by eapply (wf_disjoint a Hwf).
Qed.

Lemma delete_wf x : x ≠ end_ a + 1 → wf (with_ranges a (delete x (ranges a))).
Proof.
  intros Hne. constructor; simpl.
  - apply (wf_bounds a Hwf).
  - rewrite lookup_delete_ne by done. apply (wf_marker a Hwf).
  - intros b s [_ Hb]%lookup_delete_Some. by apply (wf_range a Hwf).
  - intros b s b' s' [_ Hb]%lookup_delete_Some [_ Hb']%lookup_delete_Some.
    by apply (wf_disjoint a Hwf b s b' s').
Qed.

(** A successful allocation inserts a range where it fits. *)
Lemma allocate_fits address size align_size a' x :
  proper_call a (Allocate address size align_size) →
  allocate address size align_size a = (a', Some x) →
  0 < size ∧ (default 4 align_size | x) ∧ fits a x size ∧
  a' = with_ranges a (<[x := size]> (ranges a)).
Proof.
  intros (Hn & Hal & Hup & Haddr). unfold allocate.
  destruct (Z.eqb_spec size 0) as [|Hs]; [done|].
  destruct (is_power_of_two (default 4 align_size)) eqn:Hp; [simpl|done].
  pose proof (power_of_two_pos _ Hp). destruct (Z.eqb_spec (default 4 align_size) 0); [lia|].
  unfold in_u64 in *. destruct address as [req|].
  - destruct (available_range a req size _) as [y|] eqn:E; [|done]. intros [= <- <-].
    apply available_range_spec in E as (-> & ? & ? & ?); [|lia|by apply Haddr|done|lia].
    split_and!; try done; lia.
  - pose proof (first_available_range_spec size _ Hp ltac:(lia) ltac:(lia) Hup) as Hf.
    destruct (first_available_range a size _) as [y|]; [|done]. intros [= <- <-].
    destruct Hf as (? & ? & _). split_and!; try done; lia.
Qed.
End WF.

Lemma allocate_None_same address size align_size a a' :
  allocate address size align_size a = (a', None) → a' = a.
Proof.
  unfold allocate. destruct (size =? 0); [by intros [=]|].
  destruct (_ || _); [by intros [=]|].
  destruct address; [destruct (available_range _ _ _ _)|
    destruct (first_available_range _ _ _)]; by intros [=].
Qed.

Lemma exec_end c a : end_ (exec c a) = end_ a.
Proof.
  destruct c; simpl; [unfold allocate | unfold free]; repeat case_match; done.
Qed.

Lemma exec_wf a c : wf a → proper_call a c → wf (exec c a).
Proof.
  intros Hwf Hc. destruct c as [address size align_size|address size]; simpl.
  - destruct (allocate address size align_size a) as [a' [x|]] eqn:E; simpl.
    + apply allocate_fits in E as (? & _ & ? & ->); [|done..]. by apply insert_wf.
    + by apply allocate_None_same in E as ->.
  - unfold free. repeat case_match; try done. by apply delete_wf.
Qed.

Lemma run_wf cs a : wf a → Forall (proper_call a) cs → wf (run cs a) ∧ end_ (run cs a) = end_ a.
Proof.
  revert a. induction cs as [|c cs IH]; intros a Hwf Hcs; [done|].
  apply Forall_cons in Hcs as [Hc Hcs]. simpl.
  destruct (IH (exec c a)) as [Hr He]; [by apply exec_wf| |].
  - eapply Forall_impl; [exact Hcs|]. intros c'. unfold proper_call. by rewrite exec_end.
  - split; [done|]. by rewrite He, exec_end.
Qed.

Lemma new_wf b n a : in_u64 b → in_u64 n → new b n = Some a → wf a ∧ base a = b ∧ end_ a = b + n - 1.
Proof.
  unfold new, in_u64. intros Hb Hn. destruct (Z.eqb_spec n 0); [done|].
  rewrite !ga_checked_add_law.
  destruct (u64_checked_add b (n - 1)) as [e|] eqn:He; [|done].
  destruct (u64_checked_add b n) as [m|] eqn:Hm; [|done]. simpl. intros [= <-].
  apply u64_checked_add_Some in He as [-> ?], Hm as [-> ?]. simpl.
  split; [|lia]. constructor; simpl; [lia| | |].
  - apply lookup_insert_Some. left. lia.
  - intros ? ? [[<- _]|[_ ?]]%lookup_insert_Some; [lia|by rewrite lookup_empty in *].
  - intros ? ? ? ? [[<- _]|[_ ?]]%lookup_insert_Some [[<- _]|[_ ?]]%lookup_insert_Some;
      [lia|by rewrite lookup_empty in *..].
Qed.

(** Freed addresses are available again. *)
Lemma free_fits a b s : wf a → live a b s → fits (free b s a) b s.
Proof.
  intros Hwf [Hb Hne]. unfold free. rewrite Hb, Z.eqb_refl.
  pose proof (wf_range a Hwf b s Hb Hne). unfold fits. simpl. split_and!; [lia..|].
  intros b' s' [Hne' Hb']%lookup_delete_Some. destruct (Z.lt_total b b') as [Hlt|[->|Hlt]];
    [right|done|left]; by eapply (wf_disjoint a Hwf).
Qed.

End AddressFacts.

(** ** Address ranges: properties *)

Section AddressTheorems.
Import Address.
#[local] Set Default Proof Using "Type*".
Context `{GuestAddressLaws}.

(** C23: a request without an address is given the highest address that is aligned and
    has room for the size, and the range is recorded; it is refused, and nothing
    changes, only when no aligned address has room.  Aligning the end of the space
    must not overflow. *)
Theorem allocate_highest_fit a size align_size :
  wf a → in_u64 size → 0 < size →
  is_power_of_two (default 4 align_size) = true → default 4 align_size ≤ u64_max →
  align_up (end_ a + 1) (default 4 align_size) ≤ u64_max →
  match allocate None size align_size a with
  | (a', Some x) =>
      highest_fit a size (default 4 align_size) x ∧
      a' = with_ranges a (<[x := size]> (ranges a))
  | (a', None) => a' = a ∧ ∀ x, (default 4 align_size | x) → ¬ fits a x size
  end.
Proof.
  intros Hwf Hn Hpos Hp Hle Hup. pose proof (power_of_two_pos _ Hp). unfold allocate.
  destruct (Z.eqb_spec size 0); [lia|]. rewrite Hp. simpl.
  destruct (Z.eqb_spec (default 4 align_size) 0); [lia|].
  pose proof (first_available_range_spec a Hwf size _ Hp Hle Hpos Hup) as Hf.
  by destruct (first_available_range a size _).
Qed.

(** A request of an address succeeds exactly when the address is aligned, has room,
    and is not the last address. *)
Theorem allocate_at_spec a x size align_size r :
  wf a → in_u64 size → 0 < size → in_u64 x →
  is_power_of_two (default 4 align_size) = true → default 4 align_size ≤ u64_max →
  (allocate (Some x) size align_size a).2 = Some r ↔
  r = x ∧ (default 4 align_size | x) ∧ x < end_ a ∧ fits a x size.
Proof.
  intros Hwf Hn Hpos Hx Hp Hle. pose proof (power_of_two_pos _ Hp). unfold allocate.
  destruct (Z.eqb_spec size 0); [lia|]. rewrite Hp. simpl.
  destruct (Z.eqb_spec (default 4 align_size) 0); [lia|].
  rewrite <-(available_range_spec a Hwf) by (done || lia).
  destruct (available_range a x size _); naive_solver.
Qed.

(** C24: whatever is allocated and freed, in any order, on a new allocator, the ranges in use
    are inside the managed space and pairwise disjoint, as long as rounding up the end of
    the space to an alignment that is asked for does not overflow 64 bits and the marker
    after the end of the space, which is no allocation, is not freed. *)
Theorem live_ranges_disjoint b n a cs :
  in_u64 b → in_u64 n → new b n = Some a → Forall (proper_call a) cs →
  ∀ x s, live (run cs a) x s →
    b ≤ x ∧ 0 < s ∧ x + s ≤ b + n ∧
    ∀ y t, live (run cs a) y t → y ≠ x → x + s ≤ y ∨ y + t ≤ x.
Proof.
  intros Hb Hn Hnew Hcs x s [Hx Hxe]. pose proof (new_wf b n a Hb Hn Hnew) as (Hwf & Eb & Ee).
  destruct (run_wf cs a Hwf Hcs) as [Hr Hre].
  assert (base (run cs a) = b) as Ebase.
  { rewrite <-Eb. clear. revert a. induction cs as [|c cs IH]; intros a; [done|].
    simpl. rewrite IH. destruct c; simpl; [unfold allocate | unfold free];
      repeat case_match; done. }
  pose proof (wf_range _ Hr x s Hx Hxe). split_and!; [lia..|].
  intros y t [Hy _] Hne. destruct (Z.lt_total x y) as [Hlt|[->|Hlt]];
    [left|done|right]; by eapply (wf_disjoint _ Hr).
Qed.

(** Freeing what was just allocated restores the allocator. *)
Theorem allocate_free_roundtrip a address size align_size a' x :
  wf a → proper_call a (Allocate address size align_size) →
  allocate address size align_size a = (a', Some x) → free x size a' = a.
Proof.
  intros Hwf Hc E. apply allocate_fits in E as (Hpos & _ & Hf & ->); [|done..].
  unfold free. simpl. rewrite lookup_insert_eq, Z.eqb_refl.
  rewrite delete_insert_id by by eapply fits_fresh. by destruct a.
Qed.

End AddressTheorems.

Lemma example_pool : Address.new 0x1000 0x10000 =
  Some {| Address.base := 0x1000; Address.end_ := 0x10fff;
          Address.ranges := <[0x11000 := 0]> ∅ |}.
Proof. reflexivity. Qed.

(** When aligning the start of a gap overflows, the address that is returned is
    outside the managed space. *)
Theorem allocate_outside_space :
  ∃ a, Address.new (2 ^ 64 - 0x800) 0x700 = Some a ∧
    (Address.allocate None 0x100 (Some 0x1000) a).2 = Some (2 ^ 64 - 0x1000).
Proof.
  exists {| Address.base := 2 ^ 64 - 0x800; Address.end_ := 2 ^ 64 - 0x101;
            Address.ranges := <[2 ^ 64 - 0x100 := 0]> ∅ |}.
  split; vm_compute; reflexivity.
Qed.

(** Freeing the marker, which was never allocated, leaves an allocator that refuses
    every request. *)
Theorem free_marker_exhausts address size align_size a :
  Address.new 0x1000 0x10000 = Some a →
  (Address.allocate address size align_size (Address.free 0x11000 0 a)).2 = None.
Proof.
  rewrite example_pool. intros [= <-]. unfold Address.free. simpl.
  rewrite delete_insert_id by done. unfold Address.allocate.
  destruct (size =? 0); [done|]. destruct (_ || _); [done|].
  destruct address as [x|]; [|done]. unfold Address.available_range.
  destruct (negb _); [done|]. by destruct (_ || _).
Qed.

(** The last address of the space is refused when it is requested, and is what a
    request without an address is given. *)
Theorem last_address_refused :
  ∃ a, Address.new 0x1000 0x10000 = Some a ∧
    (Address.allocate (Some 0x10fff) 1 (Some 1) a).2 = None ∧
    (Address.allocate None 1 (Some 1) a).2 = Some 0x10fff.
Proof.
  rewrite example_pool. eexists. split; [reflexivity|]. split; vm_compute; reflexivity.
Qed.

(** ** Interrupts *)

(** The lines of a single controller from [next] on, then only failures. *)
Lemma irqs_of_single b n g k next :
  Gsi.apics g = {[ b := n ]} → Gsi.next_irq g = next →
  0 < b → b + n ≤ u32_max → b ≤ next ≤ b + n →
  irqs_of k g =
  map Ok (seqZ next (Z.min (Z.of_nat k) (b + n - next))) ++
  replicate (k - Z.to_nat (b + n - next)) (Err Gsi.Overflow).
Proof.
  intros Ha Hn Hb Hmax. revert g next Ha Hn. induction k as [|k IH]; intros g next Ha Hn Hr.
  { rewrite seqZ_nil by lia. done. }
  simpl irqs_of. unfold Gsi.allocate_irq. rewrite Ha, Hn.
  assert (zmap_iter {[b := n]} = [(b, n)]) as ->.
  { unfold zmap_iter. by rewrite map_to_list_singleton. }
  simpl. unfold u32_add. rewrite u32_wrap_small by (unfold in_u32; lia).
  destruct (Z.leb_spec b next); [|lia].
  destruct (Z.ltb_spec next (b + n)); simpl.
  - rewrite u32_wrap_small by (unfold in_u32; lia). destruct (Z.eqb_spec next 0); [lia|].
    rewrite (IH _ (next + 1)); [|done|done|lia].
    rewrite (seqZ_cons next) by lia. simpl. do 2 f_equal.
    + do 2 f_equal; lia.
    + f_equal. lia.
  - rewrite (IH _ next); [|done|done|lia].
    rewrite !seqZ_nil by lia. simpl. f_equal.
    replace (Z.to_nat (b + n - next)) with 0%nat by lia. by rewrite Nat.sub_0_r.
Qed.

(** With one interrupt controller whose first line is not 0, [allocate_irq] returns its
    lines one by one in order, and [Overflow] from then on. *)
Theorem single_ioapic_irqs b n k :
  0 < b → 0 ≤ n → b + n ≤ u32_max →
  irqs_of k (Gsi.new [{| Gsi.apic_base := b; Gsi.apic_irqs := n |}]) =
  map Ok (seqZ b (Z.min (Z.of_nat k) n)) ++ replicate (k - Z.to_nat n) (Err Gsi.Overflow).
Proof.
  intros Hb Hn Hmax. rewrite (irqs_of_single b n _ k b); try done; [| |lia].
  - by replace (b + n - b) with n by lia.
  - simpl. unfold u32_max in *. destruct (Z.ltb_spec b 4294967295); lia.
Qed.

(** Line 0 cannot be allocated: the first call consumes it and reports [Overflow]. *)
Theorem irq_zero_lost :
  irqs_of 3 (Gsi.new [{| Gsi.apic_base := 0; Gsi.apic_irqs := 2 |}]) =
  [Err Gsi.Overflow; Ok 1; Err Gsi.Overflow].
Proof. reflexivity. Qed.

(** An interrupt number is returned once, is above the lines of every controller, and
    the last number of 32 bits is never returned. *)
Theorem allocate_gsi_spec g :
  match Gsi.allocate_gsi g with
  | (g', Ok n) => n = Gsi.next_gsi g ∧ Gsi.next_gsi g' = n + 1 ∧ n < u32_max
  | (g', Err _) => g' = g ∧ u32_max ≤ Gsi.next_gsi g
  end.
Proof. unfold Gsi.allocate_gsi. destruct (Z.leb_spec (Gsi.next_gsi g + 1) u32_max); simpl;
    split_and?; done || lia. Qed.

(** ** Memory slots *)

Section Slots.
Import MemorySlot.

Lemma filter_ne_id (x : Z) (l : list Z) : x ∉ l → filter (λ y, y ≠ x) l = l.
Proof.
  induction l as [|y l IH]; [done|]. intros [Hne Hni]%not_elem_of_cons.
  rewrite filter_cons_True by done. by rewrite IH.
Qed.

Lemma slot_exec_ok c st st' :
  0 ≤ next_slot st.1 < u32_max → slots_ok st → slot_exec c st = Some st' →
  slots_ok st' ∧ next_slot st.1 ≤ next_slot st'.1 ≤ next_slot st.1 + 1.
Proof.
  destruct st as [m used]. intros Hn [Hnd Hlt]. simpl in *. destruct c as [|slot]; simpl.
  - unfold next_memory_slot. destruct (last (free_list m)) as [x|] eqn:E; intros [= <-].
    + apply last_Some in E as [l El]. unfold slots_ok; simpl. rewrite El, removelast_last in *.
      split; [|lia]. assert (used ++ l ++ [x] ≡ₚ x :: used ++ l) as Hp
        by (rewrite app_assoc; by rewrite (Permutation_app_comm _ [x])).
      simpl. rewrite <-Hp. done.
    + apply last_None in E. unfold slots_ok; simpl. unfold u32_add.
      rewrite u32_wrap_small by (unfold in_u32; lia). split; [|lia]. split.
      * constructor; [|done]. intros Hin. rewrite Forall_forall in Hlt.
        specialize (Hlt _ Hin). lia.
      * constructor; [lia|]. eapply Forall_impl; [exact Hlt|]. simpl. lia.
  - case_decide as Hin; [|done]. intros [= <-]. unfold slots_ok; simpl. split; [|lia].
    apply NoDup_app in Hnd as (Hu & Hd & Hf).
    apply list_elem_of_split in Hin as (l1 & l2 & ->).
    apply NoDup_app in Hu as (Hu1 & Hu2 & Hu3). apply NoDup_cons in Hu3 as [Hu3 Hu4].
    assert (filter (λ x, x ≠ slot) (l1 ++ slot :: l2) = l1 ++ l2) as ->.
    { rewrite filter_app, filter_cons_False by tauto.
      rewrite !filter_ne_id; [done|done|]. intros Hin. by apply (Hu2 slot Hin); left. }
    assert ((l1 ++ l2) ++ free_list m ++ [slot] ≡ₚ (l1 ++ slot :: l2) ++ free_list m) as ->.
    { rewrite <-(Permutation_middle l1 l2 slot), app_assoc.
      by rewrite (Permutation_app_comm _ [slot]). }
    split; [|done]. apply NoDup_app. split_and!; try done.
    apply NoDup_app. split_and!; try done. by constructor.
Qed.

(** Two slots in use at the same time are different, as long as only slots in use are
    freed and the counter does not wrap. *)
Theorem slots_in_use_distinct cs m used :
  Z.of_nat (length cs) < u32_max →
  slot_run cs ({| next_slot := 0; free_list := [] |}, []) = Some (m, used) → NoDup used.
Proof.
  assert (∀ st, slots_ok st → 0 ≤ next_slot st.1 →
    next_slot st.1 + Z.of_nat (length cs) < u32_max →
    slot_run cs st = Some (m, used) → NoDup used) as Hgen.
  { induction cs as [|c cs IH]; intros st Hok H0 Hlen Hrun; simpl in *.
    - simplify_eq. destruct Hok as [Hnd _]. by apply NoDup_app in Hnd as [? _].
    - destruct (slot_exec c st) as [st'|] eqn:E; [|done]. simpl in Hrun.
      apply slot_exec_ok in E as [Hok' Hb]; [|lia|done].
      apply (IH st'); try done; lia. }
  intros Hlen Hrun. eapply Hgen; [| | |exact Hrun]; simpl; [|lia..].
  split; simpl; constructor.
Qed.

End Slots.

(** ** Pages *)

Section Pages.
Context `{PageSize}.
Context (Hpow : is_power_of_two sysconf_page_size = true) (Hsize : sysconf_page_size ≤ 2 ^ 63).

Lemma get_page_size_id : Page.get_page_size = sysconf_page_size.
Proof using Hpow Hsize.
  unfold Page.get_page_size. pose proof (power_of_two_pos _ Hpow).
  apply u64_wrap_small. unfold in_u64, u64_max. lia.
Qed.

(** The page operations align to the page size, when the address is not in the last page. *)
Theorem page_alignment x :
  0 ≤ x → x + sysconf_page_size ≤ u64_max →
  Page.align_page_size_up x = align_up x sysconf_page_size ∧
  Page.align_page_size_down x = align_down x sysconf_page_size ∧
  (Page.is_page_size_aligned x = true ↔ (sysconf_page_size | x)).
Proof using Hpow Hsize.
  intros Hx Hle. pose proof (power_of_two_pos _ Hpow).
  unfold Page.align_page_size_up, Page.align_page_size_down, Page.is_page_size_aligned.
  rewrite get_page_size_id. cbv zeta. unfold u64_sub, u64_add.
  rewrite !u64_wrap_small by (unfold in_u64, u64_max in *; rewrite ?u64_wrap_small;
    unfold in_u64, u64_max; lia).
  rewrite !land_not_mask by (done || (unfold in_u64, u64_max in *; lia)).
  rewrite land_mask by done. split_and!; [done..|].
  rewrite Z.eqb_eq. apply Z.mod_divide. lia.
Qed.

End Pages.

(** ** The theorems at a concrete pool *)

Lemma example_allocator_wf : wf example_allocator.
Proof.
  destruct (new_wf 0x1000 0x10000 example_allocator) as [Hwf _]; try done;
    unfold in_u64, u64_max; lia.
Qed.

Lemma allocate_highest_fit_witness :
  highest_fit example_allocator 0x800 0x1000 0x10000 ∧
  (Address.allocate None 0x800 (Some 0x1000) example_allocator).2 = Some 0x10000.
Proof.
  pose proof (allocate_highest_fit example_allocator 0x800 (Some 0x1000) example_allocator_wf
    ltac:(by split) ltac:(lia) ltac:(reflexivity) ltac:(simpl; unfold u64_max; lia)
    ltac:(vm_compute; discriminate)) as Hw.
  revert Hw. vm_compute Address.allocate. intros [Hw _]. split; [exact Hw|reflexivity].
Defined.

Lemma live_ranges_disjoint_witness :
  let a := run [Allocate None 0x800 None; Allocate None 0x800 None] example_allocator in
  live a 0x10800 0x800 ∧ live a 0x10000 0x800 ∧
  (0x10800 + 0x800 ≤ 0x10000 ∨ 0x10000 + 0x800 ≤ 0x10800).
Proof.
  intros a. assert (live a 0x10800 0x800) as H1 by (split; [vm_compute; reflexivity|vm_compute; discriminate]).
  assert (live a 0x10000 0x800) as H2 by (split; [vm_compute; reflexivity|vm_compute; discriminate]).
  split; [exact H1|split; [exact H2|]].
  refine (proj2 (proj2 (proj2 (live_ranges_disjoint 0x1000 0x10000 example_allocator
    [Allocate None 0x800 None; Allocate None 0x800 None] _ _ eq_refl _ 0x10800 0x800 H1)))
    0x10000 0x800 H2 _); [by split|by split| |discriminate].
  repeat constructor; simpl; try (by intros); vm_compute; discriminate.
Defined.

