(* ===== verification/Bus.v ===== *)
(** * The device bus of the virtual machine monitor

    form-vmm/vm-device/src/bus.rs: the map from address ranges to devices through which
    the exits of a virtual machine are routed.  A [BusRange] is equal to and ordered with
    another by its base alone, so the [BTreeMap] is a map from the base to the length
    and the device.  A device is a reference; [alive] says which weak references
    can be upgraded, and [BusDevice] is the trait of the devices.  The theorems
    show how addresses are routed, what insertion and removal do to the routing,
    and that ranges handed out by the address allocator, as long as aligning does
    not overflow, do not collide on a bus. *)

From S2P Require Import Prelude Words VmAllocator.
From stdpp Require Import options.
Local Open Scope Z_scope.

Inductive Error := Overlap | ZeroSizedRange | MissingAddressRange.

Record BusRange := { base : Z; len : Z }.

(** [BusRange::overlaps]: the sums wrap. *)
Definition overlaps (r : BusRange) (b l : Z) : bool :=
  (base r <? u64_add b l) && (b <? u64_add (base r) (len r)).

(** A reference to a device. *)
Definition Device := Z.

(** [BTreeMap<BusRange, Weak<dyn BusDeviceSync>>]. *)
Record Bus := { devices : gmap Z (Z * Device) }.

Definition new : Bus := {| devices := ∅ |}.

(** The trait [BusDeviceSync]: what an access does to the state [D] of a device; a
    write may return a barrier. *)
Class BusDevice (D Barrier : Type) := {
  device_read : D → Z → Z → list Z → D * list Z;
  device_write : D → Z → Z → list Z → D * option Barrier;
}.

Section Ops.
Context (alive : Device → bool).

(** [devices.range(..=BusRange { base: addr, len: 1 }).next_back()], upgraded. *)
Definition first_before (addr : Z) (b : Bus) : option (BusRange * Device) :=
  match last (filter (λ p, p.1 ≤ addr) (zmap_iter (devices b))) with
  | Some (b, (l, d)) => if alive d then Some ({| base := b; len := l |}, d) else None
  | None => None
  end.

Definition resolve (addr : Z) (b : Bus) : option (Z * Z * Device) :=
  match first_before addr b with
  | Some (range, dev) =>
      let offset := u64_sub addr (base range) in
      if offset <? len range then Some (base range, offset, dev) else None
  | None => None
  end.

(** [BTreeMap::insert] with a key that is already there replaces the device and keeps
    the key, hence its length. *)
Definition insert (device : Device) (b l : Z) : method Bus Error unit := λ bus,
  if l =? 0 then (bus, Err ZeroSizedRange)
  else if existsb (λ p, overlaps {| base := p.1; len := p.2.1 |} b l)
            (zmap_iter (devices bus))
  then (bus, Err Overlap)
  else
    match devices bus !! b with
    | Some (l', _) => ({| devices := <[b := (l', device)]> (devices bus) |}, Err Overlap)
    | None => ({| devices := <[b := (l, device)]> (devices bus) |}, Ok tt)
    end.

Definition remove (b l : Z) : method Bus Error unit := λ bus,
  if l =? 0 then (bus, Err ZeroSizedRange)
  else
    match devices bus !! b with
    | Some _ => ({| devices := delete b (devices bus) |}, Ok tt)
    | None => (bus, Err MissingAddressRange)
    end.

(** [None] when the upgrade of a reference panics. *)
Definition remove_by_device (device : Device) (bus : Bus) : option Bus :=
  let l := zmap_iter (devices bus) in
  if forallb (λ p, alive p.2.2) l then
    let remove_key_list := (filter (λ p, p.2.2 = device) l).*1 in
    Some {| devices := foldl (λ m k, delete k m) (devices bus) remove_key_list |}
  else None.

Definition update_range (old_base old_len new_base new_len : Z) : method Bus Error unit := λ bus,
  match resolve old_base bus with
  | None => (bus, Err MissingAddressRange)
  | Some (_, _, device) =>
      match remove old_base old_len bus with
      | (bus', Err e) => (bus', Err e)
      | (bus', Ok _) => insert device new_base new_len bus'
      end
  end.

(** Accesses act on the state of the device that owns the address. *)
Context `{BusDevice D Barrier}.

Definition read (bus : Bus) (addr : Z) (data : list Z)
    : method (Device → D) Error (list Z) := λ st,
  match resolve addr bus with
  | Some (b, offset, dev) =>
      let '(d, data') := device_read (st dev) b offset data in
      (λ x, if x =? dev then d else st x, Ok data')
  | None => (st, Err MissingAddressRange)
  end.

Definition write (bus : Bus) (addr : Z) (data : list Z)
    : method (Device → D) Error (option Barrier) := λ st,
  match resolve addr bus with
  | Some (b, offset, dev) =>
      let '(d, barrier) := device_write (st dev) b offset data in
      (λ x, if x =? dev then d else st x, Ok barrier)
  | None => (st, Err MissingAddressRange)
  end.

End Ops.

(** ** What the bus promises *)

(** The ranges are not empty, end in the address space and are disjoint. *)
Record wf (b : Bus) : Prop := {
  wf_range x l d : devices b !! x = Some (l, d) → 0 ≤ x ∧ 0 < l ∧ x + l ≤ u64_max;
  wf_disjoint x l d x' l' d' : devices b !! x = Some (l, d) →
    devices b !! x' = Some (l', d') → x < x' → x + l ≤ x';
}.

(** [addr] belongs to the range at [x], of device [d]. *)
Definition owns (b : Bus) (addr x : Z) (d : Device) : Prop :=
  ∃ l, devices b !! x = Some (l, d) ∧ x ≤ addr < x + l.

(** The new range meets no range of the bus. *)
Definition clear (b : Bus) (x l : Z) : Prop :=
  ∀ x' l' d, devices b !! x' = Some (l', d) → x' + l' ≤ x ∨ x + l ≤ x'.

(** Every range of the bus was handed out by the allocator. *)
Definition covered (b : Bus) (a : Address.AddressAllocator) : Prop :=
  ∀ x l d, devices b !! x = Some (l, d) → live a x l.

(** An access that did [step] to device [d], returned its result and changed no other device. *)
Definition only_device {D A} (d : Device) (st : Device → D) (step : D * A)
    (r : (Device → D) * result A Error) : Prop :=
  r.2 = Ok step.2 ∧ r.1 d = step.1 ∧ ∀ e, e ≠ d → r.1 e = st e.

(** A device as a memory, for the examples. *)
#[global] Instance constant_device : BusDevice Z unit := {
  device_read st b offset data := (st, imap (λ i _, (offset + Z.of_nat i) `mod` 256) data);
  device_write st b offset data := (b + offset + st, None) }.

(** A bus with one device of 256 addresses at 4096. *)
Definition example_bus : Bus := {| devices := <[0x1000 := (0x100, 7)]> ∅ |}.

(** ** Lemmas *)

Lemma owns_unique b addr x d x' d' : wf b → owns b addr x d → owns b addr x' d' → x = x' ∧ d = d'.
Proof.
  intros Hwf (l & Hx & Hr) (l' & Hx' & Hr').
  destruct (Z.lt_total x x') as [Hlt|[->|Hlt]]; [|by simplify_eq|].
  - pose proof (wf_disjoint b Hwf _ _ _ _ _ _ Hx Hx' Hlt). lia.
  - pose proof (wf_disjoint b Hwf _ _ _ _ _ _ Hx' Hx Hlt). lia.
Qed.

(** The last entry at or before an address. *)
Lemma last_before {V} (m : gmap Z V) addr x v :
  last (filter (λ p, p.1 ≤ addr) (zmap_iter m)) = Some (x, v) ↔
  m !! x = Some v ∧ x ≤ addr ∧ ∀ y w, m !! y = Some w → y ≤ addr → y ≤ x.
Proof.
  pose proof (zmap_iter_sorted m) as Hs.
  assert (∀ p, p ∈ filter (λ p, p.1 ≤ addr) (zmap_iter m) ↔
    m !! p.1 = Some p.2 ∧ p.1 ≤ addr) as Hin.
  { intros [y w]. rewrite list_elem_of_filter, elem_of_zmap_iter. simpl. tauto. }
  assert (StronglySorted (λ p q, p.1 < q.1) (filter (λ p, p.1 ≤ addr) (zmap_iter m))) as Hf.
  { clear Hin. induction Hs as [|p l Hs IH Hall]; [constructor|].
    rewrite filter_cons. case_decide; [|done]. constructor; [done|].
    rewrite Forall_forall in Hall |- *. intros q [_ Hq]%list_elem_of_filter. auto. }
  destruct (filter _ _) as [|p0 l0 _] using rev_ind.
  - split; [done|]. intros (Hx & Hle & _). exfalso.
    apply (elem_of_nil (x, v)). by apply Hin.
  - rewrite last_snoc. split.
    + intros [= ->]. assert ((x, v) ∈ l0 ++ [(x, v)]) as Hp by set_solver.
      apply Hin in Hp as [Hp Hle]. split_and!; [done..|]. intros y w Hy Hyle.
      assert ((y, w) ∈ l0 ++ [(x, v)]) as Hyin by by apply Hin.
      apply elem_of_app in Hyin as [Hyin|Hyin%list_elem_of_singleton]; [|by simplify_eq].
      apply StronglySorted_app in Hf as (Hlt & _).
      specialize (Hlt (y, w) (x, v) Hyin ltac:(set_solver)). simpl in Hlt. lia.
    + intros (Hx & Hle & Hmax). assert ((x, v) ∈ l0 ++ [p0]) as Hyin by by apply Hin.
      apply elem_of_app in Hyin as [Hyin|Hyin%list_elem_of_singleton]; [|by simplify_eq].
      apply StronglySorted_app in Hf as (Hlt & _).
      specialize (Hlt (x, v) p0 Hyin ltac:(set_solver)). simpl in Hlt.
      assert (p0 ∈ l0 ++ [p0]) as Hp by set_solver. apply Hin in Hp as [Hp Hple].
      specialize (Hmax _ _ Hp Hple). lia.
Qed.

Section Facts.
Context (alive : Device → bool).

(** Routing finds the range that contains the address, when its device is alive. *)
Lemma resolve_iff b addr x offset d :
  wf b → in_u64 addr →
  resolve alive addr b = Some (x, offset, d) ↔
  owns b addr x d ∧ offset = addr - x ∧ alive d = true.
Proof.
  intros Hwf Haddr. unfold resolve, first_before, owns.
  destruct (last _) as [[y [l e]]|] eqn:E.
  - apply last_before in E as (Hy & Hle & Hmax). pose proof (wf_range b Hwf _ _ _ Hy) as Hr.
    assert (∀ x l', devices b !! x = Some (l', d) → x ≤ addr < x + l' → x = y) as Huniq.
    { intros x' l' Hx' Hxr. specialize (Hmax _ _ Hx' ltac:(lia)).
      destruct (Z.lt_total x' y) as [Hlt|[->|Hlt]]; [|done|lia].
      pose proof (wf_disjoint b Hwf _ _ _ _ _ _ Hx' Hy Hlt). lia. }
    destruct (alive e) eqn:Ha; simpl.
    + unfold u64_sub, in_u64 in *. rewrite u64_wrap_small by (unfold in_u64; lia).
      destruct (Z.ltb_spec (addr - y) l).
      * split; [intros [= <- <- <-]; split_and!; [exists l; split; [done|lia]|done..]|].
        intros ((l' & Hx & Hxr) & -> & Hd). pose proof (Huniq x l' Hx Hxr) as ->. by simplify_eq.
      * split; [done|]. intros ((l' & Hx & Hxr) & -> & Hd).
        pose proof (Huniq x l' Hx Hxr) as ->. simplify_eq. lia.
    + split; [done|]. intros ((l' & Hx & Hxr) & _ & Hd).
      pose proof (Huniq x l' Hx Hxr) as ->. congruence.
  - split; [done|]. intros ((l & Hx & Hxr) & _ & _). exfalso.
    apply last_None in E. apply (elem_of_nil (x, (l, d))). rewrite <-E.
    apply list_elem_of_filter. rewrite elem_of_zmap_iter. simpl. split; [lia|done].
Qed.

Lemma existsb_overlaps b x l :
  wf b → 0 ≤ x → 0 < l → x + l ≤ u64_max →
  existsb (λ p, overlaps {| base := p.1; len := p.2.1 |} x l) (zmap_iter (devices b)) = false
  ↔ clear b x l.
Proof.
  intros Hwf Hx Hl Hmax. rewrite <-not_true_iff_false, existsb_exists. unfold clear. split.
  - intros Hno x' l' d Hin. pose proof (wf_range b Hwf _ _ _ Hin).
    destruct (Z.leb_spec (x' + l') x); [by left|]. destruct (Z.leb_spec (x + l) x'); [by right|].
    exfalso. apply Hno. exists (x', (l', d)).
    split; [by apply list_elem_of_In, elem_of_zmap_iter|].
    unfold overlaps, u64_add. simpl. rewrite !u64_wrap_small by (unfold in_u64; lia).
    rewrite andb_true_iff, !Z.ltb_lt. lia.
  - intros Hcl ([x' [l' d]] & Hin%list_elem_of_In%elem_of_zmap_iter & Ho).
    pose proof (wf_range b Hwf _ _ _ Hin). specialize (Hcl _ _ _ Hin).
    unfold overlaps, u64_add in Ho. simpl in Ho.
    rewrite !u64_wrap_small in Ho by (unfold in_u64; lia).
    rewrite andb_true_iff, !Z.ltb_lt in Ho. lia.
Qed.
End Facts.

Lemma insert_clear b d x l :
  wf b → 0 ≤ x → 0 < l → x + l ≤ u64_max → clear b x l →
  insert d x l b = ({| devices := <[x := (l, d)]> (devices b) |}, Ok tt) ∧
  devices b !! x = None.
Proof.
  intros Hwf Hx Hl Hmax Hc. unfold insert.
  assert (devices b !! x = None) as Hfresh.
  { destruct (devices b !! x) as [[l' d']|] eqn:E; [|done].
    pose proof (wf_range b Hwf _ _ _ E). destruct (Hc _ _ _ E); lia. }
  destruct (Z.eqb_spec l 0); [lia|].
  rewrite (proj2 (existsb_overlaps b x l Hwf Hx Hl Hmax) Hc). by rewrite Hfresh.
Qed.

Lemma insert_not_clear b d x l :
  wf b → 0 ≤ x → 0 < l → x + l ≤ u64_max → ¬ clear b x l → insert d x l b = (b, Err Overlap).
Proof.
  intros Hwf Hx Hl Hmax Hc. unfold insert. destruct (Z.eqb_spec l 0); [lia|].
  destruct (existsb _ _) eqn:E; [done|]. by apply existsb_overlaps in E.
Qed.

Lemma wf_insert b d x l :
  wf b → 0 ≤ x → 0 < l → x + l ≤ u64_max → clear b x l →
  wf {| devices := <[x := (l, d)]> (devices b) |}.
Proof.
  intros Hwf Hx Hl Hmax Hc. constructor; simpl.
  - intros y m e [[-> [= -> ->]]|[_ Hy]]%lookup_insert_Some; [lia|].
    by apply (wf_range b Hwf y m e).
  - intros y m e y' m' e' [[-> [= -> ->]]|[? Hy]]%lookup_insert_Some
      [[-> [= -> ->]]|[? Hy']]%lookup_insert_Some Hlt; [lia| | |].
    + pose proof (wf_range b Hwf _ _ _ Hy'). destruct (Hc _ _ _ Hy'); lia.
    + destruct (Hc _ _ _ Hy); lia.
    + by eapply (wf_disjoint b Hwf).
Qed.

Lemma wf_subset b m : wf b → m ⊆ devices b → wf {| devices := m |}.
Proof.
  intros Hwf Hsub. constructor; simpl.
  - intros x l d Hx. eapply (wf_range b Hwf), lookup_weaken; done.
  - intros x l d x' l' d' Hx Hx'. eapply (wf_disjoint b Hwf); by eapply lookup_weaken.
Qed.

Lemma foldl_delete_lookup {V} (ks : list Z) (m : gmap Z V) x :
  foldl (λ m k, delete k m) m ks !! x = if decide (x ∈ ks) then None else m !! x.
Proof.
  revert m. induction ks as [|k ks IH]; intros m; simpl; [done|]. rewrite IH.
  destruct (decide (x = k)) as [->|Hne].
  - rewrite lookup_delete_eq. destruct (decide (k ∈ k :: ks)); [by case_decide|set_solver].
  - rewrite lookup_delete_ne by done. repeat case_decide; set_solver.
Qed.

Lemma only_device_set {D A} d (st : Device → D) s' (r : A) :
  only_device d st (s', r) (λ x, if x =? d then s' else st x, Ok r).
Proof.
  split_and!; [done|simpl; by rewrite Z.eqb_refl|]. intros e Hne. simpl. by destruct (Z.eqb_spec e d).
Qed.

(** ** Properties *)

Section Theorems.
Context (alive : Device → bool) `{BusDevice D Barrier}.

(** C25: on a bus whose ranges are not empty, end below 2^64 and are disjoint, a read and
    a write alike reach the one device whose range contains the address, with the base
    of the range and the offset into it, return what that device returns and change
    no other device; an address without a live owner is reported and changes nothing. *)
Theorem access_reaches_owner b st addr data :
  wf b → in_u64 addr →
  (∀ x d, owns b addr x d → alive d = true →
     only_device d st (device_read (st d) x (addr - x) data) (read alive b addr data st) ∧
     only_device d st (device_write (st d) x (addr - x) data) (write alive b addr data st)) ∧
  ((∀ x d, owns b addr x d → alive d = false) →
     read alive b addr data st = (st, Err MissingAddressRange) ∧
     write alive b addr data st = (st, Err MissingAddressRange)).
Proof.
  intros Hwf Ha. split.
  - intros x d Ho Hd. unfold read, write.
    rewrite (proj2 (resolve_iff alive b addr x (addr - x) d Hwf Ha)) by done.
    destruct (device_read _ _ _ _), (device_write _ _ _ _). split; apply only_device_set.
  - intros Hno. unfold read, write. destruct (resolve alive addr b) as [[[x off] d]|] eqn:E; [|done].
    apply resolve_iff in E as (Ho & _ & Hd); [|done..]. by rewrite (Hno _ _ Ho) in Hd.
Qed.

(** Inserting a range that ends in the address space succeeds exactly when it is not
    empty and meets no other range; then the bus stays well formed and routes the
    addresses of the range to the device and all others as before; otherwise the
    bus does not change. *)
Theorem insert_spec b d x l :
  wf b → 0 ≤ x → 0 ≤ l → x + l ≤ u64_max →
  match insert d x l b with
  | (b', Ok _) =>
      0 < l ∧ clear b x l ∧ wf b' ∧
      ∀ addr y e, owns b' addr y e ↔
        (y = x ∧ e = d ∧ x ≤ addr < x + l) ∨ owns b addr y e
  | (b', Err ZeroSizedRange) => b' = b ∧ l = 0
  | (b', Err _) => b' = b ∧ ¬ clear b x l
  end.
Proof.
  intros Hwf Hx Hl Hmax. destruct (Z.eq_dec l 0) as [->|Hne]; [done|].
  destruct (decide (existsb (λ p, overlaps {| base := p.1; len := p.2.1 |} x l)
    (zmap_iter (devices b)) = false)) as [Hc|Hc]; rewrite existsb_overlaps in Hc by (done || lia).
  - destruct (insert_clear b d x l) as [-> Hfresh]; [done|lia..|done|].
    split_and!; [lia|done|apply wf_insert; done || lia|].
    intros addr y e. unfold owns. simpl. split.
    + intros (m & [[-> [= -> ->]]|[? Hy]]%lookup_insert_Some & Hr); [by left|]. right. eauto.
    + intros [(-> & -> & Hr)|(m & Hy & Hr)].
      * exists l. by rewrite lookup_insert_eq.
      * exists m. rewrite lookup_insert_ne by congruence. done.
  - rewrite insert_not_clear by (done || lia). done.
Qed.

(** C26: what an allocator hands out fits on a bus of allocated ranges: when the bus and
    the allocator are well formed, every range of the bus is allocated, and rounding up
    the end of the allocator's space to the alignment does not overflow 64 bits, a new
    allocation can be inserted, the bus routes all its addresses to the device, and
    again every range of the bus is allocated. *)
Theorem allocated_range_inserts `{GuestAddressLaws} b a address size align_size a' x d :
  wf b → VmAllocator.wf a → covered b a →
  proper_call a (Allocate address size align_size) →
  Address.allocate address size align_size a = (a', Some x) →
  ∃ b', insert d x size b = (b', Ok tt) ∧ wf b' ∧ covered b' a' ∧
    ∀ addr, x ≤ addr < x + size → owns b' addr x d.
Proof.
  intros Hwf Hwfa Hcov Hc E.
  apply (allocate_fits a Hwfa) in E as (Hpos & _ & Hf & ->); [|done].
  pose proof (VmAllocator.wf_bounds a Hwfa). destruct Hf as (Hlo & Hhi & Hall).
  assert (clear b x size) as Hcl.
  { intros y l e Hy. destruct (Hcov _ _ _ Hy) as [Hy' _]. destruct (Hall _ _ Hy'); lia. }
  destruct (insert_clear b d x size) as [-> Hfresh]; [done|lia..|done|].
  eexists. split; [done|]. split_and!; [apply wf_insert; done || lia| |].
  - intros y l e. simpl. intros [[<- [= <- <-]]|[Hne Hy]]%lookup_insert_Some;
      unfold live; simpl.
    + rewrite lookup_insert_eq. split; [done|lia].
    + rewrite lookup_insert_ne by done. by apply (Hcov y l e).
  - intros addr Hr. exists size. simpl. by rewrite lookup_insert_eq.
Qed.

(** Removing a device removes its ranges and no others; with a dead device on
    the bus it panics. *)
Theorem remove_by_device_spec b d :
  match remove_by_device alive d b with
  | Some b' => ∀ x l e, devices b' !! x = Some (l, e) ↔ devices b !! x = Some (l, e) ∧ e ≠ d
  | None => ∃ x l e, devices b !! x = Some (l, e) ∧ alive e = false
  end.
Proof.
  unfold remove_by_device. destruct (forallb _ _) eqn:E.
  - intros x l e. simpl. rewrite foldl_delete_lookup. case_decide as Hin.
    + apply list_elem_of_fmap in Hin as ([y [l' d']] & -> & Hf). simpl.
      apply list_elem_of_filter in Hf as [Hd Hin]. apply elem_of_zmap_iter in Hin.
      simpl in *. naive_solver.
    + split; [|tauto]. intros Hx. split; [done|]. intros ->. apply Hin.
      apply list_elem_of_fmap. exists (x, (l, d)). split; [done|].
      apply list_elem_of_filter. split; [done|]. by apply elem_of_zmap_iter.
  - apply not_true_iff_false in E. rewrite forallb_forall in E.
    destruct (decide (Exists (λ p : Z * (Z * Device), alive p.2.2 = false)
      (zmap_iter (devices b)))) as [Hex|Hex].
    + apply Exists_exists in Hex as ([x [l e]] & Hin & Ha).
      exists x, l, e. by rewrite <-elem_of_zmap_iter.
    + exfalso. apply E. intros p Hp. apply list_elem_of_In in Hp.
      destruct (alive p.2.2) eqn:Ha; [done|]. exfalso. apply Hex, Exists_exists. eauto.
Qed.

(** An update whose new range meets another device's fails and leaves the device
    without a range. *)
Theorem failed_update_loses_device b x l d y m :
  wf b → devices b !! x = Some (l, d) → alive d = true →
  0 ≤ y → 0 < m → y + m ≤ u64_max →
  ¬ clear {| devices := delete x (devices b) |} y m →
  update_range alive x l y m b = ({| devices := delete x (devices b) |}, Err Overlap).
Proof.
  intros Hwf Hx Hd Hy Hm Hmax Hc. pose proof (wf_range b Hwf _ _ _ Hx) as Hr.
  unfold update_range.
  rewrite (proj2 (resolve_iff alive b x x (x - x) d Hwf ltac:(unfold in_u64; lia)));
    [|split_and!; try done; exists l; split; [done|lia]].
  unfold remove. destruct (Z.eqb_spec l 0); [lia|]. rewrite Hx.
  apply insert_not_clear; try done. apply (wf_subset b); [done|]. apply delete_subseteq.
Qed.

End Theorems.

(** When the end of the new range wraps around, the overlap is not seen and the range is
    given to the new device, although the call reports [Overlap]. *)
Theorem wrapped_insert_replaces :
  ∃ b, insert 1 0x1000 0x10 new = (b, Ok tt) ∧
    (insert 2 0x1000 (2 ^ 64 - 0x1000) b).2 = Err Overlap ∧
    devices (insert 2 0x1000 (2 ^ 64 - 0x1000) b).1 !! 0x1000 = Some (0x10, 2).
Proof.
  exists {| devices := <[0x1000 := (0x10, 1)]> ∅ |}. split_and!; vm_compute; reflexivity.
Qed.

(** ** The theorems at a concrete bus *)

Lemma example_bus_wf : wf example_bus.
Proof.
  split; unfold example_bus; cbn [devices].
  - intros x l d [[<- [= <- <-]]|[_ ?]]%lookup_insert_Some; [unfold u64_max; lia|done].
  - intros x l d x' l' d' [[<- [= <- <-]]|[_ ?]]%lookup_insert_Some; [|done].
    intros [[<- [= <- <-]]|[_ ?]]%lookup_insert_Some; [lia|done].
Qed.

Lemma access_reaches_owner_witness :
  (read (λ _, true) example_bus 0x1010 [0; 0] (λ _, 5)).2 = Ok [0x10; 0x11] ∧
  (write (λ _, true) example_bus 0x1010 [0; 0] (λ _, 5)).1 7 = 0x1000 + 0x10 + 5.
Proof.
  destruct (access_reaches_owner (λ _, true) example_bus (λ _, 5) 0x1010 [0; 0] example_bus_wf)
    as [Hown _]; [by split|].
  destruct (Hown 0x1000 7) as [(E & _) (_ & E' & _)]; [exists 0x100; split; [reflexivity|lia]|done|].
  split; [etransitivity; [exact E|]|etransitivity; [exact E'|]]; reflexivity.
Defined.


Lemma allocated_range_inserts_witness :
  ∃ b', insert 9 0x10800 0x800 new = (b', Ok tt) ∧ wf b'.
Proof.
  destruct (allocated_range_inserts new example_allocator None 0x800 None (Address.allocate None 0x800 None example_allocator).1 0x10800 9) as (b' & E & Hwf & _).
  - split; done.
  - apply example_allocator_wf.
  - done.
  - repeat split; try (by intros); vm_compute; discriminate.
  - reflexivity.
  - by exists b'.
Defined.
