(* ===== verification/IoLimiter.v ===== *)
(** * The I/O rate limiter of the virtual machine monitor

    form-vmm/rate_limiter: token buckets and the limiter built of two of them (lib.rs),
    and the group that shares a limiter between devices (group.rs).  Times are
    nanoseconds; every reading of the clock is an argument.  The timer is the
    duration it was last armed with, and what [TimerFd::wait] answers is an
    argument of the event handler. *)

From S2P Require Import Prelude Words Float64.
From stdpp Require Import options.
Local Open Scope Z_scope.

(** ** Euclid's algorithm *)

(** The loop of [gcd], with fuel. *)
Fixpoint gcd_loop (fuel : nat) (x y : Z) : Z :=
  match fuel with
  | O => x
  | S fuel => if y =? 0 then x else gcd_loop fuel y (x `mod` y)
  end.

(** Each iteration but the first takes a bit off the sum of the lengths. *)
Definition gcd_fuel (x y : Z) : nat := 3 + Z.to_nat (Z.log2 x + Z.log2 y).

Definition gcd (x y : Z) : Z := gcd_loop (gcd_fuel x y) x y.

(** ** Token buckets *)

Definition REFILL_TIMER_INTERVAL_MS : Z := 100.
Definition NANOSEC_IN_ONE_MILLISEC : Z := 1000000.

Inductive BucketReduction :=
| Failure
| Success
| OverConsumption (ratio : f64).

Record TokenBucket := {
  size : Z;
  one_time_burst : Z;
  refill_time : Z;
  budget : Z;
  last_update : Z;
  processed_capacity : Z;
  processed_refill_time : Z;
}.

Definition new_bucket (now size one_time_burst complete_refill_time_ms : Z)
    : option TokenBucket :=
  if (size =? 0) || (complete_refill_time_ms =? 0) then None
  else
    let complete_refill_time_ns := u64_mul complete_refill_time_ms NANOSEC_IN_ONE_MILLISEC in
    let common_factor := gcd size complete_refill_time_ns in
    Some {| size := size; one_time_burst := one_time_burst;
            refill_time := complete_refill_time_ms;
            budget := size; last_update := now;
            processed_capacity := size `div` common_factor;
            processed_refill_time := complete_refill_time_ns `div` common_factor |}.

Definition with_state (b : TokenBucket) (burst budget last : Z) : TokenBucket :=
  {| size := size b; one_time_burst := burst; refill_time := refill_time b;
     budget := budget; last_update := last;
     processed_capacity := processed_capacity b;
     processed_refill_time := processed_refill_time b |}.

(** [Instant::elapsed], zero when the clock went back, and [as_nanos() as u64]. *)
Definition elapsed (now last : Z) : Z := u64_wrap (Z.max 0 (now - last)).

(** The budget after the refill of [time_delta] nanoseconds. *)
Definition refill (b : TokenBucket) (time_delta : Z) : Z :=
  let budget :=
    u64_add (budget b)
      (u64_mul time_delta (processed_capacity b) `div` processed_refill_time b) in
  if size b <=? budget then size b else budget.

(** [now] is the first reading of the clock of a call, [now'] the second. *)
Definition reduce (now now' tokens : Z) (b : TokenBucket) : TokenBucket * BucketReduction :=
  if (0 <? one_time_burst b) && (tokens <=? one_time_burst b) then
    (with_state b (one_time_burst b - tokens) (budget b) now, Success)
  else
    let tokens := if 0 <? one_time_burst b then tokens - one_time_burst b else tokens in
    let budget := refill b (elapsed now (last_update b)) in
    if budget <? tokens then
      if size b <? tokens then
        (with_state b 0 0 now',
         OverConsumption (f64_div (f64_of_Z (tokens - budget)) (f64_of_Z (size b))))
      else (with_state b 0 budget now', Failure)
    else (with_state b 0 (budget - tokens) now', Success).

Definition replenish (tokens : Z) (b : TokenBucket) : TokenBucket :=
  if 0 <? one_time_burst b then
    with_state b (u64_add (one_time_burst b) tokens) (budget b) (last_update b)
  else
    with_state b (one_time_burst b) (Z.min (u64_add (budget b) tokens) (size b)) (last_update b).

(** ** The limiter *)

Inductive TokenType := Bytes | Ops.

Inductive BucketUpdate := NoUpdate | Disabled | Update (b : TokenBucket).

Inductive Error := SpuriousRateLimiterEvent | TimerFdWaitError.

(** [timer_fd] is the duration in milliseconds of the armed timer. *)
Record RateLimiter := {
  bandwidth : option TokenBucket;
  ops : option TokenBucket;
  timer_fd : option Z;
  timer_active : bool;
}.

(** [timer] says whether the timer could be created and made non-blocking. *)
Definition new (timer : bool) (now bytes_total_capacity bytes_one_time_burst
    bytes_complete_refill_time_ms ops_total_capacity ops_one_time_burst
    ops_complete_refill_time_ms : Z) : option RateLimiter :=
  let bytes_token_bucket :=
    new_bucket now bytes_total_capacity bytes_one_time_burst bytes_complete_refill_time_ms in
  let ops_token_bucket :=
    new_bucket now ops_total_capacity ops_one_time_burst ops_complete_refill_time_ms in
  if timer then
    Some {| bandwidth := bytes_token_bucket; ops := ops_token_bucket;
            timer_fd := None; timer_active := false |}
  else None.

Definition is_blocked (l : RateLimiter) : bool := timer_active l.

Definition activate_timer (dur : Z) (l : RateLimiter) : RateLimiter :=
  {| bandwidth := bandwidth l; ops := ops l; timer_fd := Some dur; timer_active := true |}.

Definition get_bucket (t : TokenType) (l : RateLimiter) : option TokenBucket :=
  match t with Bytes => bandwidth l | Ops => ops l end.

Definition set_bucket (t : TokenType) (b : option TokenBucket) (l : RateLimiter) : RateLimiter :=
  match t with
  | Bytes => {| bandwidth := b; ops := ops l; timer_fd := timer_fd l;
                timer_active := timer_active l |}
  | Ops => {| bandwidth := bandwidth l; ops := b; timer_fd := timer_fd l;
              timer_active := timer_active l |}
  end.

Definition consume (now now' tokens : Z) (token_type : TokenType) (l : RateLimiter)
    : RateLimiter * bool :=
  if is_blocked l then (l, false)
  else
    match get_bucket token_type l with
    | None => (l, true)
    | Some bucket =>
        let refill_time := refill_time bucket in
        let '(bucket, r) := reduce now now' tokens bucket in
        let l := set_bucket token_type (Some bucket) l in
        match r with
        | Failure =>
            (if negb (is_blocked l) then activate_timer REFILL_TIMER_INTERVAL_MS l else l, false)
        | Success => (l, true)
        | OverConsumption ratio =>
            (activate_timer (f64_as_u64 (f64_mul ratio (f64_of_Z refill_time))) l, true)
        end
    end.

Definition manual_replenish (tokens : Z) (token_type : TokenType) (l : RateLimiter)
    : RateLimiter :=
  match get_bucket token_type l with
  | None => l
  | Some bucket => set_bucket token_type (Some (replenish tokens bucket)) l
  end.

(** What [TimerFd::wait] answers on the non-blocking descriptor. *)
Inductive wait_result := Expired | Interrupted | WouldBlock | OtherError.

(** The loop waits until an answer is not [Interrupted]; [None] while it waits. *)
Fixpoint event_handler (answers : list wait_result) (l : RateLimiter)
    : option (RateLimiter * result unit Error) :=
  match answers with
  | [] => None
  | Interrupted :: answers => event_handler answers l
  | WouldBlock :: _ => Some (l, Err SpuriousRateLimiterEvent)
  | OtherError :: _ => Some (l, Err TimerFdWaitError)
  | Expired :: _ =>
      Some ({| bandwidth := bandwidth l; ops := ops l; timer_fd := timer_fd l;
               timer_active := false |}, Ok tt)
  end.

Definition update_bucket (t : TokenType) (u : BucketUpdate) (l : RateLimiter) : RateLimiter :=
  match u with
  | Disabled => set_bucket t None l
  | Update tb => set_bucket t (Some tb) l
  | NoUpdate => l
  end.

Definition update_buckets (bytes ops : BucketUpdate) (l : RateLimiter) : RateLimiter :=
  update_bucket Ops ops (update_bucket Bytes bytes l).

(** ** The group *)

Record RateLimiterGroup := {
  rate_limiter : RateLimiter;
  handles : list Z;
}.

Inductive EpollDispatch := Kill | Unblocked | Unknown.

Definition dispatch_of (v : Z) : EpollDispatch :=
  if v =? 1 then Kill else if v =? 2 then Unblocked else Unknown.

Definition new_handle (eventfd : Z) (g : RateLimiterGroup) : RateLimiterGroup :=
  {| rate_limiter := rate_limiter g; handles := handles g ++ [eventfd] |}.

(** Dropping a handle; [None] when [expect] panics. *)
Definition drop_handle (eventfd : Z) (g : RateLimiterGroup) : option RateLimiterGroup :=
  match list_find (λ h, h = eventfd) (handles g) with
  | Some (i, _) =>
      Some {| rate_limiter := rate_limiter g; handles := delete i (handles g) |}
  | None => None
  end.

(** How the thread goes on after the events of one wait: with the descriptors written to,
    stopped by a kill event, or stopped by a panic. *)
Inductive outcome :=
| Continues (writes : list Z)
| Stopped (writes : list Z)
| Panicked (writes : list Z).

(** The loop over the events of one [epoll::wait]; an event comes with the answers of
    the timer, and the event handler does not return while it is interrupted. *)
Fixpoint dispatch (events : list (Z * list wait_result)) (writes : list Z)
    (g : RateLimiterGroup) : option (RateLimiterGroup * outcome) :=
  match events with
  | [] => Some (g, Continues writes)
  | (data, answers) :: events =>
      match dispatch_of data with
      | Unknown => dispatch events writes g
      | Kill => Some (g, Stopped writes)
      | Unblocked =>
          match event_handler answers (rate_limiter g) with
          | None => None
          | Some (l, Err _) =>
              Some ({| rate_limiter := l; handles := handles g |}, Panicked writes)
          | Some (l, Ok _) =>
              dispatch events (writes ++ handles g)
                {| rate_limiter := l; handles := handles g |}
          end
      end
  end.

(** ** What a bucket promises *)

Record bucket_wf (b : TokenBucket) : Prop := {
  wf_size : 0 < size b ≤ u64_max;
  wf_burst : 0 ≤ one_time_burst b ≤ u64_max;
  wf_budget : 0 ≤ budget b ≤ size b;
  wf_rate : 0 < processed_capacity b ≤ u64_max ∧ 0 < processed_refill_time b ≤ u64_max;
}.

(** A request: the two readings of the clock and the tokens. *)
Notation request := (Z * Z * Z)%type.

(** The readings of the clock do not decrease. *)
Fixpoint in_order (last : Z) (rs : list request) : Prop :=
  match rs with
  | [] => True
  | (now, now', _) :: rs => last ≤ now ≤ now' ∧ in_order now' rs
  end.

(** The requests one after another: the bucket and the tokens granted. *)
Fixpoint serve (rs : list request) (b : TokenBucket) : TokenBucket * Z :=
  match rs with
  | [] => (b, 0)
  | (now, now', tokens) :: rs =>
      let '(b', r) := reduce now now' tokens b in
      let '(b'', granted) := serve rs b' in
      (b'', match r with Failure => 0 | _ => tokens end + granted)
  end.

(** The time of the last reading. *)
Definition end_time (last : Z) (rs : list request) : Z :=
  match list.last rs with Some (_, now', _) => now' | None => last end.

(** A request retried at the given times until it succeeds: the number of failures. *)
Fixpoint retry (tokens : Z) (times : list Z) (b : TokenBucket) : TokenBucket * option nat :=
  match times with
  | [] => (b, None)
  | now :: times =>
      match reduce now now tokens b with
      | (b', Failure) => let '(b'', r) := retry tokens times b' in (b'', S <$> r)
      | (b', _) => (b', Some 0%nat)
      end
  end.

(** Consecutive times are separated by at least [lo] and at most [hi]. *)
Fixpoint spaced (lo hi last : Z) (times : list Z) : Prop :=
  match times with
  | [] => True
  | now :: times => lo ≤ now - last ≤ hi ∧ spaced lo hi now times
  end.

(** A bucket of 1000 tokens refilled in 100 ms, and one of 5 tokens per second. *)
Definition example_bucket : TokenBucket :=
  {| size := 1000; one_time_burst := 0; refill_time := 100; budget := 0; last_update := 0;
     processed_capacity := 1; processed_refill_time := 100000 |}.
Definition slow_bucket : TokenBucket :=
  {| size := 5; one_time_burst := 0; refill_time := 1000; budget := 0; last_update := 0;
     processed_capacity := 1; processed_refill_time := 200000000 |}.

(** ** Lemmas on the greatest common divisor *)

Lemma mod_le_half x y : 0 < y ≤ x → 2 * (x `mod` y) < x.
Proof.
  intros Hy. pose proof (Z.div_mod x y ltac:(lia)). pose proof (Z.mod_pos_bound x y ltac:(lia)).
  assert (1 ≤ x `div` y) by (apply Z.div_le_lower_bound; lia). nia.
Qed.

Lemma gcd_loop_ordered fuel x y :
  0 ≤ y ≤ x → (Z.to_nat (Z.log2 x + Z.log2 y) + 2 ≤ fuel)%nat → gcd_loop fuel x y = Z.gcd x y.
Proof.
  revert x y. induction fuel as [|fuel IH]; intros x y Hxy Hf; [lia|]. simpl.
  destruct (Z.eqb_spec y 0) as [->|Hy]; [rewrite Z.gcd_0_r; lia|].
  pose proof (Z.mod_pos_bound x y ltac:(lia)) as Hm.
  rewrite (Z.gcd_comm x y). rewrite <-Z.gcd_mod, Z.gcd_comm by done.
  pose proof (Z.log2_nonneg x). pose proof (Z.log2_nonneg y).
  destruct (Z.eq_dec (x `mod` y) 0) as [E|E].
  { rewrite E. destruct fuel; [lia|]. simpl. rewrite Z.gcd_0_r. lia. }
  apply IH; [lia|]. pose proof (mod_le_half x y ltac:(lia)).
  assert (Z.log2 (x `mod` y) < Z.log2 x).
  { apply Z.log2_lt_pow2; [lia|]. pose proof (Z.log2_spec x ltac:(lia)) as Hs.
    rewrite Z.pow_succ_r in Hs by lia. lia. }
  pose proof (Z.log2_nonneg (x `mod` y)). lia.
Qed.

(** The loop ends within its fuel with the greatest common divisor. *)
Lemma gcd_correct x y : 0 ≤ x → 0 ≤ y → gcd x y = Z.gcd x y.
Proof.
  intros Hx Hy. unfold gcd, gcd_fuel. simpl.
  destruct (Z.eqb_spec y 0) as [->|Hy0]; [rewrite Z.gcd_0_r; lia|].
  pose proof (Z.mod_pos_bound x y ltac:(lia)). pose proof (Z.log2_nonneg x).
  pose proof (Z.mod_le x y Hx ltac:(lia)) as Hle. apply Z.log2_le_mono in Hle.
  change (gcd_loop (S (S (Z.to_nat (Z.log2 x + Z.log2 y)))) y (x `mod` y) = Z.gcd x y).
  pose proof (Z.log2_nonneg (x `mod` y)). pose proof (Z.log2_nonneg y).
  rewrite gcd_loop_ordered by lia. rewrite Z.gcd_comm, Z.gcd_mod by done. apply Z.gcd_comm.
Qed.

(** ** Lemmas on buckets *)

Lemma u64_wrap_le z : 0 ≤ z → 0 ≤ u64_wrap z ≤ z.
Proof. intros Hz. unfold u64_wrap. pose proof (Z.mod_le z (2 ^ 64) Hz ltac:(lia)).
  pose proof (Z.mod_pos_bound z (2 ^ 64) ltac:(lia)). lia. Qed.

Lemma elapsed_range now last : last ≤ now → 0 ≤ elapsed now last ≤ now - last.
Proof. intros Hle. unfold elapsed. pose proof (u64_wrap_le (Z.max 0 (now - last))). lia. Qed.

(** A refill adds at most the tokens of the time, whether or not it wraps. *)
Lemma refill_bound b dt :
  bucket_wf b → 0 ≤ dt →
  0 ≤ refill b dt ≤ size b ∧
  refill b dt * processed_refill_time b ≤
    budget b * processed_refill_time b + dt * processed_capacity b.
Proof.
  intros Hwf Hdt. destruct (wf_rate b Hwf) as [Hc Hr]. pose proof (wf_budget b Hwf) as Hb.
  pose proof (wf_size b Hwf) as Hs.
  unfold refill, u64_mul, u64_add.
  pose proof (u64_wrap_le (dt * processed_capacity b) ltac:(nia)) as Hw.
  set (w := u64_wrap (dt * processed_capacity b)) in *.
  assert (0 ≤ w `div` processed_refill_time b) as Hq by (apply Z.div_pos; lia).
  pose proof (Z.mul_div_le w (processed_refill_time b) ltac:(lia)) as Hm.
  pose proof (u64_wrap_le (budget b + w `div` processed_refill_time b) ltac:(lia)) as Hv.
  set (q := w `div` processed_refill_time b) in *. set (v := u64_wrap (budget b + q)) in *.
  assert (v * processed_refill_time b ≤ (budget b + q) * processed_refill_time b)
    by (apply Z.mul_le_mono_nonneg_r; lia).
  destruct (Z.leb_spec (size b) v); split; [lia| |lia|lia].
  assert (size b * processed_refill_time b ≤ v * processed_refill_time b)
    by (apply Z.mul_le_mono_nonneg_r; lia). lia.
Qed.

(** A refill that does not overflow adds the tokens of the time, rounded down, up to the
    size. *)
Lemma refill_exact b dt :
  bucket_wf b → 0 ≤ dt → dt * processed_capacity b ≤ u64_max →
  size b + (dt * processed_capacity b) `div` processed_refill_time b ≤ u64_max →
  refill b dt =
  Z.min (size b) (budget b + (dt * processed_capacity b) `div` processed_refill_time b).
Proof.
  intros Hwf Hdt Hmax Hmax'. destruct (wf_rate b Hwf) as [Hc Hr].
  pose proof (wf_budget b Hwf). unfold refill, u64_mul, u64_add.
  rewrite (u64_wrap_small (dt * processed_capacity b)) by (unfold in_u64; nia).
  assert (0 ≤ (dt * processed_capacity b) `div` processed_refill_time b)
    by (apply Z.div_pos; nia).
  rewrite u64_wrap_small by (unfold in_u64; lia).
  destruct (Z.leb_spec (size b) (budget b +
    (dt * processed_capacity b) `div` processed_refill_time b)); lia.
Qed.

Lemma reduce_static now now' n b :
  size (reduce now now' n b).1 = size b ∧
  processed_capacity (reduce now now' n b).1 = processed_capacity b ∧
  processed_refill_time (reduce now now' n b).1 = processed_refill_time b.
Proof. unfold reduce. repeat case_match; simplify_eq/=; done. Qed.

Lemma reduce_wf now now' n b :
  bucket_wf b → 0 ≤ n → last_update b ≤ now → bucket_wf (reduce now now' n b).1.
Proof.
  intros Hwf Hn Hle. destruct (reduce_static now now' n b) as (Es & Ec & Er).
  pose proof (elapsed_range now (last_update b) Hle) as He.
  pose proof (refill_bound b (elapsed now (last_update b)) Hwf ltac:(lia)) as [Hrb _].
  pose proof (wf_burst b Hwf). pose proof (wf_budget b Hwf). pose proof (wf_size b Hwf).
  constructor; rewrite ?Es, ?Ec, ?Er; [done| | |apply (wf_rate b Hwf)];
    unfold reduce; repeat case_match; simplify_eq/=; bool_to_prop; lia.
Qed.

(** What one request costs: what is granted is paid by the burst, the budget or the
    time. *)
Lemma reduce_cost now now' n b :
  bucket_wf b → 0 ≤ n ≤ size b → last_update b ≤ now ≤ now' →
  let '(b', r) := reduce now now' n b in
  let granted := match r with Failure => 0 | _ => n end in
  last_update b ≤ last_update b' ≤ now' ∧
  (granted + one_time_burst b' + budget b') * processed_refill_time b +
    last_update b * processed_capacity b ≤
  (one_time_burst b + budget b) * processed_refill_time b +
    last_update b' * processed_capacity b.
Proof.
  intros Hwf Hn Ht. destruct (wf_rate b Hwf) as [Hc Hr].
  pose proof (elapsed_range now (last_update b) ltac:(lia)) as He.
  pose proof (refill_bound b (elapsed now (last_update b)) Hwf ltac:(lia)) as [Hrb Hcost].
  set (f := refill b (elapsed now (last_update b))) in *.
  pose proof (wf_burst b Hwf). unfold reduce. fold f.
  assert (elapsed now (last_update b) * processed_capacity b ≤
    (now' - last_update b) * processed_capacity b) by (apply Z.mul_le_mono_nonneg_r; lia).
  repeat case_match; simplify_eq/=; bool_to_prop; split; try lia; nia.
Qed.

Lemma end_time_cons last now now' n (rs : list request) :
  end_time last ((now, now', n) :: rs) = end_time now' rs.
Proof. unfold end_time. rewrite last_cons. destruct (list.last rs) as [[[? ?] ?]|]; done. Qed.

Lemma in_order_weaken last last' rs : last' ≤ last → in_order last rs → in_order last' rs.
Proof. destruct rs as [|[[now now'] n] rs]; simpl; [done|]. intros ? [? ?]. split; [lia|done]. Qed.

Lemma end_time_ge last rs : in_order last rs → last ≤ end_time last rs.
Proof.
  revert last. induction rs as [|[[now now'] n] rs IH]; intros last; [unfold end_time; simpl; lia|].
  simpl. intros [Ht Ho]. rewrite end_time_cons. specialize (IH now' Ho). lia.
Qed.

Lemma serve_cost rs b now :
  bucket_wf b → Forall (λ r, 0 ≤ r.2 ≤ size b) rs → last_update b ≤ now → in_order now rs →
  (serve rs b).2 * processed_refill_time b ≤
  (one_time_burst b + budget b) * processed_refill_time b +
    (end_time now rs - last_update b) * processed_capacity b.
Proof.
  revert b now. induction rs as [|[[t t'] n] rs IH]; intros b now Hwf Hall Hle Ho.
  { pose proof (wf_burst b Hwf). pose proof (wf_budget b Hwf).
    destruct (wf_rate b Hwf). unfold end_time. simpl. nia. }
  apply Forall_cons in Hall as [Hn Hall]. destruct Ho as [Ht Ho]. simpl in Hn.
  pose proof (reduce_cost t t' n b Hwf Hn ltac:(lia)) as Hc.
  pose proof (reduce_wf t t' n b Hwf ltac:(lia) ltac:(lia)) as Hwf'.
  destruct (reduce_static t t' n b) as (Es & Ec & Er).
  rewrite end_time_cons. simpl. destruct (reduce t t' n b) as [b' r]. simpl in *.
  destruct Hc as [Hl Hc]. rewrite <-Es in Hall.
  specialize (IH b' t' Hwf' Hall ltac:(lia) Ho). rewrite Ec, Er in IH.
  destruct (serve rs b') as [b'' granted]. simpl in *. lia.
Qed.

Lemma new_bucket_wf now n burst ms b :
  in_u64 n → in_u64 burst → 0 ≤ ms → ms * NANOSEC_IN_ONE_MILLISEC ≤ u64_max →
  new_bucket now n burst ms = Some b →
  bucket_wf b ∧ size b = n ∧ one_time_burst b = burst ∧ budget b = n ∧ last_update b = now ∧
  processed_capacity b * Z.gcd n (ms * NANOSEC_IN_ONE_MILLISEC) = n ∧
  processed_refill_time b * Z.gcd n (ms * NANOSEC_IN_ONE_MILLISEC) =
    ms * NANOSEC_IN_ONE_MILLISEC.
Proof.
  unfold new_bucket, in_u64. intros Hn Hburst Hms Hmax.
  destruct (Z.eqb_spec n 0) as [|Hn0]; [done|]. destruct (Z.eqb_spec ms 0) as [|Hms0]; [done|].
  simpl. intros [= <-]. simpl.
  assert (u64_mul ms NANOSEC_IN_ONE_MILLISEC = ms * NANOSEC_IN_ONE_MILLISEC) as ->
    by (apply u64_wrap_small; unfold in_u64, NANOSEC_IN_ONE_MILLISEC in *; lia).
  rewrite gcd_correct by (unfold NANOSEC_IN_ONE_MILLISEC; lia).
  set (ns := ms * NANOSEC_IN_ONE_MILLISEC) in *.
  assert (0 < ns) by (unfold ns, NANOSEC_IN_ONE_MILLISEC; lia).
  pose proof (Z.gcd_nonneg n ns). assert (Z.gcd n ns ≠ 0) by (intros E%Z.gcd_eq_0_l; lia).
  destruct (Z.gcd_divide_l n ns) as [p Hp]. destruct (Z.gcd_divide_r n ns) as [q Hq].
  set (g := Z.gcd n ns) in *.
  assert (n `div` g = p) as -> by (rewrite Hp; apply Z.div_mul; lia).
  assert (ns `div` g = q) as -> by (rewrite Hq; apply Z.div_mul; lia).
  split; [constructor; simpl; [lia..|nia]|]. split_and!; lia.
Qed.

(** ** Properties *)

(** C27: a token bucket never grants more than the initial burst, its size, and the tokens
    that its rate yields in the time that passed, however the requests are spread
    and also when the refill overflows.  Each request is at most the size of the
    bucket. *)
Theorem bucket_rate_bound now n burst ms b rs :
  in_u64 n → in_u64 burst → 0 ≤ ms → ms * NANOSEC_IN_ONE_MILLISEC ≤ u64_max →
  new_bucket now n burst ms = Some b →
  Forall (λ r, 0 ≤ r.2 ≤ n) rs → in_order now rs →
  (serve rs b).2 * (ms * NANOSEC_IN_ONE_MILLISEC) ≤
  (burst + n) * (ms * NANOSEC_IN_ONE_MILLISEC) + (end_time now rs - now) * n.
Proof.
  intros Hn Hburst Hms Hmax Hnew Hall Ho.
  apply new_bucket_wf in Hnew as (Hwf & Es & Eb & Ebu & El & Ec & Er); try done.
  rewrite <-Es in Hall. rewrite <-El in Ho.
  pose proof (serve_cost rs b (last_update b) Hwf Hall ltac:(lia) Ho) as Hc.
  rewrite El, Eb, Ebu in Hc.
  set (g := Z.gcd n (ms * NANOSEC_IN_ONE_MILLISEC)) in *.
  assert (0 ≤ g) by apply Z.gcd_nonneg. rewrite <-Er.
  replace ((end_time now rs - now) * n)
    with ((end_time now rs - now) * (processed_capacity b * g)) by (by rewrite Ec).
  apply (Z.mul_le_mono_nonneg_r _ _ g) in Hc; [|done]. lia.
Qed.

(** Without a burst, a retry at time [now] of a request that fails adds the tokens of
    the time since the last update. *)
Lemma reduce_no_burst now n b :
  one_time_burst b = 0 → n ≤ size b →
  reduce now now n b =
  let f := refill b (elapsed now (last_update b)) in
  if f <? n then (with_state b 0 f now, Failure) else (with_state b 0 (f - n) now, Success).
Proof.
  intros Hb Hn. unfold reduce. rewrite Hb. simpl.
  destruct (_ <? n) eqn:E; [|done]. destruct (Z.ltb_spec (size b) n); [lia|done].
Qed.

Lemma retry_granted_gen times n b d :
  bucket_wf b → one_time_burst b = 0 → 0 < n ≤ size b →
  processed_refill_time b ≤ NANOSEC_IN_ONE_MILLISEC * REFILL_TIMER_INTERVAL_MS * processed_capacity b →
  d * processed_capacity b ≤ u64_max → size b + d * processed_capacity b ≤ u64_max →
  spaced (NANOSEC_IN_ONE_MILLISEC * REFILL_TIMER_INTERVAL_MS) d (last_update b) times →
  n - budget b ≤ Z.of_nat (length times) → (0 < length times)%nat →
  ∃ k, (retry n times b).2 = Some k.
Proof.
  revert b. induction times as [|now times IH]; intros b Hwf Hb Hn Hrate Hd Hd' Hsp Hlen H0;
    [simpl in H0; lia|].
  destruct Hsp as [Ht Hsp]. destruct (wf_rate b Hwf) as [Hc Hr].
  set (gap := now - last_update b) in *.
  assert (1 ≤ gap) by (unfold NANOSEC_IN_ONE_MILLISEC, REFILL_TIMER_INTERVAL_MS in *; lia).
  assert (elapsed now (last_update b) = gap) as Hel.
  { unfold elapsed. rewrite Z.max_r by lia. apply u64_wrap_small. unfold in_u64. nia. }
  assert (1 ≤ (gap * processed_capacity b) `div` processed_refill_time b) as Hq
    by (apply Z.div_le_lower_bound; nia).
  assert ((gap * processed_capacity b) `div` processed_refill_time b ≤ d * processed_capacity b).
  { apply Z.div_le_upper_bound; [lia|].
    assert (gap * processed_capacity b ≤ d * processed_capacity b) by nia.
    apply Z.le_trans with (1 * (d * processed_capacity b)); [lia|].
    apply Z.mul_le_mono_nonneg_r; lia. }
  pose proof (refill_exact b gap Hwf ltac:(lia) ltac:(nia) ltac:(lia)) as Hf.
  simpl. rewrite (reduce_no_burst now n b Hb) by lia. rewrite Hel. cbv zeta.
  destruct (Z.ltb_spec (refill b gap) n) as [Hlt|]; [|by eexists].
  destruct (refill_bound b gap Hwf ltac:(lia)) as [Hfr _].
  assert (bucket_wf (with_state b 0 (refill b gap) now)) as Hwf'.
  { constructor; simpl; [apply (wf_size b Hwf)|lia|done|done]. }
  destruct (decide (times = [])) as [->|Hne]; [simpl in Hlen; lia|].
  destruct (IH (with_state b 0 (refill b gap) now)) as [k Hk]; simpl; try done.
  - simpl in Hlen. lia.
  - destruct times; [done|simpl; lia].
  - destruct (retry n times _) as [b'' r]. simpl in *. rewrite Hk. by eexists.
Qed.

(** A bucket that yields at least one token per interval of the refill timer grants a
    request within as many retries as the request has tokens, when the retries are
    at least an interval apart and the products do not overflow. *)
Theorem retry_granted times n b d :
  bucket_wf b → one_time_burst b = 0 → 0 < n ≤ size b →
  processed_refill_time b ≤ NANOSEC_IN_ONE_MILLISEC * REFILL_TIMER_INTERVAL_MS * processed_capacity b →
  size b + d * processed_capacity b ≤ u64_max →
  spaced (NANOSEC_IN_ONE_MILLISEC * REFILL_TIMER_INTERVAL_MS) d (last_update b) times →
  n ≤ Z.of_nat (length times) →
  ∃ k, (retry n times b).2 = Some k.
Proof.
  intros Hwf Hb Hn Hrate Hd Hsp Hlen. pose proof (wf_size b Hwf). pose proof (wf_budget b Hwf).
  eapply retry_granted_gen; try done; lia.
Qed.

Lemma slow_bucket_starves_gen times n b d :
  bucket_wf b → one_time_burst b = 0 → budget b < n ≤ size b →
  0 ≤ d → d * processed_capacity b < processed_refill_time b →
  spaced 0 d (last_update b) times →
  (retry n times b).2 = None.
Proof.
  revert b. induction times as [|now times IH]; intros b Hwf Hb Hn Hd Hslow Hsp; [done|].
  destruct Hsp as [Ht Hsp]. destruct (wf_rate b Hwf) as [Hc Hr].
  pose proof (wf_budget b Hwf). pose proof (wf_size b Hwf).
  set (gap := now - last_update b) in *.
  assert (gap * processed_capacity b < processed_refill_time b) by nia.
  assert (elapsed now (last_update b) = gap) as Hel.
  { unfold elapsed. rewrite Z.max_r by lia. apply u64_wrap_small. unfold in_u64. nia. }
  assert (refill b gap = budget b) as Hf.
  { rewrite refill_exact; try done; try lia; rewrite Z.div_small by nia; lia. }
  simpl. rewrite (reduce_no_burst now n b Hb) by lia. rewrite Hel, Hf. cbv zeta.
  destruct (Z.ltb_spec (budget b) n); [|lia].
  assert (bucket_wf (with_state b 0 (budget b) now)) as Hwf'.
  { constructor; simpl; [apply (wf_size b Hwf)|lia|apply (wf_budget b Hwf)|done]. }
  specialize (IH (with_state b 0 (budget b) now) Hwf' ltac:(done) ltac:(simpl; lia) Hd
    Hslow Hsp).
  destruct (retry n times _) as [b'' r]. simpl in *. by rewrite IH.
Qed.

(** A slower bucket can starve: once its budget is below a request, the request fails
    at every retry when less than one token's time passes between retries, because
    the fraction of a token is dropped at each. *)
Theorem slow_bucket_starves times n b d :
  bucket_wf b → one_time_burst b = 0 → budget b < n ≤ size b →
  0 ≤ d → d * processed_capacity b < processed_refill_time b →
  spaced 0 d (last_update b) times →
  (retry n times b).2 = None.
Proof. apply slow_bucket_starves_gen. Qed.

(** Five operations per second: an empty bucket is never refilled by the timer. *)
Theorem five_ops_per_second_starve k b :
  new_bucket 0 5 0 1000 = Some b →
  (retry 1 (map (λ i, 100000000 * Z.of_nat i) (seq 1 k)) (reduce 0 0 5 b).1).2 = None.
Proof.
  assert (new_bucket 0 5 0 1000 = Some {| size := 5; one_time_burst := 0; refill_time := 1000;
    budget := 5; last_update := 0; processed_capacity := 1;
    processed_refill_time := 200000000 |}) as -> by (vm_compute; reflexivity).
  intros [= <-]. set (b := (reduce _ _ _ _).1).
  assert (b = {| size := 5; one_time_burst := 0; refill_time := 1000;
    budget := 0; last_update := 100000000 * Z.of_nat 0; processed_capacity := 1;
    processed_refill_time := 200000000 |}) as -> by (vm_compute; reflexivity).
  apply slow_bucket_starves_gen with (d := 100000000); simpl; [|done|lia|lia|lia|].
  - constructor; simpl; unfold u64_max; lia.
  - generalize 0%nat as i.
    induction k as [|k IH]; intros i; [done|]. simpl. split; [lia|]. apply IH.
Qed.

(** A request slightly larger than a full bucket arms the timer with no delay at all:
    [timerfd_settime] disarms a timer given a zero delay, and the limiter stays
    blocked. *)
Theorem overconsumption_arms_zero_timer :
  ∃ l l', new true 0 1000 0 100 0 0 0 = Some l ∧ consume 0 0 1001 Bytes l = (l', true) ∧
    timer_active l' = true ∧ timer_fd l' = Some 0.
Proof.
  pose (b := {| size := 1000; one_time_burst := 0; refill_time := 100; budget := 1000;
    last_update := 0; processed_capacity := 1; processed_refill_time := 100000 |}).
  exists {| bandwidth := Some b; ops := None; timer_fd := None; timer_active := false |},
    {| bandwidth := Some (with_state b 0 0 0); ops := None; timer_fd := Some 0;
       timer_active := true |}.
  split_and!; vm_compute; reflexivity.
Qed.

(** While the limiter is blocked every request is refused, also of a type that is not
    limited, and nothing changes. *)
Theorem blocked_refuses_all now now' n t l :
  is_blocked l = true → consume now now' n t l = (l, false).
Proof. intros Hb. unfold consume. by rewrite Hb. Qed.

(** When the timer expires the group wakes every subscribed handle, in order, and
    the limiter serves again. *)
Theorem unblock_notifies_all answers events writes g :
  (∃ n, answers = replicate n Interrupted ++ [Expired]) →
  dispatch ((2, answers) :: events) writes g =
  dispatch events (writes ++ handles g)
    {| rate_limiter := {| bandwidth := bandwidth (rate_limiter g); ops := ops (rate_limiter g);
         timer_fd := timer_fd (rate_limiter g); timer_active := false |};
       handles := handles g |}.
Proof.
  intros [n ->]. simpl.
  assert (event_handler (replicate n Interrupted ++ [Expired]) (rate_limiter g) =
    Some ({| bandwidth := bandwidth (rate_limiter g); ops := ops (rate_limiter g);
         timer_fd := timer_fd (rate_limiter g); timer_active := false |}, Ok tt)) as ->; [|done].
  induction n as [|n IH]; [done|]. exact IH.
Qed.

(** ** The theorems at concrete buckets *)

Lemma bucket_rate_bound_witness :
  (serve [(0, 0, 1000); (50000000, 50000000, 500)] (with_state example_bucket 0 1000 0)).2 *
    (100 * NANOSEC_IN_ONE_MILLISEC) ≤
  (0 + 1000) * (100 * NANOSEC_IN_ONE_MILLISEC) + (50000000 - 0) * 1000.
Proof.
  apply (bucket_rate_bound 0 1000 0 100 (with_state example_bucket 0 1000 0)
    [(0, 0, 1000); (50000000, 50000000, 500)]).
  - unfold in_u64, u64_max. lia.
  - unfold in_u64, u64_max. lia.
  - lia.
  - unfold NANOSEC_IN_ONE_MILLISEC, u64_max. lia.
  - vm_compute. reflexivity.
  - repeat constructor; simpl; lia.
  - simpl. lia.
Defined.

