(* ===== verification/Methods.v ===== *)
(** * Sequences of methods

    A [method] of a state may fail; these are the combinators with which the models of
    stateful code are written, and the equations that run them. *)

From S2P Require Import Prelude.
From stdpp Require Import options.

(** ** Sequencing of methods *)

Definition mret {S E A} (a : A) : method S E A := λ s, (s, Ok a).
Definition merr {S E A} (e : E) : method S E A := λ s, (s, Err e).
Definition mbind {S E A B} (m : method S E A) (k : A → method S E B) : method S E B := λ s,
  match m s with
  | (s', Ok a) => k a s'
  | (s', Err e) => (s', Err e)
  end.
Notation "'let*' x ':=' m 'in' k" := (mbind m (λ x, k))
  (at level 200, x pattern, m at level 100, k at level 200, right associativity) : rust_scope.
Open Scope rust_scope.

(** The state read and written. *)
Definition mget {S E} : method S E S := λ s, (s, Ok s).
Definition mput {S E} (s : S) : method S E unit := λ _, (s, Ok tt).
Definition mmodify {S E} (f : S → S) : method S E unit := λ s, (f s, Ok tt).
Definition mlift {S E A} (r : result A E) : method S E A := λ s, (s, r).
(** [map_err]. *)
Definition mmap_err {S E E' A} (f : E → E') (m : method S E A) : method S E' A := λ s,
  match m s with
  | (s', Ok a) => (s', Ok a)
  | (s', Err e) => (s', Err (f e))
  end.
(** A loop over a list whose body may fail. *)
Fixpoint miter {S E A} (body : A → method S E unit) (l : list A) : method S E unit :=
  match l with
  | [] => mret tt
  | x :: l => let* _ := body x in miter body l
  end.

(** ** Running a sequence *)

Lemma mbind_ok {S E A B} (m : method S E A) (k : A → method S E B) s s' a :
  m s = (s', Ok a) → (let* x := m in k x) s = k a s'.
Proof. unfold mbind. by intros ->. Qed.

(** Two steps whose composition is known. *)
Lemma mbind_ok2 {S E A B C} (m : method S E A) (k1 : A → method S E B) (k2 : B → method S E C) s s' b :
  (let* x := m in k1 x) s = (s', Ok b) →
  (let* x := m in let* y := k1 x in k2 y) s = k2 b s'.
Proof.
  unfold mbind. destruct (m s) as [s1 [a|e]]; [|done]. by intros ->.
Qed.

Lemma mbind_err {S E A B} (m : method S E A) (k : A → method S E B) s s' e :
  m s = (s', Err e) → (let* x := m in k x) s = (s', Err e).
Proof. unfold mbind. by intros ->. Qed.
