(* ===== verification/BlockFile.v ===== *)
(** * Files, tables of words and raw disk images

    What the disk images of form-vmm/block are made of: a file of the operating
    system as its bytes, its length and a position; big-endian words in it; and
    [RawFile] (qcow/raw_file.rs), which reads and writes whole blocks when direct
    I/O asks for it.  Input and output of the model do not fail, except at the end
    of the file.  Zeroing and hole punching come from the crate vmm-sys-util
    and are the class [ZeroOps]. *)

From S2P Require Import Prelude Words Methods.
From stdpp Require Import options.
Local Open Scope Z_scope.

(** ** Input and output errors *)

(** [EINVAL], [EBADF], [ENOSPC], [ENOTSUP], the end of the file, invalid data, other errors, and
    a panic of the code (an index out of range, [unwrap] of [None]). *)
Inductive io_error :=
| EINVAL | EBADF | ENOSPC | ENOTSUP | UnexpectedEof | InvalidData | Panic.

#[global] Instance io_error_eq_dec : EqDecision io_error.
Proof. solve_decision. Defined.

(** ** Files *)

(** A sparse file: a byte that was never written is zero. *)
Record File := { fdata : gmap Z Z; flen : Z; fpos : Z }.

Definition fbyte (f : File) (i : Z) : Z := default 0 (fdata f !! i).

Definition with_pos (f : File) (p : Z) : File := {| fdata := fdata f; flen := flen f; fpos := p |}.

Fixpoint put_bytes (off : Z) (bs : list Z) (m : gmap Z Z) : gmap Z Z :=
  match bs with
  | [] => m
  | b :: bs => put_bytes (off + 1) bs (<[off := b]> m)
  end.

(** The [n] bytes from [off]. *)
Definition get_bytes (f : File) (off n : Z) : list Z := fbyte f <$> seqZ off n.

(** [pwrite]: the file grows to the end of the bytes. *)
Definition write_at (off : Z) (bs : list Z) (f : File) : File :=
  match bs with
  | [] => f
  | _ => {| fdata := put_bytes off bs (fdata f);
            flen := Z.max (flen f) (off + Z.of_nat (length bs)); fpos := fpos f |}
  end.

(** [seek(SeekFrom::Start(off))]: an offset of the operating system is signed. *)
Definition seek_start (off : Z) : method File io_error unit := λ f,
  if off <=? i64_max then (with_pos f off, Ok tt) else (f, Err EINVAL).

Definition seek_end : method File io_error Z := λ f, (with_pos f (flen f), Ok (flen f)).

(** [read]: as many bytes as there are. *)
Definition file_read (n : Z) : method File io_error (list Z) := λ f,
  let k := Z.max 0 (Z.min n (flen f - fpos f)) in
  (with_pos f (fpos f + k), Ok (get_bytes f (fpos f) k)).

(** [read_exact]. *)
Definition read_exact (n : Z) : method File io_error (list Z) := λ f,
  if fpos f + n <=? flen f then (with_pos f (fpos f + n), Ok (get_bytes f (fpos f) n))
  else if n =? 0 then (f, Ok [])
  else (with_pos f (Z.max (fpos f) (flen f)), Err UnexpectedEof).

(** [write] of a regular file, which takes all the bytes. *)
Definition file_write (bs : list Z) : method File io_error Z := λ f,
  let n := Z.of_nat (length bs) in
  (with_pos (write_at (fpos f) bs f) (fpos f + n), Ok n).

Definition write_all (bs : list Z) : method File io_error unit :=
  let* _ := file_write bs in mret tt.

(** [set_len]: what is cut off is gone. *)
Definition set_len (n : Z) : method File io_error unit := λ f,
  ({| fdata := filter (λ p, p.1 < n) (fdata f); flen := n; fpos := fpos f |}, Ok tt).

(** The traits [WriteZeroesAt], [WriteZeroes] and [PunchHole] of a file. *)
Class ZeroOps := {
  write_zeroes_at : Z → Z → File → File;
  punch_hole : Z → Z → File → File;
}.

(** Zeros are written to the range and nowhere else; a hole is zeros where the file
    system supports holes and nothing otherwise. *)
Class ZeroLaws `{ZeroOps} : Prop := {
  write_zeroes_byte off n f i : 0 ≤ n →
    fbyte (write_zeroes_at off n f) i =
    if decide (off ≤ i < off + n) then 0 else fbyte f i;
  write_zeroes_len off n f : 0 < n →
    flen (write_zeroes_at off n f) = Z.max (flen f) (off + n);
  write_zeroes_pos off n f : fpos (write_zeroes_at off n f) = fpos f;
  punch_hole_byte off n f i :
    fbyte (punch_hole off n f) i = fbyte f i ∨
    (off ≤ i < off + n ∧ fbyte (punch_hole off n f) i = 0);
  punch_hole_len off n f : flen (punch_hole off n f) = flen f;
  punch_hole_pos off n f : fpos (punch_hole off n f) = fpos f;
}.

(** ** Big-endian words *)

(** The [n] bytes of a word, most significant first. *)
Fixpoint be_bytes (n : nat) (v : Z) : list Z :=
  match n with
  | O => []
  | S n => be_bytes n (v `div` 256) ++ [v `mod` 256]
  end.

Definition be_value (bs : list Z) : Z := foldl (λ acc b, acc * 256 + b) 0 bs.

(** The consecutive words of [n] bytes of a list of bytes. *)
Fixpoint be_words (n : nat) (count : nat) (bs : list Z) : list Z :=
  match count with
  | O => []
  | S count => be_value (take n bs) :: be_words n count (drop n bs)
  end.

Definition be_encode (n : nat) (vs : list Z) : list Z := concat (be_bytes n <$> vs).

Definition read_u16 : method File io_error Z :=
  let* bs := read_exact 2 in mret (be_value bs).
Definition read_u32 : method File io_error Z :=
  let* bs := read_exact 4 in mret (be_value bs).
Definition read_u64 : method File io_error Z :=
  let* bs := read_exact 8 in mret (be_value bs).
Definition write_u32 (v : Z) : method File io_error unit := write_all (be_bytes 4 v).
Definition write_u64 (v : Z) : method File io_error unit := write_all (be_bytes 8 v).

(** [read_u64_into] and [read_u16_into] of a slice of [count] words. *)
Definition read_words (n : nat) (count : Z) : method File io_error (list Z) :=
  let* bs := read_exact (count * Z.of_nat n) in mret (be_words n (Z.to_nat count) bs).

(** ** Raw files *)

Module RawFile.

(** The position of the struct is that of the file. *)
Record RawFile := { file : File; alignment : Z; direct_io : bool }.

Definition with_file (r : RawFile) (f : File) : RawFile :=
  {| file := f; alignment := alignment r; direct_io := direct_io r |}.

Definition BLK_ALIGNMENTS : list Z := [512; 4096].

(** [new]: [valid] is whether the file can be read at an alignment. *)
Definition new (valid : Z → bool) (file : File) (direct_io : bool) : RawFile :=
  let alignment :=
    if direct_io then default 0 (head (filter (λ a, valid a = true) BLK_ALIGNMENTS)) else 0 in
  {| file := file; alignment := alignment; direct_io := direct_io |}.

Definition round_up (r : RawFile) (offset : Z) : Z :=
  let align := alignment r in (offset + align - 1) `div` align * align.

Definition round_down (r : RawFile) (offset : Z) : Z :=
  let align := alignment r in offset `div` align * align.

(** [buf_aligned] is whether the address of the buffer is aligned. *)
Definition is_aligned (r : RawFile) (buf_aligned : bool) (buf_len : Z) : bool :=
  if alignment r =? 0 then true
  else (fpos (file r) `mod` alignment r =? 0) && buf_aligned &&
       (buf_len `mod` alignment r =? 0).

(** The part of [read] and [write] that goes through a temporary buffer: [pread64] of
    the blocks around the range, which is short at the end of the file; the rest of
    the buffer is zero. *)
Definition pread (f : File) (off n : Z) : list Z :=
  let k := Z.max 0 (Z.min n (flen f - off)) in
  get_bytes f off k.

Definition tmp_buffer (r : RawFile) (buf_len : Z) : Z * Z * list Z * Z :=
  let position := fpos (file r) in
  let rounded_pos := round_down r position in
  let file_offset := position - rounded_pos in
  let rounded_len := round_up r (file_offset + buf_len) in
  let bs := pread (file r) rounded_pos rounded_len in
  (rounded_pos, file_offset,
   bs ++ replicate (Z.to_nat rounded_len - length bs) 0, Z.of_nat (length bs)).

(** [read] into a buffer of [n] bytes: what the buffer holds, and how much was read. *)
Definition read (buf_aligned : bool) (n : Z) (r : RawFile) : RawFile * (list Z * Z) :=
  if is_aligned r buf_aligned n then
    let f := file r in
    let k := Z.max 0 (Z.min n (flen f - fpos f)) in
    (with_file r (with_pos f (fpos f + k)), (get_bytes f (fpos f) k, k))
  else
    let '(rounded_pos, file_offset, tmp_buf, read) := tmp_buffer r n in
    if read <? file_offset then (r, ([], 0))
    else
      let to_copy := Z.min (read - file_offset) n in
      let buf := take (Z.to_nat n) (drop (Z.to_nat file_offset) tmp_buf) in
      (with_file r (with_pos (file r) (fpos (file r) + to_copy)), (buf, to_copy)).

Definition write (buf_aligned : bool) (buf : list Z) (r : RawFile) : RawFile * Z :=
  let n := Z.of_nat (length buf) in
  if is_aligned r buf_aligned n then
    (with_file r (with_pos (write_at (fpos (file r)) buf (file r)) (fpos (file r) + n)), n)
  else
    let '(rounded_pos, file_offset, tmp_buf, _) := tmp_buffer r n in
    let o := Z.to_nat file_offset in
    let tmp_buf := take o tmp_buf ++ buf ++ drop (o + length buf) tmp_buf in
    let f := write_at rounded_pos tmp_buf (file r) in
    let written := Z.of_nat (length tmp_buf) in
    if written <? file_offset then (with_file r f, 0)
    else
      let to_seek := Z.min (written - file_offset) n in
      (with_file r (with_pos f (fpos (file r) + to_seek)), to_seek).

End RawFile.

(** ** What is said of files *)

(** Nothing but zeros lies outside the length. *)
Definition file_ok (f : File) : Prop := ∀ i, i < 0 ∨ flen f ≤ i → fbyte f i = 0.

(** The bytes [bs] are next in the file. *)
Definition next_bytes (f : File) (bs : list Z) : Prop :=
  fpos f + Z.of_nat (length bs) ≤ flen f ∧ get_bytes f (fpos f) (Z.of_nat (length bs)) = bs.

(** ** Lemmas on files *)

Lemma read_exact_ok n f :
  fpos f + n ≤ flen f → read_exact n f = (with_pos f (fpos f + n), Ok (get_bytes f (fpos f) n)).
Proof. intros Hn. unfold read_exact. by destruct (Z.leb_spec (fpos f + n) (flen f)); [|lia]. Qed.

Lemma seek_start_ok off f : 0 ≤ off ≤ 2 ^ 62 → seek_start off f = (with_pos f off, Ok tt).
Proof. intros Hoff. unfold seek_start. by destruct (Z.leb_spec off i64_max); [|unfold i64_max in *; lia]. Qed.

Lemma lookup_put_bytes off bs m x :
  put_bytes off bs m !! x =
  if decide (off ≤ x < off + Z.of_nat (length bs)) then bs !! Z.to_nat (x - off) else m !! x.
Proof.
  revert off m. induction bs as [|b bs IH]; intros off m; simpl.
  { case_decide; [lia|done]. }
  rewrite IH. destruct (decide (x = off)) as [->|Hne].
  - rewrite decide_False by lia. rewrite decide_True by lia.
    rewrite lookup_insert_eq. by replace (Z.to_nat (off - off)) with 0%nat by lia.
  - rewrite lookup_insert_ne by done. repeat case_decide; try lia; [|done].
    by replace (Z.to_nat (x - off)) with (S (Z.to_nat (x - (off + 1)))) by lia.
Qed.

Lemma fbyte_write_at off bs f x :
  fbyte (write_at off bs f) x =
  if decide (off ≤ x < off + Z.of_nat (length bs)) then default 0 (bs !! Z.to_nat (x - off))
  else fbyte f x.
Proof.
  unfold write_at. destruct bs as [|b bs]; [simpl; case_decide; [lia|done]|].
  unfold fbyte. cbn [fdata]. rewrite lookup_put_bytes. by destruct (decide _).
Qed.

Lemma flen_write_at off bs f :
  bs ≠ [] → flen (write_at off bs f) = Z.max (flen f) (off + Z.of_nat (length bs)).
Proof. by destruct bs. Qed.

Lemma flen_write_at_ge off bs f : flen f ≤ flen (write_at off bs f).
Proof. destruct bs; simpl; lia. Qed.

Lemma fbyte_with_pos f p x : fbyte (with_pos f p) x = fbyte f x.
Proof. done. Qed.

Lemma length_get_bytes f off n : length (get_bytes f off n) = Z.to_nat n.
Proof. unfold get_bytes. by rewrite length_fmap, length_seqZ. Qed.

Lemma get_bytes_ext f f' off n :
  (∀ x, off ≤ x < off + n → fbyte f x = fbyte f' x) → get_bytes f off n = get_bytes f' off n.
Proof.
  intros Hx. unfold get_bytes. apply list_fmap_ext. intros i x Hi.
  apply lookup_seqZ in Hi as [-> Hi]. apply Hx. lia.
Qed.

Lemma lookup_get_bytes f off n i :
  (i < Z.to_nat n)%nat → get_bytes f off n !! i = Some (fbyte f (off + Z.of_nat i)).
Proof.
  intros Hi. unfold get_bytes. rewrite list_lookup_fmap, lookup_seqZ_lt by lia. done.
Qed.

Lemma get_bytes_app f off n m :
  0 ≤ n → 0 ≤ m → get_bytes f off (n + m) = get_bytes f off n ++ get_bytes f (off + n) m.
Proof. intros Hn Hm. unfold get_bytes. by rewrite seqZ_app, fmap_app by lia. Qed.

(** What was written is read back. *)
Lemma get_bytes_write_at off bs f :
  get_bytes (write_at off bs f) off (Z.of_nat (length bs)) = bs.
Proof.
  apply list_eq. intros i. destruct (decide (i < length bs)%nat) as [Hi|Hi].
  - rewrite lookup_get_bytes by lia. rewrite fbyte_write_at, decide_True by lia.
    replace (Z.to_nat (off + Z.of_nat i - off)) with i by lia.
    by apply lookup_lt_is_Some_2 in Hi as [x ->].
  - rewrite !lookup_ge_None_2; [done|lia|rewrite length_get_bytes; lia].
Qed.

(** A part of what was written. *)
Lemma get_bytes_write_sub off bs f o n :
  0 ≤ o → 0 ≤ n → o + n ≤ Z.of_nat (length bs) →
  get_bytes (write_at off bs f) (off + o) n = take (Z.to_nat n) (drop (Z.to_nat o) bs).
Proof.
  intros Ho Hn Hle. apply list_eq. intros i. destruct (decide (i < Z.to_nat n)%nat) as [Hi|Hi].
  - rewrite lookup_get_bytes by lia. rewrite fbyte_write_at, decide_True by lia.
    rewrite lookup_take_lt, lookup_drop by lia.
    replace (Z.to_nat (off + o + Z.of_nat i - off)) with (Z.to_nat o + i)%nat by lia.
    assert (Z.to_nat o + i < length bs)%nat as Hlt by lia.
    by apply lookup_lt_is_Some_2 in Hlt as [x ->].
  - rewrite !lookup_ge_None_2; [done| |rewrite length_get_bytes; lia].
    rewrite length_take. lia.
Qed.

(** Two writes in sequence are one. *)
Lemma put_bytes_app off bs bs' m :
  put_bytes off (bs ++ bs') m = put_bytes (off + Z.of_nat (length bs)) bs' (put_bytes off bs m).
Proof.
  revert off m. induction bs as [|b bs IH]; intros off m; cbn [app put_bytes length].
  - by rewrite Z.add_0_r.
  - rewrite IH. f_equal. lia.
Qed.

Lemma write_all_app bs bs' f :
  (let* _ := write_all bs in write_all bs') f = write_all (bs ++ bs') f.
Proof.
  unfold write_all, mbind, file_write, mret. cbn [fpos with_pos]. f_equal.
  rewrite length_app, Nat2Z.inj_add, Z.add_assoc. unfold with_pos. cbn [fdata flen].
  destruct bs as [|b bs]; [by destruct bs'; simpl; rewrite Z.add_0_r|]. unfold write_at.
  destruct bs' as [|b' bs']; [rewrite app_nil_r, Z.add_0_r; done|].
  cbn [app fdata flen]. rewrite app_comm_cons, put_bytes_app. f_equal.
  cbn [length]. rewrite length_app. cbn [length]. lia.
Qed.

Lemma read_next bs bs' f :
  next_bytes f (bs ++ bs') →
  let f' := with_pos f (fpos f + Z.of_nat (length bs)) in
  read_exact (Z.of_nat (length bs)) f = (f', Ok bs) ∧ next_bytes f' bs'.
Proof.
  intros [Hl Hg] f'. rewrite length_app, Nat2Z.inj_add in *.
  rewrite get_bytes_app in Hg by lia. apply app_inj_1 in Hg as [Hg Hg']; [|rewrite length_get_bytes; lia].
  rewrite read_exact_ok by lia. split; [by rewrite Hg|]. split; [simpl; lia|done].
Qed.

Lemma file_ok_write_at off bs f : 0 ≤ off → file_ok f → file_ok (write_at off bs f).
Proof.
  intros Hoff Hok i Hi. rewrite fbyte_write_at. destruct bs as [|b bs]; simpl in *.
  - rewrite decide_False by lia. by apply Hok.
  - rewrite decide_False by lia. apply Hok. lia.
Qed.

Lemma file_ok_with_pos f p : file_ok f → file_ok (with_pos f p).
Proof. done. Qed.

Lemma fbyte_set_len n f x :
  fbyte (set_len n f).1 x = if decide (x < n) then fbyte f x else 0.
Proof.
  unfold set_len, fbyte. simpl. destruct (decide (x < n)) as [Hx|Hx].
  - destruct (fdata f !! x) as [v|] eqn:E.
    + by rewrite (proj2 (map_lookup_filter_Some _ _ _ _)) by done.
    + by rewrite (proj2 (map_lookup_filter_None _ _ _)) by auto.
  - rewrite (proj2 (map_lookup_filter_None _ _ _)); [done|]. right. by intros v _.
Qed.

(** ** Lemmas on words *)

Lemma length_be_bytes n v : length (be_bytes n v) = n.
Proof. revert v. induction n as [|n IH]; intros v; simpl; [done|]. rewrite length_app, IH. simpl. lia. Qed.

Lemma be_value_app bs b : be_value (bs ++ [b]) = be_value bs * 256 + b.
Proof. unfold be_value. by rewrite foldl_app. Qed.

Lemma be_value_bytes n v : be_value (be_bytes n v) = v `mod` 256 ^ Z.of_nat n.
Proof.
  revert v. induction n as [|n IH]; intros v; simpl be_bytes.
  { rewrite Z.pow_0_r, Z.mod_1_r. done. }
  rewrite be_value_app, IH.
  replace (256 ^ Z.of_nat (S n)) with (256 * 256 ^ Z.of_nat n)
    by (rewrite Nat2Z.inj_succ, Z.pow_succ_r by lia; done).
  rewrite Z.rem_mul_r by (try apply Z.pow_pos_nonneg; lia). lia.
Qed.

Lemma be_words_encode n vs bs :
  be_words n (length vs) (be_encode n vs ++ bs) = (λ v, v `mod` 256 ^ Z.of_nat n) <$> vs.
Proof.
  revert bs. induction vs as [|v vs IH]; intros bs; [done|]. cbn [length be_words fmap list_fmap].
  unfold be_encode. cbn [fmap list_fmap concat]. rewrite <-app_assoc.
  rewrite take_app_length', drop_app_length' by (symmetry; apply length_be_bytes).
  rewrite be_value_bytes. f_equal. apply IH.
Qed.

Lemma length_be_encode n vs : length (be_encode n vs) = (length vs * n)%nat.
Proof.
  unfold be_encode. induction vs as [|v vs IH]; [done|]. cbn. rewrite length_app, length_be_bytes.
  rewrite IH. done.
Qed.

Lemma length_be_words n count bs : length (be_words n count bs) = count.
Proof. revert bs. induction count as [|c IH]; intros bs; simpl; [done|]. by rewrite IH. Qed.
