(* ===== verification/QcowTables.v ===== *)
(** * Caches, tables and reference counts of qcow2 images

    form-vmm/block/src/qcow: cached vectors and the map of cached blocks
    (vec_cache.rs), the tables of a qcow2 file (qcow_raw_file.rs) and the reference
    counts of its clusters (refcount.rs).  The order in which a [HashMap] is iterated
    is the parameter [HashOrder]. *)

From S2P Require Import Prelude Words Methods BlockFile.
From stdpp Require Import options.
Local Open Scope Z_scope.

(** ** Cached vectors *)

(** [VecCache<u64>] and [VecCache<u16>]. *)
Record VecCache := { vec : list Z; dirty : bool }.

(** [VecCache::new(count)] and [VecCache::from_vec]. *)
Definition vec_new (count : Z) : VecCache := {| vec := replicate (Z.to_nat count) 0; dirty := true |}.
Definition from_vec (l : list Z) : VecCache := {| vec := l; dirty := false |}.

Definition vec_len (v : VecCache) : Z := Z.of_nat (length (vec v)).
(** [get(index)]; indexing panics where this is [None]. *)
Definition vec_get (v : VecCache) (i : Z) : option Z :=
  if 0 <=? i then vec v !! Z.to_nat i else None.
(** [v[i] = x], for an index in range: writing makes the vector dirty. *)
Definition vec_set (v : VecCache) (i x : Z) : VecCache :=
  {| vec := <[Z.to_nat i := x]> (vec v); dirty := true |}.
Definition mark_clean (v : VecCache) : VecCache := {| vec := vec v; dirty := false |}.

(** ** The map of cached blocks *)

(** The order of the iteration of a [HashMap]. *)
Class HashOrder := hash_iter : gmap Z VecCache → list (Z * VecCache).
Class HashOrderLaws `{HashOrder} : Prop :=
  hash_iter_perm m : hash_iter m ≡ₚ map_to_list m.

Record CacheMap := { capacity : Z; cmap : gmap Z VecCache }.

Definition cache_new (capacity : Z) : CacheMap := {| capacity := capacity; cmap := ∅ |}.
Definition with_cmap (c : CacheMap) (m : gmap Z VecCache) : CacheMap :=
  {| capacity := capacity c; cmap := m |}.
Definition contains_key (c : CacheMap) (k : Z) : bool := bool_decide (is_Some (cmap c !! k)).

(** [CacheMap::insert]: a full map evicts a block first, writing it when it is dirty. *)
Definition cache_insert `{HashOrder} (index : Z) (block : VecCache)
    (write_callback : Z → VecCache → method File io_error unit)
    : method (CacheMap * File) io_error unit := λ '(c, f),
  let evict : (CacheMap * File) * result unit io_error :=
    if Z.of_nat (size (cmap c)) =? capacity c then
      match hash_iter (cmap c) with
      | [] => ((c, f), Err Panic)
      | (to_evict, _) :: _ =>
          match cmap c !! to_evict with
          | Some evicted =>
              let c := with_cmap c (delete to_evict (cmap c)) in
              if dirty evicted then
                let '(f, r) := write_callback to_evict evicted f in ((c, f), r)
              else ((c, f), Ok tt)
          | None => ((c, f), Ok tt)
          end
      end
    else ((c, f), Ok tt) in
  match evict with
  | ((c, f), Ok _) => ((with_cmap c (<[index := block]> (cmap c)), f), Ok tt)
  | (s, Err e) => (s, Err e)
  end.

(** ** The tables of the file *)

Record QcowRawFile := { rfile : File; cluster_size : Z; cluster_mask : Z }.

Definition raw_from (file : File) (cluster_size : Z) : option QcowRawFile :=
  if is_power_of_two cluster_size then
    Some {| rfile := file; cluster_size := cluster_size; cluster_mask := cluster_size - 1 |}
  else None.

Definition with_rfile (r : QcowRawFile) (f : File) : QcowRawFile :=
  {| rfile := f; cluster_size := cluster_size r; cluster_mask := cluster_mask r |}.

(** A method of the file as a method of the raw file. *)
Definition on_file {A} (m : method File io_error A) : method QcowRawFile io_error A := λ r,
  let '(f, x) := m (rfile r) in (with_rfile r f, x).

Definition read_pointer_table (offset count : Z) (mask : option Z)
    : method File io_error (list Z) :=
  let* _ := seek_start offset in
  let* table := read_words 8 count in
  mret (match mask with Some m => (λ ptr, Z.land ptr m) <$> table | None => table end).

Definition read_pointer_cluster (cluster_size offset : Z) (mask : option Z)
    : method File io_error (list Z) :=
  let count := cluster_size `div` 8 in
  read_pointer_table offset count mask.

Definition write_pointer_table (offset : Z) (table : list Z) (non_zero_flags : Z)
    : method File io_error unit :=
  let* _ := seek_start offset in
  write_all (be_encode 8
    ((λ addr, if addr =? 0 then 0 else Z.lor addr non_zero_flags) <$> table)).

Definition read_refcount_block (cluster_size offset : Z) : method File io_error (list Z) :=
  let count := cluster_size `div` 2 in
  let* _ := seek_start offset in
  read_words 2 count.

Definition write_refcount_block (offset : Z) (table : list Z) : method File io_error unit :=
  let* _ := seek_start offset in
  write_all (be_encode 2 table).

(** [add_cluster_end]; the length of a file is below 2^63, so the sum does not wrap. *)
Definition add_cluster_end (max_valid_cluster_offset : Z)
    : method QcowRawFile io_error (option Z) := λ r,
  (let* file_end := on_file seek_end in
   let new_cluster_address :=
     Z.land (file_end + cluster_size r - 1) (u64_not (cluster_mask r)) in
   if max_valid_cluster_offset <? new_cluster_address then mret None
   else
     let* _ := on_file (set_len (new_cluster_address + cluster_size r)) in
     mret (Some new_cluster_address)) r.

Definition cluster_offset (r : QcowRawFile) (address : Z) : Z := Z.land address (cluster_mask r).

(** [zero_cluster]: [write_zeroes] writes at the position. *)
Definition zero_cluster `{ZeroOps} (address : Z) : method QcowRawFile io_error unit := λ r,
  on_file (let* _ := seek_start address in
           mmodify (λ f, with_pos (write_zeroes_at address (cluster_size r) f)
                           (address + cluster_size r))) r.

(** [write_cluster]: slicing panics when there is less than a cluster of data. *)
Definition write_cluster (address : Z) (data : list Z) : method QcowRawFile io_error unit := λ r,
  on_file (let* _ := seek_start address in
           if Z.of_nat (length data) <? cluster_size r then merr Panic
           else write_all (take (Z.to_nat (cluster_size r)) data)) r.

(** ** Reference counts *)

Inductive RcError :=
| EvictingRefCounts (e : io_error)
| InvalidIndex
| NeedCluster (addr : Z)
| NeedNewCluster
| ReadingRefCounts (e : io_error)
| RcPanic.

Record RefCount := {
  ref_table : VecCache;
  refcount_table_offset : Z;
  refblock_cache : CacheMap;
  refcount_block_entries : Z;
  rc_cluster_size : Z;
  max_valid_cluster_offset : Z;
}.

Definition with_ref_table (rc : RefCount) (t : VecCache) : RefCount :=
  {| ref_table := t; refcount_table_offset := refcount_table_offset rc;
     refblock_cache := refblock_cache rc; refcount_block_entries := refcount_block_entries rc;
     rc_cluster_size := rc_cluster_size rc;
     max_valid_cluster_offset := max_valid_cluster_offset rc |}.
Definition with_refblocks (rc : RefCount) (c : CacheMap) : RefCount :=
  {| ref_table := ref_table rc; refcount_table_offset := refcount_table_offset rc;
     refblock_cache := c; refcount_block_entries := refcount_block_entries rc;
     rc_cluster_size := rc_cluster_size rc;
     max_valid_cluster_offset := max_valid_cluster_offset rc |}.

Definition refcount_new (refcount_table_offset refcount_table_entries refcount_block_entries
    cluster_size : Z) : method File io_error RefCount :=
  let* table := read_pointer_table refcount_table_offset refcount_table_entries None in
  let ref_table := from_vec table in
  let max_valid_cluster_index :=
    u64_sub (u64_mul (vec_len ref_table) refcount_block_entries) 1 in
  let max_valid_cluster_offset := u64_mul max_valid_cluster_index cluster_size in
  mret {| ref_table := ref_table; refcount_table_offset := refcount_table_offset;
          refblock_cache := cache_new 50; refcount_block_entries := refcount_block_entries;
          rc_cluster_size := cluster_size;
          max_valid_cluster_offset := max_valid_cluster_offset |}.

Definition get_refcount_index (rc : RefCount) (address : Z) : Z * Z :=
  let block_index := (address `div` rc_cluster_size rc) `mod` refcount_block_entries rc in
  let refcount_table_index :=
    (address `div` rc_cluster_size rc) `div` refcount_block_entries rc in
  (refcount_table_index, block_index).

Section Ops.
Context `{HashOrder}.

(** The closure that writes an evicted block. *)
Definition evict_refblock (rc : RefCount) (index : Z) (evicted : VecCache)
    : method File io_error unit :=
  match vec_get (ref_table rc) index with
  | Some addr => write_refcount_block addr (vec evicted)
  | None => merr Panic
  end.

Definition insert_refblock (table_index : Z) (table : VecCache)
    : method (RefCount * File) RcError unit := λ '(rc, f),
  match cache_insert table_index table (evict_refblock rc) (refblock_cache rc, f) with
  | ((c, f), Ok _) => ((with_refblocks rc c, f), Ok tt)
  | ((c, f), Err e) => ((with_refblocks rc c, f), Err (EvictingRefCounts e))
  end.

(** The first part of [set_cluster_refcount]: the block is in the cache afterwards; what
    is left of [new_cluster] is returned. *)
Definition fill_refblock (table_index block_addr_disk : Z) (new_cluster : option (Z * VecCache))
    : method (RefCount * File) RcError (option (Z * VecCache)) := λ '(rc, f),
  if contains_key (refblock_cache rc) table_index then ((rc, f), Ok new_cluster)
  else
    match new_cluster with
    | Some (addr, table) =>
        (let* _ := mmodify (λ '(rc, f),
           (with_ref_table rc (vec_set (ref_table rc) table_index addr), f)) in
         let* _ := insert_refblock table_index table in
         mret None) (rc, f)
    | None =>
        ((rc, f), Err (if block_addr_disk =? 0 then NeedNewCluster
                       else NeedCluster block_addr_disk))
    end.

(** The second part: a block that is clean is given a new cluster before it changes. *)
Definition update_refblock (table_index block_index block_addr_disk refcount : Z)
    (new_cluster : option (Z * VecCache)) : method (RefCount * File) RcError (option Z) :=
  λ '(rc, f),
  match cmap (refblock_cache rc) !! table_index with
  | None => ((rc, f), Err RcPanic)
  | Some block =>
      let store (rc : RefCount) (dropped_cluster : option Z) :=
        match vec_get block block_index with
        | Some _ =>
            ((with_refblocks rc (with_cmap (refblock_cache rc)
                (<[table_index := vec_set block block_index refcount]>
                  (cmap (refblock_cache rc)))), f), Ok dropped_cluster)
        | None => ((rc, f), Err RcPanic)
        end in
      if negb (dirty block) then
        match new_cluster with
        | Some (addr, _) =>
            store (with_ref_table rc (vec_set (ref_table rc) table_index addr))
              (Some block_addr_disk)
        | None => ((rc, f), Err NeedNewCluster)
        end
      else store rc None
  end.

Definition rc_set_cluster_refcount (cluster_address refcount : Z)
    (new_cluster : option (Z * VecCache)) : method (RefCount * File) RcError (option Z) :=
  λ '(rc, f),
  let '(table_index, block_index) := get_refcount_index rc cluster_address in
  match vec_get (ref_table rc) table_index with
  | None => ((rc, f), Err InvalidIndex)
  | Some block_addr_disk =>
      (let* new_cluster := fill_refblock table_index block_addr_disk new_cluster in
       update_refblock table_index block_index block_addr_disk refcount new_cluster) (rc, f)
  end.

(** [get_cluster_refcount], whose first part also serves [refcount_block]. *)
Definition load_refblock (table_index block_addr_disk : Z)
    : method (RefCount * File) RcError unit := λ '(rc, f),
  if contains_key (refblock_cache rc) table_index then ((rc, f), Ok tt)
  else
    match read_refcount_block (rc_cluster_size rc) block_addr_disk f with
    | (f, Ok table) => insert_refblock table_index (from_vec table) (rc, f)
    | (f, Err e) => ((rc, f), Err (ReadingRefCounts e))
    end.

Definition rc_get_cluster_refcount (address : Z) : method (RefCount * File) RcError Z :=
  λ '(rc, f),
  let '(table_index, block_index) := get_refcount_index rc address in
  match vec_get (ref_table rc) table_index with
  | None => ((rc, f), Err InvalidIndex)
  | Some block_addr_disk =>
      if block_addr_disk =? 0 then ((rc, f), Ok 0)
      else
        (let* _ := load_refblock table_index block_addr_disk in
         let* s := mget in
         match cmap (refblock_cache s.1) !! table_index with
         | Some block =>
             match vec_get block block_index with
             | Some n => mret n
             | None => merr RcPanic
             end
         | None => merr RcPanic
         end) (rc, f)
  end.

Definition refcount_block (table_index : Z) : method (RefCount * File) RcError (option (list Z)) :=
  λ '(rc, f),
  match vec_get (ref_table rc) table_index with
  | None => ((rc, f), Err InvalidIndex)
  | Some block_addr_disk =>
      if block_addr_disk =? 0 then ((rc, f), Ok None)
      else
        (let* _ := load_refblock table_index block_addr_disk in
         let* s := mget in
         match cmap (refblock_cache s.1) !! table_index with
         | Some block => mret (Some (vec block))
         | None => merr RcPanic
         end) (rc, f)
  end.

(** The body of the loop of [flush_blocks] for one dirty block. *)
Definition flush_block (p : Z * VecCache) : method (RefCount * File) io_error unit := λ '(rc, f),
  match vec_get (ref_table rc) p.1 with
  | None => ((rc, f), Err Panic)
  | Some addr =>
      if addr =? 0 then ((rc, f), Err EINVAL)
      else
        match write_refcount_block addr (vec p.2) f with
        | (f, Ok _) =>
            ((with_refblocks rc (with_cmap (refblock_cache rc)
                (<[p.1 := mark_clean p.2]> (cmap (refblock_cache rc)))), f), Ok tt)
        | (f, Err e) => ((rc, f), Err e)
        end
  end.

Definition flush_blocks : method (RefCount * File) io_error unit := λ '(rc, f),
  miter flush_block (filter (λ p, dirty p.2 = true) (hash_iter (cmap (refblock_cache rc)))) (rc, f).

Definition flush_table : method (RefCount * File) io_error bool := λ '(rc, f),
  if dirty (ref_table rc) then
    match write_pointer_table (refcount_table_offset rc) (vec (ref_table rc)) 0 f with
    | (f, Ok _) => ((with_ref_table rc (mark_clean (ref_table rc)), f), Ok true)
    | (f, Err e) => ((rc, f), Err e)
    end
  else ((rc, f), Ok false).

End Ops.

(** ** Lemmas on cached vectors *)

Lemma vec_get_Some v i x : vec_get v i = Some x ↔ 0 ≤ i ∧ vec v !! Z.to_nat i = Some x.
Proof. unfold vec_get. destruct (Z.leb_spec 0 i); naive_solver lia. Qed.

Lemma vec_get_set_eq v i x y : vec_get v i = Some y → vec_get (vec_set v i x) i = Some x.
Proof.
  rewrite !vec_get_Some. intros [Hi Hy]. split; [done|]. simpl.
  apply list_lookup_insert_eq. by eapply lookup_lt_Some.
Qed.

Lemma vec_get_set_ne v i j x : 0 ≤ i → i ≠ j → vec_get (vec_set v i x) j = vec_get v j.
Proof.
  intros Hi Hne. unfold vec_get. destruct (Z.leb_spec 0 j); [|done]. simpl.
  apply list_lookup_insert_ne. lia.
Qed.

Lemma vec_len_set v i x : vec_len (vec_set v i x) = vec_len v.
Proof. unfold vec_len. simpl. by rewrite length_insert. Qed.

Lemma contains_key_Some c k b : cmap c !! k = Some b → contains_key c k = true.
Proof. intros E. unfold contains_key. by rewrite E, bool_decide_eq_true_2 by eauto. Qed.

Lemma contains_key_None c k : cmap c !! k = None → contains_key c k = false.
Proof. intros E. unfold contains_key. rewrite E, bool_decide_eq_false_2; [done|]. by intros [? ?]. Qed.
