(* ===== verification/QcowHeader.v ===== *)
(** * The header of a qcow2 image

    form-vmm/block/src/qcow/mod.rs: reading, creating and writing the header, and the
    detection of the type of an image. A path is the list of its bytes. The main
    theorem is that a header that is written is read back. *)

From S2P Require Import Prelude Words Methods BlockFile.
From stdpp Require Import options.
Local Open Scope Z_scope.

Inductive Error :=
| BackingFileIo (e : io_error)
| BackingFileOpen (e : Error)
| BackingFileTooLong (n : Z)
| CompressedBlocksNotSupported
| EvictingCache (e : io_error)
| FileTooBig (n : Z)
| GettingFileSize (e : io_error)
| GettingRefcount
| InvalidBackingFileName
| InvalidClusterIndex
| InvalidClusterSize
| InvalidIndexError
| InvalidL1TableOffset
| InvalidL1TableSize (n : Z)
| InvalidMagic
| InvalidOffset (n : Z)
| InvalidRefcountTableOffset
| InvalidRefcountTableSize (n : Z)
| MaxNestingDepthExceeded
| NoRefcountClusters
| NotEnoughSpaceForRefcounts
| ReadingHeader (e : io_error)
| ReadingPointers (e : io_error)
| ReadingRefCounts (e : io_error)
| RefcountTableOffEnd
| RefcountTableTooLarge
| SeekingFile (e : io_error)
| SettingRefcountRefcount (e : io_error)
| TooManyL1Entries (n : Z)
| TooManyRefcounts (n : Z)
| UnsupportedRefcountOrder
| UnsupportedVersion (n : Z)
| WritingHeader (e : io_error).

Inductive ImageType := Raw | Qcow2.

Definition MAX_QCOW_FILE_SIZE : Z := 2 ^ 44.
Definition QCOW_MAGIC : Z := 0x514649fb.
Definition DEFAULT_CLUSTER_BITS : Z := 16.
Definition MIN_CLUSTER_BITS : Z := 9.
Definition MAX_CLUSTER_BITS : Z := 21.
Definition MAX_RAM_POINTER_TABLE_SIZE : Z := 35000000.
Definition DEFAULT_REFCOUNT_ORDER : Z := 4.
Definition V2_BARE_HEADER_SIZE : Z := 72.
Definition V3_BARE_HEADER_SIZE : Z := 104.
Definition L1_TABLE_OFFSET_MASK : Z := 0x00fffffffffffe00.
Definition L2_TABLE_OFFSET_MASK : Z := 0x00fffffffffffe00.
Definition COMPRESSED_FLAG : Z := 2 ^ 62.
Definition CLUSTER_USED_FLAG : Z := 2 ^ 63.
Definition COMPATIBLE_FEATURES_LAZY_REFCOUNTS : Z := 1.
Definition QCOW_EMPTY_HEADER_EXTENSION_SIZE : Z := 8.
Definition MAX_BACKING_FILE_SIZE : Z := 1023.
Definition MAX_NESTING_DEPTH : nat := 10.

Record QcowHeader := {
  magic : Z;
  version : Z;
  backing_file_offset : Z;
  backing_file_size : Z;
  cluster_bits : Z;
  size : Z;
  crypt_method : Z;
  l1_size : Z;
  l1_table_offset : Z;
  refcount_table_offset : Z;
  refcount_table_clusters : Z;
  nb_snapshots : Z;
  snapshots_offset : Z;
  incompatible_features : Z;
  compatible_features : Z;
  autoclear_features : Z;
  refcount_order : Z;
  header_size : Z;
  backing_file_path : option (list Z);
}.

(** [size_of::<QcowHeader>()]: ten words of 32 bits, eight of 64, and an optional string. *)
Definition QCOW_HEADER_STRUCT_SIZE : Z := 128.

Definition with_path (h : QcowHeader) (p : option (list Z)) : QcowHeader :=
  {| magic := magic h; version := version h; backing_file_offset := backing_file_offset h;
     backing_file_size := backing_file_size h; cluster_bits := cluster_bits h; size := size h;
     crypt_method := crypt_method h; l1_size := l1_size h; l1_table_offset := l1_table_offset h;
     refcount_table_offset := refcount_table_offset h;
     refcount_table_clusters := refcount_table_clusters h; nb_snapshots := nb_snapshots h;
     snapshots_offset := snapshots_offset h; incompatible_features := incompatible_features h;
     compatible_features := compatible_features h; autoclear_features := autoclear_features h;
     refcount_order := refcount_order h; header_size := header_size h; backing_file_path := p |}.

Definition with_compatible_features (h : QcowHeader) (c : Z) : QcowHeader :=
  {| magic := magic h; version := version h; backing_file_offset := backing_file_offset h;
     backing_file_size := backing_file_size h; cluster_bits := cluster_bits h; size := size h;
     crypt_method := crypt_method h; l1_size := l1_size h; l1_table_offset := l1_table_offset h;
     refcount_table_offset := refcount_table_offset h;
     refcount_table_clusters := refcount_table_clusters h; nb_snapshots := nb_snapshots h;
     snapshots_offset := snapshots_offset h; incompatible_features := incompatible_features h;
     compatible_features := c; autoclear_features := autoclear_features h;
     refcount_order := refcount_order h; header_size := header_size h;
     backing_file_path := backing_file_path h |}.

(** [String::from_utf8]. *)
Definition cont (b : Z) : bool := (0x80 <=? b) && (b <=? 0xbf).
Definition between (lo b hi : Z) : bool := (lo <=? b) && (b <=? hi).

Fixpoint utf8_valid (fuel : nat) (bs : list Z) : bool :=
  match fuel, bs with
  | _, [] => true
  | O, _ => false
  | S fuel, b0 :: bs =>
      if b0 <? 0x80 then utf8_valid fuel bs
      else if between 0xc2 b0 0xdf then
        match bs with b1 :: bs => cont b1 && utf8_valid fuel bs | _ => false end
      else if between 0xe0 b0 0xef then
        match bs with
        | b1 :: b2 :: bs =>
            (if b0 =? 0xe0 then between 0xa0 b1 0xbf
             else if b0 =? 0xed then between 0x80 b1 0x9f else cont b1) &&
            cont b2 && utf8_valid fuel bs
        | _ => false
        end
      else if between 0xf0 b0 0xf4 then
        match bs with
        | b1 :: b2 :: b3 :: bs =>
            (if b0 =? 0xf0 then between 0x90 b1 0xbf
             else if b0 =? 0xf4 then between 0x80 b1 0x8f else cont b1) &&
            cont b2 && cont b3 && utf8_valid fuel bs
        | _ => false
        end
      else false
  end.

Definition from_utf8 (bs : list Z) : option (list Z) :=
  if utf8_valid (length bs) bs then Some bs else None.

(** [read_u32_from_file] and [read_u64_from_file]. *)
Definition read_u32_from_file : method File Error Z := mmap_err ReadingHeader read_u32.
Definition read_u64_from_file : method File Error Z := mmap_err ReadingHeader read_u64.
(** A field that only version 3 has. *)
Definition if_v3 (version default : Z) (m : method File Error Z) : method File Error Z :=
  if version =? 2 then mret default else m.

(** The fixed fields, in order. *)
Definition read_fields (magic : Z) : method File Error QcowHeader :=
  let* version := read_u32_from_file in
  let* backing_file_offset := read_u64_from_file in
  let* backing_file_size := read_u32_from_file in
  let* cluster_bits := read_u32_from_file in
  let* size := read_u64_from_file in
  let* crypt_method := read_u32_from_file in
  let* l1_size := read_u32_from_file in
  let* l1_table_offset := read_u64_from_file in
  let* refcount_table_offset := read_u64_from_file in
  let* refcount_table_clusters := read_u32_from_file in
  let* nb_snapshots := read_u32_from_file in
  let* snapshots_offset := read_u64_from_file in
  let* incompatible_features := if_v3 version 0 read_u64_from_file in
  let* compatible_features := if_v3 version 0 read_u64_from_file in
  let* autoclear_features := if_v3 version 0 read_u64_from_file in
  let* refcount_order := if_v3 version DEFAULT_REFCOUNT_ORDER read_u32_from_file in
  let* header_size := if_v3 version V2_BARE_HEADER_SIZE read_u32_from_file in
  mret {| magic := magic; version := version; backing_file_offset := backing_file_offset;
          backing_file_size := backing_file_size; cluster_bits := cluster_bits; size := size;
          crypt_method := crypt_method; l1_size := l1_size; l1_table_offset := l1_table_offset;
          refcount_table_offset := refcount_table_offset;
          refcount_table_clusters := refcount_table_clusters; nb_snapshots := nb_snapshots;
          snapshots_offset := snapshots_offset; incompatible_features := incompatible_features;
          compatible_features := compatible_features; autoclear_features := autoclear_features;
          refcount_order := refcount_order; header_size := header_size;
          backing_file_path := None |}.

(** The name of the backing file. *)
Definition read_path (header : QcowHeader) : method File Error QcowHeader :=
  if MAX_BACKING_FILE_SIZE <? backing_file_size header then
    merr (BackingFileTooLong (backing_file_size header))
  else if negb (backing_file_offset header =? 0) then
    let* _ := mmap_err ReadingHeader (seek_start (backing_file_offset header)) in
    let* bytes := mmap_err ReadingHeader (read_exact (backing_file_size header)) in
    match from_utf8 bytes with
    | Some path => mret (with_path header (Some path))
    | None => merr InvalidBackingFileName
    end
  else mret header.

(** [QcowHeader::new]. *)
Definition header_new : method File Error QcowHeader :=
  let* _ := mmap_err ReadingHeader (seek_start 0) in
  let* magic := mmap_err ReadingHeader read_u32 in
  if negb (magic =? QCOW_MAGIC) then merr InvalidMagic
  else
    let* header := read_fields magic in
    read_path header.

Definition div_round_up_u64 (dividend divisor : Z) : Z :=
  u64_add (dividend `div` divisor) (if dividend `mod` divisor =? 0 then 0 else 1).
Definition div_round_up_u32 (dividend divisor : Z) : Z :=
  u32_add (dividend `div` divisor) (if dividend `mod` divisor =? 0 then 0 else 1).

Definition max_refcount_clusters (refcount_order cluster_size num_clusters : Z) : Z :=
  let refcount_bytes := u64_wrap (Z.shiftl 1 refcount_order) `div` 8 in
  let for_data := div_round_up_u64 (u64_mul num_clusters refcount_bytes) cluster_size in
  let for_refcounts := div_round_up_u64 (u64_mul for_data refcount_bytes) cluster_size in
  u64_add for_data for_refcounts.

Definition create_for_size_and_path (version size : Z) (backing_file : option (list Z))
    : result QcowHeader Error :=
  let header_size :=
    if version =? 2 then V2_BARE_HEADER_SIZE
    else V3_BARE_HEADER_SIZE + QCOW_EMPTY_HEADER_EXTENSION_SIZE in
  let cluster_size := Z.shiftl 1 DEFAULT_CLUSTER_BITS in
  let max_length := cluster_size - header_size in
  let path_len := match backing_file with Some p => Z.of_nat (length p) | None => 0 end in
  if max_length <? path_len then Err (BackingFileTooLong (path_len - max_length))
  else
    let entries_per_cluster := cluster_size `div` 8 in
    let num_clusters := u32_wrap (div_round_up_u64 size cluster_size) in
    let num_l2_clusters := div_round_up_u32 num_clusters entries_per_cluster in
    let l1_clusters := div_round_up_u32 num_l2_clusters entries_per_cluster in
    let header_clusters := div_round_up_u32 QCOW_HEADER_STRUCT_SIZE cluster_size in
    let max_refcount_clusters :=
      u32_wrap (max_refcount_clusters DEFAULT_REFCOUNT_ORDER cluster_size
        (u32_add (u32_add (u32_add num_clusters l1_clusters) num_l2_clusters) header_clusters)) in
    Ok {| magic := QCOW_MAGIC; version := version;
          backing_file_offset := match backing_file with None => 0 | Some _ => header_size end;
          backing_file_size := u32_wrap path_len;
          cluster_bits := DEFAULT_CLUSTER_BITS; size := size; crypt_method := 0;
          l1_size := num_l2_clusters; l1_table_offset := cluster_size;
          refcount_table_offset := u32_mul cluster_size (u32_add l1_clusters 1);
          refcount_table_clusters :=
            div_round_up_u32 (u32_mul max_refcount_clusters 8) cluster_size;
          nb_snapshots := 0; snapshots_offset := 0; incompatible_features := 0;
          compatible_features := 0; autoclear_features := 0;
          refcount_order := DEFAULT_REFCOUNT_ORDER; header_size := header_size;
          backing_file_path := backing_file |}.

(** [write_u32_to_file] and [write_u64_to_file]. *)
Definition write_u32_to_file (v : Z) : method File Error unit :=
  mmap_err WritingHeader (write_u32 v).
Definition write_u64_to_file (v : Z) : method File Error unit :=
  mmap_err WritingHeader (write_u64 v).

(** [write_to], at the position of the file. *)
Definition write_to (h : QcowHeader) : method File Error unit :=
  let* _ := write_u32_to_file (magic h) in
  let* _ := write_u32_to_file (version h) in
  let* _ := write_u64_to_file (backing_file_offset h) in
  let* _ := write_u32_to_file (backing_file_size h) in
  let* _ := write_u32_to_file (cluster_bits h) in
  let* _ := write_u64_to_file (size h) in
  let* _ := write_u32_to_file (crypt_method h) in
  let* _ := write_u32_to_file (l1_size h) in
  let* _ := write_u64_to_file (l1_table_offset h) in
  let* _ := write_u64_to_file (refcount_table_offset h) in
  let* _ := write_u32_to_file (refcount_table_clusters h) in
  let* _ := write_u32_to_file (nb_snapshots h) in
  let* _ := write_u64_to_file (snapshots_offset h) in
  let* _ :=
    (if version h =? 3 then
       let* _ := write_u64_to_file (incompatible_features h) in
       let* _ := write_u64_to_file (compatible_features h) in
       let* _ := write_u64_to_file (autoclear_features h) in
       let* _ := write_u32_to_file (refcount_order h) in
       let* _ := write_u32_to_file (header_size h) in
       let* _ := write_u32_to_file 0 in
       write_u32_to_file 0
     else mret tt) in
  let* _ :=
    match backing_file_path h with
    | Some path => mmap_err WritingHeader (write_all path)
    | None => mret tt
    end in
  let cluster_size := u64_wrap (Z.shiftl 1 (cluster_bits h `mod` 64)) in
  let refcount_blocks_size := u64_mul (refcount_table_clusters h) cluster_size in
  let* _ := mmap_err WritingHeader
    (seek_start (u64_sub (u64_add (refcount_table_offset h) refcount_blocks_size) 2)) in
  let* _ := mmap_err WritingHeader (file_write [0]) in
  mret tt.

Definition offset_is_cluster_boundary (offset cluster_bits : Z) : result unit Error :=
  if Z.land offset (Z.shiftl 1 cluster_bits - 1) =? 0 then Ok tt else Err (InvalidOffset offset).

(** [detect_image_type]. *)
Definition detect_image_type : method File Error ImageType := λ f,
  (let orig_seek := fpos f in
   let* _ := mmap_err SeekingFile (seek_start 0) in
   let* magic := mmap_err ReadingHeader read_u32 in
   let image_type := if magic =? QCOW_MAGIC then Qcow2 else Raw in
   let* _ := mmap_err SeekingFile (seek_start orig_seek) in
   mret image_type) f.

(** ** What is said of headers *)

(** The bytes before the path of the backing file. *)
Definition fixed_bytes (h : QcowHeader) : list Z :=
  be_bytes 4 (magic h) ++ be_bytes 4 (version h) ++ be_bytes 8 (backing_file_offset h) ++
  be_bytes 4 (backing_file_size h) ++ be_bytes 4 (cluster_bits h) ++ be_bytes 8 (size h) ++
  be_bytes 4 (crypt_method h) ++ be_bytes 4 (l1_size h) ++ be_bytes 8 (l1_table_offset h) ++
  be_bytes 8 (refcount_table_offset h) ++ be_bytes 4 (refcount_table_clusters h) ++
  be_bytes 4 (nb_snapshots h) ++ be_bytes 8 (snapshots_offset h) ++
  (if version h =? 3 then
     be_bytes 8 (incompatible_features h) ++ be_bytes 8 (compatible_features h) ++
     be_bytes 8 (autoclear_features h) ++ be_bytes 4 (refcount_order h) ++
     be_bytes 4 (header_size h) ++ be_bytes 4 0 ++ be_bytes 4 0
   else []).

Definition path_bytes (h : QcowHeader) : list Z := default [] (backing_file_path h).

Definition header_bytes (h : QcowHeader) : list Z := fixed_bytes h ++ path_bytes h.

(** Where [write_to] puts a zero. *)
Definition table_end (h : QcowHeader) : Z :=
  refcount_table_offset h + refcount_table_clusters h * 2 ^ cluster_bits h - 2.

(** A header whose fields fit their types and whose tables end after it. *)
Record header_fits (h : QcowHeader) : Prop := {
  hf_u32 : Forall in_u32 [backing_file_size h; cluster_bits h; crypt_method h; l1_size h;
    refcount_table_clusters h; nb_snapshots h; refcount_order h; header_size h];
  hf_u64 : Forall in_u64 [backing_file_offset h; size h; l1_table_offset h;
    refcount_table_offset h; snapshots_offset h; incompatible_features h;
    compatible_features h; autoclear_features h];
  hf_bits : cluster_bits h < 64;
  hf_end : Z.of_nat (length (header_bytes h)) ≤ table_end h ≤ 2 ^ 62 - 2;
}.

(** A header that can be read back: of a supported version, with the path of the backing
    file after the fixed fields. *)
Record header_ok (h : QcowHeader) : Prop := {
  ho_fits : header_fits h;
  ho_magic : magic h = QCOW_MAGIC;
  ho_version : version h = 3 ∨
    version h = 2 ∧ incompatible_features h = 0 ∧ compatible_features h = 0 ∧
    autoclear_features h = 0 ∧ refcount_order h = DEFAULT_REFCOUNT_ORDER ∧
    header_size h = V2_BARE_HEADER_SIZE;
  ho_path_size : backing_file_size h ≤ MAX_BACKING_FILE_SIZE;
  ho_path : match backing_file_path h with
            | None => backing_file_offset h = 0
            | Some p =>
                backing_file_offset h = Z.of_nat (length (fixed_bytes h)) ∧
                backing_file_size h = Z.of_nat (length p) ∧ from_utf8 p = Some p
            end;
}.

(** What [write_to] does to a file. *)
Record header_written (h : QcowHeader) (f f' : File) : Prop := {
  hw_bytes : next_bytes (with_pos f' 0) (header_bytes h);
  hw_outside x : Z.of_nat (length (header_bytes h)) ≤ x → x ≠ table_end h → fbyte f' x = fbyte f x;
  hw_zero : fbyte f' (table_end h) = 0;
  hw_len : flen f' = Z.max (flen f) (table_end h + 1);
  hw_ok : file_ok f → file_ok f';
}.

(** What [write_all] leaves. *)
Definition put (bs : list Z) (f : File) : File :=
  with_pos (write_at (fpos f) bs f) (fpos f + Z.of_nat (length bs)).

(** ** Lemmas on headers *)

Lemma put_put bs bs' f : put bs' (put bs f) = put (bs ++ bs') f.
Proof.
  pose proof (write_all_app bs bs' f) as E. unfold write_all, mbind, file_write, mret in E.
  exact (f_equal fst E).
Qed.

Lemma mbind_write_u32 {A} v (k : unit → method File Error A) f :
  (let* x := write_u32_to_file v in k x) f = k tt (put (be_bytes 4 v) f).
Proof. done. Qed.

Lemma mbind_write_u64 {A} v (k : unit → method File Error A) f :
  (let* x := write_u64_to_file v in k x) f = k tt (put (be_bytes 8 v) f).
Proof. done. Qed.

Lemma write_v3_fields h f :
  (if version h =? 3 then
     let* _ := write_u64_to_file (incompatible_features h) in
     let* _ := write_u64_to_file (compatible_features h) in
     let* _ := write_u64_to_file (autoclear_features h) in
     let* _ := write_u32_to_file (refcount_order h) in
     let* _ := write_u32_to_file (header_size h) in
     let* _ := write_u32_to_file 0 in
     write_u32_to_file 0
   else mret tt) f =
  (put (if version h =? 3 then
          be_bytes 8 (incompatible_features h) ++ be_bytes 8 (compatible_features h) ++
          be_bytes 8 (autoclear_features h) ++ be_bytes 4 (refcount_order h) ++
          be_bytes 4 (header_size h) ++ be_bytes 4 0 ++ be_bytes 4 0
        else []) f, Ok tt).
Proof.
  destruct (version h =? 3).
  - repeat first [rewrite mbind_write_u32 | rewrite mbind_write_u64]. by rewrite <-!put_put.
  - unfold put, mret. simpl. rewrite Z.add_0_r. by destruct f.
Qed.

Lemma write_path_field h f :
  match backing_file_path h with
  | Some path => mmap_err WritingHeader (write_all path)
  | None => mret tt
  end f = (put (path_bytes h) f, Ok tt).
Proof.
  unfold path_bytes. destruct (backing_file_path h); [done|].
  unfold put, mret. simpl. rewrite Z.add_0_r. by destruct f.
Qed.

Lemma header_end h :
  header_fits h →
  u64_sub (u64_add (refcount_table_offset h) (u64_mul (refcount_table_clusters h)
    (u64_wrap (Z.shiftl 1 (cluster_bits h `mod` 64))))) 2 = table_end h.
Proof.
  intros Hh. pose proof (hf_end _ Hh) as He. pose proof (hf_bits _ Hh). unfold table_end in *.
  pose proof (hf_u32 _ Hh) as Hu. pose proof (hf_u64 _ Hh) as Hw. rewrite !Forall_cons in Hu, Hw.
  unfold in_u32, in_u64, u32_max, u64_max in *.
  rewrite (Z.mod_small (cluster_bits h)), Z.shiftl_mul_pow2, Z.mul_1_l by lia.
  assert (2 ^ cluster_bits h < 2 ^ 64) by (apply Z.pow_lt_mono_r; lia).
  assert (0 < 2 ^ cluster_bits h) by (apply Z.pow_pos_nonneg; lia).
  unfold u64_sub, u64_add, u64_mul, u64_wrap. rewrite (Z.mod_small (2 ^ _)) by lia.
  assert (0 ≤ refcount_table_clusters h * 2 ^ cluster_bits h) by (apply Z.mul_nonneg_nonneg; lia).
  generalize dependent (refcount_table_clusters h * 2 ^ cluster_bits h). intros n He Hn.
  rewrite (Z.mod_small n), (Z.mod_small (_ + n)), Z.mod_small by lia. done.
Qed.

Lemma header_bytes_ne h : header_bytes h ≠ [].
Proof.
  intros Hb. apply (f_equal length) in Hb. unfold header_bytes, fixed_bytes in Hb.
  rewrite !length_app, !length_be_bytes in Hb. simpl in Hb. lia.
Qed.

Lemma write_to_put h f :
  header_fits h →
  write_to h f = (put [0] (with_pos (put (header_bytes h) f) (table_end h)), Ok tt).
Proof.
  intros Hh. destruct (hf_end _ Hh) as [He1 He2].
  unfold write_to. cbv zeta. rewrite header_end by done. unfold header_bytes, fixed_bytes.
  repeat first [rewrite mbind_write_u32 | rewrite mbind_write_u64].
  rewrite (mbind_ok _ _ _ _ _ (write_v3_fields h _)), (mbind_ok _ _ _ _ _ (write_path_field h _)).
  rewrite <-!put_put. unfold mmap_err, mbind. rewrite seek_start_ok by lia. done.
Qed.

Lemma write_to_spec h f :
  header_fits h → fpos f = 0 → ∃ f', write_to h f = (f', Ok tt) ∧ header_written h f f'.
Proof.
  intros Hh Hp. destruct (hf_end _ Hh) as [He1 He2]. pose proof (header_bytes_ne h) as Hne.
  rewrite write_to_put by done. eexists. split; [reflexivity|].
  set (bs := header_bytes h) in *. set (e := table_end h) in *. unfold put. rewrite Hp.
  assert (∀ x, fbyte (write_at e [0] (with_pos (with_pos (write_at 0 bs f) (0 + Z.of_nat (length bs))) e)) x =
    if decide (x = e) then 0 else if decide (0 ≤ x < Z.of_nat (length bs)) then default 0 (bs !! Z.to_nat x)
    else fbyte f x) as Hx.
  { intros x. rewrite fbyte_write_at, !fbyte_with_pos, fbyte_write_at, Z.sub_0_r, Z.add_0_l. cbn [length].
    destruct (decide (x = e)) as [->|Hxe].
    - rewrite decide_True by lia. by rewrite Z.sub_diag.
    - by rewrite decide_False by lia. }
  constructor; cbn [fpos with_pos]; fold bs; fold e.
  - split; cbn [flen fpos with_pos].
    + rewrite flen_write_at by done. cbn [flen with_pos length]. rewrite flen_write_at by done. lia.
    + apply list_eq. intros i. destruct (decide (i < length bs)%nat) as [Hi|Hi].
      * rewrite lookup_get_bytes by lia. rewrite !fbyte_with_pos, Hx, decide_False, decide_True by lia.
        rewrite Z.add_0_l, Nat2Z.id. by apply lookup_lt_is_Some_2 in Hi as [y ->].
      * rewrite !lookup_ge_None_2; [done|lia|rewrite length_get_bytes; lia].
  - intros x Hl Hxe. rewrite fbyte_with_pos, Hx. by rewrite !decide_False by lia.
  - rewrite fbyte_with_pos, Hx. by rewrite decide_True.
  - cbn [flen with_pos]. rewrite flen_write_at by done. cbn [flen with_pos length].
    rewrite flen_write_at by done. lia.
  - intros Hok x Hl. cbn [flen with_pos] in Hl. rewrite flen_write_at in Hl by done.
    cbn [flen with_pos length] in Hl. rewrite flen_write_at in Hl by done.
    rewrite fbyte_with_pos, Hx, !decide_False by lia. apply Hok. lia.
Qed.

Lemma read_u32_next {A} v rest (k : Z → method File Error A) f p :
  in_u32 v → next_bytes (with_pos f p) (be_bytes 4 v ++ rest) →
  let f' := with_pos f (p + 4) in
  (let* x := read_u32_from_file in k x) (with_pos f p) = k v f' ∧ next_bytes f' rest.
Proof.
  intros Hv Hn f'. apply read_next in Hn as [E Hn]. rewrite length_be_bytes in E, Hn. split; [|exact Hn].
  change (Z.of_nat 4) with 4 in E. unfold read_u32_from_file, read_u32, mmap_err, mbind, mret. rewrite E, be_value_bytes.
  unfold in_u32, u32_max in Hv. rewrite Z.mod_small by lia. done.
Qed.

Lemma read_u64_next {A} v rest (k : Z → method File Error A) f p :
  in_u64 v → next_bytes (with_pos f p) (be_bytes 8 v ++ rest) →
  let f' := with_pos f (p + 8) in
  (let* x := read_u64_from_file in k x) (with_pos f p) = k v f' ∧ next_bytes f' rest.
Proof.
  intros Hv Hn f'. apply read_next in Hn as [E Hn]. rewrite length_be_bytes in E, Hn. split; [|exact Hn].
  change (Z.of_nat 8) with 8 in E. unfold read_u64_from_file, read_u64, mmap_err, mbind, mret. rewrite E, be_value_bytes.
  unfold in_u64, u64_max in Hv. rewrite Z.mod_small by lia. done.
Qed.

(** The next field is read. *)
Ltac read_field Hn :=
  let E := fresh "E" in
  lazymatch goal with
  | |- mbind read_u32_from_file ?k ?f = _ =>
      apply (read_u32_next _ _ k) in Hn as [E Hn]; [rewrite E; clear E|assumption]
  | |- mbind read_u64_from_file ?k ?f = _ =>
      apply (read_u64_next _ _ k) in Hn as [E Hn]; [rewrite E; clear E|assumption]
  end.

Lemma read_fields_spec h f p rest :
  header_ok h → next_bytes (with_pos f p) (drop 4 (fixed_bytes h) ++ rest) →
  ∃ p', read_fields (magic h) (with_pos f p) = (with_pos f p', Ok (with_path h None)).
Proof.
  intros Hh Hn. pose proof (hf_u32 _ (ho_fits _ Hh)) as Hu. pose proof (hf_u64 _ (ho_fits _ Hh)) as Hw.
  rewrite !Forall_cons in Hu, Hw. destruct Hu as (? & ? & ? & ? & ? & ? & ? & ? & _).
  destruct Hw as (? & ? & ? & ? & ? & ? & ? & ? & _).
  unfold fixed_bytes in Hn. rewrite drop_app_length' in Hn by done. rewrite <-!app_assoc in Hn.
  assert (in_u32 (version h)) by (destruct (ho_version _ Hh) as [->|[-> _]]; done).
  destruct (ho_version _ Hh) as [Ev|(Ev & E1 & E2 & E3 & E4 & E5)]; eexists;
    unfold read_fields; do 12 (read_field Hn; cbv beta); rewrite Ev in Hn |- *.
  - change (3 =? 3) with true in Hn. cbv iota in Hn. rewrite <-!app_assoc in Hn.
    unfold if_v3. change (3 =? 2) with false. cbv iota.
    do 5 (read_field Hn; cbv beta). unfold with_path. rewrite Ev. reflexivity.
  - unfold if_v3. change (2 =? 2) with true. cbv iota.
    unfold with_path. rewrite Ev, E1, E2, E3, E4, E5. reflexivity.
Qed.

Lemma read_path_spec h f p :
  header_ok h → next_bytes (with_pos f 0) (header_bytes h) →
  ∃ p', read_path (with_path h None) (with_pos f p) = (with_pos f p', Ok h).
Proof.
  intros Hh Hn. pose proof (ho_path _ Hh) as Hp. pose proof (ho_path_size _ Hh) as Hs.
  unfold read_path. cbn [backing_file_size backing_file_offset with_path].
  destruct (Z.ltb_spec MAX_BACKING_FILE_SIZE (backing_file_size h)); [lia|].
  destruct (backing_file_path h) as [path|] eqn:Ep.
  - destruct Hp as (Eo & Es & Eu).
    assert (0 < length (fixed_bytes h) < 200)%nat as Hl.
    { unfold fixed_bytes. destruct (version h =? 3); rewrite !length_app, !length_be_bytes; simpl; lia. }
    destruct (Z.eqb_spec (backing_file_offset h) 0); [lia|]. cbn [negb].
    apply read_next in Hn as [_ Hn]. unfold path_bytes in Hn. rewrite Ep in Hn.
    cbn [default from_option id fpos with_pos] in Hn. rewrite Z.add_0_l in Hn.
    rewrite <-(app_nil_r path) in Hn. apply read_next in Hn as [E _].
    unfold mbind, mmap_err. rewrite seek_start_ok by lia. rewrite Eo, Es.
    change (with_pos (with_pos f p) ?x) with (with_pos f x).
    cbn [fpos with_pos] in E. change (with_pos (with_pos f 0) ?x) with (with_pos f x) in E.
    rewrite E, Eu. eexists. unfold mret. do 2 f_equal. rewrite <-Ep. by destruct h.
  - rewrite Hp. simpl. exists p. unfold mret. do 2 f_equal. rewrite <-Ep. by destruct h.
Qed.

Lemma header_new_spec h f :
  header_ok h → next_bytes (with_pos f 0) (header_bytes h) →
  ∃ p, header_new f = (with_pos f p, Ok h).
Proof.
  intros Hh Hn. assert (header_bytes h = be_bytes 4 (magic h) ++ drop 4 (fixed_bytes h) ++ path_bytes h)
    as Ef by done. pose proof Hn as Hn'. rewrite Ef in Hn'.
  unfold header_new. erewrite mbind_ok by (unfold mmap_err; by rewrite seek_start_ok by lia).
  eapply read_u32_next in Hn' as [E1 Hn']; [|by rewrite (ho_magic _ Hh)].
  unfold read_u32_from_file in E1. rewrite E1. clear E1.
  destruct (Z.eqb_spec (magic h) QCOW_MAGIC); [|by destruct (ho_magic _ Hh)]. cbn [negb].
  destruct (read_fields_spec h f _ _ Hh Hn') as [p E2]. erewrite mbind_ok by exact E2.
  by apply read_path_spec.
Qed.

(** C22: a header that [write_to] wrote to the beginning of a file is read back by
    [QcowHeader::new], path of the backing file included, whatever the file held before.
    The header has the magic number and version 3, or version 2 with the features and sizes
    that version has; its fields are in the range of their types and its tables end after
    it; and the path of the backing file, if there is one, is valid UTF-8 of at most 1023
    bytes whose place, right after the fixed fields, and length the header states; without
    one the place is zero. *)
Theorem header_roundtrip h f :
  header_ok h →
  ∃ f' f'', write_to h (with_pos f 0) = (f', Ok tt) ∧ header_new f' = (f'', Ok h).
Proof.
  intros Hh. destruct (write_to_spec h (with_pos f 0) (ho_fits _ Hh) eq_refl) as (f' & E & Hw).
  destruct (header_new_spec h f' Hh (hw_bytes _ _ _ Hw)) as [p E']. eauto.
Qed.
