(* ===== verification/QcowFile.v ===== *)
(** * Disk images in the qcow2 format

    [QcowFile] of form-vmm/block/src/qcow/mod.rs: a virtual disk whose clusters are found
    through a table of tables, allocated on the first write, and counted.  The
    record is the struct, each method is a definition of the same name.  The backing
    file is any disk [B], of which the code uses [seek] followed by [read_exact]
    (class [Disk]); a [QcowFile] over a [Disk] is a [Disk].  Addresses of clusters
    are below 2^56 (the masks of the tables), so sums with offsets do not wrap. *)

From S2P Require Import Prelude Words Methods BlockFile QcowTables QcowHeader.
From stdpp Require Import options.
Local Open Scope Z_scope.

(** What a backing file is asked: its size, and the bytes at an offset. *)
Class Disk (B : Type) := {
  disk_size : B → Z;
  disk_read_at : Z → Z → method B io_error (list Z);
}.

Record QcowFile (B : Type) := {
  raw_file : QcowRawFile;
  header : QcowHeader;
  l1_table : VecCache;
  l2_entries : Z;
  l2_cache : CacheMap;
  refcounts : RefCount;
  current_offset : Z;
  unref_clusters : list Z;
  avail_clusters : list Z;
  backing_file : option B;
}.
Arguments raw_file {B}. Arguments header {B}. Arguments l1_table {B}. Arguments l2_entries {B}.
Arguments l2_cache {B}. Arguments refcounts {B}. Arguments current_offset {B}.
Arguments unref_clusters {B}. Arguments avail_clusters {B}. Arguments backing_file {B}.

Section Setters.
Context {B : Type}.

Definition with_raw (q : QcowFile B) (r : QcowRawFile) : QcowFile B :=
  {| raw_file := r; header := header q; l1_table := l1_table q; l2_entries := l2_entries q;
     l2_cache := l2_cache q; refcounts := refcounts q; current_offset := current_offset q;
     unref_clusters := unref_clusters q; avail_clusters := avail_clusters q;
     backing_file := backing_file q |}.
Definition with_l1 (q : QcowFile B) (t : VecCache) : QcowFile B :=
  {| raw_file := raw_file q; header := header q; l1_table := t; l2_entries := l2_entries q;
     l2_cache := l2_cache q; refcounts := refcounts q; current_offset := current_offset q;
     unref_clusters := unref_clusters q; avail_clusters := avail_clusters q;
     backing_file := backing_file q |}.
Definition with_l2_cache (q : QcowFile B) (c : CacheMap) : QcowFile B :=
  {| raw_file := raw_file q; header := header q; l1_table := l1_table q;
     l2_entries := l2_entries q; l2_cache := c; refcounts := refcounts q;
     current_offset := current_offset q; unref_clusters := unref_clusters q;
     avail_clusters := avail_clusters q; backing_file := backing_file q |}.
Definition with_refcounts (q : QcowFile B) (rc : RefCount) : QcowFile B :=
  {| raw_file := raw_file q; header := header q; l1_table := l1_table q;
     l2_entries := l2_entries q; l2_cache := l2_cache q; refcounts := rc;
     current_offset := current_offset q; unref_clusters := unref_clusters q;
     avail_clusters := avail_clusters q; backing_file := backing_file q |}.
Definition with_offset (q : QcowFile B) (o : Z) : QcowFile B :=
  {| raw_file := raw_file q; header := header q; l1_table := l1_table q;
     l2_entries := l2_entries q; l2_cache := l2_cache q; refcounts := refcounts q;
     current_offset := o; unref_clusters := unref_clusters q;
     avail_clusters := avail_clusters q; backing_file := backing_file q |}.
Definition with_unref (q : QcowFile B) (l : list Z) : QcowFile B :=
  {| raw_file := raw_file q; header := header q; l1_table := l1_table q;
     l2_entries := l2_entries q; l2_cache := l2_cache q; refcounts := refcounts q;
     current_offset := current_offset q; unref_clusters := l;
     avail_clusters := avail_clusters q; backing_file := backing_file q |}.
Definition with_avail (q : QcowFile B) (l : list Z) : QcowFile B :=
  {| raw_file := raw_file q; header := header q; l1_table := l1_table q;
     l2_entries := l2_entries q; l2_cache := l2_cache q; refcounts := refcounts q;
     current_offset := current_offset q; unref_clusters := unref_clusters q;
     avail_clusters := l; backing_file := backing_file q |}.
(** [set_backing_file]. *)
Definition with_backing (q : QcowFile B) (b : option B) : QcowFile B :=
  {| raw_file := raw_file q; header := header q; l1_table := l1_table q;
     l2_entries := l2_entries q; l2_cache := l2_cache q; refcounts := refcounts q;
     current_offset := current_offset q; unref_clusters := unref_clusters q;
     avail_clusters := avail_clusters q; backing_file := b |}.

(** Methods of the parts as methods of the whole. *)
Definition on_raw {A} (m : method QcowRawFile io_error A) : method (QcowFile B) io_error A := λ q,
  let '(r, x) := m (raw_file q) in (with_raw q r, x).
Definition on_rfile {A} (m : method File io_error A) : method (QcowFile B) io_error A :=
  on_raw (on_file m).
Definition on_refcounts {A E} (m : method (RefCount * File) E A) : method (QcowFile B) E A := λ q,
  let '((rc, f), x) := m (refcounts q, rfile (raw_file q)) in
  (with_refcounts (with_raw q (with_rfile (raw_file q) f)) rc, x).
Definition on_backing {A} (b : B) (m : method B io_error A) : method (QcowFile B) io_error A := λ q,
  let '(b', x) := m b in (with_backing q (Some b'), x).

End Setters.

Section Ops.
Context `{HashOrder} `{ZeroOps} `{Disk B}.
Implicit Types q : QcowFile B.

(** ** Geometry *)

Definition virtual_size q : Z := size (header q).

(** [count as u64] is the size of a buffer. *)
Definition limit_range_file q (address count : Z) : Z :=
  if (u64_max <? address + count) || (virtual_size q <? address) then 0
  else Z.min count (virtual_size q - address).

Definition limit_range_cluster q (address count : Z) : Z :=
  let offset := cluster_offset (raw_file q) address in
  let limit := cluster_size (raw_file q) - offset in
  Z.min count limit.

Definition l1_table_index q (address : Z) : Z :=
  (address `div` cluster_size (raw_file q)) `div` l2_entries q.
Definition l2_table_index q (address : Z) : Z :=
  (address `div` cluster_size (raw_file q)) `mod` l2_entries q.
Definition l1_address_offset q (address : Z) : Z := u64_mul (l1_table_index q address) 8.

(** ** The cached tables *)

(** [read_l2_cluster]. *)
Definition read_l2_cluster (cluster_size cluster_addr : Z) : method File io_error (list Z) :=
  let* file_values := read_pointer_cluster cluster_size cluster_addr None in
  if existsb (λ entry, negb (Z.land entry COMPRESSED_FLAG =? 0)) file_values
  then merr ENOTSUP
  else mret ((λ entry, Z.land entry L2_TABLE_OFFSET_MASK) <$> file_values).

(** The closure that writes an evicted table. *)
Definition evict_l2 (l1 : VecCache) (index : Z) (evicted : VecCache) : method File io_error unit :=
  match vec_get l1 index with
  | Some addr => write_pointer_table addr (vec evicted) CLUSTER_USED_FLAG
  | None => merr Panic
  end.

Definition insert_l2 (l1_index : Z) (table : VecCache) : method (QcowFile B) io_error unit := λ q,
  let '((c, f), r) :=
    cache_insert l1_index table (evict_l2 (l1_table q)) (l2_cache q, rfile (raw_file q)) in
  (with_l2_cache (with_raw q (with_rfile (raw_file q) f)) c, r).

(** The table of an L1 entry that is not zero, read when it is not in the cache: shared by
    [file_offset_read], [cluster_allocated], [deallocate_cluster] and [l2_table]. *)
Definition load_l2 (l1_index l2_addr_disk : Z) : method (QcowFile B) io_error unit := λ q,
  if contains_key (l2_cache q) l1_index then (q, Ok tt)
  else
    (let* table := on_rfile (read_l2_cluster (cluster_size (raw_file q)) l2_addr_disk) in
     insert_l2 l1_index (from_vec table)) q.

(** [self.l2_cache.get(l1_index).unwrap()[l2_index]]. *)
Definition l2_entry (l1_index l2_index : Z) : method (QcowFile B) io_error Z := λ q,
  match cmap (l2_cache q) !! l1_index with
  | Some table =>
      match vec_get table l2_index with
      | Some a => (q, Ok a)
      | None => (q, Err Panic)
      end
  | None => (q, Err Panic)
  end.

(** [self.l2_cache.get_mut(l1_index).unwrap()[l2_index] = x]. *)
Definition set_l2_entry (l1_index l2_index x : Z) : method (QcowFile B) io_error unit := λ q,
  match cmap (l2_cache q) !! l1_index with
  | Some table =>
      match vec_get table l2_index with
      | Some _ =>
          (with_l2_cache q (with_cmap (l2_cache q)
             (<[l1_index := vec_set table l2_index x]> (cmap (l2_cache q)))), Ok tt)
      | None => (q, Err Panic)
      end
  | None => (q, Err Panic)
  end.

(** The L1 entry of an address. *)
Definition l1_entry (address : Z) : method (QcowFile B) io_error Z := λ q,
  if virtual_size q <=? address then (q, Err EINVAL)
  else
    match vec_get (l1_table q) (l1_table_index q address) with
    | Some l2_addr_disk => (q, Ok l2_addr_disk)
    | None => (q, Err EINVAL)
    end.

(** [l2_table], for debugging. *)
Definition l2_table (l1_index : Z) : method (QcowFile B) io_error (option (list Z)) := λ q,
  match vec_get (l1_table q) l1_index with
  | None => (q, Err EINVAL)
  | Some l2_addr_disk =>
      if l2_addr_disk =? 0 then (q, Ok None)
      else
        (let* _ := load_l2 l1_index l2_addr_disk in
         let* q := mget in
         match cmap (l2_cache q) !! l1_index with
         | Some table => mret (Some (vec table))
         | None => merr Panic
         end) q
  end.

(** ** Allocation of clusters *)

Definition get_new_cluster (initial_data : option (list Z)) : method (QcowFile B) io_error Z := λ q,
  match last (avail_clusters q) with
  | Some free_cluster =>
      (let* _ := mmodify (λ q, with_avail q (removelast (avail_clusters q))) in
       let* _ := on_raw (match initial_data with
                         | Some data => write_cluster free_cluster data
                         | None => zero_cluster free_cluster
                         end) in
       mret free_cluster) q
  | None =>
      (let* new_cluster := on_raw (add_cluster_end (max_valid_cluster_offset (refcounts q))) in
       match new_cluster with
       | Some new_cluster =>
           let* _ := match initial_data with
                     | Some data => on_raw (write_cluster new_cluster data)
                     | None => mret tt
                     end in
           mret new_cluster
       | None => merr ENOSPC
       end) q
  end.

(** The loop of [set_cluster_refcount]: the clusters added and unreferenced. *)
Fixpoint set_refcount_loop (fuel : nat) (address refcount : Z)
    (new_cluster : option (Z * VecCache)) (added : list Z)
    : method (QcowFile B) io_error (list Z * list Z) :=
  match fuel with
  | O => merr Panic
  | S fuel => λ q,
      match on_refcounts (rc_set_cluster_refcount address refcount new_cluster) q with
      | (q, Ok None) => (q, Ok (added, []))
      | (q, Ok (Some freed_cluster)) => (q, Ok (added, [freed_cluster]))
      | (q, Err (EvictingRefCounts e)) => (q, Err e)
      | (q, Err InvalidIndex) => (q, Err EINVAL)
      | (q, Err (NeedCluster addr)) =>
          (let* block := on_rfile (read_refcount_block (cluster_size (raw_file q)) addr) in
           set_refcount_loop fuel address refcount (Some (addr, from_vec block)) added) q
      | (q, Err NeedNewCluster) =>
          (let* addr := get_new_cluster None in
           set_refcount_loop fuel address refcount
             (Some (addr, vec_new (refcount_block_entries (refcounts q)))) (added ++ [addr])) q
      | (q, Err (QcowTables.ReadingRefCounts e)) => (q, Err e)
      | (q, Err RcPanic) => (q, Err Panic)
      end
  end.

(** [set_cluster_refcount]: the new blocks are counted in turn. *)
Fixpoint set_cluster_refcount_go (fuel : nat) (address refcount : Z)
    : method (QcowFile B) io_error (list Z) :=
  match fuel with
  | O => merr Panic
  | S fuel =>
      let* p := set_refcount_loop 3 address refcount None [] in
      let* _ := miter (λ addr,
        let* _ := set_cluster_refcount_go fuel addr 1 in mret tt) p.1 in
      mret p.2
  end.

(** The recursion takes available clusters one by one, then at most three more. *)
Definition refcount_fuel q : nat := 4 + length (avail_clusters q).

Definition set_cluster_refcount (address refcount : Z) : method (QcowFile B) io_error (list Z) :=
  λ q, set_cluster_refcount_go (refcount_fuel q) address refcount q.

(** [self.unref_clusters.append(&mut newly_unref)]. *)
Definition append_unref (l : list Z) : method (QcowFile B) io_error unit :=
  mmodify (λ q, with_unref q (unref_clusters q ++ l)).

(** Set a count and collect what is unreferenced by it. *)
Definition count_cluster (address refcount : Z) : method (QcowFile B) io_error unit :=
  let* newly_unref := set_cluster_refcount address refcount in
  append_unref newly_unref.

Definition append_data_cluster (initial_data : option (list Z)) : method (QcowFile B) io_error Z :=
  let* new_addr := get_new_cluster initial_data in
  let* _ := count_cluster new_addr 1 in
  mret new_addr.

Definition set_l1_entry (l1_index x : Z) : method (QcowFile B) io_error unit := λ q,
  match vec_get (l1_table q) l1_index with
  | Some _ => (with_l1 q (vec_set (l1_table q) l1_index x), Ok tt)
  | None => (q, Err Panic)
  end.

(** [update_cluster_addr]: the counts to set are returned. *)
Definition update_cluster_addr (l1_index l2_index cluster_addr : Z)
    (set_refcounts : list (Z * Z)) : method (QcowFile B) io_error (list (Z * Z)) :=
  let* q := mget in
  let* set_refcounts :=
    match cmap (l2_cache q) !! l1_index with
    | None => merr Panic
    | Some table =>
        if negb (dirty table) then
          match vec_get (l1_table q) l1_index with
          | None => merr Panic
          | Some addr =>
              let* set_refcounts :=
                (if negb (addr =? 0) then
                   let* _ := append_unref [addr] in mret (set_refcounts ++ [(addr, 0)])
                 else mret set_refcounts) in
              let* new_addr := get_new_cluster None in
              let* _ := set_l1_entry l1_index new_addr in
              mret (set_refcounts ++ [(new_addr, 1)])
          end
        else mret set_refcounts
    end in
  let* _ := set_l2_entry l1_index l2_index cluster_addr in
  mret set_refcounts.

(** ** Translation of addresses *)

Definition file_offset_read (address : Z) : method (QcowFile B) io_error (option Z) :=
  let* l2_addr_disk := l1_entry address in
  if l2_addr_disk =? 0 then mret None
  else
    let* q := mget in
    let l1_index := l1_table_index q address in
    let l2_index := l2_table_index q address in
    let* _ := load_l2 l1_index l2_addr_disk in
    let* cluster_addr := l2_entry l1_index l2_index in
    if cluster_addr =? 0 then mret None
    else mret (Some (cluster_addr + cluster_offset (raw_file q) address)).

(** The table of an address, allocated when there is none: the first part of
    [file_offset_write]. *)
Definition load_or_new_l2 (l1_index l2_addr_disk : Z) : method (QcowFile B) io_error (list (Z * Z)) :=
  let* q := mget in
  if contains_key (l2_cache q) l1_index then mret []
  else if l2_addr_disk =? 0 then
    let* new_addr := get_new_cluster None in
    let* _ := set_l1_entry l1_index new_addr in
    let* _ := insert_l2 l1_index (vec_new (l2_entries q)) in
    mret [(new_addr, 1)]
  else
    let* table := on_rfile (read_l2_cluster (cluster_size (raw_file q)) l2_addr_disk) in
    let* _ := insert_l2 l1_index (from_vec table) in
    mret [].

(** What a new data cluster holds: the bytes of the backing file. *)
Definition initial_cluster (address : Z) : method (QcowFile B) io_error (option (list Z)) :=
  let* q := mget in
  match backing_file q with
  | Some backing =>
      let cluster_size := cluster_size (raw_file q) in
      let cluster_begin := address - address `mod` cluster_size in
      let* data := on_backing backing (disk_read_at cluster_begin cluster_size) in
      mret (Some data)
  | None => mret None
  end.

Definition file_offset_write (address : Z) : method (QcowFile B) io_error Z :=
  let* l2_addr_disk := l1_entry address in
  let* q := mget in
  let l1_index := l1_table_index q address in
  let l2_index := l2_table_index q address in
  let* set_refcounts := load_or_new_l2 l1_index l2_addr_disk in
  let* entry := l2_entry l1_index l2_index in
  let* p :=
    (if entry =? 0 then
       let* initial_data := initial_cluster address in
       let* cluster_addr := append_data_cluster initial_data in
       let* set_refcounts := update_cluster_addr l1_index l2_index cluster_addr set_refcounts in
       mret (cluster_addr, set_refcounts)
     else mret (entry, set_refcounts)) in
  let* _ := miter (λ ac, count_cluster ac.1 ac.2) p.2 in
  mret (p.1 + cluster_offset (raw_file q) address).

Definition cluster_allocated (address : Z) : method (QcowFile B) io_error bool :=
  let* l2_addr_disk := l1_entry address in
  if l2_addr_disk =? 0 then mret false
  else
    let* q := mget in
    let l1_index := l1_table_index q address in
    let* _ := load_l2 l1_index l2_addr_disk in
    let* cluster_addr := l2_entry l1_index (l2_table_index q address) in
    mret (negb (cluster_addr =? 0)).

(** The loop of [find_allocated_cluster] from a cluster boundary. *)
Fixpoint find_from (fuel : nat) (cluster_addr size : Z) (allocated : bool)
    : method (QcowFile B) io_error (option Z) :=
  match fuel with
  | O => merr Panic
  | S fuel =>
      if size <=? cluster_addr then mret None
      else
        let* a := cluster_allocated cluster_addr in
        if eqb a allocated then mret (Some cluster_addr)
        else
          let* q := mget in
          find_from fuel (cluster_addr + cluster_size (raw_file q)) size allocated
  end.

Definition find_allocated_cluster (address : Z) (allocated : bool)
    : method (QcowFile B) io_error (option Z) :=
  let* q := mget in
  let size := virtual_size q in
  if size <=? address then mret None
  else
    let* a := cluster_allocated address in
    if eqb a allocated then mret (Some address)
    else
      let cluster_size := cluster_size (raw_file q) in
      let cluster_addr := (address `div` cluster_size + 1) * cluster_size in
      find_from (S (Z.to_nat ((size - cluster_addr) `div` cluster_size + 1)))
        cluster_addr size allocated.

(** ** Deallocation *)

Definition deallocate_cluster (address : Z) : method (QcowFile B) io_error unit :=
  let* l2_addr_disk := l1_entry address in
  if l2_addr_disk =? 0 then mret tt
  else
    let* q := mget in
    let l1_index := l1_table_index q address in
    let l2_index := l2_table_index q address in
    let* _ := load_l2 l1_index l2_addr_disk in
    let* cluster_addr := l2_entry l1_index l2_index in
    if cluster_addr =? 0 then mret tt
    else
      let* refcount :=
        mmap_err (λ _, InvalidData) (on_refcounts (rc_get_cluster_refcount cluster_addr)) in
      if refcount =? 0 then merr EINVAL
      else
        let new_refcount := refcount - 1 in
        let* _ := count_cluster cluster_addr new_refcount in
        let* _ := set_l2_entry l1_index l2_index 0 in
        if new_refcount =? 0 then
          let* _ := on_rfile (mmodify (punch_hole cluster_addr (cluster_size (raw_file q)))) in
          append_unref [cluster_addr]
        else mret tt.

(** The loop of [deallocate_bytes]. *)
Fixpoint deallocate_loop (fuel : nat) (address nwritten write_count : Z)
    : method (QcowFile B) io_error unit :=
  match fuel with
  | O => merr Panic
  | S fuel =>
      if write_count <=? nwritten then mret tt
      else
        let* q := mget in
        let curr_addr := address + nwritten in
        let count := limit_range_cluster q curr_addr (write_count - nwritten) in
        let* _ :=
          (if count =? cluster_size (raw_file q) then deallocate_cluster curr_addr
           else
             let* offset := file_offset_read curr_addr in
             match offset with
             | Some offset => on_rfile (mmodify (write_zeroes_at offset count))
             | None => mret tt
             end) in
        deallocate_loop fuel address (nwritten + count) write_count
  end.

Definition deallocate_bytes (address length : Z) : method (QcowFile B) io_error unit := λ q,
  let write_count := limit_range_file q address length in
  deallocate_loop (S (Z.to_nat write_count)) address 0 write_count q.

(** ** Writing the caches *)

(** The body of the loop of [sync_caches] for one dirty table. *)
Definition sync_l2 (p : Z * VecCache) : method (QcowFile B) io_error unit := λ q,
  match vec_get (l1_table q) p.1 with
  | None => (q, Err Panic)
  | Some addr =>
      if addr =? 0 then (q, Err EINVAL)
      else
        (let* _ := on_rfile (write_pointer_table addr (vec p.2) CLUSTER_USED_FLAG) in
         mmodify (λ q, with_l2_cache q (with_cmap (l2_cache q)
           (<[p.1 := mark_clean p.2]> (cmap (l2_cache q)))))) q
  end.

(** [sync_caches]; that the file reaches the disk ([sync_all], [sync_data]) is not
    modelled. *)
Definition sync_caches : method (QcowFile B) io_error unit :=
  let* q := mget in
  let* _ := miter sync_l2 (filter (λ p, dirty p.2 = true) (hash_iter (cmap (l2_cache q)))) in
  let* _ := on_refcounts flush_blocks in
  let* q := mget in
  let* _ :=
    (if dirty (l1_table q) then
       let* _ := on_rfile (write_pointer_table (l1_table_offset (header q)) (vec (l1_table q)) 0) in
       mmodify (λ q, with_l1 q (mark_clean (l1_table q)))
     else mret tt) in
  let* _ := on_refcounts flush_table in
  mret tt.

Definition flush : method (QcowFile B) io_error unit :=
  let* _ := sync_caches in
  mmodify (λ q, with_unref (with_avail q (avail_clusters q ++ unref_clusters q)) []).

(** ** Reading, writing and seeking *)

Inductive SeekFrom := Start (off : Z) | End (off : Z) | Current (off : Z).

Definition relative (from off : Z) : option Z :=
  if off <? 0 then
    (if off =? i64_min then None else u64_checked_sub from (- off))
  else u64_checked_add from off.

Definition seek (pos : SeekFrom) : method (QcowFile B) io_error Z := λ q,
  let new_offset :=
    match pos with
    | Start off => Some off
    | End off => relative (virtual_size q) off
    | Current off => relative (current_offset q) off
    end in
  match new_offset with
  | Some o => if o <=? virtual_size q then (with_offset q o, Ok o) else (q, Err EINVAL)
  | None => (q, Err EINVAL)
  end.

(** The loop of [read]. *)
Fixpoint read_loop (fuel : nat) (address nread read_count : Z) (buf : list Z)
    : method (QcowFile B) io_error (list Z) :=
  match fuel with
  | O => merr Panic
  | S fuel =>
      if read_count <=? nread then mret buf
      else
        let* q := mget in
        let curr_addr := address + nread in
        let* file_offset := file_offset_read curr_addr in
        let count := limit_range_cluster q curr_addr (read_count - nread) in
        let* bytes :=
          match file_offset with
          | Some offset =>
              on_rfile (let* _ := seek_start offset in read_exact count)
          | None =>
              match backing_file q with
              | Some backing => on_backing backing (disk_read_at curr_addr count)
              | None => mret (replicate (Z.to_nat count) 0)
              end
          end in
        read_loop fuel address (nread + count) read_count (buf ++ bytes)
  end.

(** [read] into a buffer of [n] bytes: the bytes read. *)
Definition read (n : Z) : method (QcowFile B) io_error (list Z) := λ q,
  let address := current_offset q in
  let read_count := limit_range_file q address n in
  (let* buf := read_loop (S (Z.to_nat read_count)) address 0 read_count [] in
   let* _ := mmodify (λ q, with_offset q (current_offset q + read_count)) in
   mret buf) q.

(** The loop of [write]. *)
Fixpoint write_loop (fuel : nat) (address nwritten write_count : Z) (buf : list Z)
    : method (QcowFile B) io_error unit :=
  match fuel with
  | O => merr Panic
  | S fuel =>
      if write_count <=? nwritten then mret tt
      else
        let* q := mget in
        let curr_addr := address + nwritten in
        let* offset := file_offset_write curr_addr in
        let count := limit_range_cluster q curr_addr (write_count - nwritten) in
        let* count := on_rfile (let* _ := seek_start offset in
          file_write (take (Z.to_nat count) (drop (Z.to_nat nwritten) buf))) in
        write_loop fuel address (nwritten + count) write_count buf
  end.

Definition write (buf : list Z) : method (QcowFile B) io_error Z := λ q,
  let address := current_offset q in
  let write_count := limit_range_file q address (Z.of_nat (length buf)) in
  (let* _ := write_loop (S (Z.to_nat write_count)) address 0 write_count buf in
   let* _ := mmodify (λ q, with_offset q (current_offset q + write_count)) in
   mret write_count) q.

(** [PunchHole::punch_hole] and [WriteZeroesAt]; a length is at most [usize::MAX], so
    there is one chunk. *)
Definition punch_hole_disk (offset length : Z) : method (QcowFile B) io_error unit :=
  if 0 <? length then deallocate_bytes offset length else mret tt.

Definition write_zeroes_disk (offset length : Z) : method (QcowFile B) io_error Z :=
  let* _ := punch_hole_disk offset length in mret length.

Definition seek_hole (offset : Z) : method (QcowFile B) io_error (option Z) :=
  let* r := find_allocated_cluster offset false in
  match r with
  | None =>
      let* q := mget in
      if offset <? virtual_size q then
        let* o := seek (End 0) in mret (Some o)
      else mret None
  | Some o => let* _ := seek (Start o) in mret (Some o)
  end.

Definition seek_data (offset : Z) : method (QcowFile B) io_error (option Z) :=
  let* r := find_allocated_cluster offset true in
  match r with
  | None => mret None
  | Some o => let* _ := seek (Start o) in mret (Some o)
  end.

(** [Read::read_exact]: the default method, which reads until the buffer is full. *)
Fixpoint read_exact_loop (fuel : nat) (n : Z) (buf : list Z) : method (QcowFile B) io_error (list Z) :=
  match fuel with
  | O => merr Panic
  | S fuel =>
      if n =? 0 then mret buf
      else
        let* bytes := read n in
        if Z.of_nat (length bytes) =? 0 then merr UnexpectedEof
        else read_exact_loop fuel (n - Z.of_nat (length bytes)) (buf ++ bytes)
  end.

Definition qcow_read_at (off n : Z) : method (QcowFile B) io_error (list Z) :=
  let* _ := seek (Start off) in
  read_exact_loop (S (Z.to_nat n)) n [].

#[global] Instance qcow_disk : Disk (QcowFile B) := {
  disk_size := virtual_size; disk_read_at := qcow_read_at }.

End Ops.
