(* ===== verification/QcowOpen.v ===== *)
(** * Opening, creating and converting images

    form-vmm/block/src/qcow/mod.rs: [from_with_nesting_depth], which validates the header
    and reads the tables, [rebuild_refcounts], [find_avail_clusters],
    [new_from_header] and the conversion of images.  The backing file of an image
    opened with nesting depth [d] was opened with depth [d - 1], so the type of
    images is indexed by the depth.  The files of the file system are a
    parameter: what [open] of a path gives. *)

From S2P Require Import Prelude Words Methods BlockFile QcowTables QcowHeader QcowFile.
From stdpp Require Import options.
Local Open Scope Z_scope.

(** ** Rebuilding the reference counts *)

(** [add_ref]; a count has 16 bits. *)
Definition add_ref (cluster_size cluster_address : Z) : method (list Z) Error unit := λ refcounts,
  let idx := Z.to_nat (cluster_address `div` cluster_size) in
  match refcounts !! idx with
  | None => (refcounts, Err InvalidClusterIndex)
  | Some n => (<[idx := (n + 1) `mod` 65536]> refcounts, Ok tt)
  end.

(** [set_header_refcount]. *)
Definition set_header_refcount (cluster_size : Z) : method (list Z) Error unit :=
  add_ref cluster_size 0.

Definition set_l1_refcounts (header : QcowHeader) (cluster_size : Z) : method (list Z) Error unit :=
  let entries_per_cluster := cluster_size `div` 8 in
  let l1_clusters := div_round_up_u64 (l1_size header) entries_per_cluster in
  miter (λ i, add_ref cluster_size (u64_add (l1_table_offset header) (u64_mul i cluster_size)))
    (seqZ 0 l1_clusters).

(** A method of the counts, and one of the file, on the pair. *)
Definition on_counts {A} (m : method (list Z) Error A) : method (list Z * File) Error A :=
  λ '(c, f), let '(c, r) := m c in ((c, f), r).
Definition on_image {E A} (g : E → Error) (m : method File E A) : method (list Z * File) Error A :=
  λ '(c, f), let '(f, r) := mmap_err g m f in ((c, f), r).

(** The body of the loop of [set_data_refcounts] for the L2 table at [l2_addr_disk]. *)
Definition add_l2_refs (cluster_size l2_addr_disk : Z) : method (list Z * File) Error unit :=
  if l2_addr_disk =? 0 then mret tt
  else
    let* _ := on_counts (add_ref cluster_size l2_addr_disk) in
    let* l2_table := on_image ReadingPointers
      (read_pointer_table l2_addr_disk (cluster_size `div` 8) (Some L2_TABLE_OFFSET_MASK)) in
    miter (λ a, if a =? 0 then mret tt else on_counts (add_ref cluster_size a)) l2_table.

Definition set_data_refcounts (header : QcowHeader) (cluster_size : Z)
    : method (list Z * File) Error unit :=
  let* l1_table := on_image ReadingPointers
    (read_pointer_table (l1_table_offset header) (l1_size header) (Some L1_TABLE_OFFSET_MASK)) in
  miter (add_l2_refs cluster_size) l1_table.

Definition set_refcount_table_refcounts (header : QcowHeader) (cluster_size : Z)
    : method (list Z) Error unit :=
  miter (λ i, add_ref cluster_size
                (u64_add (QcowHeader.refcount_table_offset header) (u64_mul i cluster_size)))
    (seqZ 0 (refcount_table_clusters header)).

(** The inner loop of [alloc_refblocks]: the first count from [first_free_cluster] that is
    zero. *)
Fixpoint first_free (fuel : nat) (refcounts : list Z) (i : nat) : option nat :=
  match fuel with
  | O => None
  | S fuel =>
      match refcounts !! i with
      | None => None
      | Some n => if n =? 0 then Some i else first_free fuel refcounts (S i)
      end
  end.

(** The outer loop, for [n] blocks. *)
Fixpoint alloc_blocks (n : nat) (cluster_size : Z) (first_free_cluster : nat)
    : method (list Z) Error (list Z) := λ refcounts,
  match n with
  | O => (refcounts, Ok [])
  | S n =>
      match first_free (S (length refcounts)) refcounts first_free_cluster with
      | None => (refcounts, Err NotEnoughSpaceForRefcounts)
      | Some i =>
          let refblock_addr := u64_mul (Z.of_nat i) cluster_size in
          (let* _ := add_ref cluster_size refblock_addr in
           let* rest := alloc_blocks n cluster_size (S i) in
           mret (refblock_addr :: rest)) refcounts
      end
  end.

Definition alloc_refblocks (cluster_size refblock_clusters : Z) : method (list Z) Error (list Z) :=
  alloc_blocks (Z.to_nat refblock_clusters) cluster_size 0.

(** The body of the loop of [write_refblocks] for block [i]; a range that starts after the
    end panics. *)
Definition write_refblock (refcounts : list Z) (refcount_block_entries : Z)
    (p : nat * Z) : method File Error unit :=
  let '(i, refblock_addr) := p in
  let refblock_start := Z.of_nat i * refcount_block_entries in
  let len := Z.of_nat (length refcounts) in
  let refblock_end := Z.min len (refblock_start + refcount_block_entries) in
  if refblock_end <? refblock_start then merr (WritingHeader Panic)
  else
    let refblock := take (Z.to_nat (refblock_end - refblock_start))
                      (drop (Z.to_nat refblock_start) refcounts) in
    let* _ := mmap_err WritingHeader (write_refcount_block refblock_addr refblock) in
    let blen := Z.of_nat (length refblock) in
    if blen <? refcount_block_entries then
      mmap_err WritingHeader
        (write_refcount_block (u64_add refblock_addr (u64_mul blen 2))
           (replicate (Z.to_nat (refcount_block_entries - blen)) 0))
    else mret tt.

(** [write_refblocks]; a file opened for reading only cannot be written. *)
Definition write_refblocks (writable : bool) (refcounts : list Z) (header : QcowHeader)
    (ref_table : list Z) (refcount_block_entries : Z) : method File Error unit :=
  let header := with_compatible_features header
    (Z.lor (compatible_features header) COMPATIBLE_FEATURES_LAZY_REFCOUNTS) in
  let* _ := mmap_err SeekingFile (seek_start 0) in
  if negb writable then merr (WritingHeader EBADF)
  else
    let* _ := write_to header in
    let* _ := miter (write_refblock refcounts refcount_block_entries) (imap pair ref_table) in
    let* _ := mmap_err WritingHeader
      (write_pointer_table (QcowHeader.refcount_table_offset header) ref_table 0) in
    let header := with_compatible_features header
      (Z.land (compatible_features header) (u64_not COMPATIBLE_FEATURES_LAZY_REFCOUNTS)) in
    let* _ := mmap_err SeekingFile (seek_start 0) in
    write_to header.

(** The counts that a rebuild makes: the number of blocks, and the counts from the file. *)
Definition count_references (header : QcowHeader) (cluster_size max_valid_cluster_index
    refblock_clusters : Z) : method File Error (list Z * list Z) := λ f,
  let counts := replicate (Z.to_nat max_valid_cluster_index) 0 in
  let '((counts, f), r) :=
    (let* _ := on_counts (set_header_refcount cluster_size) in
     let* _ := on_counts (set_l1_refcounts header cluster_size) in
     let* _ := set_data_refcounts header cluster_size in
     let* _ := on_counts (set_refcount_table_refcounts header cluster_size) in
     on_counts (alloc_refblocks cluster_size refblock_clusters)) (counts, f) in
  (f, match r with Ok ref_table => Ok (counts, ref_table) | Err e => Err e end).

(** The clusters that the image may use: data, L2 and L1 tables, header. *)
Definition image_clusters (header : QcowHeader) (cluster_size : Z) : Z :=
  let pointers_per_cluster := cluster_size `div` 8 in
  let data_clusters := div_round_up_u64 (QcowHeader.size header) cluster_size in
  let l2_clusters := div_round_up_u64 data_clusters pointers_per_cluster in
  let l1_clusters := div_round_up_u64 l2_clusters pointers_per_cluster in
  let header_clusters := div_round_up_u64 QCOW_HEADER_STRUCT_SIZE cluster_size in
  u64_add (u64_add (u64_add data_clusters l2_clusters) l1_clusters) header_clusters.

(** The index of the last cluster that [refblock_clusters] blocks count, with those of the
    blocks and their table. *)
Definition last_valid_index (cluster_size refcount_block_entries max_clusters refblock_clusters : Z) : Z :=
  let pointers_per_cluster := cluster_size `div` 8 in
  let reftable_clusters := div_round_up_u64 refblock_clusters pointers_per_cluster in
  let refblocks_for_refs :=
    div_round_up_u64 (u64_add refblock_clusters reftable_clusters) refcount_block_entries in
  let reftable_clusters_for_refs := div_round_up_u64 refblocks_for_refs refcount_block_entries in
  u64_add (u64_add max_clusters (u64_add refblock_clusters reftable_clusters))
    (u64_add refblocks_for_refs reftable_clusters_for_refs).

Definition rebuild_refcounts (writable : bool) (header : QcowHeader) (cluster_size : Z)
    : method File Error unit := λ f,
  let file_size := flen f in
  let refcount_bits := Z.shiftl 1 (refcount_order header) in
  let refcount_bytes := div_round_up_u64 refcount_bits 8 in
  let refcount_block_entries := cluster_size `div` refcount_bytes in
  let max_clusters := image_clusters header cluster_size in
  let refblock_clusters := div_round_up_u64 max_clusters refcount_block_entries in
  let max_valid_cluster_index :=
    last_valid_index cluster_size refcount_block_entries max_clusters refblock_clusters in
  if MAX_RAM_POINTER_TABLE_SIZE <? max_valid_cluster_index then
    (f, Err (InvalidRefcountTableSize max_valid_cluster_index))
  else
    let max_valid_cluster_offset := u64_mul max_valid_cluster_index cluster_size in
    if max_valid_cluster_offset <? u64_sub file_size cluster_size then
      (f, Err (InvalidRefcountTableSize max_valid_cluster_offset))
    else
      (let* p := count_references header cluster_size max_valid_cluster_index refblock_clusters in
       write_refblocks writable p.1 header p.2 refcount_block_entries) f.

(** ** Opening an image *)

(** The reads of the reference counts while the tables are loaded. *)
Definition first_refcount_zero (header : QcowHeader) : method File Error bool :=
  let* _ := mmap_err SeekingFile (seek_start (QcowHeader.refcount_table_offset header)) in
  let* first_refblock_addr := mmap_err ReadingHeader read_u64 in
  if first_refblock_addr =? 0 then mret true
  else
    let* _ := mmap_err SeekingFile (seek_start first_refblock_addr) in
    let* first_cluster_refcount := mmap_err ReadingHeader read_u16 in
    mret (first_cluster_refcount =? 0).

(** The checks of the header up to the size of the disk. *)
Definition check_header (header : QcowHeader) : result unit Error :=
  if negb (version header =? 2) && negb (version header =? 3) then
    Err (UnsupportedVersion (version header))
  else if MAX_RAM_POINTER_TABLE_SIZE <? l1_size header then
    Err (InvalidL1TableSize (l1_size header))
  else if negb ((MIN_CLUSTER_BITS <=? cluster_bits header) && (cluster_bits header <=? MAX_CLUSTER_BITS))
  then Err InvalidClusterSize
  else if MAX_QCOW_FILE_SIZE <? QcowHeader.size header then Err (FileTooBig (QcowHeader.size header))
  else Ok tt.

(** The checks of the tables, given the length of the file. *)
Definition check_tables (header : QcowHeader) (file_size : Z) : result unit Error :=
  if 64 <=? refcount_order header then Err UnsupportedRefcountOrder
  else if negb (u64_wrap (Z.shiftl 1 (refcount_order header)) =? 16) then Err UnsupportedRefcountOrder
  else if refcount_table_clusters header =? 0 then Err NoRefcountClusters
  else
    match offset_is_cluster_boundary (l1_table_offset header) (cluster_bits header),
          offset_is_cluster_boundary (snapshots_offset header) (cluster_bits header),
          offset_is_cluster_boundary (QcowHeader.refcount_table_offset header) (cluster_bits header) with
    | Err e, _, _ => Err e
    | Ok _, Err e, _ => Err e
    | Ok _, Ok _, Err e => Err e
    | Ok _, Ok _, Ok _ =>
        if Z.max file_size (QcowHeader.size header) <? QcowHeader.refcount_table_offset header then
          Err RefcountTableOffEnd
        else Ok tt
    end.

(** A table of compressed clusters is an error; a table that cannot be read is not. *)
Definition check_compressed (cluster_size l2_addr_disk : Z) : method File Error unit := λ f,
  if l2_addr_disk =? 0 then (f, Ok tt)
  else
    match read_l2_cluster cluster_size l2_addr_disk f with
    | (f, Err ENOTSUP) => (f, Err CompressedBlocksNotSupported)
    | (f, _) => (f, Ok tt)
    end.

Section Open.
Context `{HashOrder} `{ZeroOps} {B : Type}.

(** [drop]: the caches are written, errors are ignored. *)
Definition drop_image (q : QcowFile B) : QcowFile B := (sync_caches q).1.

(** [find_avail_clusters]: every cluster of the file whose count is zero. *)
Definition find_avail_clusters : method (QcowFile B) Error unit := λ q,
  let cluster_size := cluster_size (raw_file q) in
  let file_size := flen (rfile (raw_file q)) in
  miter (λ i, let* refcount := mmap_err (λ _, GettingRefcount)
                                 (on_refcounts (rc_get_cluster_refcount (i * cluster_size))) in
              if refcount =? 0 then
                mmodify (λ q, with_avail q (avail_clusters q ++ [i * cluster_size]))
              else mret tt)
    (seqZ 0 ((file_size + cluster_size - 1) `div` cluster_size)) q.

(** [first_zero_refcount]. *)
Fixpoint first_zero_loop (fuel : nat) (cluster_addr file_size cluster_size : Z)
    : method (QcowFile B) Error (option Z) :=
  match fuel with
  | O => mret None
  | S fuel =>
      if file_size <=? cluster_addr then mret None
      else
        let* n := mmap_err (λ _, GettingRefcount)
                    (on_refcounts (rc_get_cluster_refcount cluster_addr)) in
        if n =? 0 then mret (Some cluster_addr)
        else first_zero_loop fuel (cluster_addr + cluster_size) file_size cluster_size
  end.

Definition first_zero_refcount : method (QcowFile B) Error (option Z) := λ q,
  let file_size := flen (rfile (raw_file q)) in
  let cluster_size := Z.shiftl 1 (cluster_bits (header q)) in
  first_zero_loop (S (Z.to_nat file_size)) 0 file_size cluster_size q.

(** The counts are read and the L2 tables checked. *)
Definition load_tables (header : QcowHeader) (cluster_size : Z)
    : method File Error (list Z * RefCount) :=
  let entries_per_cluster := cluster_size `div` 8 in
  let num_clusters := div_round_up_u64 (QcowHeader.size header) cluster_size in
  let num_l2_clusters := div_round_up_u64 num_clusters entries_per_cluster in
  let l1_clusters := div_round_up_u64 num_l2_clusters entries_per_cluster in
  let header_clusters := div_round_up_u64 QCOW_HEADER_STRUCT_SIZE cluster_size in
  if MAX_RAM_POINTER_TABLE_SIZE <? num_l2_clusters then merr (TooManyL1Entries num_l2_clusters)
  else
    let* l1_table := mmap_err ReadingHeader
      (read_pointer_table (l1_table_offset header) num_l2_clusters (Some L1_TABLE_OFFSET_MASK)) in
    let refcount_clusters :=
      max_refcount_clusters (refcount_order header) cluster_size
        (u32_wrap (u64_add (u64_add (u64_add num_clusters l1_clusters) num_l2_clusters) header_clusters)) in
    if u64_mul 2 refcount_clusters <? refcount_table_clusters header then merr RefcountTableTooLarge
    else if MAX_RAM_POINTER_TABLE_SIZE <? u64_add l1_clusters refcount_clusters then
      merr (TooManyRefcounts refcount_clusters)
    else
      let refcount_bytes := (u64_wrap (Z.shiftl 1 (refcount_order header)) + 7) `div` 8 in
      let refcount_block_entries := cluster_size `div` refcount_bytes in
      let* refcounts := mmap_err ReadingRefCounts
        (refcount_new (QcowHeader.refcount_table_offset header) refcount_clusters
           refcount_block_entries cluster_size) in
      let* _ := miter (check_compressed cluster_size) l1_table in
      mret (l1_table, refcounts).

(** [from_with_nesting_depth]: [open_backing] opens the image at a path, unless the nesting
    depth is exhausted. *)
Definition open_image (writable : bool) (open_backing : option (list Z → result B Error))
    : method File Error (QcowFile B) := λ f,
  (let* header := header_new in
   let* _ := mlift (check_header header) in
   let cluster_size := Z.shiftl 1 (cluster_bits header) in
   let* backing_file :=
     match backing_file_path header with
     | None => mret None
     | Some path =>
         match open_backing with
         | None => merr MaxNestingDepthExceeded
         | Some open => let* b := mlift (open path) in mret (Some b)
         end
     end in
   let* f := mget in
   let* _ := mlift (check_tables header (flen f)) in
   let* zero := first_refcount_zero header in
   let refcount_rebuild_required :=
     zero || negb (Z.land (compatible_features header) COMPATIBLE_FEATURES_LAZY_REFCOUNTS =? 0) in
   match raw_from f cluster_size with
   | None => merr InvalidClusterSize
   | Some raw_file =>
       let* _ :=
         (if refcount_rebuild_required then rebuild_refcounts writable header cluster_size
          else mret tt) in
       let* p := load_tables header cluster_size in
       let* f := mget in
       let q := {| raw_file := with_rfile raw_file f; header := header; l1_table := from_vec p.1;
                   l2_entries := cluster_size `div` 8; l2_cache := cache_new 100;
                   refcounts := p.2; current_offset := 0; unref_clusters := [];
                   avail_clusters := []; backing_file := backing_file |} in
       if u64_max <? l1_table_offset header + l1_address_offset q (virtual_size q) then
         merr InvalidL1TableOffset
       else if u64_max <? QcowHeader.refcount_table_offset header +
                          u64_mul (refcount_table_clusters header) cluster_size then
         merr InvalidRefcountTableOffset
       else
         λ f, match find_avail_clusters q with
              | (q, Ok _) => (rfile (QcowFile.raw_file q), Ok q)
              | (q, Err e) => (rfile (QcowFile.raw_file (drop_image q)), Err e)
              end
   end) f.

End Open.

(** ** Conversion *)

(** The traits [Read], [Seek] and [SeekHole] of a source, [Write] and [Seek] of a
    destination. *)
Class Source (R : Type) := {
  src_seek : SeekFrom → method R io_error Z;
  src_read : Z → method R io_error (list Z);
  src_seek_data : Z → method R io_error (option Z);
  src_seek_hole : Z → method R io_error (option Z);
}.
Class Destination (W : Type) := {
  dst_seek : Z → method W io_error unit;
  dst_write : list Z → method W io_error Z;
}.

Inductive ConvertError :=
| ReadingData (e : io_error)
| WritingData (e : io_error)
| SettingFileSize (e : io_error)
| ConvertError_ (e : Error).

Definition CHUNK_SIZE : Z := 65536.

Section Convert.
Context `{Source R} `{Destination W}.

Definition on_src {A} (g : io_error → ConvertError) (m : method R io_error A)
    : method (R * W) ConvertError A := λ '(r, w), let '(r, x) := mmap_err g m r in ((r, w), x).
Definition on_dst {A} (g : io_error → ConvertError) (m : method W io_error A)
    : method (R * W) ConvertError A := λ '(r, w), let '(w, x) := mmap_err g m w in ((r, w), x).
Definition seek_err (e : io_error) : ConvertError := ConvertError_ (SeekingFile e).

(** The loop of [convert_copy]; what [write] did not take is not written again. *)
Fixpoint copy_loop (fuel : nat) (read_count size : Z) : method (R * W) ConvertError unit :=
  match fuel with
  | O => merr (ReadingData Panic)
  | S fuel =>
      let this_count := Z.min CHUNK_SIZE (size - read_count) in
      let* buf := on_src ReadingData (src_read this_count) in
      let* _ := on_dst WritingData (dst_write buf) in
      let nread := Z.of_nat (length buf) in
      let read_count := read_count + nread in
      if (nread =? 0) || (read_count =? size) then mret tt else copy_loop fuel read_count size
  end.

Definition convert_copy (offset size : Z) : method (R * W) ConvertError unit :=
  let* _ := on_src seek_err (src_seek (Start offset)) in
  let* _ := on_dst seek_err (dst_seek offset) in
  copy_loop (S (Z.to_nat size)) 0 size.

Fixpoint convert_loop (fuel : nat) (offset size : Z) : method (R * W) ConvertError unit :=
  match fuel with
  | O => merr (ReadingData Panic)
  | S fuel =>
      if size <=? offset then mret tt
      else
        let* next_data := on_src seek_err (src_seek_data offset) in
        match next_data with
        | None => mret tt
        | Some next_data =>
            let* next_hole := on_src seek_err (src_seek_hole next_data) in
            match next_hole with
            | None => merr (seek_err EINVAL)
            | Some next_hole =>
                let* _ := convert_copy next_data (next_hole - next_data) in
                convert_loop fuel next_hole size
            end
        end
  end.

Definition convert_reader_writer (size : Z) : method (R * W) ConvertError unit :=
  convert_loop (S (Z.to_nat size)) 0 size.
End Convert.

(** ** Images and their backing files *)

(** An image opened with nesting depth [d]. *)
Fixpoint Image (d : nat) : Type :=
  match d with
  | O => QcowFile Empty_set
  | S d => QcowFile (Image d)
  end.

#[global] Instance empty_disk : Disk Empty_set := {
  disk_size e := match e with end; disk_read_at _ _ e := match e with end }.

Section Images.
Context `{HashOrder} `{ZeroOps}.

#[global] Instance image_disk : ∀ d, Disk (Image d) :=
  fix image_disk d :=
    match d with
    | O => qcow_disk (B := Empty_set)
    | S d => qcow_disk (B := Image d) (H1 := image_disk d)
    end.

(** The file that a path names, opened for reading. *)
Context (open_file : list Z → result File io_error).

Fixpoint from_with_nesting_depth (d : nat) (writable : bool) : method File Error (Image d) :=
  match d with
  | O => open_image writable None
  | S d =>
      open_image writable (Some (λ path,
        match open_file path with
        | Err e => Err (BackingFileIo e)
        | Ok f =>
            match from_with_nesting_depth d false f with
            | (_, Ok b) => Ok b
            | (_, Err e) => Err (BackingFileOpen e)
            end
        end))
  end.

(** [from]: an image opened to be written. *)
Definition from : method File Error (Image MAX_NESTING_DEPTH) :=
  from_with_nesting_depth MAX_NESTING_DEPTH true.

(** The counts of the header and its tables. *)
Definition count_tables {B} (q : QcowFile B) : QcowFile B * result unit Error :=
  let cluster_size := Z.shiftl 1 (cluster_bits (header q)) in
  let refcount_table_base := QcowHeader.refcount_table_offset (header q) in
  let end_cluster_addr :=
    u64_add refcount_table_base (u64_mul (refcount_table_clusters (header q)) cluster_size) in
  miter (λ i, mmap_err SettingRefcountRefcount (count_cluster (i * cluster_size) 1))
    (seqZ 0 ((end_cluster_addr + cluster_size - 1) `div` cluster_size)) q.

Definition new_from_header (header : QcowHeader) : method File Error (Image MAX_NESTING_DEPTH) := λ f,
  (let* _ := mmap_err SeekingFile (seek_start 0) in
   let* _ := write_to header in
   let* q := from in
   λ _, match count_tables q with
        | (q, Ok _) => (rfile (raw_file q), Ok q)
        | (q, Err e) => (rfile (raw_file (drop_image q)), Err e)
        end) f.

Definition new (version virtual_size : Z) : method File Error (Image MAX_NESTING_DEPTH) :=
  let* header := mlift (create_for_size_and_path version virtual_size None) in
  new_from_header header.

(** The image with another backing file. *)
Definition with_backing_file {B B'} (q : QcowFile B) (b : option B') : QcowFile B' :=
  {| raw_file := raw_file q; header := header q; l1_table := l1_table q; l2_entries := l2_entries q;
     l2_cache := l2_cache q; refcounts := refcounts q; current_offset := current_offset q;
     unref_clusters := unref_clusters q; avail_clusters := avail_clusters q; backing_file := b |}.

(** [new_from_backing]. *)
Definition new_from_backing (version : Z) (backing_file_name : list Z) (depth : nat)
    : method File Error (QcowFile (Image depth)) :=
  let* backing_file :=
    mlift (match open_file backing_file_name with
           | Err e => Err (BackingFileIo e)
           | Ok f =>
               match from_with_nesting_depth depth false f with
               | (_, Ok b) => Ok b
               | (_, Err e) => Err (BackingFileOpen e)
               end
           end) in
  let size := disk_size backing_file in
  let* header := mlift (create_for_size_and_path version size (Some backing_file_name)) in
  let* result := new_from_header header in
  mret (with_backing_file result (Some backing_file)).

End Images.

(** An image as a source and as a destination; a raw file as a destination. *)
#[global] Instance image_source `{HashOrder} `{Disk B} : Source (QcowFile B) := {
  src_seek := seek; src_read := read; src_seek_data := seek_data; src_seek_hole := seek_hole }.
#[global] Instance image_destination `{HashOrder} `{ZeroOps} `{Disk B} : Destination (QcowFile B) := {
  dst_seek off := let* _ := seek (Start off) in mret tt; dst_write := write }.
#[global] Instance file_destination : Destination File := {
  dst_seek := seek_start; dst_write := file_write }.

(** A raw file as a source: what [seek_data] and [seek_hole] of the operating system give. *)
Class FileHoles := {
  file_seek_data : Z → File → option Z;
  file_seek_hole : Z → File → option Z;
}.
Definition seek_found (r : option Z) : method File io_error (option Z) :=
  match r with
  | Some p => let* _ := seek_start p in mret (Some p)
  | None => mret None
  end.
#[global] Instance file_source `{FileHoles} : Source File := {
  src_seek pos := λ f,
    match pos with
    | Start off => (let* _ := seek_start off in mret off) f
    | End off => if flen f + off <? 0 then (f, Err EINVAL) else (with_pos f (flen f + off), Ok (flen f + off))
    | Current off => if fpos f + off <? 0 then (f, Err EINVAL) else (with_pos f (fpos f + off), Ok (fpos f + off))
    end;
  src_read := file_read;
  src_seek_data off := λ f, seek_found (file_seek_data off f) f;
  src_seek_hole off := λ f, seek_found (file_seek_hole off f) f }.

(** [convert_reader] and [convert]; the states are those of the two files. *)
Section ConvertImage.
Context `{HashOrder} `{ZeroOps} `{FileHoles} (open_file : list Z → result File io_error).

Definition convert_reader `{Source R} (dst_type : ImageType) (r : R) (dst : File)
    : R * File * result unit ConvertError :=
  match (let* src_size := mmap_err seek_err (src_seek (End 0)) in
         let* _ := mmap_err seek_err (src_seek (Start 0)) in mret src_size) r with
  | (r, Err e) => (r, dst, Err e)
  | (r, Ok src_size) =>
      let dst := (set_len 0 dst).1 in
      match dst_type with
      | Qcow2 =>
          match new open_file 3 src_size dst with
          | (dst, Err e) => (r, dst, Err (ConvertError_ e))
          | (_, Ok writer) =>
              let '((r, w), x) := convert_reader_writer src_size (r, writer) in
              (r, rfile (raw_file (drop_image w)), x)
          end
      | Raw =>
          let '((r, w), x) := convert_reader_writer src_size (r, (set_len src_size dst).1) in
          (r, w, x)
      end
  end.

Definition convert (dst_type : ImageType) (src_max_nesting_depth : nat) (src dst : File)
    : File * File * result unit ConvertError :=
  match detect_image_type src with
  | (src, Err e) => (src, dst, Err (ConvertError_ e))
  | (src, Ok Qcow2) =>
      match from_with_nesting_depth open_file src_max_nesting_depth true src with
      | (src, Err e) => (src, dst, Err (ConvertError_ e))
      | (_, Ok reader) =>
          match src_max_nesting_depth as d return Image d → _ with
          | O => λ reader, let '(r, w, x) := convert_reader dst_type reader dst in (rfile (raw_file (drop_image r)), w, x)
          | S d => λ reader, let '(r, w, x) := convert_reader dst_type reader dst in (rfile (raw_file (drop_image r)), w, x)
          end reader
      end
  | (src, Ok Raw) => convert_reader dst_type src dst
  end.

End ConvertImage.
