(* ===== verification/QcowAlloc.v ===== *)
(** * Allocation and counting of clusters

    The part of a [QcowFile] that allocates clusters and counts references to them: the
    file, the reference counts and the available clusters (its [core]).  The
    invariant [core_inv K] says that the clusters of [K], which others hold, the
    blocks of reference counts and the available clusters are distinct; the
    lemmas show that [get_new_cluster] and [set_cluster_refcount] keep it, do not
    touch the bytes of the clusters of [K], and end. *)

From S2P Require Import Prelude Words Methods BlockFile QcowTables QcowHeader QcowFile.
From stdpp Require Import options.
Local Open Scope Z_scope.

(** ** Definitions *)

Record Core := { c_file : File; c_rc : RefCount; c_avail : list Z }.

Definition core {B} (q : QcowFile B) : Core :=
  {| c_file := rfile (raw_file q); c_rc := refcounts q; c_avail := avail_clusters q |}.

Definition set_core {B} (q : QcowFile B) (c : Core) : QcowFile B :=
  with_avail (with_refcounts (with_raw q (with_rfile (raw_file q) (c_file c))) (c_rc c)) (c_avail c).

(** The entries of a table that are not zero. *)
Definition nz (l : list Z) : list Z := filter (λ a, a ≠ 0) l.

Section Defs.
Context (cs : Z).

(** A cluster of the file: aligned, countable, and started. *)
Definition clus (rc : RefCount) (f : File) (a : Z) : Prop :=
  (cs | a) ∧ 0 ≤ a ≤ max_valid_cluster_offset rc ∧ a < flen f.

Record core_inv (K : list Z) (c : Core) : Prop := {
  ci_file : file_ok (c_file c);
  ci_len : 0 ≤ flen (c_file c) ≤ 2 ^ 62;
  ci_cs : rc_cluster_size (c_rc c) = cs;
  ci_entries : refcount_block_entries (c_rc c) = cs `div` 2;
  ci_max : max_valid_cluster_offset (c_rc c) =
    (vec_len (ref_table (c_rc c)) * (cs `div` 2) - 1) * cs;
  ci_max_small : max_valid_cluster_offset (c_rc c) + cs ≤ 2 ^ 56;
  ci_cap : capacity (refblock_cache (c_rc c)) = 50;
  ci_zero : 0 ∈ K;
  ci_nodup : NoDup (K ++ nz (vec (ref_table (c_rc c))) ++ c_avail c);
  ci_clus : Forall (clus (c_rc c) (c_file c)) (K ++ nz (vec (ref_table (c_rc c))) ++ c_avail c);
  ci_full : Forall (λ a, a + cs ≤ flen (c_file c)) (nz (vec (ref_table (c_rc c))));
  ci_cache t b : cmap (refblock_cache (c_rc c)) !! t = Some b →
    (∃ a, vec_get (ref_table (c_rc c)) t = Some a ∧ a ≠ 0) ∧
    Z.of_nat (length (vec b)) = cs `div` 2;
}.

(** The bytes of the clusters of [K] are the same, and the file did not shrink. *)
Definition preserved (K : list Z) (f f' : File) : Prop :=
  flen f ≤ flen f' ∧ ∀ a x, a ∈ K → a ≤ x < a + cs → fbyte f' x = fbyte f x.

(** There is room for [n] clusters at the end of the file. *)
Definition room (n : Z) (c : Core) : Prop :=
  align_up (flen (c_file c)) cs + n * cs ≤ max_valid_cluster_offset (c_rc c) + cs.

(** The block that counts the cluster at [a]. *)
Definition refblock_of (a : Z) : Z := (a `div` cs) `div` (cs `div` 2).

Definition refblock_dirty (c : Core) (t : Z) : Prop :=
  ∃ b, cmap (refblock_cache (c_rc c)) !! t = Some b ∧ dirty b = true.

(** The bytes of a new cluster. *)
Definition holds (f : File) (a : Z) (data : option (list Z)) : Prop :=
  a + cs ≤ flen f ∧
  ∀ i, 0 ≤ i < cs → fbyte f (a + i) = match data with
                                      | Some l => default 0 (l !! Z.to_nat i)
                                      | None => 0
                                      end.

(** What changes when cluster [a] is written over or added. *)
Record new_cluster_written (f f' : File) (a : Z) (data : option (list Z)) : Prop := {
  nw_len : flen f' = Z.max (flen f) (a + cs);
  nw_holds : holds f' a data;
  nw_outside x : ¬ (a ≤ x < a + cs) → fbyte f' x = fbyte f x;
}.

(** The parts of a core replaced. *)
Definition core_file (c : Core) (f : File) : Core :=
  {| c_file := f; c_rc := c_rc c; c_avail := c_avail c |}.
Definition core_rc (c : Core) (rc : RefCount) : Core :=
  {| c_file := c_file c; c_rc := rc; c_avail := c_avail c |}.
Definition core_cache (c : Core) (m : gmap Z VecCache) : Core :=
  core_rc c (with_refblocks (c_rc c) (with_cmap (refblock_cache (c_rc c)) m)).
Definition core_ref (c : Core) (t a : Z) : Core :=
  core_rc c (with_ref_table (c_rc c) (vec_set (ref_table (c_rc c)) t a)).

(** A cluster [a] was taken: from the available ones, or from the end of the file. *)
Definition taken (c c' : Core) (a : Z) : Prop :=
  c_avail c = c_avail c' ++ [a] ∧
  align_up (flen (c_file c')) cs = align_up (flen (c_file c)) cs ∨
  c_avail c = [] ∧ c_avail c' = [] ∧ a = align_up (flen (c_file c)) cs ∧
  flen (c_file c') = a + cs.

(** One pass of [set_cluster_refcount] that gave block [t] the new cluster [a]. *)
Record counted (K : list Z) (c c' : Core) (t a : Z) (un : list Z) : Prop := {
  co_inv : core_inv (un ++ K) c';
  co_pres : preserved K (c_file c) (c_file c');
  co_dirty : refblock_dirty c' t;
  co_ref : a ∈ nz (vec (ref_table (c_rc c')));
  co_max : max_valid_cluster_offset (c_rc c') = max_valid_cluster_offset (c_rc c);
  co_room n : room (n + 1) c → room n c';
  co_taken : taken c c' a;
}.

(** A complete call of [set_cluster_refcount] that took at most [k] clusters from the end
    of the file. *)
Record call_ok (K : list Z) (k : Z) (c c' : Core) (un : list Z) : Prop := {
  ca_inv : core_inv (un ++ K) c';
  ca_pres : preserved K (c_file c) (c_file c');
  ca_max : max_valid_cluster_offset (c_rc c') = max_valid_cluster_offset (c_rc c);
  ca_room n : room (n + k) c → room n c';
}.

End Defs.

Section Loop.
Context `{HashOrder} `{ZeroOps} `{Disk B}.

(** What the loop does once a new cluster is needed. *)
Definition continue_with_new (fuel : nat) (address v entries : Z) (added : list Z)
    : method (QcowFile B) io_error (list Z * list Z) :=
  let* a := get_new_cluster None in
  set_refcount_loop fuel address v (Some (a, vec_new entries)) (added ++ [a]).
End Loop.

(** ** Lemmas on lists of clusters *)

Lemma elem_of_nz a l : a ∈ nz l ↔ a ∈ l ∧ a ≠ 0.
Proof. unfold nz. rewrite list_elem_of_filter. tauto. Qed.

Lemma nz_insert_zero (l : list Z) i a :
  l !! i = Some 0 → a ≠ 0 → nz (<[i := a]> l) ≡ₚ a :: nz l.
Proof.
  intros Hi Ha. unfold nz. pose proof (lookup_lt_Some _ _ _ Hi) as Hlt.
  rewrite insert_take_drop by done. rewrite <-(take_drop_middle l i 0 Hi) at 3.
  rewrite !filter_app, !filter_cons. repeat case_decide; try done.
  by rewrite Permutation_middle.
Qed.

Lemma nz_insert_nonzero (l : list Z) i a b :
  l !! i = Some b → b ≠ 0 → a ≠ 0 → b :: nz (<[i := a]> l) ≡ₚ a :: nz l.
Proof.
  intros Hi Hb Ha. unfold nz. pose proof (lookup_lt_Some _ _ _ Hi) as Hlt.
  rewrite insert_take_drop by done. rewrite <-(take_drop_middle l i b Hi) at 3.
  rewrite !filter_app, !filter_cons. repeat case_decide; try done.
  rewrite <-!Permutation_middle. by constructor.
Qed.

Lemma nz_insert_to_zero (l : list Z) i b :
  l !! i = Some b → b ≠ 0 → nz l ≡ₚ b :: nz (<[i := 0]> l).
Proof.
  intros Hi Hb. unfold nz. pose proof (lookup_lt_Some _ _ _ Hi) as Hlt.
  rewrite insert_take_drop by done. rewrite <-(take_drop_middle l i b Hi) at 1.
  rewrite !filter_app, !filter_cons. repeat case_decide; try done.
  by rewrite <-Permutation_middle.
Qed.

(** An address is in one entry of the table. *)
Lemma nz_lookup_inj (l : list Z) i j a :
  NoDup (nz l) → l !! i = Some a → l !! j = Some a → a ≠ 0 → i = j.
Proof.
  revert i j. induction l as [|x l IH]; intros i j Hnd Hi Hj Ha; [done|].
  unfold nz in Hnd. rewrite filter_cons in Hnd.
  assert (∀ k, l !! k = Some a → x = a → False) as Hx.
  { intros k Hk ->. rewrite decide_True in Hnd by done. apply NoDup_cons in Hnd as [Hni _].
    apply Hni. apply list_elem_of_filter. split; [done|]. by eapply list_elem_of_lookup_2. }
  destruct i as [|i], j as [|j]; simpl in *; simplify_eq; [done|exfalso; eauto..|].
  f_equal. apply IH; try done. case_decide; [by apply NoDup_cons in Hnd as [_ Hnd]|done].
Qed.

(** Two clusters that share a byte are the same. *)
Lemma cluster_overlap cs a b x :
  0 < cs → (cs | a) → (cs | b) → a ≤ x < a + cs → b ≤ x < b + cs → a = b.
Proof. intros Hcs [i ->] [j ->] Ha Hb. assert (i = j) as -> by nia. done. Qed.

Lemma preserved_refl cs K f : preserved cs K f f.
Proof. split; [lia|done]. Qed.

Lemma preserved_trans cs K f1 f2 f3 :
  preserved cs K f1 f2 → preserved cs K f2 f3 → preserved cs K f1 f3.
Proof.
  intros [Hl H1] [Hl' H2]. split; [lia|]. intros a x Ha Hx.
  by rewrite (H2 a x Ha Hx), (H1 a x Ha Hx).
Qed.

Lemma preserved_subset cs K K' f f' : K' ⊆ K → preserved cs K f f' → preserved cs K' f f'.
Proof. intros Hsub [Hl Hx]. split; [done|]. intros a x Ha. apply Hx. set_solver. Qed.

(** A change inside one cluster preserves the others. *)
Lemma preserved_outside cs K f f' a :
  0 < cs → flen f ≤ flen f' → (cs | a) → Forall (λ b, (cs | b)) K → a ∉ K →
  (∀ x, ¬ (a ≤ x < a + cs) → fbyte f' x = fbyte f x) → preserved cs K f f'.
Proof.
  intros Hcs Hl Ha HK Hni Hx. split; [done|]. intros b x Hb Hbx. apply Hx. intros Hax.
  rewrite Forall_forall in HK. rewrite (cluster_overlap cs a b x) in Hni; auto.
Qed.

(** ** The core of an image *)

Lemma core_set_core {B} (q : QcowFile B) c : core (set_core q c) = c.
Proof. by destruct c. Qed.

Lemma set_core_set_core {B} (q : QcowFile B) c c' : set_core (set_core q c) c' = set_core q c'.
Proof. done. Qed.

Lemma set_core_core {B} (q : QcowFile B) : set_core q (core q) = q.
Proof. by destruct q as [[]]. Qed.

(** A method of the reference counts changes the core. *)
Lemma on_refcounts_core {B A E} (m : method (RefCount * File) E A) (q : QcowFile B) c c' r :
  m (c_rc c, c_file c) = ((c_rc c', c_file c'), r) → c_avail c' = c_avail c →
  on_refcounts m (set_core q c) = (set_core q c', r).
Proof.
  intros Hm Ha. unfold on_refcounts. cbn [refcounts raw_file rfile set_core with_avail
    with_refcounts with_raw with_rfile]. rewrite Hm. unfold set_core. by rewrite Ha.
Qed.

(** ** New clusters *)

Section Core.
#[local] Set Default Proof Using "All".
Context (cs : Z) (Hpow : is_power_of_two cs = true) (Hcs : 512 ≤ cs ≤ 2 ^ 21).

Lemma align_up_between x y :
  x ≤ y ≤ align_up x cs → align_up y cs = align_up x cs.
Proof.
  intros Hxy. pose proof (align_up_spec cs ltac:(lia) x) as [Hd Hb].
  pose proof (align_up_spec cs ltac:(lia) y) as [Hd' Hb'].
  apply Z.le_antisymm; [apply align_up_least; [lia|done|lia]|].
  apply align_up_least; [lia|done|lia].
Qed.

(** A started cluster ends by the rounded end of the file. *)
Lemma started_cluster_end a n : (cs | a) → a < n → a + cs ≤ align_up n cs.
Proof.
  intros [i ->] Hlt. pose proof (align_up_spec cs ltac:(lia) n) as [[j Hj] Hb].
  rewrite Hj in *. assert (i < j) by nia. nia.
Qed.

Lemma add_cluster_end_spec maxv r :
  cluster_size r = cs → cluster_mask r = cs - 1 → 0 ≤ flen (rfile r) ≤ 2 ^ 62 →
  let a := align_up (flen (rfile r)) cs in
  add_cluster_end maxv r =
  if maxv <? a then (with_rfile r (with_pos (rfile r) (flen (rfile r))), Ok None)
  else (with_rfile r (set_len (a + cs) (with_pos (rfile r) (flen (rfile r)))).1, Ok (Some a)).
Proof.
  intros Ecs Em Hl a. unfold add_cluster_end, mbind, on_file, seek_end. rewrite Ecs, Em.
  rewrite land_not_mask; [|done|unfold in_u64, u64_max; lia|lia].
  assert (align_down (flen (rfile r) + cs - 1) cs = a) as -> by done.
  by destruct (Z.ltb_spec maxv a).
Qed.

Lemma write_cluster_written r a d :
  cluster_size r = cs → 0 ≤ a ≤ 2 ^ 56 → Z.of_nat (length d) = cs →
  ∃ f', write_cluster a d r = (with_rfile r f', Ok tt) ∧
    new_cluster_written cs (rfile r) f' a (Some d).
Proof.
  intros Ecs Ha Hd. unfold write_cluster, on_file, mbind. rewrite seek_start_ok, Ecs by lia.
  destruct (Z.ltb_spec (Z.of_nat (length d)) cs); [lia|].
  rewrite take_ge by lia. eexists. split; [reflexivity|].
  assert (d ≠ []) by (intros ->; simpl in Hd; lia). constructor.
  - simpl. rewrite flen_write_at by done. simpl. lia.
  - split; [simpl; rewrite flen_write_at by done; simpl; lia|].
    intros i Hi. rewrite fbyte_with_pos, fbyte_write_at, decide_True by (simpl; lia).
    do 2 f_equal. simpl. lia.
  - intros x Hx. rewrite fbyte_with_pos, fbyte_write_at, decide_False by (simpl; lia). done.
Qed.

(** A cluster that is added at the end is all zeros. *)
Lemma add_end_written f a :
  file_ok f → 0 ≤ flen f → a = align_up (flen f) cs →
  new_cluster_written cs f (set_len (a + cs) (with_pos f (flen f))).1 a None.
Proof.
  intros Hok Hl ->. pose proof (align_up_spec cs ltac:(lia) (flen f)) as [Hd Hb].
  constructor; [simpl; lia| |].
  - split; [simpl; lia|]. intros i Hi. rewrite fbyte_set_len, decide_True by lia.
    rewrite fbyte_with_pos. apply Hok. lia.
  - intros x Hx. rewrite fbyte_set_len, fbyte_with_pos. case_decide; [done|].
    symmetry. apply Hok. lia.
Qed.

Lemma written_file_ok f f' a data :
  0 ≤ a → file_ok f → new_cluster_written cs f f' a data → file_ok f'.
Proof.
  intros Ha Hok Hw i Hi. destruct Hw as [El _ Hout]. rewrite El in Hi.
  rewrite Hout by lia. apply Hok. lia.
Qed.

(** The invariant when a cluster is written whose address none of [K] has. *)
Lemma core_inv_written K c f' a data avail' :
  core_inv cs K c → (cs | a) → 0 ≤ a ≤ max_valid_cluster_offset (c_rc c) →
  new_cluster_written cs (c_file c) f' a data →
  NoDup (a :: K ++ nz (vec (ref_table (c_rc c))) ++ avail') →
  (∀ x, x ∈ avail' → x ∈ c_avail c) →
  core_inv cs (a :: K) {| c_file := f'; c_rc := c_rc c; c_avail := avail' |} ∧
  preserved cs (K ++ nz (vec (ref_table (c_rc c)))) (c_file c) f'.
Proof.
  intros Hi Hd Ha Hw Hnd Hsub. pose proof (ci_len _ _ _ Hi). pose proof (ci_max_small _ _ _ Hi).
  pose proof (ci_clus _ _ _ Hi) as Hcl. rewrite Forall_forall in Hcl.
  pose proof (nw_len _ _ _ _ _ Hw) as El.
  assert (∀ x, x ∈ K ++ nz (vec (ref_table (c_rc c))) ++ avail' →
    x ∈ K ++ nz (vec (ref_table (c_rc c))) ++ c_avail c) as Hsub'.
  { intros x. rewrite !elem_of_app. naive_solver. }
  split.
  - constructor; simpl; try apply Hi.
    + eapply written_file_ok; [|apply Hi|done]. lia.
    + rewrite El. lia.
    + right. apply Hi.
    + done.
    + rewrite Forall_forall. intros x [->|Hx%Hsub'%Hcl]%elem_of_cons; unfold clus in *; simpl.
      * rewrite El. split_and!; try done; lia.
      * rewrite El. split_and!; try tauto; lia.
    + eapply Forall_impl; [apply Hi|]. intros x Hx. simpl in Hx. rewrite El. lia.
  - apply (preserved_outside cs _ _ _ a); [lia|lia|done| | |apply Hw].
    + rewrite Forall_forall. intros x Hx. apply Hcl. rewrite !elem_of_app in *. tauto.
    + apply NoDup_cons in Hnd as [Hni _]. rewrite !elem_of_app in *. tauto.
Qed.

Lemma room_written n c f' a data rc avail' :
  new_cluster_written cs (c_file c) f' a data → (cs | a) →
  a = align_up (flen (c_file c)) cs ∨ a < flen (c_file c) →
  room cs (n + 1) c → max_valid_cluster_offset rc = max_valid_cluster_offset (c_rc c) →
  room cs n {| c_file := f'; c_rc := rc; c_avail := avail' |}.
Proof.
  intros Hw Hd Ha. unfold room. simpl. rewrite (nw_len _ _ _ _ _ Hw). intros Hr ->.
  pose proof (align_up_spec cs ltac:(lia) (flen (c_file c))) as [Hd' Hb].
  destruct Ha as [->|Ha].
  - rewrite Z.max_r by lia. rewrite align_up_aligned; [lia|lia|].
    by apply Z.divide_add_r; [|apply Z.divide_refl].
  - pose proof (started_cluster_end a (flen (c_file c)) Hd Ha).
    rewrite (align_up_between (flen (c_file c))) by lia. lia.
Qed.

(** ** Writing tables and blocks *)

Lemma write_block_written f a bs :
  0 ≤ a ≤ 2 ^ 56 → Z.of_nat (length bs) = cs →
  ∃ f', (let* _ := seek_start a in write_all bs) f = (f', Ok tt) ∧
    new_cluster_written cs f f' a (Some bs).
Proof.
  intros Ha Hbs. unfold mbind, write_all, file_write. rewrite seek_start_ok by lia.
  eexists. split; [reflexivity|].
  assert (bs ≠ []) by (intros ->; simpl in Hbs; lia). constructor.
  - simpl. rewrite flen_write_at by done. simpl. lia.
  - split; [simpl; rewrite flen_write_at by done; simpl; lia|].
    intros i Hi. rewrite fbyte_with_pos, fbyte_write_at, decide_True by (simpl; lia).
    do 2 f_equal. simpl. lia.
  - intros x Hx. rewrite fbyte_with_pos, fbyte_write_at, decide_False by (simpl; lia). done.
Qed.

Lemma cs_even : cs `div` 2 * 2 = cs ∧ cs `div` 8 * 8 = cs.
Proof.
  apply is_power_of_two_spec in Hpow as (k & Hk & E).
  assert (3 ≤ k).
  { destruct (Z.leb_spec 3 k); [done|]. assert (cs ≤ 2 ^ 2) by (rewrite E; apply Z.pow_le_mono_r; lia). lia. }
  assert (cs = 2 ^ (k - 3) * 8) as ->.
  { rewrite E. replace k with (k - 3 + 3) at 1 by lia. rewrite Z.pow_add_r by lia. done. }
  rewrite Z.div_mul by lia. split; [|done].
  replace (2 ^ (k - 3) * 8) with (2 ^ (k - 3) * 4 * 2) by lia. by rewrite Z.div_mul.
Qed.

Lemma write_refcount_block_written f a tbl :
  0 ≤ a ≤ 2 ^ 56 → Z.of_nat (length tbl) = cs `div` 2 →
  ∃ f', write_refcount_block a tbl f = (f', Ok tt) ∧
    new_cluster_written cs f f' a (Some (be_encode 2 tbl)).
Proof.
  intros Ha Hl. apply write_block_written; [done|].
  rewrite length_be_encode, Nat2Z.inj_mul, Hl. apply cs_even.
Qed.

(** Writing a cluster that is not in [K]. *)
Lemma core_inv_rewrite K c f' a data :
  core_inv cs K c → a ∈ nz (vec (ref_table (c_rc c))) →
  new_cluster_written cs (c_file c) f' a data →
  core_inv cs K (core_file c f') ∧ preserved cs K (c_file c) f' ∧ flen f' = flen (c_file c).
Proof.
  intros Hi Ha Hw. pose proof (ci_full _ _ _ Hi) as Hf. rewrite Forall_forall in Hf.
  pose proof (Hf a Ha) as Hfa. pose proof (nw_len _ _ _ _ _ Hw) as El.
  pose proof (ci_clus _ _ _ Hi) as Hcl. rewrite Forall_forall in Hcl.
  assert (clus cs (c_rc c) (c_file c) a) as (Hd & Hr & _) by (apply Hcl; set_solver).
  assert (flen f' = flen (c_file c)) as E by lia.
  split_and!; [|apply (preserved_outside cs _ _ _ a); [lia|lia|done| | |apply Hw]|done].
  - constructor; simpl; rewrite ?E; try apply Hi.
    + eapply written_file_ok; [|apply Hi|done]. lia.
    + rewrite Forall_forall. intros x Hx. unfold clus. rewrite E. by apply Hcl.
  - rewrite Forall_forall. intros x Hx. apply Hcl. set_solver.
  - intros Hin. pose proof (ci_nodup _ _ _ Hi) as Hnd. apply NoDup_app in Hnd as (_ & Hd' & _).
    apply (Hd' a Hin). set_solver.
Qed.

(** Writing a cluster of [K] that is in the file. *)
Lemma core_inv_rewrite_kept K c f' a data :
  core_inv cs K c → a ∈ K → a + cs ≤ flen (c_file c) →
  new_cluster_written cs (c_file c) f' a data →
  core_inv cs K (core_file c f') ∧ flen f' = flen (c_file c).
Proof.
  intros Hi Ha Hfa Hw. pose proof (nw_len _ _ _ _ _ Hw) as El.
  pose proof (ci_clus _ _ _ Hi) as Hcl. rewrite Forall_forall in Hcl.
  assert (clus cs (c_rc c) (c_file c) a) as (_ & Hr & _) by (apply Hcl; set_solver).
  assert (flen f' = flen (c_file c)) as E by lia. split; [|done].
  constructor; simpl; rewrite ?E; try apply Hi.
  - eapply written_file_ok; [|apply Hi|done]. lia.
  - rewrite Forall_forall. intros x Hx. unfold clus. rewrite E. by apply Hcl.
Qed.

Lemma core_inv_pos K c p : core_inv cs K c → core_inv cs K (core_file c (with_pos (c_file c) p)).
Proof. intros Hi. constructor; apply Hi. Qed.

Lemma core_inv_drop K K' c : core_inv cs (K' ++ K) c → 0 ∈ K → core_inv cs K c.
Proof.
  intros Hi H0'. constructor; try apply Hi; [done| |].
  - pose proof (ci_nodup _ _ _ Hi) as Hnd. rewrite <-app_assoc in Hnd.
    by apply NoDup_app in Hnd as (_ & _ & Hnd).
  - pose proof (ci_clus _ _ _ Hi) as Hcl. rewrite <-app_assoc in Hcl.
    by apply Forall_app in Hcl as [_ Hcl].
Qed.

Lemma core_inv_perm K K' c : K ≡ₚ K' → core_inv cs K c → core_inv cs K' c.
Proof.
  intros HK Hi. constructor; try apply Hi; rewrite <-HK; apply Hi.
Qed.

(** The cache of blocks may change as long as it holds blocks. *)
Lemma core_inv_cache K c m :
  core_inv cs K c →
  (∀ t b, m !! t = Some b → (∃ a, vec_get (ref_table (c_rc c)) t = Some a ∧ a ≠ 0) ∧
    Z.of_nat (length (vec b)) = cs `div` 2) →
  core_inv cs K (core_cache c m).
Proof. intros Hi Hm. constructor; try apply Hi. done. Qed.

(** A held cluster becomes a block of counts. *)
Lemma core_inv_set_ref K c t a :
  core_inv cs (a :: K) c → vec_get (ref_table (c_rc c)) t = Some 0 →
  a + cs ≤ flen (c_file c) → a ≠ 0 → core_inv cs K (core_ref c t a).
Proof.
  intros Hi Ht Hfull Ha. apply vec_get_Some in Ht as [Ht0 Ht].
  pose proof (nz_insert_zero _ _ a Ht Ha) as Hp.
  assert (K ++ nz (<[Z.to_nat t := a]> (vec (ref_table (c_rc c)))) ++ c_avail c ≡ₚ
    (a :: K) ++ nz (vec (ref_table (c_rc c))) ++ c_avail c) as Hperm.
  { rewrite Hp. simpl. by rewrite <-Permutation_middle. }
  constructor; simpl; rewrite ?vec_len_set, ?Hperm; try apply Hi.
  - pose proof (ci_zero _ _ _ Hi) as [?|?]%elem_of_cons; [congruence|done].
  - rewrite Hp. constructor; [done|]. apply Hi.
  - intros t' b Hb. destruct (ci_cache _ _ _ Hi t' b Hb) as [(a' & Ha' & Hne) Hl].
    split; [|done]. destruct (decide (t = t')) as [<-|].
    + exists a. split; [|done]. by eapply vec_get_set_eq.
    + exists a'. by rewrite vec_get_set_ne.
Qed.

(** A block of counts moves to a held cluster, and its old cluster is held. *)
Lemma core_inv_move_ref K c t a old :
  core_inv cs (a :: K) c → vec_get (ref_table (c_rc c)) t = Some old → old ≠ 0 →
  a + cs ≤ flen (c_file c) → a ≠ 0 → core_inv cs (old :: K) (core_ref c t a).
Proof.
  intros Hi Ht Hold Hfull Ha. apply vec_get_Some in Ht as [Ht0 Ht].
  pose proof (nz_insert_nonzero _ _ a old Ht Hold Ha) as Hp.
  assert ((old :: K) ++ nz (<[Z.to_nat t := a]> (vec (ref_table (c_rc c)))) ++ c_avail c ≡ₚ
    (a :: K) ++ nz (vec (ref_table (c_rc c))) ++ c_avail c) as Hperm.
  { transitivity (K ++ (old :: nz (<[Z.to_nat t := a]> (vec (ref_table (c_rc c))))) ++ c_avail c).
    - simpl. by rewrite <-Permutation_middle.
    - rewrite Hp. simpl. by rewrite <-Permutation_middle. }
  constructor; simpl; rewrite ?vec_len_set, ?Hperm; try apply Hi.
  - right. pose proof (ci_zero _ _ _ Hi) as [?|?]%elem_of_cons; [congruence|done].
  - assert (Forall (λ x, x + cs ≤ flen (c_file c)) (old :: nz (<[Z.to_nat t := a]> (vec (ref_table (c_rc c))))))
      as Hall by (rewrite Hp; constructor; [done|apply Hi]).
    by apply Forall_cons in Hall as [_ Hall].
  - intros t' b Hb. destruct (ci_cache _ _ _ Hi t' b Hb) as [(a' & Ha' & Hne) Hl].
    split; [|done]. destruct (decide (t = t')) as [<-|].
    + exists a. split; [|done]. by eapply vec_get_set_eq.
    + exists a'. by rewrite vec_get_set_ne.
Qed.

(** ** Reference counts *)

Section Cache.
Context `{HashOrderLaws}.

(** Inserting in a full cache evicts one block, which the callback writes if dirty. *)
Lemma cache_insert_spec c f index block cb :
  0 < capacity c →
  (∀ e b, cmap c !! e = Some b → dirty b = true → ∃ f', cb e b f = (f', Ok tt)) →
  ∃ m' f', cache_insert index block cb (c, f) =
      ((with_cmap c (<[index := block]> m'), f'), Ok tt) ∧
    (m' = cmap c ∧ f' = f ∨
     ∃ e b, cmap c !! e = Some b ∧ m' = delete e (cmap c) ∧
       (if dirty b then cb e b f = (f', Ok tt) else f' = f)).
Proof.
  intros Hcap Hcb. unfold cache_insert.
  destruct (Z.eqb_spec (Z.of_nat (base.size (cmap c))) (capacity c)) as [E|E].
  - pose proof (hash_iter_perm (cmap c)) as Hp.
    destruct (hash_iter (cmap c)) as [|[e b'] l].
    { apply Permutation_length in Hp. simpl in Hp. rewrite length_map_to_list in Hp. lia. }
    assert (cmap c !! e = Some b') as He
      by (apply elem_of_map_to_list; rewrite <-Hp; by left).
    rewrite He. destruct (dirty b') eqn:Hd.
    + destruct (Hcb e b' He Hd) as [f' Hf']. rewrite Hf'.
      exists (delete e (cmap c)), f'. split; [done|]. right. exists e, b'.
      split_and!; [done|done|by rewrite Hd].
    + exists (delete e (cmap c)), f. split; [done|]. right. exists e, b'.
      split_and!; [done|done|by rewrite Hd].
  - exists (cmap c), f. split; [done|]. by left.
Qed.

Lemma ref_clus K c t a :
  core_inv cs K c → vec_get (ref_table (c_rc c)) t = Some a → a ≠ 0 →
  a ∈ nz (vec (ref_table (c_rc c))) ∧ clus cs (c_rc c) (c_file c) a ∧ a + cs ≤ flen (c_file c).
Proof.
  intros Hi [_ Ht]%vec_get_Some Ha.
  assert (a ∈ nz (vec (ref_table (c_rc c)))) as Hin
    by (apply elem_of_nz; split; [by eapply list_elem_of_lookup_2|done]).
  pose proof (ci_full _ _ _ Hi) as Hf. pose proof (ci_clus _ _ _ Hi) as Hc.
  rewrite Forall_forall in Hf, Hc. split_and!; [done|apply Hc; set_solver|by apply Hf].
Qed.

Lemma insert_refblock_spec K c t table a :
  core_inv cs K c → vec_get (ref_table (c_rc c)) t = Some a → a ≠ 0 →
  Z.of_nat (length (vec table)) = cs `div` 2 → cmap (refblock_cache (c_rc c)) !! t = None →
  ∃ m' f', insert_refblock t table (c_rc c, c_file c) =
      ((c_rc (core_cache c (<[t := table]> m')), f'), Ok tt) ∧
    core_inv cs K (core_file (core_cache c (<[t := table]> m')) f') ∧
    preserved cs K (c_file c) f' ∧ flen f' = flen (c_file c).
Proof.
  intros Hi Ht Ha Hl Hnone.
  assert (∀ e b, cmap (refblock_cache (c_rc c)) !! e = Some b →
    ∃ f', evict_refblock (c_rc c) e b (c_file c) = (f', Ok tt) ∧
    ∃ x d, x ∈ nz (vec (ref_table (c_rc c))) ∧ new_cluster_written cs (c_file c) f' x d) as Hev.
  { intros e b Hb. destruct (ci_cache _ _ _ Hi e b Hb) as [(x & Hx & Hne) Hlen].
    destruct (ref_clus K c e x Hi Hx Hne) as (Hin & (_ & Hr & _) & _).
    pose proof (ci_max_small _ _ _ Hi).
    destruct (write_refcount_block_written (c_file c) x (vec b)) as (f' & Ef & Hw); [lia|done|].
    exists f'. unfold evict_refblock. rewrite Hx, Ef. eauto. }
  destruct (cache_insert_spec (refblock_cache (c_rc c)) (c_file c) t table
    (evict_refblock (c_rc c))) as (m' & f' & E & Hcase).
  { rewrite (ci_cap _ _ _ Hi). lia. }
  { intros e b Hb _. destruct (Hev e b Hb) as (f' & ? & _). eauto. }
  exists m', f'. unfold insert_refblock. rewrite E. split; [done|].
  assert (m' ⊆ cmap (refblock_cache (c_rc c))) as Hsub.
  { destruct Hcase as [[-> _]|(e & b & _ & -> & _)]; [done|apply delete_subseteq]. }
  assert (core_inv cs K (core_file c f') ∧ preserved cs K (c_file c) f' ∧
    flen f' = flen (c_file c)) as (Hi' & Hpres & Hlen).
  { destruct Hcase as [[_ ->]|(e & b & Hb & _ & Hf)].
    - split_and!; [by destruct c|apply preserved_refl|done].
    - destruct (Hev e b Hb) as (f'' & Ef & x & d & Hin & Hw). destruct (dirty b).
      + simplify_eq. rewrite Ef in Hf. simplify_eq. by eapply core_inv_rewrite.
      + subst f'. split_and!; [by destruct c|apply preserved_refl|done]. }
  split_and!; [|done|done].
  change (core_inv cs K (core_cache (core_file c f') (<[t:=table]> m'))).
  apply core_inv_cache; [done|]. intros t' b [[<- <-]|[Hne Hb]]%lookup_insert_Some; simpl.
  - eauto.
  - eapply (ci_cache _ _ _ Hi). by eapply lookup_weaken.
Qed.

End Cache.

Section New.
Context `{ZeroLaws} `{Disk B}.
Implicit Types q : QcowFile B.

Lemma zero_cluster_written r a :
  cluster_size r = cs → 0 ≤ a ≤ 2 ^ 56 →
  ∃ f', zero_cluster a r = (with_rfile r f', Ok tt) ∧
    new_cluster_written cs (rfile r) f' a None.
Proof.
  intros Ecs Ha. unfold zero_cluster, on_file, mbind. rewrite seek_start_ok by lia.
  eexists. split; [reflexivity|]. rewrite Ecs. constructor.
  - simpl. by rewrite write_zeroes_len by lia.
  - split; [simpl; rewrite write_zeroes_len by lia; simpl; lia|].
    intros i Hi. rewrite fbyte_with_pos, write_zeroes_byte by lia.
    by rewrite decide_True by lia.
  - intros x Hx. rewrite fbyte_with_pos, write_zeroes_byte by lia.
    by rewrite decide_False by lia.
Qed.

(** An available cluster is taken and written over. *)
Lemma get_new_cluster_pop q data l a :
  cluster_size (raw_file q) = cs → 0 ≤ a ≤ 2 ^ 56 → avail_clusters q = l ++ [a] →
  (∀ d, data = Some d → Z.of_nat (length d) = cs) →
  ∃ f', get_new_cluster data q =
      (set_core q {| c_file := f'; c_rc := refcounts q; c_avail := l |}, Ok a) ∧
    new_cluster_written cs (rfile (raw_file q)) f' a data.
Proof.
  intros Ecs Ha El Hdata. unfold get_new_cluster. rewrite El, last_snoc.
  unfold mbind, mmodify, on_raw. cbn [raw_file with_avail].
  destruct data as [d|].
  - destruct (write_cluster_written (raw_file q) a d) as (f' & -> & Hw); [done..|by apply Hdata|].
    exists f'. rewrite El, removelast_last. by destruct q.
  - destruct (zero_cluster_written (raw_file q) a) as (f' & -> & Hw); [done..|].
    exists f'. rewrite El, removelast_last. by destruct q.
Qed.

(** Without available clusters the file grows. *)
Lemma get_new_cluster_end q data :
  cluster_size (raw_file q) = cs → cluster_mask (raw_file q) = cs - 1 →
  file_ok (rfile (raw_file q)) → 0 ≤ flen (rfile (raw_file q)) ≤ 2 ^ 62 →
  avail_clusters q = [] → (∀ d, data = Some d → Z.of_nat (length d) = cs) →
  max_valid_cluster_offset (refcounts q) ≤ 2 ^ 56 →
  let a := align_up (flen (rfile (raw_file q))) cs in
  a ≤ max_valid_cluster_offset (refcounts q) →
  ∃ f', get_new_cluster data q =
      (set_core q {| c_file := f'; c_rc := refcounts q; c_avail := [] |}, Ok a) ∧
    new_cluster_written cs (rfile (raw_file q)) f' a data.
Proof.
  intros Ecs Em Hok Hl E Hdata Hms a Ha. unfold get_new_cluster. rewrite E. simpl last. cbv iota.
  unfold mbind at 1, on_raw at 1. rewrite add_cluster_end_spec by done. cbv zeta. fold a.
  pose proof (align_up_spec cs ltac:(lia) (flen (rfile (raw_file q)))) as [Hd Hb]. fold a in Hd, Hb.
  destruct (Z.ltb_spec (max_valid_cluster_offset (refcounts q)) a); [lia|].
  set (f1 := (set_len (a + cs) (with_pos (rfile (raw_file q)) (flen (rfile (raw_file q))))).1).
  pose proof (add_end_written (rfile (raw_file q)) a Hok ltac:(lia) ltac:(done)) as Hw1.
  fold f1 in Hw1. destruct data as [d|].
  - destruct (write_cluster_written (with_rfile (raw_file q) f1) a d) as (f' & Ew & Hw);
      [done|lia|by apply Hdata|].
    exists f'. unfold mbind, on_raw. cbn [raw_file with_raw]. rewrite Ew.
    split; [destruct q; simpl in *; by rewrite E|].
    destruct Hw as [El2 Hh2 Ho2], Hw1 as [El1 Hh1 Ho1]. constructor; [|done|].
    + rewrite El2. simpl in *. lia.
    + intros x Hx. by rewrite Ho2, Ho1.
  - exists f1. unfold mbind, mret. split; [destruct q; simpl in *; by rewrite E|done].
Qed.

Lemma get_new_cluster_spec K q data :
  cluster_size (raw_file q) = cs → cluster_mask (raw_file q) = cs - 1 →
  core_inv cs K (core q) → room cs 1 (core q) →
  (∀ d, data = Some d → Z.of_nat (length d) = cs) →
  ∃ c' a, get_new_cluster data q = (set_core q c', Ok a) ∧
    core_inv cs (a :: K) c' ∧
    preserved cs (K ++ nz (vec (ref_table (refcounts q)))) (rfile (raw_file q)) (c_file c') ∧
    holds cs (c_file c') a data ∧ c_rc c' = refcounts q ∧
    (∀ n, room cs (n + 1) (core q) → room cs n c') ∧
    taken cs (core q) c' a.
Proof.
  intros Ecs Em Hi Hr Hdata. pose proof (ci_len _ _ _ Hi) as Hl.
  pose proof (ci_max_small _ _ _ Hi) as Hms.
  pose proof (ci_clus _ _ _ Hi) as Hcl. rewrite Forall_forall in Hcl.
  pose proof (ci_nodup _ _ _ Hi) as Hnd. simpl in *.
  destruct (avail_clusters q) as [|a l _] eqn:E using rev_ind.
  - pose proof (align_up_spec cs ltac:(lia) (flen (rfile (raw_file q)))) as [Hd Hb].
    unfold room in Hr. simpl in Hr.
    destruct (get_new_cluster_end q data) as (f' & Eg & Hw); try done; [apply Hi|lia..|].
    set (a := align_up (flen (rfile (raw_file q))) cs) in *.
    eexists _, a. split; [exact Eg|]. rewrite app_nil_r in *.
    destruct (core_inv_written K (core q) f' a data []) as [Hci Hpres]; try done; simpl.
    { lia. }
    { rewrite app_nil_r. constructor; [|done]. intros Hin%Hcl. unfold clus in Hin. lia. }
    { set_solver. }
    split_and!; [done|done|apply Hw|done| |].
    + intros n Hn. eapply (room_written n (core q)); eauto.
    + right. split_and!; [done|done|done|]. simpl. rewrite (nw_len _ _ _ _ _ Hw). lia.
  - assert (clus cs (refcounts q) (rfile (raw_file q)) a) as (Hd & Ha & Hlt)
      by (apply Hcl; set_solver).
    destruct (get_new_cluster_pop q data l a) as (f' & Eg & Hw); try done; [lia|].
    eexists _, a. split; [exact Eg|].
    destruct (core_inv_written K (core q) f' a data l) as [Hci Hpres]; try done; simpl.
    { revert Hnd. rewrite !app_assoc. by rewrite (Permutation_app_comm _ [a]). }
    { rewrite E. set_solver. }
    split_and!; [done|done|apply Hw|done| |left; split; [done|]].
    + intros n Hn. eapply (room_written n (core q)); eauto.
    + simpl. rewrite (nw_len _ _ _ _ _ Hw).
      pose proof (started_cluster_end a (flen (rfile (raw_file q))) Hd Hlt).
      pose proof (align_up_spec cs ltac:(lia) (flen (rfile (raw_file q)))).
      apply align_up_between. lia.
Qed.

(** ** Setting a count *)

Section Count.
Context `{HashOrderLaws}.

Lemma refcount_index K c address :
  core_inv cs K c →
  get_refcount_index (c_rc c) address =
  (refblock_of cs address, (address `div` cs) `mod` (cs `div` 2)).
Proof.
  intros Hi. unfold get_refcount_index. by rewrite (ci_cs _ _ _ Hi), (ci_entries _ _ _ Hi).
Qed.

Lemma refblock_valid K c address :
  core_inv cs K c → 0 ≤ address ≤ max_valid_cluster_offset (c_rc c) →
  ∃ old, vec_get (ref_table (c_rc c)) (refblock_of cs address) = Some old.
Proof.
  intros Hi Ha. rewrite (ci_max _ _ _ Hi) in Ha. pose proof cs_even as [He _].
  set (n := vec_len (ref_table (c_rc c))) in *. set (e := cs `div` 2) in *.
  assert (0 ≤ address `div` cs) by (apply Z.div_pos; lia).
  assert (address `div` cs < n * e) by (apply Z.div_lt_upper_bound; lia).
  assert (0 ≤ refblock_of cs address) by (apply Z.div_pos; [done|lia]).
  assert (refblock_of cs address < n) by (apply Z.div_lt_upper_bound; lia).
  unfold vec_get. destruct (Z.leb_spec 0 (refblock_of cs address)); [|lia].
  apply lookup_lt_is_Some_2. unfold n, vec_len in *. lia.
Qed.

(** The stored block after a count is set. *)
Lemma block_index_valid b address :
  Z.of_nat (length (vec b)) = cs `div` 2 →
  ∃ x, vec_get b ((address `div` cs) `mod` (cs `div` 2)) = Some x.
Proof.
  intros Hl. pose proof cs_even as [He _].
  pose proof (Z.mod_pos_bound (address `div` cs) (cs `div` 2) ltac:(lia)) as Hm.
  unfold vec_get. destruct (Z.leb_spec 0 ((address `div` cs) `mod` (cs `div` 2))); [|lia].
  apply lookup_lt_is_Some_2. lia.
Qed.

(** The three ways [update_refblock] ends. *)
Lemma update_refblock_spec K c t address old v nc b :
  core_inv cs K c → cmap (refblock_cache (c_rc c)) !! t = Some b →
  let bi := (address `div` cs) `mod` (cs `div` 2) in
  let m := <[t := vec_set b bi v]> (cmap (refblock_cache (c_rc c))) in
  update_refblock t bi old v nc (c_rc c, c_file c) =
  if dirty b then ((c_rc (core_cache c m), c_file c), Ok None)
  else match nc with
       | Some (a, _) => ((c_rc (core_cache (core_ref c t a) m), c_file c), Ok (Some old))
       | None => ((c_rc c, c_file c), Err NeedNewCluster)
       end.
Proof.
  intros Hi Hb bi m. destruct (ci_cache _ _ _ Hi t b Hb) as [_ Hl].
  destruct (block_index_valid b address Hl) as [x Hx]. fold bi in Hx.
  unfold update_refblock. rewrite Hb. destruct (dirty b); simpl.
  - by rewrite Hx.
  - destruct nc as [[a tb]|]; [by rewrite Hx|done].
Qed.

(** Storing in the cache keeps the invariant. *)
Lemma core_inv_store K c t b bi v :
  core_inv cs K c → cmap (refblock_cache (c_rc c)) !! t = Some b →
  core_inv cs K (core_cache c (<[t := vec_set b bi v]> (cmap (refblock_cache (c_rc c))))).
Proof.
  intros Hi Hb. apply core_inv_cache; [done|].
  intros t' b' [[<- <-]|[_ Hb']]%lookup_insert_Some; [|by apply (ci_cache _ _ _ Hi)].
  destruct (ci_cache _ _ _ Hi t b Hb) as [? Hl]. split; [done|].
  simpl. by rewrite length_insert.
Qed.

(** [rc_set_cluster_refcount] when the block is in the cache. *)
Lemma rc_set_cached K c address v nc b :
  core_inv cs K c → 0 ≤ address ≤ max_valid_cluster_offset (c_rc c) →
  let t := refblock_of cs address in
  let bi := (address `div` cs) `mod` (cs `div` 2) in
  cmap (refblock_cache (c_rc c)) !! t = Some b →
  ∃ old, vec_get (ref_table (c_rc c)) t = Some old ∧ old ≠ 0 ∧
  rc_set_cluster_refcount address v nc (c_rc c, c_file c) =
  update_refblock t bi old v nc (c_rc c, c_file c).
Proof.
  intros Hi Ha t bi Hb. destruct (ci_cache _ _ _ Hi t b Hb) as [(old & Hold & Hne) _].
  exists old. split_and!; [done..|]. unfold rc_set_cluster_refcount.
  rewrite (refcount_index K c) by done. fold t bi. rewrite Hold.
  unfold mbind, fill_refblock. by rewrite (contains_key_Some _ _ _ Hb).
Qed.

Lemma loop_dirty K q c address v fuel nc added :
  core_inv cs K c → 0 ≤ address ≤ max_valid_cluster_offset (c_rc c) →
  refblock_dirty c (refblock_of cs address) →
  ∃ c', set_refcount_loop (S fuel) address v nc added (set_core q c) =
      (set_core q c', Ok (added, [])) ∧ call_ok cs K 0 c c' [].
Proof.
  intros Hi Ha (b & Hb & Hd). simpl.
  destruct (rc_set_cached K c address v nc b Hi Ha Hb) as (old & _ & _ & E).
  rewrite (update_refblock_spec K) with (b := b) in E by done. rewrite Hd in E.
  set (c' := core_cache c _) in E. exists c'.
  rewrite (on_refcounts_core _ q c c' _ E) by done. split; [done|].
  constructor.
  - by apply core_inv_store.
  - apply preserved_refl.
  - done.
  - intros n. unfold room. simpl. by rewrite Z.add_0_r.
Qed.

Lemma elem_of_set_ref v t a old : vec_get v t = Some old → a ≠ 0 → a ∈ nz (vec (vec_set v t a)).
Proof.
  intros [_ Ht]%vec_get_Some Ha. apply elem_of_nz. split; [|done]. simpl.
  apply (list_elem_of_lookup_2 _ (Z.to_nat t)). apply list_lookup_insert_eq.
  by eapply lookup_lt_Some.
Qed.

(** The clean block is given the held cluster [a]. *)
Lemma loop_clean K q c address v fuel a tb added b :
  core_inv cs (a :: K) c → 0 ≤ address ≤ max_valid_cluster_offset (c_rc c) →
  let t := refblock_of cs address in
  cmap (refblock_cache (c_rc c)) !! t = Some b → dirty b = false →
  a + cs ≤ flen (c_file c) → a ≠ 0 →
  ∃ c' old, set_refcount_loop (S fuel) address v (Some (a, tb)) added (set_core q c) =
      (set_core q c', Ok (added, [old])) ∧ core_inv cs (old :: K) c' ∧
    c_file c' = c_file c ∧ c_avail c' = c_avail c ∧ refblock_dirty c' t ∧
    a ∈ nz (vec (ref_table (c_rc c'))) ∧
    max_valid_cluster_offset (c_rc c') = max_valid_cluster_offset (c_rc c).
Proof.
  intros Hi Ha t Hb Hd Hfull Hne. simpl.
  destruct (rc_set_cached _ c address v (Some (a, tb)) b Hi Ha Hb) as (old & Hold & Ho0 & E).
  fold t in Hold, E. rewrite (update_refblock_spec (a :: K)) with (b := b) in E by done.
  rewrite Hd in E. set (c' := core_cache (core_ref c t a) _) in E. exists c', old.
  rewrite (on_refcounts_core _ q c c' _ E) by done. split; [done|].
  pose proof (core_inv_move_ref K c t a old Hi Hold Ho0 Hfull Hne) as Hi'.
  split_and!; [|done|done| | |done].
  - exact (core_inv_store (old :: K) (core_ref c t a) t b _ v Hi' Hb).
  - eexists. simpl. by rewrite lookup_insert_eq.
  - by eapply elem_of_set_ref.
Qed.

(** A block that is not in the cache is put there, in the cluster [a]. *)
Lemma rc_set_insert K K' c address v a tb old :
  core_inv cs K c → let t := refblock_of cs address in
  cmap (refblock_cache (c_rc c)) !! t = None → vec_get (ref_table (c_rc c)) t = Some old →
  core_inv cs K' (core_ref c t a) → a ≠ 0 → Z.of_nat (length (vec tb)) = cs `div` 2 →
  ∃ c2, rc_set_cluster_refcount address v (Some (a, tb)) (c_rc c, c_file c) =
      update_refblock t ((address `div` cs) `mod` (cs `div` 2)) old v None (c_rc c2, c_file c2) ∧
    core_inv cs K' c2 ∧ preserved cs K' (c_file c) (c_file c2) ∧
    flen (c_file c2) = flen (c_file c) ∧ c_avail c2 = c_avail c ∧
    max_valid_cluster_offset (c_rc c2) = max_valid_cluster_offset (c_rc c) ∧
    ref_table (c_rc c2) = vec_set (ref_table (c_rc c)) t a ∧
    cmap (refblock_cache (c_rc c2)) !! t = Some tb.
Proof.
  intros Hi t Hb Hold Hi' Hne Htb.
  pose proof (vec_get_set_eq _ _ a _ Hold) as Hget.
  destruct (insert_refblock_spec K' (core_ref c t a) t tb a Hi' Hget Hne Htb Hb)
    as (m' & f' & E & Hi2 & Hpres & Hlen).
  exists (core_file (core_cache (core_ref c t a) (<[t:=tb]> m')) f').
  split; [|split_and!; try done; apply lookup_insert_eq].
  unfold rc_set_cluster_refcount. rewrite (refcount_index K c) by done. fold t.
  rewrite Hold. unfold mbind, fill_refblock. rewrite (contains_key_None _ _ Hb).
  unfold mbind, mmodify.
  change (insert_refblock t tb (with_ref_table (c_rc c) (vec_set (ref_table (c_rc c)) t a),
    c_file c)) with (insert_refblock t tb (c_rc (core_ref c t a), c_file (core_ref c t a))).
  by rewrite E.
Qed.

(** The block without a cluster is created in the held cluster [a]. *)
Lemma loop_fresh K q c address v fuel a added :
  core_inv cs (a :: K) c → 0 ≤ address ≤ max_valid_cluster_offset (c_rc c) →
  let t := refblock_of cs address in
  cmap (refblock_cache (c_rc c)) !! t = None → vec_get (ref_table (c_rc c)) t = Some 0 →
  a + cs ≤ flen (c_file c) → a ≠ 0 →
  ∃ c', set_refcount_loop (S fuel) address v
        (Some (a, vec_new (refcount_block_entries (c_rc c)))) added (set_core q c) =
      (set_core q c', Ok (added, [])) ∧ core_inv cs K c' ∧
    preserved cs K (c_file c) (c_file c') ∧ flen (c_file c') = flen (c_file c) ∧
    c_avail c' = c_avail c ∧ refblock_dirty c' t ∧
    a ∈ nz (vec (ref_table (c_rc c'))) ∧
    max_valid_cluster_offset (c_rc c') = max_valid_cluster_offset (c_rc c).
Proof.
  intros Hi Ha t Hb Hz Hfull Hne. set (tb := vec_new (refcount_block_entries (c_rc c))).
  assert (Z.of_nat (length (vec tb)) = cs `div` 2) as Htb.
  { unfold tb. simpl. rewrite length_replicate, (ci_entries _ _ _ Hi).
    pose proof (proj1 cs_even). lia. }
  destruct (rc_set_insert (a :: K) K c address v a tb 0 Hi Hb Hz
    (core_inv_set_ref K c t a Hi Hz Hfull Hne) Hne Htb)
    as (c2 & Er & Hi2 & Hpres & Hlen & Hav & Hmax & Href & Hb2).
  rewrite (update_refblock_spec K) with (b := tb) in Er by done.
  change (dirty tb) with true in Er. cbv iota in Er.
  set (c3 := core_cache c2 _) in Er. exists c3. simpl.
  rewrite (on_refcounts_core _ q c c3 _ Er) by done. split; [done|].
  split_and!; [by apply core_inv_store|done|done|done| | |done].
  - eexists. simpl. by rewrite lookup_insert_eq.
  - change (ref_table (c_rc c3)) with (ref_table (c_rc c2)). rewrite Href.
    by eapply elem_of_set_ref.
Qed.

Lemma loop_need_clean K q c address v fuel added b :
  core_inv cs K c → 0 ≤ address ≤ max_valid_cluster_offset (c_rc c) →
  cmap (refblock_cache (c_rc c)) !! refblock_of cs address = Some b → dirty b = false →
  set_refcount_loop (S fuel) address v None added (set_core q c) =
  continue_with_new fuel address v (refcount_block_entries (c_rc c)) added (set_core q c).
Proof.
  intros Hi Ha Hb Hd. simpl.
  destruct (rc_set_cached K c address v None b Hi Ha Hb) as (old & _ & _ & E).
  rewrite (update_refblock_spec K) with (b := b) in E by done. rewrite Hd in E.
  by rewrite (on_refcounts_core _ q c c _ E).
Qed.

Lemma rc_set_uncached_none K c address v :
  core_inv cs K c → cmap (refblock_cache (c_rc c)) !! refblock_of cs address = None →
  ∀ old, vec_get (ref_table (c_rc c)) (refblock_of cs address) = Some old →
  rc_set_cluster_refcount address v None (c_rc c, c_file c) =
  ((c_rc c, c_file c), Err (if old =? 0 then NeedNewCluster else NeedCluster old)).
Proof.
  intros Hi Hb old Hold. unfold rc_set_cluster_refcount.
  rewrite (refcount_index K c) by done. rewrite Hold.
  unfold mbind, fill_refblock. by rewrite (contains_key_None _ _ Hb).
Qed.

Lemma loop_need_fresh K q c address v fuel added :
  core_inv cs K c → cmap (refblock_cache (c_rc c)) !! refblock_of cs address = None →
  vec_get (ref_table (c_rc c)) (refblock_of cs address) = Some 0 →
  set_refcount_loop (S fuel) address v None added (set_core q c) =
  continue_with_new fuel address v (refcount_block_entries (c_rc c)) added (set_core q c).
Proof.
  intros Hi Hb Hz. simpl. pose proof (rc_set_uncached_none K c address v Hi Hb 0 Hz) as E.
  by rewrite (on_refcounts_core _ q c c _ E).
Qed.

Lemma read_refcount_block_ok f a :
  0 ≤ a ≤ 2 ^ 56 → a + cs ≤ flen f →
  ∃ l, read_refcount_block cs a f = (with_pos f (a + cs), Ok l) ∧
    Z.of_nat (length l) = cs `div` 2 ∧
    l = be_words 2 (Z.to_nat (cs `div` 2)) (get_bytes f a cs).
Proof.
  intros Ha Hf. pose proof (proj1 cs_even) as He. unfold read_refcount_block, mbind.
  rewrite seek_start_ok by lia. unfold read_words, mbind, read_exact. simpl fpos.
  replace (cs `div` 2 * Z.of_nat 2) with cs by lia. simpl flen.
  destruct (Z.leb_spec (a + cs) (flen f)); [|lia]. eexists. split; [reflexivity|].
  rewrite length_be_words. split; [lia|done].
Qed.

(** Writing the address of a block back. *)
Lemma core_inv_same_ref K c t old :
  core_inv cs K c → vec_get (ref_table (c_rc c)) t = Some old → core_inv cs K (core_ref c t old).
Proof.
  intros Hi Hold.
  assert (<[Z.to_nat t := old]> (vec (ref_table (c_rc c))) = vec (ref_table (c_rc c))) as Hsame.
  { apply vec_get_Some in Hold as [_ Hold]. by apply list_insert_id. }
  constructor; simpl; rewrite ?vec_len_set, ?Hsame; try apply Hi.
  intros t' b' Hb'. destruct (ci_cache _ _ _ Hi t' b' Hb') as [(x & Hx & Hx0) Hlen].
  split; [|done]. exists x. split; [|done]. revert Hx. unfold vec_get. simpl. by rewrite Hsame.
Qed.

(** A block that is not in the cache is read, and then needs a new cluster. *)
Lemma loop_reload K q c address v fuel added old :
  cluster_size (raw_file q) = cs →
  core_inv cs K c → 0 ≤ address ≤ max_valid_cluster_offset (c_rc c) →
  let t := refblock_of cs address in
  cmap (refblock_cache (c_rc c)) !! t = None → vec_get (ref_table (c_rc c)) t = Some old →
  old ≠ 0 →
  ∃ c2 b, set_refcount_loop (S (S fuel)) address v None added (set_core q c) =
      continue_with_new fuel address v (refcount_block_entries (c_rc c2)) added (set_core q c2) ∧
    core_inv cs K c2 ∧ preserved cs K (c_file c) (c_file c2) ∧
    flen (c_file c2) = flen (c_file c) ∧ c_avail c2 = c_avail c ∧
    max_valid_cluster_offset (c_rc c2) = max_valid_cluster_offset (c_rc c) ∧
    cmap (refblock_cache (c_rc c2)) !! t = Some b ∧ dirty b = false.
Proof.
  intros Ecs Hi Ha t Hb Hold Hne. destruct (ref_clus K c t old Hi Hold Hne) as (Hin & Hcl & Hfull).
  pose proof (ci_max_small _ _ _ Hi). destruct Hcl as (_ & Hr & _).
  destruct (read_refcount_block_ok (c_file c) old) as (l & El & Hl & _); [lia|done|].
  set (c1 := core_file c (with_pos (c_file c) (old + cs))).
  assert (core_inv cs K c1) as Hi1 by by apply core_inv_pos.
  destruct (rc_set_insert K K c1 address v old (from_vec l) old Hi1 Hb Hold
    (core_inv_same_ref K c1 t old Hi1 Hold) Hne Hl)
    as (c2 & Er & Hi2 & Hpres & Hlen & Hav & Hmax & _ & Hb2).
  rewrite (update_refblock_spec K) with (b := from_vec l) in Er by done. cbn [dirty from_vec] in Er.
  exists c2, (from_vec l). split; [|split_and!; done].
  simpl. pose proof (rc_set_uncached_none K c address v Hi Hb old Hold) as E.
  destruct (Z.eqb_spec old 0); [done|]. rewrite (on_refcounts_core _ q c c _ E) by done.
  unfold mbind at 1, on_rfile, on_raw, on_file.
  cbn [raw_file set_core with_avail with_refcounts with_raw with_rfile rfile cluster_size].
  rewrite Ecs, El. cbn beta iota.
  change (with_raw (set_core q c) _) with (set_core q c1).
  by rewrite (on_refcounts_core _ q c1 c2 _ Er).
Qed.

(** ** One pass *)

Section Pass.
Context (q : QcowFile B).
Context (Ecs : cluster_size (raw_file q) = cs) (Em : cluster_mask (raw_file q) = cs - 1).

(** [get_new_cluster_spec] for a core in the place of that of [q]. *)
Lemma new_cluster_core K c :
  core_inv cs K c → room cs 1 c →
  ∃ c1 a, get_new_cluster None (set_core q c) = (set_core q c1, Ok a) ∧
    core_inv cs (a :: K) c1 ∧ preserved cs K (c_file c) (c_file c1) ∧
    a + cs ≤ flen (c_file c1) ∧ a ≠ 0 ∧ c_rc c1 = c_rc c ∧
    (∀ n, room cs (n + 1) c → room cs n c1) ∧ taken cs c c1 a.
Proof.
  intros Hi Hr.
  destruct (get_new_cluster_spec K (set_core q c) None) as
    (c1 & a & E & Hi1 & Hpres & [Hfull _] & Hrc & Hroom & Htk);
    [done|done|by rewrite core_set_core|by rewrite core_set_core|done|].
  exists c1, a. rewrite E, core_set_core in *. split_and!; try done.
  - eapply preserved_subset; [|exact Hpres]. set_solver.
  - pose proof (ci_nodup _ _ _ Hi1) as Hnd. pose proof (ci_zero _ _ _ Hi) as Hz.
    simpl in Hnd. apply NoDup_cons in Hnd as [Hni _]. intros ->. set_solver.
Qed.

(** The two ways a pass that needs a new cluster ends. *)
Lemma continue_clean K c address v fuel entries b :
  core_inv cs K c → 0 ≤ address ≤ max_valid_cluster_offset (c_rc c) → room cs 1 c →
  let t := refblock_of cs address in
  cmap (refblock_cache (c_rc c)) !! t = Some b → dirty b = false →
  ∃ c' a un, continue_with_new (S fuel) address v entries [] (set_core q c) =
      (set_core q c', Ok ([a], un)) ∧ counted cs K c c' t a un.
Proof.
  intros Hi Ha Hr t Hb Hd.
  destruct (new_cluster_core K c Hi Hr) as (c1 & a & E & Hi1 & Hpres & Hfull & Hne & Hrc & Hroom & Htk).
  unfold continue_with_new, mbind. rewrite E. cbn [app].
  destruct (loop_clean K q c1 address v fuel a (vec_new entries) [a] b) as
    (c' & old & -> & Hi' & Ef & Eav & Hdirty & Hin & Hmax); rewrite ?Hrc; try done.
  exists c', a, [old]. split; [done|]. constructor; try done.
  - by rewrite Ef.
  - by rewrite Hmax, Hrc.
  - intros n Hn. specialize (Hroom n Hn). unfold room in *. by rewrite Ef, Hmax.
  - unfold taken in *. by rewrite Ef, Eav.
Qed.

Lemma continue_fresh K c address v fuel :
  core_inv cs K c → 0 ≤ address ≤ max_valid_cluster_offset (c_rc c) → room cs 1 c →
  let t := refblock_of cs address in
  cmap (refblock_cache (c_rc c)) !! t = None → vec_get (ref_table (c_rc c)) t = Some 0 →
  ∃ c' a un, continue_with_new (S fuel) address v (refcount_block_entries (c_rc c)) []
      (set_core q c) = (set_core q c', Ok ([a], un)) ∧ counted cs K c c' t a un.
Proof.
  intros Hi Ha Hr t Hb Hz.
  destruct (new_cluster_core K c Hi Hr) as (c1 & a & E & Hi1 & Hpres & Hfull & Hne & Hrc & Hroom & Htk).
  unfold continue_with_new, mbind. rewrite E. cbn [app]. rewrite <-Hrc.
  destruct (loop_fresh K q c1 address v fuel a [a]) as
    (c' & -> & Hi' & Hpres' & El & Eav & Hdirty & Hin & Hmax); rewrite ?Hrc; try done.
  exists c', a, []. split; [done|]. constructor; try done.
  - by eapply preserved_trans.
  - by rewrite Hmax, Hrc.
  - intros n Hn. specialize (Hroom n Hn). unfold room in *. by rewrite El, Hmax.
  - unfold taken in *. by rewrite El, Eav.
Qed.

(** One pass: the block is dirty already, or it is given a new cluster. *)
Lemma pass_spec K c address v :
  core_inv cs K c → 0 ≤ address ≤ max_valid_cluster_offset (c_rc c) →
  refblock_dirty c (refblock_of cs address) ∨ room cs 1 c →
  (refblock_dirty c (refblock_of cs address) ∧
   ∃ c', set_refcount_loop 3 address v None [] (set_core q c) = (set_core q c', Ok ([], [])) ∧
     call_ok cs K 0 c c' []) ∨
  (∃ c' a un, set_refcount_loop 3 address v None [] (set_core q c) =
      (set_core q c', Ok ([a], un)) ∧ counted cs K c c' (refblock_of cs address) a un).
Proof.
  intros Hi Ha Hr. set (t := refblock_of cs address) in *.
  destruct (cmap (refblock_cache (c_rc c)) !! t) as [b|] eqn:Hb.
  - destruct (dirty b) eqn:Hd.
    + left. assert (refblock_dirty c t) as Hdirty by (exists b; done).
      split; [done|]. by apply loop_dirty.
    + right. destruct Hr as [(b' & Hb' & ?)|Hr]; [congruence|].
      rewrite (loop_need_clean K q c address v 2 [] b) by done. by eapply continue_clean.
  - right. destruct Hr as [(b' & Hb' & ?)|Hr]; [congruence|].
    destruct (refblock_valid K c address Hi Ha) as [old Hold]. fold t in Hold.
    destruct (decide (old = 0)) as [->|Hne].
    + rewrite (loop_need_fresh K) by done. by apply continue_fresh.
    + destruct (loop_reload K q c address v 1 [] old) as
        (c2 & b & -> & Hi2 & Hpres & El & Eav & Hmax & Hb2 & Hd2); try done.
      destruct (continue_clean K c2 address v 0 (refcount_block_entries (c_rc c2)) b) as
        (c' & a & un & E & Hc); rewrite ?Hmax; try done.
      { unfold room in *. by rewrite El, Hmax. }
      exists c', a, un. split; [done|]. destruct Hc as [Hi' Hpres' Hdir Hin Hmax' Hroom Htk].
      constructor; try done.
      * by eapply preserved_trans.
      * by rewrite Hmax'.
      * intros n Hn. apply Hroom. unfold room in *. by rewrite El, Hmax.
      * unfold taken in *. by rewrite El, Eav in Htk.
Qed.

(** ** The recursion *)

Notation go_ok k fuel K c address v :=
  (∃ c' un, set_cluster_refcount_go fuel address v (set_core q c) = (set_core q c', Ok un) ∧
    call_ok cs K k c c' un).

Lemma call_ok_weaken K k k' c c' un : k ≤ k' → call_ok cs K k c c' un → call_ok cs K k' c c' un.
Proof.
  intros Hk [Hi Hp Hm Hr]. constructor; try done. intros n Hn. apply Hr.
  unfold room in *. nia.
Qed.

(** A pass, and the recursion on the cluster it took. *)
Lemma go_step k k1 K c address v fuel :
  core_inv cs K c → 0 ≤ address ≤ max_valid_cluster_offset (c_rc c) →
  refblock_dirty c (refblock_of cs address) ∨ room cs 1 c → 0 ≤ k →
  (∀ c1 a un, counted cs K c c1 (refblock_of cs address) a un →
     core_inv cs (un ++ K) c1 → 0 ≤ a ≤ max_valid_cluster_offset (c_rc c1) → (cs | a) →
     (∀ n, room cs (n + k) c → room cs (n + k1) c1) ∧ go_ok k1 fuel (un ++ K) c1 a 1) →
  go_ok k (S fuel) K c address v.
Proof.
  intros Hi Ha Hr Hk Hrec. cbn [set_cluster_refcount_go].
  destruct (pass_spec K c address v Hi Ha Hr) as [[Hd (c' & E & Hc)]|(c1 & a & un & E & Hc)];
    unfold mbind at 1; rewrite E.
  { exists c', []. split; [done|]. eapply call_ok_weaken; [|done]. lia. }
  pose proof (co_inv _ _ _ _ _ _ _ Hc) as Hi1.
  assert (clus cs (c_rc c1) (c_file c1) a) as (Hda & Hra & _).
  { pose proof (ci_clus _ _ _ Hi1) as Hcl. rewrite Forall_forall in Hcl. apply Hcl.
    pose proof (co_ref _ _ _ _ _ _ _ Hc). set_solver. }
  destruct (Hrec c1 a un Hc Hi1 Hra Hda) as [Hroom (c2 & un2 & E2 & Hc2)].
  exists c2, un. cbn [fst snd miter]. unfold mbind. rewrite E2. split; [done|].
  destruct Hc2 as [Hi2 Hp2 Hm2 Hr2]. constructor.
  - eapply core_inv_drop; [exact Hi2|apply Hi1].
  - eapply preserved_trans; [apply Hc|]. eapply preserved_subset; [|exact Hp2]. set_solver.
  - rewrite Hm2. apply Hc.
  - intros n Hn. by apply Hr2, Hroom.
Qed.

(** The cluster that a pass takes costs at most one at the end. *)
Lemma counted_room K c c1 t a un k :
  counted cs K c c1 t a un → ∀ n, room cs (n + (k + 1)) c → room cs (n + k) c1.
Proof.
  intros Hc n Hn. apply (co_room _ _ _ _ _ _ _ Hc).
  by replace (n + k + 1) with (n + (k + 1)) by lia.
Qed.

Lemma go_dirty K c address v fuel :
  core_inv cs K c → 0 ≤ address ≤ max_valid_cluster_offset (c_rc c) →
  refblock_dirty c (refblock_of cs address) → go_ok 0 (S fuel) K c address v.
Proof.
  intros Hi Ha Hd. cbn [set_cluster_refcount_go].
  destruct (loop_dirty K q c address v 2 None [] Hi Ha Hd) as (c' & E & Hc).
  unfold mbind at 1. rewrite E. by exists c', [].
Qed.

(** The cluster after [x] is counted by the block of [x], or is the first of the next. *)
Lemma next_block x :
  (cs | x) → 0 ≤ x →
  refblock_of cs (x + cs) = refblock_of cs x ∨
  refblock_of cs (x + cs + cs) = refblock_of cs (x + cs).
Proof.
  intros [i ->] Hx. unfold refblock_of. pose proof (proj1 cs_even) as He.
  replace (i * cs + cs) with ((i + 1) * cs) by lia.
  replace ((i + 1) * cs + cs) with ((i + 2) * cs) by lia. rewrite !Z.div_mul by lia.
  set (e := cs `div` 2) in *. assert (256 ≤ e) by lia.
  pose proof (Z.div_mod i e ltac:(lia)). pose proof (Z.mod_pos_bound i e ltac:(lia)).
  destruct (Z.eq_dec (i `mod` e) (e - 1)) as [E|E].
  - right. assert ((i + 1) `div` e = i `div` e + 1) as ->
      by (symmetry; apply (Z.div_unique _ _ _ 0); lia).
    symmetry. apply (Z.div_unique _ _ _ 1); lia.
  - left. symmetry. apply (Z.div_unique _ _ _ (i `mod` e + 1)); lia.
Qed.

(** Without available clusters, the cluster is the one at the end of the file. *)
Lemma taken_end c c' a : c_avail c = [] → taken cs c c' a →
  c_avail c' = [] ∧ a = align_up (flen (c_file c)) cs ∧ flen (c_file c') = a + cs.
Proof.
  intros E [[E' _]|(_ & ? & ? & ?)]; [|done]. rewrite E in E'.
  by destruct (c_avail c').
Qed.

Lemma go_end_same K c x v fuel :
  core_inv cs K c → 0 ≤ x ≤ max_valid_cluster_offset (c_rc c) → (cs | x) →
  c_avail c = [] → flen (c_file c) = x + cs → room cs 1 c →
  refblock_of cs (x + cs) = refblock_of cs x →
  go_ok 1 (S (S fuel)) K c x v.
Proof.
  intros Hi Hx Hd Hav Hlen Hr Hsame. apply (go_step 1 0); [done|done|by right|lia|].
  intros c1 a un Hc Hi1 Ha Hda. split; [exact (counted_room _ _ _ _ _ _ 0 Hc)|]. destruct (taken_end c c1 a Hav (co_taken _ _ _ _ _ _ _ Hc))
    as (_ & Ea & _).
  rewrite Hlen, align_up_aligned in Ea
    by first [lia | by apply Z.divide_add_r; [|apply Z.divide_refl]].
  subst a. apply go_dirty; [done|done|]. rewrite Hsame. apply Hc.
Qed.

Lemma go_end K c x v fuel :
  core_inv cs K c → 0 ≤ x ≤ max_valid_cluster_offset (c_rc c) → (cs | x) →
  c_avail c = [] → flen (c_file c) = x + cs → room cs 2 c →
  go_ok 2 (S (S (S fuel))) K c x v.
Proof.
  intros Hi Hx Hd Hav Hlen Hr.
  assert (room cs 1 c) as Hr1 by (unfold room in *; lia).
  apply (go_step 2 1); [done|done|by right|lia|].
  intros c1 a un Hc Hi1 Ha Hda. split; [exact (counted_room _ _ _ _ _ _ 1 Hc)|]. destruct (taken_end c c1 a Hav (co_taken _ _ _ _ _ _ _ Hc))
    as (Hav1 & Ea & Hlen1).
  rewrite Hlen, align_up_aligned in Ea
    by first [lia | by apply Z.divide_add_r; [|apply Z.divide_refl]].
  destruct (next_block x Hd ltac:(lia)) as [Hs|Hs]; rewrite <-Ea in Hs.
  - destruct (go_dirty (un ++ K) c1 a 1 (S fuel) Hi1 Ha) as (c2 & un2 & E2 & Hc2).
    { rewrite Hs. apply Hc. }
    exists c2, un2. split; [done|]. eapply call_ok_weaken; [|done]. lia.
  - apply go_end_same; try done. apply (co_room _ _ _ _ _ _ _ Hc). exact Hr.
Qed.

(** Counting a cluster ends, with as many passes as there are available clusters and
    at most four more, and takes at most three clusters from the end of the file. *)
Lemma go_spec K c address v fuel :
  core_inv cs K c → 0 ≤ address ≤ max_valid_cluster_offset (c_rc c) → room cs 3 c →
  (4 + length (c_avail c) ≤ fuel)%nat → go_ok 3 fuel K c address v.
Proof.
  remember (length (c_avail c)) as n eqn:En. revert K c address v fuel En.
  induction n as [|n IH]; intros K c address v fuel En Hi Ha Hr Hf.
  - symmetry in En. apply nil_length_inv in En. do 4 (destruct fuel as [|fuel]; [lia|]).
    apply (go_step 3 2); [done|done|right; unfold room in *; lia|lia|].
    intros c1 a un Hc Hi1 Ha1 Hda. split; [exact (counted_room _ _ _ _ _ _ 2 Hc)|].
    destruct (taken_end c c1 a En (co_taken _ _ _ _ _ _ _ Hc)) as (Hav1 & Ea & Hlen1).
    apply go_end; try done. by apply (co_room _ _ _ _ _ _ _ Hc).
  - destruct fuel as [|fuel]; [lia|].
    apply (go_step 3 3); [done|done|right; unfold room in *; lia|lia|].
    intros c1 a un Hc Hi1 Ha1 Hda.
    destruct (co_taken _ _ _ _ _ _ _ Hc) as [[Hav El]|[Hav _]]; [|by rewrite Hav in En].
    rewrite Hav, length_app in En. simpl in En.
    assert (∀ n', room cs n' c → room cs n' c1) as Hroom.
    { intros n'. unfold room. by rewrite El, (co_max _ _ _ _ _ _ _ Hc). }
    split; [auto|]. apply IH; [lia|done|done|auto|lia].
Qed.

End Pass.

Lemma set_cluster_refcount_spec K q address v :
  cluster_size (raw_file q) = cs → cluster_mask (raw_file q) = cs - 1 →
  core_inv cs K (core q) → 0 ≤ address ≤ max_valid_cluster_offset (refcounts q) →
  room cs 3 (core q) →
  ∃ c' un, set_cluster_refcount address v q = (set_core q c', Ok un) ∧
    call_ok cs K 3 (core q) c' un.
Proof.
  intros Ecs Em Hi Ha Hr. unfold set_cluster_refcount, refcount_fuel.
  pose proof (go_spec q Ecs Em K (core q) address v _ Hi Ha Hr (Nat.le_refl _)) as Hgo.
  by rewrite set_core_core in Hgo.
Qed.

End Count.

End New.

End Core.
