(* ===== verification/QcowDisk.v ===== *)
(** * A qcow2 image is a disk

    The invariant of a [QcowFile] and the refinement of a disk: [content q x] is the byte
    of the virtual disk at [x].  Reading returns the content, writing changes it
    where it should, and everything else the image does (allocating and counting
    clusters, moving and evicting tables, flushing) leaves it as it is. *)

From S2P Require Import Prelude Words Methods BlockFile QcowTables QcowHeader QcowFile QcowAlloc.
From stdpp Require Import options.
Local Open Scope Z_scope.

(** ** Definitions *)

(** What a backing file promises: inside its size it reads the bytes [disk_byte], and
    reading changes neither them nor the size. *)
Class DiskLaws (B : Type) `{Disk B} := {
  disk_ok : B → Prop;
  disk_byte : B → Z → Z;
  disk_read_spec b off n : disk_ok b → 0 ≤ off → 0 ≤ n → off + n ≤ disk_size b →
    ∃ b', disk_read_at off n b = (b', Ok (disk_byte b <$> seqZ off n)) ∧ disk_ok b' ∧
      disk_size b' = disk_size b ∧ ∀ x, disk_byte b' x = disk_byte b x;
}.

Section Defs.
Context (cs : Z).

(** The words of the table in the cluster at [a]. *)
Definition disk_words (f : File) (a : Z) : list Z :=
  be_words 8 (Z.to_nat (cs `div` 8)) (get_bytes f a cs).

(** The cluster at [a] holds the table [t], and no entry is compressed. *)
Definition on_disk (f : File) (a : Z) (t : list Z) : Prop :=
  Forall (λ e, Z.land e COMPRESSED_FLAG = 0) (disk_words f a) ∧
  (λ e, Z.land e L2_TABLE_OFFSET_MASK) <$> disk_words f a = t.

(** The L1 table of the file is [t]. *)
Definition l1_on_disk (f : File) (h : QcowHeader) (t : list Z) : Prop :=
  (λ e, Z.land e L1_TABLE_OFFSET_MASK) <$>
    be_words 8 (length t) (get_bytes f (l1_table_offset h) (8 * Z.of_nat (length t))) = t.

(** The word that a table entry is written as. *)
Definition entry_word (flags a : Z) : Z := if a =? 0 then 0 else Z.lor a flags.

(** An address that a table entry can hold. *)
Definition entry_ok (a : Z) : Prop := a = 0 ∨ (512 | a) ∧ 0 ≤ a < 2 ^ 56.

Section View.
Context {B : Type}.
Implicit Types q : QcowFile B.

Definition zeros : list Z := replicate (Z.to_nat (cs `div` 8)) 0.

(** The table of L1 index [i]: cached, absent, or on disk. *)
Definition l2_view q (i : nat) : list Z :=
  match cmap (l2_cache q) !! Z.of_nat i with
  | Some t => vec t
  | None =>
      match vec (l1_table q) !! i with
      | Some a =>
          if a =? 0 then zeros
          else (λ e, Z.land e L2_TABLE_OFFSET_MASK) <$> disk_words (rfile (raw_file q)) a
      | None => zeros
      end
  end.

(** The addresses of all data clusters, in the order of the virtual disk. *)
Definition entries q : list Z := concat (l2_view q <$> seq 0 (length (vec (l1_table q)))).

(** The clusters of the header, the L1 table and the reference count table. *)
Definition meta q : list Z :=
  let h := header q in
  0 :: ((λ i, l1_table_offset h + i * cs) <$>
          seqZ 0 ((Z.of_nat (length (vec (l1_table q))) * 8 + cs - 1) `div` cs)) ++
       ((λ i, QcowHeader.refcount_table_offset h + i * cs) <$>
          seqZ 0 (refcount_table_clusters h)).

(** The clusters in use outside the core. *)
Definition kept q : list Z :=
  meta q ++ nz (vec (l1_table q)) ++ nz (entries q) ++ unref_clusters q.

(** The address of the data cluster of the virtual address [x], or zero. *)
Definition entry_at q (x : Z) : Z := default 0 (vec_get (from_vec (entries q)) (x `div` cs)).

End View.

Context `{DiskLaws B}.
Implicit Types q : QcowFile B.

Definition backing_byte q (x : Z) : Z :=
  match backing_file q with Some b => disk_byte b x | None => 0 end.

(** The byte of the virtual disk at [x]. *)
Definition content q (x : Z) : Z :=
  let a := entry_at q x in
  if a =? 0 then backing_byte q x else fbyte (rfile (raw_file q)) (a + x `mod` cs).

(** The place and the length of the table of reference counts, which never change. *)
Definition rc_shape (rc : RefCount) : Z * Z :=
  (QcowTables.refcount_table_offset rc, vec_len (ref_table rc)).

(** The tables of the header are where the header says, in clusters of [meta]. *)
Definition shape_ok (h : QcowHeader) (rc : RefCount) : Prop :=
  (rc_shape rc).1 = QcowHeader.refcount_table_offset h ∧
  8 * (rc_shape rc).2 ≤ refcount_table_clusters h * cs ∧
  0 ≤ QcowHeader.refcount_table_offset h ≤ 2 ^ 62 ∧ 0 ≤ l1_table_offset h ≤ 2 ^ 62.

(** The invariant, with the clusters [H] in the hands of an operation. *)
Record qinv (H : list Z) (q : QcowFile B) : Prop := {
  qi_cs : cluster_size (raw_file q) = cs;
  qi_mask : cluster_mask (raw_file q) = cs - 1;
  qi_l2 : l2_entries q = cs `div` 8;
  qi_size : 0 ≤ virtual_size q ≤ Z.of_nat (length (vec (l1_table q))) * (cs `div` 8) * cs;
  qi_small : virtual_size q ≤ 2 ^ 44;
  qi_cap : capacity (l2_cache q) = 100;
  qi_shape : shape_ok (header q) (refcounts q);
  qi_core : core_inv cs (H ++ kept q) (core q);
  qi_l1 : dirty (l1_table q) = false →
    l1_on_disk (rfile (raw_file q)) (header q) (vec (l1_table q));
  qi_full : Forall (λ a, a + cs ≤ flen (rfile (raw_file q)))
    (nz (vec (l1_table q)) ++ nz (entries q));
  qi_cache i t : cmap (l2_cache q) !! i = Some t →
    ∃ a, vec_get (l1_table q) i = Some a ∧ a ≠ 0 ∧
      Z.of_nat (length (vec t)) = cs `div` 8 ∧
      (dirty t = false → on_disk (rfile (raw_file q)) a (vec t));
  qi_disk i a : vec_get (l1_table q) i = Some a → a ≠ 0 → cmap (l2_cache q) !! i = None →
    Forall (λ e, Z.land e COMPRESSED_FLAG = 0) (disk_words (rfile (raw_file q)) a);
  qi_backing b : backing_file q = Some b → disk_ok b ∧ virtual_size q ≤ disk_size b;
}.

(** A step of an operation: what the disk holds does not change, and at most [k] clusters
    are added to the file. *)
Record moves (k : Z) (H : list Z) (q q' : QcowFile B) : Prop := {
  mv_inv : qinv H q';
  mv_header : header q' = header q;
  mv_offset : current_offset q' = current_offset q;
  mv_content x : content q' x = content q x;
  mv_backing x : backing_byte q' x = backing_byte q x;
  mv_none : backing_file q = None → backing_file q' = None;
  mv_max : max_valid_cluster_offset (refcounts q') = max_valid_cluster_offset (refcounts q);
  mv_room n : room cs (n + k) (core q) → room cs n (core q');
}.

End Defs.

(** ** Tables on disk *)

Lemma entry_word_spec a :
  entry_ok a →
  let w := entry_word CLUSTER_USED_FLAG a in
  w `mod` 256 ^ Z.of_nat 8 = w ∧ Z.land w COMPRESSED_FLAG = 0 ∧
  Z.land w L2_TABLE_OFFSET_MASK = a.
Proof.
  intros [->|[[k ->] Hb]] w; subst w; unfold entry_word; [done|].
  destruct (Z.eqb_spec (k * 512) 0) as [E|E]; [by rewrite E|].
  assert (Z.lor (k * 512) CLUSTER_USED_FLAG = k * 512 + 2 ^ 63) as ->.
  { assert (Z.land (k * 512) CLUSTER_USED_FLAG = 0) as Hl.
    { unfold CLUSTER_USED_FLAG. apply Z.bits_inj'. intros n Hn.
      rewrite Z.land_spec, Z.bits_0, Z.pow2_bits_eqb by lia.
      destruct (Z.eqb_spec 63 n) as [<-|]; [|apply andb_false_r]. rewrite andb_true_r.
      apply Z.testbit_false; [lia|]. by rewrite Z.div_small by lia. }
    by rewrite <-Z.lxor_lor, <-Z.add_nocarry_lxor. }
  split_and!.
  - apply Z.mod_small. lia.
  - apply Z.bits_inj'. intros n Hn. unfold COMPRESSED_FLAG.
    rewrite Z.land_spec, Z.bits_0, Z.pow2_bits_eqb by lia.
    destruct (Z.eqb_spec 62 n) as [<-|]; [|apply andb_false_r]. rewrite andb_true_r.
    apply Z.testbit_false; [lia|]. replace (2 ^ 63) with (2 * 2 ^ 62) by lia.
    rewrite Z.div_add by lia. by rewrite Z.div_small by lia.
  - assert (L2_TABLE_OFFSET_MASK = Z.shiftl (Z.ones 47) 9) as -> by done.
    replace (k * 512 + 2 ^ 63) with (Z.shiftl (k + 2 ^ 54) 9) by (rewrite Z.shiftl_mul_pow2; lia).
    rewrite <-Z.shiftl_land, Z.land_ones, Z.shiftl_mul_pow2 by lia.
    replace (2 ^ 54) with (2 ^ 7 * 2 ^ 47) by lia. rewrite Z.mod_add, Z.mod_small by lia. lia.
Qed.

Section Tables.
#[local] Set Default Proof Using "All".
Context (cs : Z) (Hpow : is_power_of_two cs = true) (Hcs : 512 ≤ cs ≤ 2 ^ 21).

Lemma length_disk_words f a : length (disk_words cs f a) = Z.to_nat (cs `div` 8).
Proof. apply length_be_words. Qed.

Lemma disk_words_ext f f' a :
  (∀ x, a ≤ x < a + cs → fbyte f' x = fbyte f x) → disk_words cs f' a = disk_words cs f a.
Proof. intros Hx. unfold disk_words. f_equal. by apply get_bytes_ext. Qed.

Lemma disk_words_preserved K f f' a :
  preserved cs K f f' → a ∈ K → disk_words cs f' a = disk_words cs f a.
Proof. intros [_ Hp] Ha. apply disk_words_ext. intros x. by apply Hp. Qed.

Lemma on_disk_ext f f' a t :
  (∀ x, a ≤ x < a + cs → fbyte f' x = fbyte f x) → on_disk cs f a t → on_disk cs f' a t.
Proof. intros Hx. unfold on_disk. by rewrite (disk_words_ext f f' a Hx). Qed.

(** The bytes that a cluster holds. *)
Lemma get_bytes_holds f a bs :
  holds cs f a (Some bs) → Z.of_nat (length bs) = cs → get_bytes f a cs = bs.
Proof.
  intros [_ Hh] Hl. apply list_eq. intros i. destruct (decide (i < length bs)%nat) as [Hi|Hi].
  - rewrite lookup_get_bytes by lia. rewrite Hh by lia. rewrite Nat2Z.id.
    by apply lookup_lt_is_Some_2 in Hi as [x ->].
  - rewrite !lookup_ge_None_2; [done|lia|rewrite length_get_bytes; lia].
Qed.

Lemma holds_table f a t flags :
  Z.of_nat (length t) = cs `div` 8 →
  holds cs f a (Some (be_encode 8 (entry_word flags <$> t))) →
  disk_words cs f a = (λ e, entry_word flags e `mod` 256 ^ Z.of_nat 8) <$> t.
Proof.
  intros Hl Hh. unfold disk_words. rewrite (get_bytes_holds _ _ _ Hh).
  - replace (Z.to_nat (cs `div` 8)) with (length (entry_word flags <$> t))
      by (rewrite length_fmap; lia).
    rewrite <-(app_nil_r (be_encode 8 _)), be_words_encode. by rewrite <-list_fmap_compose.
  - rewrite length_be_encode, length_fmap, Nat2Z.inj_mul, Hl. by apply cs_even.
Qed.

(** A table that was written is on disk. *)
Lemma on_disk_written f a t :
  Z.of_nat (length t) = cs `div` 8 → Forall entry_ok t →
  holds cs f a (Some (be_encode 8 (entry_word CLUSTER_USED_FLAG <$> t))) → on_disk cs f a t.
Proof.
  intros Hl Ht Hh. unfold on_disk. rewrite (holds_table _ _ _ _ Hl Hh), Forall_fmap.
  rewrite Forall_forall in Ht. split.
  - rewrite Forall_forall. intros e He. simpl.
    by destruct (entry_word_spec e (Ht e He)) as (-> & ? & _).
  - rewrite <-list_fmap_compose. rewrite <-(list_fmap_id t) at 2. apply list_fmap_ext.
    intros i e He. apply list_elem_of_lookup_2 in He. simpl.
    by destruct (entry_word_spec e (Ht e He)) as (-> & _ & ?).
Qed.

Lemma on_disk_zeros f a : holds cs f a None → on_disk cs f a (zeros cs).
Proof.
  intros [Hl Hh]. apply on_disk_written.
  - unfold zeros. rewrite length_replicate. pose proof (cs_even cs Hpow Hcs). lia.
  - apply Forall_replicate. by left.
  - split; [done|]. intros i Hi. rewrite Hh by done.
    unfold zeros. rewrite fmap_replicate. unfold entry_word. simpl. unfold be_encode.
    rewrite fmap_replicate. generalize (Z.to_nat (cs `div` 8)) (Z.to_nat i).
    induction n as [|n IH]; [done|]. intros m. do 8 (destruct m as [|m]; [done|]). apply IH.
Qed.

Lemma write_pointer_table_written f a t :
  0 ≤ a ≤ 2 ^ 56 → Z.of_nat (length t) = cs `div` 8 → Forall entry_ok t →
  ∃ f' bs, write_pointer_table a t CLUSTER_USED_FLAG f = (f', Ok tt) ∧
    new_cluster_written cs f f' a (Some bs) ∧ on_disk cs f' a t.
Proof.
  intros Ha Hl Ht.
  destruct (write_block_written cs Hpow Hcs f a (be_encode 8 (entry_word CLUSTER_USED_FLAG <$> t)))
    as (f' & E & Hw); [done| |].
  { rewrite length_be_encode, length_fmap, Nat2Z.inj_mul, Hl. by apply cs_even. }
  eexists f', _. split_and!; [exact E|done|]. apply on_disk_written; [done|done|apply Hw].
Qed.

Lemma read_l2_cluster_spec f a :
  0 ≤ a ≤ 2 ^ 56 → a + cs ≤ flen f →
  Forall (λ e, Z.land e COMPRESSED_FLAG = 0) (disk_words cs f a) →
  read_l2_cluster cs a f =
  (with_pos f (a + cs), Ok ((λ e, Z.land e L2_TABLE_OFFSET_MASK) <$> disk_words cs f a)).
Proof.
  intros Ha Hl Hc. unfold read_l2_cluster, read_pointer_cluster, read_pointer_table, read_words.
  destruct (cs_even cs Hpow Hcs) as [_ E8]. change (Z.of_nat 8) with 8. rewrite E8.
  unfold mbind. rewrite seek_start_ok, read_exact_ok by (cbn; lia). unfold mret at 1 2. cbn [fpos with_pos].
  assert (existsb (λ entry, negb (Z.land entry COMPRESSED_FLAG =? 0))
    (be_words 8 (Z.to_nat (cs `div` 8)) (get_bytes (with_pos f a) a cs)) = false) as ->; [|done].
  apply not_true_is_false. rewrite existsb_exists. intros (e & He & Hn).
  apply list_elem_of_In in He. rewrite Forall_forall in Hc. rewrite (Hc e He) in Hn. done.
Qed.

End Tables.

(** ** Lists of tables of one length *)

Lemma length_concat_uniform n (ts : list (list Z)) :
  Forall (λ t, length t = n) ts → length (concat ts) = (length ts * n)%nat.
Proof. induction 1 as [|t l Ht _ IH]; simpl; [done|]. rewrite length_app, IH. lia. Qed.

Lemma lookup_concat_uniform n (ts : list (list Z)) i j t :
  Forall (λ t, length t = n) ts →
  ts !! i = Some t → (j < n)%nat → concat ts !! (i * n + j)%nat = t !! j.
Proof.
  intros Hts Hi Hj. revert i Hi. induction Hts as [|t' l Ht _ IH]; intros i Hi; [done|].
  destruct i as [|i]; simpl in *.
  - simplify_eq. by rewrite lookup_app_l by lia.
  - rewrite lookup_app_r by lia.
    replace (n + i * n + j - length t')%nat with (i * n + j)%nat by lia. by apply IH.
Qed.

Lemma concat_insert_uniform n (ts : list (list Z)) i j t a :
  Forall (λ t, length t = n) ts → ts !! i = Some t → (j < n)%nat →
  concat (<[i := <[j := a]> t]> ts) = <[(i * n + j)%nat := a]> (concat ts).
Proof.
  intros Hts Hi Hj. revert i Hi. induction Hts as [|t' l Ht _ IH]; intros i Hi; [done|].
  destruct i as [|i]; simpl in *.
  - simplify_eq. by rewrite insert_app_l by lia.
  - rewrite IH by done. replace (n + i * n + j)%nat with (length t' + (i * n + j))%nat by lia.
    by rewrite insert_app_r.
Qed.

(** ** The invariant *)

Section Inv.
#[local] Set Default Proof Using "All".
Context (cs : Z) (Hpow : is_power_of_two cs = true) (Hcs : 512 ≤ cs ≤ 2 ^ 21).
Context `{DiskLaws B}.
Implicit Types q : QcowFile B.

Notation N8 := (Z.to_nat (cs `div` 8)).

Lemma N8_spec : Z.of_nat N8 = cs `div` 8 ∧ 0 < cs `div` 8 ∧ cs `div` 8 * 8 = cs.
Proof. destruct (cs_even cs Hpow Hcs). lia. Qed.

(** The parts of the invariant that do not mention the file. *)
Lemma length_l2_view q i :
  (∀ i t, cmap (l2_cache q) !! i = Some t → Z.of_nat (length (vec t)) = cs `div` 8) →
  length (l2_view cs q i) = N8.
Proof.
  intros Ht. unfold l2_view. destruct (cmap (l2_cache q) !! Z.of_nat i) as [t|] eqn:E.
  - apply Ht in E. lia.
  - destruct (vec (l1_table q) !! i) as [a|]; [|apply length_replicate].
    case_match; [apply length_replicate|]. unfold disk_words. by rewrite length_fmap, length_be_words.
Qed.

Lemma qinv_length_view Hd q i : qinv cs Hd q → length (l2_view cs q i) = N8.
Proof. intros Hi. apply length_l2_view. intros k t Hk. by destruct (qi_cache _ _ _ Hi k t Hk) as (? & _ & _ & ? & _). Qed.

Lemma qinv_tables Hd q :
  qinv cs Hd q →
  Forall (λ t, length t = N8) (l2_view cs q <$> seq 0 (length (vec (l1_table q)))).
Proof.
  intros Hi. apply Forall_fmap, Forall_forall. intros i _. by eapply qinv_length_view.
Qed.

Lemma entries_lookup Hd q i j :
  qinv cs Hd q → (i < length (vec (l1_table q)))%nat → (j < N8)%nat →
  entries cs q !! (i * N8 + j)%nat = l2_view cs q i !! j.
Proof.
  intros Hi Hlt Hj. unfold entries. apply lookup_concat_uniform; [by eapply qinv_tables| |done].
  by rewrite list_lookup_fmap, lookup_seq_lt by done.
Qed.

Lemma entries_ext q q' :
  length (vec (l1_table q')) = length (vec (l1_table q)) →
  (∀ i, (i < length (vec (l1_table q)))%nat → l2_view cs q' i = l2_view cs q i) →
  entries cs q' = entries cs q.
Proof.
  intros El Hv. unfold entries. rewrite El. f_equal. apply list_fmap_ext.
  intros k i Hk. apply lookup_seq in Hk as [-> Hk]. by apply Hv.
Qed.

Lemma entries_set Hd q q' i j a :
  qinv cs Hd q → length (vec (l1_table q')) = length (vec (l1_table q)) →
  (i < length (vec (l1_table q)))%nat → (j < N8)%nat →
  (∀ k, k ≠ i → l2_view cs q' k = l2_view cs q k) →
  l2_view cs q' i = <[j := a]> (l2_view cs q i) →
  entries cs q' = <[(i * N8 + j)%nat := a]> (entries cs q).
Proof.
  intros Hi El Hlt Hj Hne Heq. unfold entries. rewrite El.
  rewrite <-(concat_insert_uniform N8 _ i j (l2_view cs q i) a (qinv_tables _ _ Hi)); [|
    by rewrite list_lookup_fmap, lookup_seq_lt by done|done].
  f_equal. apply list_eq. intros k. destruct (decide (k = i)) as [->|Hk].
  - rewrite list_lookup_insert_eq by (by rewrite length_fmap, length_seq).
    by rewrite list_lookup_fmap, lookup_seq_lt, <-Heq by done.
  - rewrite list_lookup_insert_ne by done. rewrite !list_lookup_fmap.
    destruct (seq 0 (length (vec (l1_table q))) !! k) as [k'|] eqn:E; [|done].
    apply lookup_seq in E as [-> _]. simpl. by rewrite Hne.
Qed.

(** The address [x] is in table [x / cs / (cs / 8)], entry [x / cs mod (cs / 8)]. *)
Lemma index_split x :
  0 ≤ x →
  Z.to_nat (x `div` cs) =
  (Z.to_nat ((x `div` cs) `div` (cs `div` 8)) * N8 + Z.to_nat ((x `div` cs) `mod` (cs `div` 8)))%nat ∧
  (Z.to_nat ((x `div` cs) `mod` (cs `div` 8)) < N8)%nat.
Proof.
  intros Hx. destruct N8_spec as (E & Hp & _).
  pose proof (Z.div_pos x cs ltac:(lia) ltac:(lia)) as Hk.
  pose proof (Z.mod_pos_bound (x `div` cs) (cs `div` 8) Hp) as Hm.
  pose proof (Z.div_pos (x `div` cs) (cs `div` 8) Hk Hp).
  pose proof (Z.div_mod (x `div` cs) (cs `div` 8) ltac:(lia)). split; [|lia].
  apply Nat2Z.inj. rewrite Nat2Z.inj_add, Nat2Z.inj_mul, !Z2Nat.id by lia. lia.
Qed.

Lemma l1_clus Hd q i a :
  qinv cs Hd q → vec_get (l1_table q) i = Some a → a ≠ 0 →
  a ∈ nz (vec (l1_table q)) ∧ clus cs (refcounts q) (rfile (raw_file q)) a ∧
  a + cs ≤ flen (rfile (raw_file q)).
Proof.
  intros Hi [_ Ha%list_elem_of_lookup_2]%vec_get_Some Hne.
  assert (a ∈ nz (vec (l1_table q))) as Hin by (by apply elem_of_nz). split; [done|].
  pose proof (ci_clus _ _ _ (qi_core _ _ _ Hi)) as Hcl. rewrite Forall_forall in Hcl.
  pose proof (qi_full _ _ _ Hi) as Hf. rewrite Forall_forall in Hf.
  split; [apply Hcl|apply Hf]; unfold kept; rewrite ?elem_of_app; tauto.
Qed.

Lemma entry_clus Hd q a :
  qinv cs Hd q → a ∈ entries cs q → a ≠ 0 →
  a ∈ nz (entries cs q) ∧ clus cs (refcounts q) (rfile (raw_file q)) a ∧
  a + cs ≤ flen (rfile (raw_file q)).
Proof.
  intros Hi Ha Hne. assert (a ∈ nz (entries cs q)) as Hin by (by apply elem_of_nz).
  split; [done|].
  pose proof (ci_clus _ _ _ (qi_core _ _ _ Hi)) as Hcl. rewrite Forall_forall in Hcl.
  pose proof (qi_full _ _ _ Hi) as Hf. rewrite Forall_forall in Hf.
  split; [apply Hcl|apply Hf]; unfold kept; rewrite ?elem_of_app; tauto.
Qed.

Lemma clus_entry_ok Hd q a :
  qinv cs Hd q → clus cs (refcounts q) (rfile (raw_file q)) a → entry_ok a ∧ 0 ≤ a ≤ 2 ^ 56.
Proof.
  intros Hi (Hdv & Ha & _). pose proof (ci_max_small _ _ _ (qi_core _ _ _ Hi)) as Hm. simpl in Hm.
  split; [right; split; [|lia]|lia].
  etrans; [|done]. change 512 with (2 ^ 9). apply is_power_of_two_spec in Hpow as (k & Hk & E).
  assert (9 ≤ k).
  { destruct (Z.leb_spec 9 k); [done|].
    assert (cs ≤ 2 ^ 8) by (rewrite E; apply Z.pow_le_mono_r; lia). lia. }
  exists (2 ^ (k - 9)). rewrite E, <-Z.pow_add_r by lia. f_equal. lia.
Qed.

Lemma entries_entry_ok Hd q a : qinv cs Hd q → a ∈ entries cs q → entry_ok a.
Proof.
  intros Hi Ha. destruct (decide (a = 0)) as [->|Hne]; [by left|].
  destruct (entry_clus _ _ _ Hi Ha Hne) as (_ & Hc & _). by eapply clus_entry_ok.
Qed.

Lemma elem_of_view q i a :
  (i < length (vec (l1_table q)))%nat → a ∈ l2_view cs q i → a ∈ entries cs q.
Proof.
  intros Hlt Ha. unfold entries. apply list_elem_of_In, in_concat. exists (l2_view cs q i).
  split; [|by apply list_elem_of_In]. apply list_elem_of_In, list_elem_of_fmap. exists i.
  split; [done|]. apply elem_of_seq. lia.
Qed.

(** The table in the cache is the table that is seen. *)
Lemma view_cached q i t :
  0 ≤ i → cmap (l2_cache q) !! i = Some t → l2_view cs q (Z.to_nat i) = vec t.
Proof. intros Hi Ht. unfold l2_view. by rewrite Z2Nat.id, Ht. Qed.

Lemma cached_entry_ok Hd q i t :
  qinv cs Hd q → cmap (l2_cache q) !! i = Some t → Forall entry_ok (vec t).
Proof.
  intros Hi Ht. destruct (qi_cache _ _ _ Hi i t Ht) as (a & [Hi0 Ha]%vec_get_Some & _).
  apply Forall_forall. intros e He. eapply entries_entry_ok; [done|].
  apply (elem_of_view _ (Z.to_nat i)); [by eapply lookup_lt_Some|]. by rewrite (view_cached _ _ t).
Qed.

Lemma content_frame q q' :
  entries cs q' = entries cs q → (∀ x, backing_byte q' x = backing_byte q x) →
  preserved cs (nz (entries cs q)) (rfile (raw_file q)) (rfile (raw_file q')) →
  ∀ x, content cs q' x = content cs q x.
Proof.
  intros Ee Hb [_ Hp] x. unfold content, entry_at. rewrite Ee.
  destruct (vec_get (from_vec (entries cs q)) (x `div` cs)) as [a|] eqn:E; simpl; [|done].
  apply vec_get_Some in E as [_ E]. destruct (Z.eqb_spec a 0); [done|]. apply (Hp a).
  - apply elem_of_nz. split; [by eapply list_elem_of_lookup_2|done].
  - pose proof (Z.mod_pos_bound x cs ltac:(lia)). lia.
Qed.

Lemma view_preserved q q' i :
  l1_table q' = l1_table q → l2_cache q' = l2_cache q →
  preserved cs (nz (vec (l1_table q))) (rfile (raw_file q)) (rfile (raw_file q')) →
  l2_view cs q' i = l2_view cs q i.
Proof.
  intros E1 E2 Hp. unfold l2_view. rewrite E1, E2.
  destruct (cmap (l2_cache q) !! Z.of_nat i); [done|].
  destruct (vec (l1_table q) !! i) as [a|] eqn:E; [|done]. destruct (Z.eqb_spec a 0); [done|].
  rewrite (disk_words_preserved cs Hpow Hcs _ _ _ a Hp); [done|].
  apply elem_of_nz. split; [by eapply list_elem_of_lookup_2|done].
Qed.

(** The bytes of the L1 table are in the clusters of [meta]. *)
Lemma meta_covers q z :
  l1_table_offset (header q) ≤ z < l1_table_offset (header q) + 8 * Z.of_nat (length (vec (l1_table q))) →
  ∃ a, a ∈ meta cs q ∧ a ≤ z < a + cs.
Proof.
  intros Hz. set (o := l1_table_offset (header q)) in *.
  exists (o + (z - o) `div` cs * cs). pose proof (Z.div_mod (z - o) cs ltac:(lia)).
  pose proof (Z.mod_pos_bound (z - o) cs ltac:(lia)). split; [|lia].
  unfold meta. right. apply elem_of_app. left. apply list_elem_of_fmap. exists ((z - o) `div` cs).
  split; [done|]. apply elem_of_seqZ. split; [apply Z.div_pos; lia|].
  rewrite Z.add_0_l. apply Z.div_lt_upper_bound; [lia|].
  pose proof (Z.div_mod (Z.of_nat (length (vec (l1_table q))) * 8 + cs - 1) cs ltac:(lia)).
  pose proof (Z.mod_pos_bound (Z.of_nat (length (vec (l1_table q))) * 8 + cs - 1) cs ltac:(lia)). lia.
Qed.

Lemma l1_on_disk_preserved K q f f' :
  preserved cs K f f' → meta cs q ⊆ K →
  l1_on_disk f (header q) (vec (l1_table q)) → l1_on_disk f' (header q) (vec (l1_table q)).
Proof.
  intros [_ Hp] HK. unfold l1_on_disk.
  rewrite (get_bytes_ext f' f); [done|]. intros z Hz.
  destruct (meta_covers q z Hz) as (a & Ha & Haz). apply (Hp a); [by apply HK|done].
Qed.

Lemma kept_meta q a : a ∈ meta cs q → a ∈ kept cs q.
Proof. unfold kept. rewrite !elem_of_app. tauto. Qed.

Lemma kept_l1 q a : a ∈ nz (vec (l1_table q)) → a ∈ kept cs q.
Proof. unfold kept. rewrite !elem_of_app. tauto. Qed.

Lemma kept_entries q a : a ∈ nz (entries cs q) → a ∈ kept cs q.
Proof. unfold kept. rewrite !elem_of_app. tauto. Qed.

Lemma set_file_same q : with_raw q (with_rfile (raw_file q) (rfile (raw_file q))) = q.
Proof. by destruct q as [[]]. Qed.

Lemma kept_zero q : 0 ∈ kept cs q.
Proof. unfold kept, meta. simpl. by left. Qed.

(** The file and the core may change as long as the tables are as they were. *)
Lemma qinv_core_tables Hd Hd' q c' :
  qinv cs Hd q → core_inv cs (Hd' ++ kept cs q) c' → rc_shape (c_rc c') = rc_shape (refcounts q) →
  preserved cs (nz (vec (l1_table q))) (rfile (raw_file q)) (c_file c') →
  (dirty (l1_table q) = false → l1_on_disk (c_file c') (header q) (vec (l1_table q))) →
  qinv cs Hd' (set_core q c') ∧ entries cs (set_core q c') = entries cs q.
Proof.
  intros Hi Hc Hsh Hp1 Hl1.
  assert (entries cs (set_core q c') = entries cs q) as Ee.
  { apply entries_ext; [done|]. intros i _. by apply view_preserved. }
  assert (kept cs (set_core q c') = kept cs q) as Ek by (unfold kept; by rewrite Ee).
  split; [|done]. constructor; try apply Hi.
  - unfold shape_ok. change (refcounts (set_core q c')) with (c_rc c'). rewrite Hsh. apply Hi.
  - rewrite core_set_core by done. by rewrite Ek.
  - exact Hl1.
  - rewrite Ee. eapply Forall_impl; [apply Hi|]. intros a Ha. simpl in Ha |- *. destruct Hp1. lia.
  - intros i t Ht. destruct (qi_cache _ _ _ Hi i t Ht) as (a & Ha & Hne & Hl & Hon).
    exists a. split_and!; try done. intros Hdt. specialize (Hon Hdt).
    apply (on_disk_ext cs Hpow Hcs (rfile (raw_file q))); [|done]. intros x. apply Hp1.
    by apply (l1_clus Hd q i).
  - intros i a Ha Hne Hn. simpl.
    rewrite (disk_words_preserved cs Hpow Hcs _ _ _ a Hp1) by (by apply (l1_clus Hd q i)).
    by apply (qi_disk _ _ _ Hi i).
Qed.

(** They may change as long as the clusters of the image are as they were. *)
Lemma qinv_core Hd Hd' q c' :
  qinv cs Hd q → core_inv cs (Hd' ++ kept cs q) c' → rc_shape (c_rc c') = rc_shape (refcounts q) →
  preserved cs (kept cs q) (rfile (raw_file q)) (c_file c') →
  qinv cs Hd' (set_core q c') ∧ entries cs (set_core q c') = entries cs q ∧
  ∀ x, content cs (set_core q c') x = content cs q x.
Proof.
  intros Hi Hc Hsh Hp. destruct (qinv_core_tables Hd Hd' q c') as [Hi' Ee]; [done|done|done| | |].
  { eapply preserved_subset; [|exact Hp]. intros a. apply kept_l1. }
  { intros Hdl. apply (l1_on_disk_preserved _ q _ _ Hp); [|by apply Hi]. intros a. apply kept_meta. }
  split_and!; [done|done|]. apply content_frame; [done|done|].
  eapply preserved_subset; [|exact Hp]. intros a. apply kept_entries.
Qed.

(** The cache may hold other tables, as long as they are those seen. *)
Lemma qinv_cache Hd q m :
  qinv cs Hd q →
  (∀ i t, m !! i = Some t → ∃ a, vec_get (l1_table q) i = Some a ∧ a ≠ 0 ∧
    vec t = l2_view cs q (Z.to_nat i) ∧
    (dirty t = false → on_disk cs (rfile (raw_file q)) a (vec t))) →
  (∀ i t, m !! i = None → cmap (l2_cache q) !! i = Some t →
    ∃ a, vec_get (l1_table q) i = Some a ∧ a ≠ 0 ∧ on_disk cs (rfile (raw_file q)) a (vec t)) →
  let q' := with_l2_cache q (with_cmap (l2_cache q) m) in
  moves cs 0 Hd q q' ∧ ∀ i, l2_view cs q' i = l2_view cs q i.
Proof.
  intros Hi Hin Hout q'.
  assert (∀ i, l2_view cs q' i = l2_view cs q i) as Hv.
  { intros i. unfold l2_view at 1. simpl. destruct (m !! Z.of_nat i) as [t|] eqn:Em.
    - destruct (Hin _ _ Em) as (a & _ & _ & -> & _). by rewrite Nat2Z.id.
    - unfold l2_view. destruct (cmap (l2_cache q) !! Z.of_nat i) as [t|] eqn:Et; [|done].
      destruct (Hout _ _ Em Et) as (a & [_ Ha]%vec_get_Some & Hne & [_ Hon]).
      rewrite Nat2Z.id in Ha. rewrite Ha. by destruct (Z.eqb_spec a 0). }
  assert (entries cs q' = entries cs q) as Ee by (by apply entries_ext). split; [|done].
  constructor; [|done|done| |done|done|done|intros n; by rewrite Z.add_0_r].
  - constructor; try apply Hi.
    + unfold kept. rewrite Ee. apply Hi.
    + rewrite Ee. apply Hi.
    + intros i t Ht. destruct (Hin i t Ht) as (a & Ha & Hne & Ev & Hon). exists a.
      split_and!; try done. rewrite Ev, (qinv_length_view Hd) by done. apply N8_spec.
    + intros i a Ha Hne Hn. simpl in Hn.
      destruct (cmap (l2_cache q) !! i) as [t|] eqn:Et; [|by apply (qi_disk _ _ _ Hi i)].
      destruct (Hout _ _ Hn Et) as (a' & Ha' & _ & [Hon _]). by simplify_eq/=.
  - apply content_frame; [done|done|]. apply preserved_refl.
Qed.

Lemma qinv_nodup Hd q :
  qinv cs Hd q →
  NoDup (nz (vec (l1_table q))) ∧ (∀ a, a ∈ nz (vec (l1_table q)) → a ∉ nz (entries cs q)) ∧
  ∀ a, a ∈ meta cs q → a ∉ nz (vec (l1_table q)) ∧ a ∉ nz (entries cs q).
Proof.
  intros Hi. pose proof (ci_nodup _ _ _ (qi_core _ _ _ Hi)) as Hnd. unfold kept in Hnd.
  rewrite <-!app_assoc in Hnd. apply NoDup_app in Hnd as (_ & _ & Hnd).
  apply NoDup_app in Hnd as (_ & Hn0 & Hnd). apply NoDup_app in Hnd as (Hn1 & Hn2 & _).
  split_and!; [done|intros a Ha Ha'; apply (Hn2 a Ha), elem_of_app; by left|].
  intros a Ha. specialize (Hn0 a Ha). rewrite !elem_of_app in Hn0. tauto.
Qed.

(** A cached table is written to its cluster. *)
Lemma qinv_write_table Hd q e t a f' data :
  qinv cs Hd q → cmap (l2_cache q) !! e = Some t → vec_get (l1_table q) e = Some a → a ≠ 0 →
  new_cluster_written cs (rfile (raw_file q)) f' a data → on_disk cs f' a (vec t) →
  let q' := with_raw q (with_rfile (raw_file q) f') in
  moves cs 0 Hd q q' ∧ ∀ i, l2_view cs q' i = l2_view cs q i.
Proof.
  intros Hi Ht Ha Hne Hw Hon q'. destruct (l1_clus _ _ _ _ Hi Ha Hne) as (Hin & (Hda & _) & Hfa).
  destruct (core_inv_rewrite_kept cs Hpow Hcs (Hd ++ kept cs q) (core q) f' a data)
    as [Hc El]; [apply Hi| |done|done|].
  { apply elem_of_app. right. by apply kept_l1. }
  pose proof (ci_nodup _ _ _ (qi_core _ _ _ Hi)) as Hnd.
  pose proof (ci_clus _ _ _ (qi_core _ _ _ Hi)) as Hcl. rewrite Forall_forall in Hcl.
  assert (∀ b x, b ∈ kept cs q → b ≠ a → b ≤ x < b + cs → fbyte f' x = fbyte (rfile (raw_file q)) x) as Hp.
  { intros b x Hb Hba Hx. apply (nw_outside _ _ _ _ _ Hw). intros Hx'. apply Hba.
    apply (cluster_overlap cs b a x); try done; [lia|]. apply Hcl. rewrite !elem_of_app. tauto. }
  destruct (qinv_nodup _ _ Hi) as (Hn1 & Hn2 & Hn3).
  assert (∀ i b, vec_get (l1_table q) i = Some b → b ≠ 0 → i ≠ e →
    ∀ x, b ≤ x < b + cs → fbyte f' x = fbyte (rfile (raw_file q)) x) as Hp1.
  { intros i b Hb Hb0 Hie x. apply Hp; [by apply kept_l1, (l1_clus _ _ _ _ Hi Hb Hb0)|].
    intros ->. apply Hie. apply vec_get_Some in Hb as [? Hb], Ha as [? Ha].
    apply Z2Nat.inj; [done..|]. by eapply nz_lookup_inj. }
  assert (∀ i, l2_view cs q' i = l2_view cs q i) as Hv.
  { intros i. unfold l2_view. simpl. destruct (decide (Z.of_nat i = e)) as [<-|Hie]; [by rewrite Ht|].
    destruct (cmap (l2_cache q) !! Z.of_nat i); [done|].
    destruct (vec (l1_table q) !! i) as [b|] eqn:Eb; [|done]. destruct (Z.eqb_spec b 0); [done|].
    rewrite (disk_words_ext cs Hpow Hcs (rfile (raw_file q))); [done|].
    apply (Hp1 (Z.of_nat i)); [|done..]. apply vec_get_Some. rewrite Nat2Z.id. split; [lia|done]. }
  assert (entries cs q' = entries cs q) as Ee by (by apply entries_ext).
  split; [|done]. constructor; [|done|done| |done|done|done|].
  - constructor; try apply Hi.
    + unfold kept. rewrite Ee. exact Hc.
    + intros Hdl. apply (l1_on_disk_preserved (meta cs q) q (rfile (raw_file q))); [|done|by apply Hi].
      split; [simpl in *; lia|]. intros b x Hb. apply Hp; [by apply kept_meta|].
      intros ->. by destruct (Hn3 a Hb).
    + rewrite Ee. simpl. rewrite El. apply Hi.
    + intros i t' Ht'. destruct (qi_cache _ _ _ Hi i t' Ht') as (b & Hb & Hb0 & Hl & Hon').
      exists b. split_and!; try done. simpl. intros Hdt.
      destruct (decide (i = e)) as [->|Hie]; [simpl in Ht'; by simplify_eq|].
      apply (on_disk_ext cs Hpow Hcs (rfile (raw_file q))); eauto.
    + intros i b Hb Hb0 Hn. simpl in *. assert (i ≠ e) by congruence.
      rewrite (disk_words_ext cs Hpow Hcs (rfile (raw_file q))) by eauto.
      by apply (qi_disk _ _ _ Hi i).
  - apply content_frame; [done|done|]. split; [simpl in *; lia|]. intros b x Hb.
    apply Hp; [by apply kept_entries|]. intros ->. by eapply Hn2.
  - intros n. unfold room. simpl. by rewrite El, Z.add_0_r.
Qed.

Lemma moves_core k Hd Hd' q c' :
  qinv cs Hd q → core_inv cs (Hd' ++ kept cs q) c' → rc_shape (c_rc c') = rc_shape (refcounts q) →
  preserved cs (kept cs q) (rfile (raw_file q)) (c_file c') →
  max_valid_cluster_offset (c_rc c') = max_valid_cluster_offset (refcounts q) →
  (∀ n, room cs (n + k) (core q) → room cs n c') →
  moves cs k Hd' q (set_core q c').
Proof.
  intros Hi Hc Hsh Hp Hmax Hr. destruct (qinv_core _ _ _ _ Hi Hc Hsh Hp) as (Hi' & _ & Hx).
  constructor; try done.
Qed.

Lemma moves_trans k1 k2 Hd1 Hd2 q q1 q2 :
  moves cs k1 Hd1 q q1 → moves cs k2 Hd2 q1 q2 → moves cs (k1 + k2) Hd2 q q2.
Proof.
  intros [_ E1 O1 X1 B1 N1 M1 R1] [I2 E2 O2 X2 B2 N2 M2 R2]. constructor; try congruence; [by auto|].
  - intros n Hn. apply R2, R1. by replace (n + k2 + k1) with (n + (k1 + k2)) by lia.
Qed.

Lemma moves_refl Hd q : qinv cs Hd q → moves cs 0 Hd q q.
Proof. intros Hi. constructor; try done. intros n. by rewrite Z.add_0_r. Qed.

Section Loading.
Context `{HashOrderLaws}.

Lemma evict_l2_spec Hd q e b :
  qinv cs Hd q → cmap (l2_cache q) !! e = Some b →
  ∃ a f', vec_get (l1_table q) e = Some a ∧ a ≠ 0 ∧
    evict_l2 (l1_table q) e b (rfile (raw_file q)) = (f', Ok tt) ∧ on_disk cs f' a (vec b) ∧
    let q' := with_raw q (with_rfile (raw_file q) f') in
    moves cs 0 Hd q q' ∧ ∀ i, l2_view cs q' i = l2_view cs q i.
Proof.
  intros Hi Hb. destruct (qi_cache _ _ _ Hi e b Hb) as (a & Ha & Ha0 & Hl & _).
  destruct (l1_clus _ _ _ _ Hi Ha Ha0) as (_ & Hca & _).
  destruct (write_pointer_table_written cs Hpow Hcs (rfile (raw_file q)) a (vec b))
    as (f' & bs & Ew & Hw & Hon); [by eapply clus_entry_ok|done|by eapply cached_entry_ok|].
  exists a, f'. split_and!; [done|done|unfold evict_l2; by rewrite Ha|done|].
  by eapply qinv_write_table.
Qed.

(** The table of an L1 entry that is not cached is on disk. *)
Lemma uncached_on_disk Hd q i a :
  qinv cs Hd q → vec_get (l1_table q) i = Some a → a ≠ 0 → cmap (l2_cache q) !! i = None →
  on_disk cs (rfile (raw_file q)) a (l2_view cs q (Z.to_nat i)).
Proof.
  intros Hi Ha Hne Hn. split; [by apply (qi_disk _ _ _ Hi i)|].
  apply vec_get_Some in Ha as [Hi0 Ha]. unfold l2_view. rewrite Z2Nat.id, Hn, Ha by done.
  by destruct (Z.eqb_spec a 0).
Qed.

(** The cached tables with [e] evicted and [t] inserted. *)
Lemma qinv_insert_evict Hd q i a t m :
  qinv cs Hd q → vec_get (l1_table q) i = Some a → a ≠ 0 → cmap (l2_cache q) !! i = None →
  vec t = l2_view cs q (Z.to_nat i) →
  (m = cmap (l2_cache q) ∨ ∃ e b ae, m = delete e (cmap (l2_cache q)) ∧
     cmap (l2_cache q) !! e = Some b ∧ vec_get (l1_table q) e = Some ae ∧ ae ≠ 0 ∧
     on_disk cs (rfile (raw_file q)) ae (vec b)) →
  let q' := with_l2_cache q (with_cmap (l2_cache q) (<[i := t]> m)) in
  moves cs 0 Hd q q' ∧ ∀ i, l2_view cs q' i = l2_view cs q i.
Proof.
  intros Hi Ha Hne Hn Ev Hm. pose proof (uncached_on_disk _ _ _ _ Hi Ha Hne Hn) as Hon.
  apply qinv_cache; [done| |].
  - intros k t' [[<- <-]|[Hk Hk']]%lookup_insert_Some.
    { exists a. rewrite Ev. done. }
    assert (cmap (l2_cache q) !! k = Some t') as Hk2.
    { destruct Hm as [->|(e & b & ae & -> & _)]; [done|]. by apply lookup_delete_Some in Hk' as [_ ?]. }
    destruct (qi_cache _ _ _ Hi k t' Hk2) as (ak & Hak & Hak0 & _ & Honk).
    exists ak. split_and!; try done. symmetry. apply view_cached; [|done].
    by apply vec_get_Some in Hak as [? _].
  - intros k t' [Hk Hne']%lookup_insert_None Hk2. destruct Hm as [->|(e & b & ae & -> & Hb & Hae)].
    { by rewrite Hk in Hk2. }
    apply lookup_delete_None in Hk as [<-|Hk]; [|by rewrite Hk in Hk2].
    simplify_eq. by exists ae.
Qed.

Lemma insert_l2_spec Hd q i a t :
  qinv cs Hd q → vec_get (l1_table q) i = Some a → a ≠ 0 → cmap (l2_cache q) !! i = None →
  vec t = l2_view cs q (Z.to_nat i) →
  ∃ q', insert_l2 i t q = (q', Ok tt) ∧ moves cs 0 Hd q q' ∧
    (∀ i, l2_view cs q' i = l2_view cs q i) ∧
    cmap (l2_cache q') !! i = Some t ∧ l1_table q' = l1_table q ∧
    backing_file q' = backing_file q.
Proof.
  intros Hi Ha Hne Hn Ev.
  destruct (cache_insert_spec cs Hpow Hcs (l2_cache q) (rfile (raw_file q)) i t (evict_l2 (l1_table q)))
    as (m & f' & E & Hcase).
  { rewrite (qi_cap _ _ _ Hi). lia. }
  { intros e b Hb _. destruct (evict_l2_spec _ _ _ _ Hi Hb) as (ae & f' & _ & _ & ? & _). eauto. }
  unfold insert_l2. rewrite E.
  set (q1 := with_raw q (with_rfile (raw_file q) f')).
  assert (moves cs 0 Hd q q1 ∧ (∀ i, l2_view cs q1 i = l2_view cs q i) ∧
    (m = cmap (l2_cache q) ∨ ∃ e b ae, m = delete e (cmap (l2_cache q)) ∧
      cmap (l2_cache q) !! e = Some b ∧ vec_get (l1_table q) e = Some ae ∧ ae ≠ 0 ∧
      on_disk cs f' ae (vec b))) as (Hm1 & Hv1 & Hm).
  { destruct Hcase as [[-> ->]|(e & b & Hb & -> & Hf)].
    - unfold q1. rewrite set_file_same. split_and!; [by apply moves_refl|done|by left].
    - destruct (evict_l2_spec _ _ _ _ Hi Hb) as (ae & f'' & Hae & Hae0 & Ew & Hon & Hm & Hv).
      destruct (dirty b) eqn:Hdb.
      + rewrite Ew in Hf. simplify_eq. split_and!; [done|done|]. right. eauto 10.
      + subst f'. unfold q1. rewrite set_file_same. split_and!; [by apply moves_refl|done|].
        right. exists e, b, ae. split_and!; try done.
        destruct (qi_cache _ _ _ Hi e b Hb) as (a' & Ha' & _ & _ & Hon'). simplify_eq. auto. }
  destruct (qinv_insert_evict Hd q1 i a t m) as [Hm2 Hv2]; [apply Hm1|done..|by rewrite Hv1|done|].
  eexists. split; [reflexivity|]. split_and!; [by apply (moves_trans 0 0 Hd Hd q q1)| |simpl; by rewrite lookup_insert_eq|done..].
  intros k. by rewrite Hv2, Hv1.
Qed.

Lemma moves_pos Hd q p :
  qinv cs Hd q →
  let q' := with_raw q (with_rfile (raw_file q) (with_pos (rfile (raw_file q)) p)) in
  moves cs 0 Hd q q' ∧ ∀ i, l2_view cs q' i = l2_view cs q i.
Proof.
  intros Hi q'. split; [|done].
  assert (q' = set_core q (core_file (core q) (with_pos (rfile (raw_file q)) p))) as -> by done.
  apply (moves_core 0 Hd); [done| |done|by split|done|].
  - by apply core_inv_pos, Hi.
  - intros n. by rewrite Z.add_0_r.
Qed.

Lemma on_rfile_ok {A} (m : method File io_error A) q f' x :
  m (rfile (raw_file q)) = (f', Ok x) →
  on_rfile m q = (with_raw q (with_rfile (raw_file q) f'), Ok x).
Proof. intros Hm. unfold on_rfile, on_raw, on_file. by rewrite Hm. Qed.

(** The table of an L1 entry is read from its cluster. *)
Lemma read_l2_spec Hd q i a :
  qinv cs Hd q → vec_get (l1_table q) i = Some a → a ≠ 0 → cmap (l2_cache q) !! i = None →
  ∃ q', on_rfile (read_l2_cluster (cluster_size (raw_file q)) a) q =
      (q', Ok (l2_view cs q (Z.to_nat i))) ∧ moves cs 0 Hd q q' ∧
    (∀ i, l2_view cs q' i = l2_view cs q i) ∧
    l2_cache q' = l2_cache q ∧ l1_table q' = l1_table q ∧
    backing_file q' = backing_file q.
Proof.
  intros Hi Ha Hne Hn. destruct (l1_clus _ _ _ _ Hi Ha Hne) as (_ & Hca & Hfa).
  destruct (uncached_on_disk _ _ _ _ Hi Ha Hne Hn) as [Hcomp Ev].
  destruct (moves_pos Hd q (a + cs) Hi) as [Hm Hv]. eexists. split; [|done].
  rewrite (qi_cs _ _ _ Hi), (on_rfile_ok _ _ _ _ (read_l2_cluster_spec cs Hpow Hcs _ a
    ltac:(by eapply clus_entry_ok) Hfa Hcomp)). by rewrite Ev.
Qed.

Lemma load_l2_spec Hd q i a :
  qinv cs Hd q → vec_get (l1_table q) i = Some a → a ≠ 0 →
  ∃ q' t, load_l2 i a q = (q', Ok tt) ∧ moves cs 0 Hd q q' ∧
    (∀ i, l2_view cs q' i = l2_view cs q i) ∧
    cmap (l2_cache q') !! i = Some t ∧ l1_table q' = l1_table q ∧
    backing_file q' = backing_file q.
Proof.
  intros Hi Ha Hne. unfold load_l2. destruct (cmap (l2_cache q) !! i) as [t|] eqn:Et.
  { rewrite (contains_key_Some _ _ _ Et). exists q, t. by split_and!; [|apply moves_refl|..]. }
  rewrite (contains_key_None _ _ Et).
  destruct (read_l2_spec _ _ _ _ Hi Ha Hne Et) as (q1 & E1 & Hm1 & Hv1 & Ec & El & Eb).
  erewrite mbind_ok by exact E1.
  destruct (insert_l2_spec Hd q1 i a (from_vec (l2_view cs q (Z.to_nat i))))
    as (q2 & E2 & Hm2 & Hv2 & Ht & El2 & Eb2).
  { apply Hm1. } { by rewrite El. } { done. } { by rewrite Ec. } { by rewrite Hv1. }
  exists q2, (from_vec (l2_view cs q (Z.to_nat i))).
  split_and!; [done|by apply (moves_trans 0 0 Hd Hd q q1)|intros k; by rewrite Hv2, Hv1|done|by rewrite El2|].
  by rewrite Eb2.
Qed.

End Loading.

(** The backing file after a read of it. *)
Lemma moves_backing Hd q b b' :
  qinv cs Hd q → backing_file q = Some b → disk_ok b' → disk_size b' = disk_size b →
  (∀ x, disk_byte b' x = disk_byte b x) →
  moves cs 0 Hd q (with_backing q (Some b')).
Proof.
  intros Hi Eb Hok Es Hx. assert (∀ x, backing_byte (with_backing q (Some b')) x = backing_byte q x) as Hbb.
  { intros x. unfold backing_byte. by rewrite Eb, <-Hx. }
  constructor; try done; [| |by rewrite Eb|].
  - constructor; try apply Hi. simpl. intros b'' [= <-]. split; [done|]. rewrite Es.
    by apply (qi_backing _ _ _ Hi b).
  - intros x. unfold content. by rewrite Hbb.
  - intros n. by rewrite Z.add_0_r.
Qed.

(** ** Translation of addresses *)

Lemma l1_index_valid Hd q x :
  qinv cs Hd q → 0 ≤ x < virtual_size q →
  ∃ a, vec_get (l1_table q) (l1_table_index q x) = Some a ∧ l1_entry x q = (q, Ok a).
Proof.
  intros Hi Hx. destruct (qi_size _ _ _ Hi) as [_ Hs]. destruct N8_spec as (_ & Hp & _).
  assert (is_Some (vec_get (l1_table q) (l1_table_index q x))) as [a Ha].
  { unfold vec_get, l1_table_index. rewrite (qi_cs _ _ _ Hi), (qi_l2 _ _ _ Hi).
    pose proof (Z.div_pos x cs ltac:(lia) ltac:(lia)) as Hk.
    pose proof (Z.div_pos (x `div` cs) (cs `div` 8) Hk Hp).
    destruct (Z.leb_spec 0 ((x `div` cs) `div` (cs `div` 8))); [|lia].
    apply lookup_lt_is_Some_2. apply Nat2Z.inj_lt. rewrite Z2Nat.id by lia.
    apply Z.div_lt_upper_bound; [done|]. apply Z.div_lt_upper_bound; [lia|]. nia. }
  exists a. split; [done|]. unfold l1_entry.
  destruct (Z.leb_spec (virtual_size q) x); [lia|]. by rewrite Ha.
Qed.

Lemma entry_at_view Hd q x a :
  qinv cs Hd q → 0 ≤ x → vec_get (l1_table q) (l1_table_index q x) = Some a →
  l2_view cs q (Z.to_nat (l1_table_index q x)) !! Z.to_nat (l2_table_index q x) =
  Some (entry_at cs q x).
Proof.
  intros Hi Hx [Hi0 Ha]%vec_get_Some. unfold entry_at.
  destruct (index_split x Hx) as [Es Hj]. unfold l1_table_index, l2_table_index in *.
  rewrite (qi_cs _ _ _ Hi), (qi_l2 _ _ _ Hi) in *. unfold vec_get.
  pose proof (Z.div_pos x cs ltac:(lia) ltac:(lia)). destruct (Z.leb_spec 0 (x `div` cs)); [|lia].
  simpl. rewrite Es, (entries_lookup Hd) by (done || by eapply lookup_lt_Some).
  rewrite <-(qinv_length_view Hd q (Z.to_nat ((x `div` cs) `div` (cs `div` 8)))) in Hj by done.
  by apply lookup_lt_is_Some_2 in Hj as [e ->].
Qed.

(** The entry of an L1 entry that is zero. *)
Lemma entry_at_absent Hd q x :
  qinv cs Hd q → 0 ≤ x → vec_get (l1_table q) (l1_table_index q x) = Some 0 →
  entry_at cs q x = 0 ∧ cmap (l2_cache q) !! l1_table_index q x = None.
Proof.
  intros Hi Hx Ha. assert (cmap (l2_cache q) !! l1_table_index q x = None) as Hn.
  { destruct (cmap (l2_cache q) !! l1_table_index q x) as [t|] eqn:Et; [|done].
    destruct (qi_cache _ _ _ Hi _ _ Et) as (a & Ha' & ? & _). congruence. }
  split; [|done]. pose proof (entry_at_view _ _ _ _ Hi Hx Ha) as He.
  apply vec_get_Some in Ha as [Hi0 Ha]. unfold l2_view in He.
  rewrite Z2Nat.id, Hn, Ha in He by done. simpl in He.
  by apply lookup_replicate in He as [-> _].
Qed.

Lemma entry_at_cached Hd q x t a :
  qinv cs Hd q → 0 ≤ x → vec_get (l1_table q) (l1_table_index q x) = Some a →
  cmap (l2_cache q) !! l1_table_index q x = Some t →
  vec_get t (l2_table_index q x) = Some (entry_at cs q x) ∧
  l2_entry (l1_table_index q x) (l2_table_index q x) q = (q, Ok (entry_at cs q x)).
Proof.
  intros Hi Hx Ha Ht. assert (vec_get t (l2_table_index q x) = Some (entry_at cs q x)) as He.
  { apply vec_get_Some. split.
    - unfold l2_table_index. rewrite (qi_l2 _ _ _ Hi). apply Z.mod_pos_bound, N8_spec.
    - rewrite <-(entry_at_view _ _ _ _ Hi Hx Ha). apply vec_get_Some in Ha as [Hi0 _].
      by rewrite (view_cached _ _ t). }
  split; [done|]. unfold l2_entry. by rewrite Ht, He.
Qed.

End Inv.
