(* ===== verification/QcowRebuild.v ===== *)
(** * Rebuilding the reference counts of an image

    [rebuild_refcounts] counts exactly the references to every cluster: those of the
    header, the L1 table, the L2 tables, the data, the table of reference counts
    and the new blocks of counts, and writes them to the file, where no cluster
    that was in use is touched. *)

From S2P Require Import Prelude Words Methods BlockFile QcowTables QcowHeader QcowFile QcowOpen QcowAlloc QcowDisk.
From stdpp Require Import options.
Local Open Scope Z_scope.

(** ** Definitions *)

Section Defs.
Context (cs : Z).

(** The index of the cluster of an address. *)
Definition cluster_index (a : Z) : nat := Z.to_nat (a `div` cs).

(** How many addresses of a list are in cluster [i]. *)
Definition refs_to (l : list Z) (i : nat) : Z :=
  Z.of_nat (length (filter (λ a, cluster_index a = i) l)).

(** The counts with the references of a list added. *)
Definition add_refs (l : list Z) (counts : list Z) : list Z :=
  imap (λ i n, (n + refs_to l i) `mod` 65536) counts.

Definition in_range (counts l : list Z) : Prop :=
  Forall (λ a, cluster_index a < length counts)%nat l.

Definition counts_ok (counts : list Z) : Prop := Forall (λ n, 0 ≤ n < 65536) counts.

(** The clusters of the L1 table and of the table of reference counts. *)
Definition l1_refs (h : QcowHeader) : list Z :=
  (λ i, l1_table_offset h + i * cs) <$> seqZ 0 ((l1_size h + cs `div` 8 - 1) `div` (cs `div` 8)).
Definition ref_table_refs (h : QcowHeader) : list Z :=
  (λ i, QcowHeader.refcount_table_offset h + i * cs) <$> seqZ 0 (refcount_table_clusters h).

(** The words of a table in the file. *)
Definition table_words (f : File) (off : Z) (n : nat) (mask : Z) : list Z :=
  (λ e, Z.land e mask) <$> be_words 8 n (get_bytes f off (8 * Z.of_nat n)).

(** The L2 tables and the data clusters that an L1 table reaches. *)
Definition l2_refs (f : File) (a : Z) : list Z :=
  if a =? 0 then [] else a :: nz (table_words f a (Z.to_nat (cs `div` 8)) L2_TABLE_OFFSET_MASK).
Definition data_refs (f : File) (h : QcowHeader) : list Z :=
  concat (l2_refs f <$>
    table_words f (l1_table_offset h) (Z.to_nat (l1_size h)) L1_TABLE_OFFSET_MASK).

(** All references of an image but those to blocks of counts. *)
Definition references (f : File) (h : QcowHeader) : list Z :=
  [0] ++ l1_refs h ++ data_refs f h ++ ref_table_refs h.

(** A table that can be read. *)
Definition readable (f : File) (a : Z) : Prop := a = 0 ∨ 0 ≤ a ≤ 2 ^ 62 ∧ a + cs ≤ flen f.

(** The clusters from [s] whose count is zero. *)
Definition free_indices (counts : list Z) (s : nat) : list nat :=
  filter (λ i, counts !! i = Some 0 ∧ (s ≤ i)%nat) (seq 0 (length counts)).

(** The tables can be read and what they reference can be counted; there are [n] free
    clusters. *)
Record countable_image (h : QcowHeader) (f : File) (max_index n : Z) : Prop := {
  cm_l1_offset : 0 ≤ l1_table_offset h ≤ 2 ^ 62;
  cm_l1_size : 0 ≤ l1_size h < 2 ^ 32;
  cm_l1_file : l1_table_offset h + 8 * l1_size h ≤ flen f;
  cm_l1 : Forall (readable f)
    (table_words f (l1_table_offset h) (Z.to_nat (l1_size h)) L1_TABLE_OFFSET_MASK);
  cm_ref_offset : 0 ≤ QcowHeader.refcount_table_offset h ≤ 2 ^ 62;
  cm_ref_size : 0 ≤ refcount_table_clusters h < 2 ^ 32;
  cm_max : 0 ≤ max_index ∧ max_index * cs ≤ 2 ^ 62;
  cm_range : Forall (λ a, cluster_index a < Z.to_nat max_index)%nat (references f h);
  cm_free : n ≤ Z.of_nat (length (free_indices
    (add_refs (references f h) (replicate (Z.to_nat max_index) 0)) 0));
}.

(** The new blocks of counts, and all counts. *)
Definition new_refblocks (h : QcowHeader) (f : File) (max_index n : Z) : list Z :=
  (λ i, Z.of_nat i * cs) <$>
    take (Z.to_nat n) (free_indices (add_refs (references f h) (replicate (Z.to_nat max_index) 0)) 0).
Definition rebuilt_counts (h : QcowHeader) (f : File) (max_index n : Z) : list Z :=
  add_refs (references f h ++ new_refblocks h f max_index n) (replicate (Z.to_nat max_index) 0).

(** Block [k] of the counts, padded to a cluster. *)
Definition refblock (counts : list Z) (k : nat) : list Z :=
  let b := take (Z.to_nat (cs `div` 2)) (drop (k * Z.to_nat (cs `div` 2)) counts) in
  b ++ replicate (Z.to_nat (cs `div` 2) - length b) 0.

(** The header while the counts are rebuilt, and afterwards. *)
Definition lazy_header (h : QcowHeader) : QcowHeader :=
  with_compatible_features h (Z.lor (compatible_features h) COMPATIBLE_FEATURES_LAZY_REFCOUNTS).
Definition exact_header (h : QcowHeader) : QcowHeader :=
  with_compatible_features (lazy_header h)
    (Z.land (compatible_features (lazy_header h)) (u64_not COMPATIBLE_FEATURES_LAZY_REFCOUNTS)).

(** The header is in the first cluster, and the table has room for the blocks. *)
Record table_room (h : QcowHeader) (n : Z) : Prop := {
  tr_fits : header_fits h;
  tr_cs : 2 ^ cluster_bits h = cs;
  tr_header : Z.of_nat (length (header_bytes h)) ≤ cs;
  tr_offset : cs ≤ QcowHeader.refcount_table_offset h;
  tr_aligned : (cs | QcowHeader.refcount_table_offset h);
  tr_blocks : 0 ≤ n ∧ 8 * n ≤ refcount_table_clusters h * cs - 8;
}.

(** The sizes of a rebuild: the clusters that an image may use, the blocks that count
    them, and the counts in memory. *)
Definition ceil (a b : Z) : Z := (a + b - 1) `div` b.
Definition max_clusters (h : QcowHeader) : Z :=
  let data_clusters := ceil (QcowHeader.size h) cs in
  let l2_clusters := ceil data_clusters (cs `div` 8) in
  data_clusters + l2_clusters + ceil l2_clusters (cs `div` 8) + 1.
Definition rebuild_blocks (h : QcowHeader) : Z := ceil (max_clusters h) (cs `div` 2).
Definition rebuild_max (h : QcowHeader) : Z :=
  let n := rebuild_blocks h in
  let t := ceil n (cs `div` 8) in
  let r := ceil (n + t) (cs `div` 2) in
  max_clusters h + (n + t) + (r + ceil r (cs `div` 2)).

(** The count of cluster [i] in the file. *)
Definition disk_refcount (h : QcowHeader) (f : File) (i : nat) : Z :=
  let e := Z.to_nat (cs `div` 2) in
  let a := be_value (get_bytes f (QcowHeader.refcount_table_offset h + 8 * Z.of_nat (i / e)%nat) 8) in
  if a =? 0 then 0 else be_value (get_bytes f (a + 2 * Z.of_nat (i mod e)%nat) 2).

(** What writing the blocks [rt] of the counts does to the file. *)
Record counts_written (h : QcowHeader) (counts rt : list Z) (f f' : File) : Prop := {
  cw_ok : file_ok f';
  cw_header : next_bytes (with_pos f' 0) (header_bytes (exact_header h));
  cw_blocks k a : rt !! k = Some a → holds cs f' a (Some (be_encode 2 (refblock counts k)));
  cw_table : get_bytes f' (QcowHeader.refcount_table_offset h) (8 * Z.of_nat (length rt)) = be_encode 8 rt;
  cw_rest x : QcowHeader.refcount_table_offset h + 8 * Z.of_nat (length rt) ≤ x <
      QcowHeader.refcount_table_offset h + refcount_table_clusters h * cs →
    fbyte f' x = if decide (x = table_end h) then 0 else fbyte f x;
  cw_outside x : cs ≤ x →
    ¬ (QcowHeader.refcount_table_offset h ≤ x <
       QcowHeader.refcount_table_offset h + refcount_table_clusters h * cs) →
    (∀ a, a ∈ rt → ¬ (a ≤ x < a + cs)) → fbyte f' x = fbyte f x;
  cw_len : flen f ≤ flen f';
  cw_max n : flen f ≤ n → (∀ a, a ∈ rt → a + cs ≤ n) →
    QcowHeader.refcount_table_offset h + refcount_table_clusters h * cs ≤ n → flen f' ≤ n;
}.

(** An image whose counts can be rebuilt. *)
Record rebuildable (h : QcowHeader) (f : File) : Prop := {
  rb_order : refcount_order h = 4;
  rb_size : 0 ≤ QcowHeader.size h ≤ 2 ^ 44;
  rb_max : rebuild_max h ≤ MAX_RAM_POINTER_TABLE_SIZE;
  rb_len : cs ≤ flen f ≤ rebuild_max h * cs + cs;
  rb_count : countable_image h f (rebuild_max h) (rebuild_blocks h);
  rb_small i : refs_to (references f h) i < 65536;
  rb_room : table_room h (rebuild_blocks h);
  rb_file : file_ok f;
}.

(** The table of reference counts in the file. *)
Definition in_ref_table (h : QcowHeader) (x : Z) : Prop :=
  QcowHeader.refcount_table_offset h ≤ x <
  QcowHeader.refcount_table_offset h + refcount_table_clusters h * cs.

End Defs.

(** ** Counting *)

Lemma filter_none {A} (P : A → Prop) `{∀ x, Decision (P x)} (l : list A) :
  (∀ x, x ∈ l → ¬ P x) → filter P l = [].
Proof.
  induction l as [|x l IH]; intros Hl; [done|]. rewrite filter_cons, decide_False by (apply Hl; by left).
  apply IH. intros y Hy. apply Hl. by right.
Qed.

Lemma filter_ext_in {A} (P Q : A → Prop) `{∀ x, Decision (P x), ∀ x, Decision (Q x)} (l : list A) :
  (∀ x, x ∈ l → P x ↔ Q x) → filter P l = filter Q l.
Proof.
  induction l as [|x l IH]; intros Hl; [done|]. rewrite !filter_cons.
  assert (P x ↔ Q x) as Hx by (apply Hl; by left). rewrite IH by (intros y Hy; apply Hl; by right).
  by repeat case_decide; try tauto.
Qed.

Lemma refs_to_app cs l l' i : refs_to cs (l ++ l') i = refs_to cs l i + refs_to cs l' i.
Proof. unfold refs_to. rewrite filter_app, length_app. lia. Qed.

Lemma refs_to_cons cs a l i :
  refs_to cs (a :: l) i = (if decide (cluster_index cs a = i) then 1 else 0) + refs_to cs l i.
Proof. unfold refs_to. rewrite filter_cons. case_decide; simpl length; lia. Qed.

Lemma refs_to_nonneg cs l i : 0 ≤ refs_to cs l i.
Proof. unfold refs_to. lia. Qed.

Lemma length_add_refs cs l counts : length (add_refs cs l counts) = length counts.
Proof. apply length_imap. Qed.

Lemma lookup_add_refs cs l counts i :
  add_refs cs l counts !! i = (λ n, (n + refs_to cs l i) `mod` 65536) <$> counts !! i.
Proof. apply list_lookup_imap. Qed.

Lemma add_refs_nil cs counts : counts_ok counts → add_refs cs [] counts = counts.
Proof.
  intros Hok. apply list_eq. intros i. rewrite lookup_add_refs.
  destruct (counts !! i) as [n|] eqn:E; [|done]. simpl. unfold refs_to. simpl.
  unfold counts_ok in Hok. rewrite Forall_lookup in Hok. pose proof (Hok i n E).
  rewrite Z.add_0_r, Z.mod_small by lia. done.
Qed.

Lemma add_refs_app cs l l' counts :
  add_refs cs l' (add_refs cs l counts) = add_refs cs (l ++ l') counts.
Proof.
  apply list_eq. intros i. rewrite !lookup_add_refs. destruct (counts !! i) as [n|]; [|done].
  simpl. rewrite Zplus_mod_idemp_l, refs_to_app. do 2 f_equal. lia.
Qed.

Lemma counts_ok_add_refs cs l counts : counts_ok (add_refs cs l counts).
Proof.
  unfold counts_ok. rewrite Forall_lookup. intros i n. rewrite lookup_add_refs.
  destruct (counts !! i); [|done]. simpl. intros [= <-]. apply Z.mod_pos_bound. lia.
Qed.

Lemma in_range_add_refs cs l l' counts : in_range cs counts l → in_range cs (add_refs cs l' counts) l.
Proof. unfold in_range. by rewrite length_add_refs. Qed.

Lemma add_ref_spec cs a counts :
  counts_ok counts → in_range cs counts [a] → add_ref cs a counts = (add_refs cs [a] counts, Ok tt).
Proof.
  intros Hok Hr. unfold in_range in Hr. rewrite Forall_singleton in Hr. unfold add_ref.
  fold (cluster_index cs a). destruct (lookup_lt_is_Some_2 _ _ Hr) as [n En]. rewrite En.
  f_equal. apply list_eq. intros i. rewrite lookup_add_refs, refs_to_cons.
  unfold counts_ok in Hok. rewrite Forall_lookup in Hok.
  destruct (decide (i = cluster_index cs a)) as [->|Hne].
  - rewrite list_lookup_insert_eq, decide_True, En by done. done.
  - rewrite list_lookup_insert_ne, decide_False by done. destruct (counts !! i) as [m|] eqn:Em; [|done].
    simpl. pose proof (Hok i m Em). unfold refs_to. simpl. rewrite Z.mod_small by lia. f_equal. lia.
Qed.

Lemma miter_add_ref cs l counts :
  counts_ok counts → in_range cs counts l → miter (add_ref cs) l counts = (add_refs cs l counts, Ok tt).
Proof.
  revert counts. induction l as [|a l IH]; intros counts Hok Hr.
  { simpl. by rewrite add_refs_nil. }
  unfold in_range in Hr. apply Forall_cons in Hr as [Ha Hr]. cbn [miter].
  erewrite mbind_ok by (apply add_ref_spec; [done|by apply Forall_singleton]).
  rewrite IH; [|apply counts_ok_add_refs|by apply in_range_add_refs].
  by rewrite add_refs_app.
Qed.

(** A loop over the images of a list. *)
Lemma miter_fmap {S E A C} (body : C → method S E unit) (g : A → C) l s :
  miter (λ a, body (g a)) l s = miter body (g <$> l) s.
Proof.
  revert s. induction l as [|a l IH]; intros s; [done|]. cbn [miter fmap list_fmap]. unfold mbind.
  destruct (body (g a) s) as [s' [u|e]]; [|done]. apply IH.
Qed.

Lemma div_round_up_spec a b :
  0 ≤ a ≤ 2 ^ 63 → 0 < b → div_round_up_u64 a b = ceil a b.
Proof.
  intros Ha Hb. unfold div_round_up_u64, ceil. pose proof (Z.div_mod a b ltac:(lia)) as Ed.
  pose proof (Z.mod_pos_bound a b Hb) as Hm. pose proof (Z.div_pos a b ltac:(lia) Hb).
  assert (a `div` b ≤ a) by (apply Z.div_le_upper_bound; nia).
  unfold u64_add, u64_wrap. rewrite Z.mod_small by (destruct (a `mod` b =? 0); lia).
  destruct (Z.eqb_spec (a `mod` b) 0) as [E|E].
  - rewrite Z.add_0_r. apply (Z.div_unique _ _ _ (b - 1)); lia.
  - apply (Z.div_unique _ _ _ (a `mod` b - 1)); lia.
Qed.

(** The addresses of consecutive clusters. *)
Lemma cluster_addrs off n cs :
  0 ≤ off → 0 < cs → off + n * cs ≤ 2 ^ 64 →
  (λ i, u64_add off (u64_mul i cs)) <$> seqZ 0 n = (λ i, off + i * cs) <$> seqZ 0 n.
Proof.
  intros Ho Hcs Hn. apply list_fmap_ext. intros k i [-> Hk]%lookup_seqZ.
  assert ((0 + Z.of_nat k) * cs ≤ (n - 1) * cs) by (apply Z.mul_le_mono_nonneg_r; lia).
  unfold u64_add, u64_mul, u64_wrap. rewrite (Z.mod_small ((0 + Z.of_nat k) * cs)) by nia.
  rewrite Z.mod_small by nia. done.
Qed.

Lemma on_counts_ok {A} (m : method (list Z) Error A) c c' f x :
  m c = (c', Ok x) → on_counts m (c, f) = ((c', f), Ok x).
Proof. unfold on_counts. by intros ->. Qed.

Lemma read_pointer_table_ok f off n mask :
  0 ≤ off ≤ 2 ^ 62 → 0 ≤ n → off + 8 * n ≤ flen f →
  read_pointer_table off n (Some mask) f =
  (with_pos f (off + n * 8), Ok (table_words f off (Z.to_nat n) mask)).
Proof.
  intros Ho Hn Hl. unfold read_pointer_table, read_words, mbind. rewrite seek_start_ok by done.
  rewrite read_exact_ok by (simpl; lia). unfold mret, table_words. cbn [fpos with_pos].
  change (Z.of_nat 8) with 8. rewrite Z2Nat.id by done. by replace (n * 8) with (8 * n) by lia.
Qed.

(** The position of the file does not matter. *)
Lemma references_pos cs f h p : references cs (with_pos f p) h = references cs f h.
Proof. done. Qed.

Lemma countable_pos cs f h p m n : countable_image cs h f m n → countable_image cs h (with_pos f p) m n.
Proof. intros []. constructor; rewrite ?references_pos; assumption. Qed.

Lemma rebuildable_pos cs f h p : rebuildable cs h f → rebuildable cs h (with_pos f p).
Proof.
  intros []. constructor; rewrite ?references_pos; try assumption. by apply countable_pos.
Qed.

Section Count.
#[local] Set Default Proof Using "All".
Context (cs : Z) (Hpow : is_power_of_two cs = true) (Hcs : 512 ≤ cs ≤ 2 ^ 21).

Lemma add_data_refs l c f :
  counts_ok c → in_range cs c (nz l) →
  miter (λ a, if a =? 0 then mret tt else on_counts (add_ref cs a)) l (c, f) =
  ((add_refs cs (nz l) c, f), Ok tt).
Proof.
  revert c. induction l as [|a l IH]; intros c Hok Hr.
  { simpl. by rewrite add_refs_nil. }
  cbn [miter]. unfold nz in *. rewrite filter_cons in *. destruct (Z.eqb_spec a 0) as [->|Hne].
  { rewrite decide_False in * by (by intros []). erewrite mbind_ok by done. by apply IH. }
  rewrite decide_True in * by done. unfold in_range in Hr. apply Forall_cons in Hr as [Ha Hr].
  erewrite mbind_ok by (apply on_counts_ok, add_ref_spec; [done|by apply Forall_singleton]).
  rewrite IH; [|apply counts_ok_add_refs|by apply in_range_add_refs]. by rewrite add_refs_app.
Qed.

Lemma add_l2_refs_spec a c f p :
  counts_ok c → readable cs f a → in_range cs c (l2_refs cs f a) →
  ∃ p', add_l2_refs cs a (c, with_pos f p) = ((add_refs cs (l2_refs cs f a) c, with_pos f p'), Ok tt).
Proof.
  intros Hok Hrd Hr. unfold add_l2_refs, l2_refs in *. destruct (Z.eqb_spec a 0) as [->|Hne].
  { exists p. by rewrite add_refs_nil. }
  destruct Hrd as [?|[Ha Hl]]; [done|]. unfold in_range in Hr. apply Forall_cons in Hr as [Hra Hr].
  erewrite mbind_ok by (apply on_counts_ok, add_ref_spec; [done|by apply Forall_singleton]).
  pose proof (cs_even cs Hpow Hcs).
  assert (on_image ReadingPointers (read_pointer_table a (cs `div` 8) (Some L2_TABLE_OFFSET_MASK))
    (add_refs cs [a] c, with_pos f p) =
    ((add_refs cs [a] c, with_pos f (a + cs `div` 8 * 8)),
     Ok (table_words f a (Z.to_nat (cs `div` 8)) L2_TABLE_OFFSET_MASK))) as E.
  { unfold on_image, mmap_err. rewrite read_pointer_table_ok by (simpl; lia). done. }
  erewrite mbind_ok by exact E.
  rewrite add_data_refs; [|apply counts_ok_add_refs|by apply in_range_add_refs].
  rewrite add_refs_app. by eexists.
Qed.

Lemma data_loop_spec l1 c f p :
  counts_ok c → Forall (readable cs f) l1 → in_range cs c (concat (l2_refs cs f <$> l1)) →
  ∃ p', miter (add_l2_refs cs) l1 (c, with_pos f p) =
    ((add_refs cs (concat (l2_refs cs f <$> l1)) c, with_pos f p'), Ok tt).
Proof.
  revert c p. induction l1 as [|a l1 IH]; intros c p Hok Hrd Hr.
  { exists p. simpl. by rewrite add_refs_nil. }
  apply Forall_cons in Hrd as [Ha Hrd]. cbn [fmap list_fmap concat] in *.
  unfold in_range in Hr. apply Forall_app in Hr as [Hr1 Hr2]. cbn [miter].
  destruct (add_l2_refs_spec a c f p Hok Ha Hr1) as [p1 E1]. erewrite mbind_ok by exact E1.
  destruct (IH (add_refs cs (l2_refs cs f a) c) p1) as [p2 E2];
    [apply counts_ok_add_refs|done|by apply in_range_add_refs|].
  exists p2. by rewrite E2, add_refs_app.
Qed.

Lemma set_data_refcounts_spec h c f p :
  counts_ok c → 0 ≤ l1_table_offset h ≤ 2 ^ 62 → 0 ≤ l1_size h →
  l1_table_offset h + 8 * l1_size h ≤ flen f →
  Forall (readable cs f) (table_words f (l1_table_offset h) (Z.to_nat (l1_size h)) L1_TABLE_OFFSET_MASK) →
  in_range cs c (data_refs cs f h) →
  ∃ p', set_data_refcounts h cs (c, with_pos f p) =
    ((add_refs cs (data_refs cs f h) c, with_pos f p'), Ok tt).
Proof.
  intros Hok Ho Hn Hl Hrd Hr. unfold set_data_refcounts.
  assert (on_image ReadingPointers
    (read_pointer_table (l1_table_offset h) (l1_size h) (Some L1_TABLE_OFFSET_MASK)) (c, with_pos f p) =
    ((c, with_pos f (l1_table_offset h + l1_size h * 8)),
     Ok (table_words f (l1_table_offset h) (Z.to_nat (l1_size h)) L1_TABLE_OFFSET_MASK))) as E.
  { unfold on_image, mmap_err. rewrite read_pointer_table_ok by (simpl; lia). done. }
  erewrite mbind_ok by exact E. by apply data_loop_spec.
Qed.

Lemma free_indices_step counts s :
  (s < length counts)%nat →
  free_indices counts s = (if decide (counts !! s = Some 0) then [s] else []) ++ free_indices counts (S s).
Proof.
  intros Hs. unfold free_indices.
  replace (seq 0 (length counts)) with (seq 0 s ++ s :: seq (S s) (length counts - S s)).
  2:{ replace (length counts) with (s + S (length counts - S s))%nat at 2 by lia.
      by rewrite seq_app. }
  rewrite !filter_app, !filter_cons. rewrite (decide_False (P := _ ∧ (S s ≤ s)%nat)) by lia.
  assert (∀ t, (s ≤ t)%nat → filter (λ i, counts !! i = Some 0 ∧ (t ≤ i)%nat) (seq 0 s) = []) as Hn.
  { intros t Ht. apply filter_none. intros i Hi%elem_of_seq. lia. }
  rewrite (Hn s), (Hn (S s)) by lia. simpl.
  assert (filter (λ i, counts !! i = Some 0 ∧ (s ≤ i)%nat) (seq (S s) (length counts - S s)) =
    filter (λ i, counts !! i = Some 0 ∧ (S s ≤ i)%nat) (seq (S s) (length counts - S s))) as ->.
  { apply filter_ext_in. intros i Hi%elem_of_seq. intuition lia. }
  repeat case_decide; try done; naive_solver lia.
Qed.

Lemma free_indices_end counts s : (length counts ≤ s)%nat → free_indices counts s = [].
Proof.
  intros Hs. unfold free_indices. apply filter_none. intros i Hi%elem_of_seq. lia.
Qed.

Lemma first_free_spec fuel counts s :
  (length counts < s + fuel)%nat → first_free fuel counts s = head (free_indices counts s).
Proof.
  revert s. induction fuel as [|fuel IH]; intros s Hf; cbn [first_free].
  { by rewrite free_indices_end by lia. }
  destruct (counts !! s) as [n|] eqn:E.
  - rewrite free_indices_step by (by eapply lookup_lt_Some). destruct (Z.eqb_spec n 0) as [->|Hne].
    + by rewrite decide_True.
    + rewrite decide_False by congruence. apply IH. lia.
  - by rewrite free_indices_end by (by apply lookup_ge_None_1).
Qed.

Lemma free_indices_ext c c' s :
  length c' = length c → (∀ i, (s ≤ i)%nat → c' !! i = c !! i) → free_indices c' s = free_indices c s.
Proof.
  intros El Hi. unfold free_indices. rewrite El. apply filter_ext_in.
  intros i _. split; intros [H1 H2]; by rewrite Hi in * by done.
Qed.

(** The first free index, and those after it. *)
Lemma free_indices_head counts s i rest :
  free_indices counts s = i :: rest →
  counts !! i = Some 0 ∧ (s ≤ i)%nat ∧ rest = free_indices counts (S i).
Proof.
  intros E. remember (length counts - s)%nat as k eqn:Ek. revert s Ek E.
  induction k as [|k IH]; intros s Ek E.
  { by rewrite free_indices_end in E by lia. }
  rewrite free_indices_step in E by lia. case_decide as Hz; simplify_eq/=; [done|].
  destruct (IH (S s)) as (? & ? & ?); [lia|done|]. split_and!; [done|lia|done].
Qed.

Lemma cluster_index_mul i : cluster_index cs (Z.of_nat i * cs) = i.
Proof. unfold cluster_index. rewrite Z.div_mul by lia. lia. Qed.

Lemma alloc_blocks_spec n s counts :
  counts_ok counts → Z.of_nat (length counts) * cs ≤ 2 ^ 63 → (n ≤ length (free_indices counts s))%nat →
  let addrs := (λ i, Z.of_nat i * cs) <$> take n (free_indices counts s) in
  alloc_blocks n cs s counts = (add_refs cs addrs counts, Ok addrs).
Proof.
  revert s counts. induction n as [|n IH]; intros s counts Hok Hl Hn.
  { simpl. by rewrite add_refs_nil. }
  cbn [alloc_blocks]. rewrite first_free_spec by lia.
  destruct (free_indices counts s) as [|i rest] eqn:E; [simpl in Hn; lia|].
  destruct (free_indices_head _ _ _ _ E) as (Hi & _ & ->). cbn [head take fmap list_fmap].
  pose proof (lookup_lt_Some _ _ _ Hi) as Hlt.
  assert (u64_mul (Z.of_nat i) cs = Z.of_nat i * cs) as ->.
  { unfold u64_mul, u64_wrap. apply Z.mod_small. nia. }
  erewrite mbind_ok by (apply add_ref_spec; [done|apply Forall_singleton; by rewrite cluster_index_mul]).
  assert (free_indices (add_refs cs [Z.of_nat i * cs] counts) (S i) = free_indices counts (S i)) as Ef.
  { apply free_indices_ext; [apply length_add_refs|]. intros j Hj. rewrite lookup_add_refs, refs_to_cons.
    rewrite decide_False by (rewrite cluster_index_mul; lia). unfold refs_to. simpl.
    destruct (counts !! j) as [m|] eqn:Em; [|done]. simpl. f_equal.
    unfold counts_ok in Hok. rewrite Forall_lookup in Hok. pose proof (Hok j m Em).
    rewrite Z.add_0_r, Z.mod_small by lia. done. }
  erewrite mbind_ok; [|apply IH; [apply counts_ok_add_refs|by rewrite length_add_refs|rewrite Ef; simpl in Hn; lia]].
  rewrite Ef, add_refs_app. done.
Qed.

Lemma set_l1_refcounts_spec h c :
  counts_ok c → 0 ≤ l1_table_offset h ≤ 2 ^ 62 → 0 ≤ l1_size h < 2 ^ 32 → in_range cs c (l1_refs cs h) →
  set_l1_refcounts h cs c = (add_refs cs (l1_refs cs h) c, Ok tt).
Proof.
  intros Hok Ho Hn Hr. unfold set_l1_refcounts. destruct (cs_even cs Hpow Hcs) as [_ E8].
  assert (64 ≤ cs `div` 8 ≤ 2 ^ 18) as H8 by lia.
  rewrite div_round_up_spec by lia. unfold ceil. rewrite miter_fmap, cluster_addrs; [by apply miter_add_ref|lia|lia|].
  assert ((l1_size h + cs `div` 8 - 1) `div` (cs `div` 8) ≤ 2 ^ 32) by (apply Z.div_le_upper_bound; nia).
  nia.
Qed.

Lemma set_ref_table_refcounts_spec h c :
  counts_ok c → 0 ≤ QcowHeader.refcount_table_offset h ≤ 2 ^ 62 → 0 ≤ refcount_table_clusters h < 2 ^ 32 →
  in_range cs c (ref_table_refs cs h) →
  set_refcount_table_refcounts h cs c = (add_refs cs (ref_table_refs cs h) c, Ok tt).
Proof.
  intros Hok Ho Hn Hr. unfold set_refcount_table_refcounts.
  rewrite miter_fmap, cluster_addrs; [by apply miter_add_ref|lia|lia|nia].
Qed.

Lemma count_references_spec h f max_index n :
  countable_image cs h f max_index n →
  ∃ p, count_references h cs max_index n f =
    (with_pos f p, Ok (rebuilt_counts cs h f max_index n, new_refblocks cs h f max_index n)).
Proof.
  intros [Hlo Hls Hlf Hl1 Hro Hrs [Hm1 Hm2] Hrange Hfree].
  unfold count_references. set (c0 := replicate (Z.to_nat max_index) 0) in *.
  assert (counts_ok c0) as Hok0 by (apply Forall_replicate; lia).
  assert (in_range cs c0 (references cs f h)) as Hr.
  { unfold in_range, c0. by rewrite length_replicate. }
  unfold references, in_range in Hr. rewrite !Forall_app in Hr. destruct Hr as (Hr1 & Hr2 & Hr3 & Hr4).
  erewrite mbind_ok by (apply on_counts_ok, add_ref_spec; done).
  erewrite mbind_ok by (apply on_counts_ok, set_l1_refcounts_spec;
    [apply counts_ok_add_refs|done|done|by apply in_range_add_refs]).
  rewrite add_refs_app.
  destruct (set_data_refcounts_spec h (add_refs cs ([0] ++ l1_refs cs h) c0) f (fpos f)) as [p E];
    [apply counts_ok_add_refs|done|lia|done|done|by apply in_range_add_refs|].
  replace (with_pos f (fpos f)) with f in E by (by destruct f).
  erewrite mbind_ok by exact E. rewrite add_refs_app.
  erewrite mbind_ok by (apply on_counts_ok, set_ref_table_refcounts_spec;
    [apply counts_ok_add_refs|done|done|by apply in_range_add_refs]).
  rewrite add_refs_app, <-!app_assoc.
  change ([0] ++ l1_refs cs h ++ data_refs cs f h ++ ref_table_refs cs h) with (references cs f h).
  exists p. unfold alloc_refblocks. erewrite on_counts_ok; [|apply alloc_blocks_spec].
  - rewrite add_refs_app. done.
  - apply counts_ok_add_refs.
  - rewrite length_add_refs. unfold c0. rewrite length_replicate. lia.
  - lia.
Qed.

End Count.

(** ** Writing the counts *)

Section Write.
#[local] Set Default Proof Using "All".
Context (cs : Z) (Hpow : is_power_of_two cs = true) (Hcs : 512 ≤ cs ≤ 2 ^ 21).

Lemma half_cluster : Z.of_nat (Z.to_nat (cs `div` 2)) = cs `div` 2 ∧ cs `div` 2 * 2 = cs ∧ 0 < cs `div` 2.
Proof. destruct (cs_even cs Hpow Hcs). lia. Qed.

Lemma length_refblock counts k : length (refblock cs counts k) = Z.to_nat (cs `div` 2).
Proof. unfold refblock. rewrite length_app, length_replicate, length_take. lia. Qed.

(** Two writes one after the other. *)
Lemma write_refcount_block_app a b b' f :
  0 ≤ a → a + 2 * Z.of_nat (length b) ≤ 2 ^ 62 →
  (let* _ := write_refcount_block a b in
   write_refcount_block (a + 2 * Z.of_nat (length b)) b') f = write_refcount_block a (b ++ b') f.
Proof.
  intros Ha Hl. unfold write_refcount_block.
  assert (be_encode 2 (b ++ b') = be_encode 2 b ++ be_encode 2 b') as ->.
  { unfold be_encode. by rewrite fmap_app, concat_app. }
  transitivity ((let* _ := write_all (be_encode 2 b) in write_all (be_encode 2 b')) (with_pos f a)).
  - unfold mbind. rewrite seek_start_ok by lia. unfold write_all, file_write, mbind, mret.
    rewrite seek_start_ok by lia. cbn [fpos with_pos]. rewrite length_be_encode.
    replace (a + Z.of_nat (length b * 2)) with (a + 2 * Z.of_nat (length b)) by lia. done.
  - rewrite write_all_app. unfold mbind at 1. by rewrite seek_start_ok by lia.
Qed.

Lemma write_refblock_spec counts k a f :
  0 ≤ a ≤ 2 ^ 56 → (k * Z.to_nat (cs `div` 2) ≤ length counts)%nat →
  ∃ f', write_refblock counts (cs `div` 2) (k, a) f = (f', Ok tt) ∧
    new_cluster_written cs f f' a (Some (be_encode 2 (refblock cs counts k))).
Proof.
  intros Ha Hk. destruct half_cluster as (Eh & E2 & Hp).
  destruct (write_refcount_block_written cs Hpow Hcs f a (refblock cs counts k)) as (f' & E & Hw);
    [done|rewrite length_refblock; lia|].
  exists f'. split; [|done]. unfold write_refblock.
  set (n := Z.to_nat (cs `div` 2)) in *. rewrite <-Eh.
  destruct (Z.ltb_spec (Z.min (Z.of_nat (length counts)) (Z.of_nat k * Z.of_nat n + Z.of_nat n))
    (Z.of_nat k * Z.of_nat n)); [lia|].
  assert (take (Z.to_nat (Z.min (Z.of_nat (length counts)) (Z.of_nat k * Z.of_nat n + Z.of_nat n) -
    Z.of_nat k * Z.of_nat n)) (drop (Z.to_nat (Z.of_nat k * Z.of_nat n)) counts) =
    take n (drop (k * n) counts)) as ->.
  { replace (Z.to_nat (Z.of_nat k * Z.of_nat n)) with (k * n)%nat by lia.
    destruct (decide (k * n + n ≤ length counts)%nat).
    - f_equal. lia.
    - rewrite !take_ge; [done|rewrite length_drop; lia..]. }
  unfold refblock in E. fold n in E. set (b := take n (drop (k * n) counts)) in *.
  assert (length b ≤ n)%nat as Hb by (unfold b; rewrite length_take; lia).
  unfold mbind, mmap_err. destruct (Z.ltb_spec (Z.of_nat (length b)) (Z.of_nat n)) as [Hlt|Hge].
  - rewrite <-write_refcount_block_app in E by lia. unfold mbind in E.
    destruct (write_refcount_block a b f) as [f1 [[]|e]]; [|done].
    unfold u64_add, u64_mul, u64_wrap. rewrite (Z.mod_small (Z.of_nat (length b) * 2)) by lia.
    rewrite Z.mod_small by lia. replace (Z.of_nat (length b) * 2) with (2 * Z.of_nat (length b)) by lia.
    replace (Z.to_nat (Z.of_nat n - Z.of_nat (length b))) with (n - length b)%nat by lia. by rewrite E.
  - replace (n - length b)%nat with 0%nat in E by lia. rewrite app_nil_r in E. by rewrite E.
Qed.

(** The blocks of a list of distinct clusters. *)
Lemma write_refblocks_loop counts ps f :
  NoDup ps.*2 → Forall (λ p, (cs | p.2) ∧ 0 ≤ p.2 ≤ 2 ^ 56 ∧ (p.1 * Z.to_nat (cs `div` 2) ≤ length counts)%nat) ps →
  file_ok f →
  ∃ f', miter (write_refblock counts (cs `div` 2)) ps f = (f', Ok tt) ∧ file_ok f' ∧ flen f ≤ flen f' ∧
    (∀ n, flen f ≤ n → Forall (λ p, p.2 + cs ≤ n) ps → flen f' ≤ n) ∧
    (∀ x, (∀ a, a ∈ ps.*2 → ¬ (a ≤ x < a + cs)) → fbyte f' x = fbyte f x) ∧
    ∀ k a, (k, a) ∈ ps → holds cs f' a (Some (be_encode 2 (refblock cs counts k))).
Proof.
  revert f. induction ps as [|[k a] ps IH]; intros f Hnd Hps Hf.
  { exists f. split_and!; try done. intros k a Hin%elem_of_nil. done. }
  apply Forall_cons in Hps as [(Hd & Ha & Hk) Hps]. cbn [fmap list_fmap fst snd] in *.
  apply NoDup_cons in Hnd as [Hni Hnd].
  destruct (write_refblock_spec counts k a f Ha Hk) as (f1 & E1 & Hw).
  destruct (IH f1 Hnd Hps) as (f' & E & Hok & Hl & Hmax & Hout & Hh).
  { eapply written_file_ok; [done..| |done|done]. lia. }
  pose proof (nw_len _ _ _ _ _ Hw) as El. exists f'. cbn [miter]. erewrite mbind_ok by exact E1.
  split_and!; [done|done|lia| | |].
  - intros n Hn [Hn1 Hn2]%Forall_cons. apply Hmax; [simpl in Hn1; lia|done].
  - intros x Hx. rewrite Hout by (intros b Hb; apply Hx; by right). apply (nw_outside _ _ _ _ _ Hw).
    apply Hx. by left.
  - intros k' a' [[= -> ->]|Hin]%elem_of_cons; [|by apply Hh].
    destruct (nw_holds _ _ _ _ _ Hw) as [Hl1 Hb]. split; [lia|]. intros i Hi. rewrite Hout; [by apply Hb|].
    intros b Hbin Hbx. apply Hni. assert (b = a) as <-; [|done].
    apply list_elem_of_fmap in Hbin as (p & -> & Hp). rewrite Forall_forall in Hps.
    destruct (Hps p Hp) as [Hdp _]. apply (cluster_overlap cs p.2 a (a + i)); [lia|done|done|lia|lia].
Qed.

Lemma header_length_features h c : length (header_bytes (with_compatible_features h c)) = length (header_bytes h).
Proof.
  unfold header_bytes, fixed_bytes. cbn. by destruct (version h =? 3); rewrite !length_app.
Qed.

Lemma header_fits_features h c :
  header_fits h → in_u64 c → header_fits (with_compatible_features h c).
Proof.
  intros [H1 H2 H3 H4] Hc. constructor; [done| |done|by rewrite header_length_features].
  rewrite !Forall_cons in *. cbn. naive_solver.
Qed.

Lemma header_fits_lazy h : header_fits h → header_fits (lazy_header h) ∧ header_fits (exact_header h).
Proof.
  intros Hh. pose proof (hf_u64 _ Hh) as Hw. rewrite !Forall_cons in Hw.
  destruct Hw as (_ & _ & _ & _ & _ & _ & Hc & _).
  assert (∀ c, 0 ≤ c → Z.log2 c < 64 → in_u64 c) as Hin.
  { intros c H0 Hl. unfold in_u64, u64_max. destruct (decide (c = 0)) as [->|]; [lia|].
    assert (c < 2 ^ 64) by (apply Z.log2_lt_pow2; lia). lia. }
  assert (0 ≤ Z.lor (compatible_features h) 1 ∧ Z.log2 (Z.lor (compatible_features h) 1) < 64) as [Hl1 Hl2].
  { unfold in_u64, u64_max in Hc. split; [apply Z.lor_nonneg; lia|]. rewrite Z.log2_lor by lia.
    destruct (decide (compatible_features h = 0)) as [->|]; [done|].
    apply Z.max_lub_lt; [apply Z.log2_lt_pow2; lia|done]. }
  split; [by apply header_fits_features, Hin|].
  apply header_fits_features; [by apply header_fits_features, Hin|]. apply Hin.
  - apply Z.land_nonneg. by left.
  - eapply Z.le_lt_trans; [apply Z.log2_land; [done|]|]; [done|]. simpl. lia.
Qed.

Lemma lor_zero_table (rt : list Z) : (λ addr, if addr =? 0 then 0 else Z.lor addr 0) <$> rt = rt.
Proof.
  rewrite <-(list_fmap_id rt) at 2. apply list_fmap_ext. intros i a _. simpl. rewrite Z.lor_0_r.
  by destruct (Z.eqb_spec a 0).
Qed.

Lemma elem_of_imap_pair (rt : list Z) k a : (k, a) ∈ imap pair rt ↔ rt !! k = Some a.
Proof.
  rewrite elem_of_lookup_imap. split; [by intros (i & x & [= -> ->] & ?)|]. intros E. by exists k, a.
Qed.

Lemma imap_pair_snd (rt : list Z) : (imap pair rt).*2 = rt.
Proof.
  apply list_eq. intros i. rewrite list_lookup_fmap, list_lookup_imap. by destruct (rt !! i).
Qed.

(** The steps of [write_refblocks]. *)
Lemma write_refblocks_run h counts rt f f1 f2 f3 f4 :
  write_to (lazy_header h) (with_pos f 0) = (f1, Ok tt) →
  miter (write_refblock counts (cs `div` 2)) (imap pair rt) f1 = (f2, Ok tt) →
  write_pointer_table (QcowHeader.refcount_table_offset h) rt 0 f2 = (f3, Ok tt) →
  write_to (exact_header h) (with_pos f3 0) = (f4, Ok tt) →
  write_refblocks true counts h rt (cs `div` 2) f = (f4, Ok tt).
Proof.
  intros E1 E2 E3 E4. unfold write_refblocks. cbn [negb]. fold (lazy_header h).
  assert (∀ g, mmap_err SeekingFile (seek_start 0) g = (with_pos g 0, Ok tt)) as Es.
  { intros g. unfold mmap_err. by rewrite seek_start_ok by lia. }
  erewrite mbind_ok by apply Es. erewrite mbind_ok by exact E1. erewrite mbind_ok by exact E2.
  change (QcowHeader.refcount_table_offset (lazy_header h)) with (QcowHeader.refcount_table_offset h).
  erewrite mbind_ok by (unfold mmap_err; by rewrite E3). erewrite mbind_ok by apply Es. exact E4.
Qed.

(** The bytes of the file after the steps. *)
Lemma counts_written_steps h counts rt f f1 f2 f3 f4 :
  let off := QcowHeader.refcount_table_offset h in
  let size := refcount_table_clusters h * cs in
  Z.of_nat (length (header_bytes h)) ≤ cs → cs ≤ off → 8 * Z.of_nat (length rt) ≤ size - 8 →
  table_end h = off + size - 2 → Forall (λ a, (cs | a) ∧ cs ≤ a ≤ 2 ^ 56) rt →
  (∀ a x, a ∈ rt → a ≤ x < a + cs → ¬ (off ≤ x < off + size)) →
  header_written (lazy_header h) (with_pos f 0) f1 → file_ok f2 → flen f1 ≤ flen f2 →
  (∀ n, flen f1 ≤ n → Forall (λ p, p.2 + cs ≤ n) (imap pair rt) → flen f2 ≤ n) →
  (∀ x, (∀ a, a ∈ rt → ¬ (a ≤ x < a + cs)) → fbyte f2 x = fbyte f1 x) →
  (∀ k a, (k, a) ∈ imap pair rt → holds cs f2 a (Some (be_encode 2 (refblock cs counts k)))) →
  f3 = with_pos (write_at off (be_encode 8 rt) f2) (off + Z.of_nat (length (be_encode 8 rt))) →
  header_written (exact_header h) (with_pos f3 0) f4 → counts_written cs h counts rt f f4.
Proof.
  intros off size Hhl Hro Hn Et Hrt Hdisj W1 Ok2 L2 M2 O2 B2 E3 W4.
  assert (Z.of_nat (length (be_encode 8 rt)) = 8 * Z.of_nat (length rt)) as El
    by (rewrite length_be_encode; lia).
  assert (∀ x, cs ≤ x → x ≠ table_end h → fbyte f4 x = fbyte f3 x) as H4.
  { intros x Hx Hne. apply (hw_outside _ _ _ W4); [unfold exact_header, lazy_header; rewrite !header_length_features; lia|done]. }
  assert (∀ x, cs ≤ x → x ≠ table_end h → fbyte f1 x = fbyte f x) as H1.
  { intros x Hx Hne. apply (hw_outside _ _ _ W1); [unfold lazy_header; rewrite !header_length_features; lia|done]. }
  assert (∀ x, fbyte f3 x = if decide (off ≤ x < off + 8 * Z.of_nat (length rt))
    then default 0 (be_encode 8 rt !! Z.to_nat (x - off)) else fbyte f2 x) as H3.
  { intros x. rewrite E3, fbyte_with_pos, fbyte_write_at. by rewrite El. }
  assert (flen f2 ≤ flen f3 ≤ Z.max (flen f2) (off + size)) as Hl3.
  { rewrite E3. cbn [flen with_pos]. split; [apply flen_write_at_ge|].
    destruct (decide (be_encode 8 rt = [])) as [->|Hne]; [simpl; lia|]. rewrite flen_write_at by done. lia. }
  pose proof (hw_len _ _ _ W4) as L4. pose proof (hw_len _ _ _ W1) as L1. cbn [flen with_pos] in L1, L4.
  change (table_end (exact_header h)) with (table_end h) in L4.
  change (table_end (lazy_header h)) with (table_end h) in L1.
  constructor; fold off; fold size.
  - apply (hw_ok _ _ _ W4), file_ok_with_pos. rewrite E3. apply file_ok_with_pos, file_ok_write_at; [lia|done].
  - apply W4.
  - intros k a Hka. pose proof (proj2 (elem_of_imap_pair rt k a) Hka) as Hin.
    pose proof (list_elem_of_lookup_2 _ _ _ Hka) as Ha. rewrite Forall_forall in Hrt.
    destruct (Hrt a Ha) as [_ Hca]. destruct (B2 k a Hin) as [Hla Hb]. split; [lia|].
    intros i Hi. pose proof (Hdisj a (a + i) Ha ltac:(lia)) as Hd.
    rewrite H4, H3, decide_False by lia. by apply Hb.
  - rewrite <-El. apply list_eq. intros i. destruct (decide (i < length (be_encode 8 rt))%nat) as [Hi|Hi].
    + rewrite lookup_get_bytes by lia. rewrite H4, H3, decide_True by lia.
      replace (Z.to_nat (off + Z.of_nat i - off)) with i by lia. by apply lookup_lt_is_Some_2 in Hi as [y ->].
    + rewrite !lookup_ge_None_2; [done|lia|rewrite length_get_bytes; lia].
  - intros x Hx. case_decide as Hte; [rewrite Hte; apply W4|]. rewrite H4, H3, decide_False by lia.
    rewrite O2; [apply H1; lia|]. intros a Ha Hax. apply (Hdisj a x Ha Hax). lia.
  - intros x Hx Hx1 Hx2. rewrite H4, H3, decide_False, O2, H1 by (done || lia). done.
  - lia.
  - intros n Hn1 Hn2 Hn3. assert (flen f2 ≤ n); [|lia]. apply M2; [lia|].
    apply Forall_forall. intros [k a] Hka%elem_of_imap_pair. by eapply Hn2, list_elem_of_lookup_2.
Qed.

Lemma write_refblocks_spec h counts rt f :
  table_room cs h (Z.of_nat (length rt)) → file_ok f → NoDup rt →
  Forall (λ a, (cs | a) ∧ cs ≤ a ≤ 2 ^ 56) rt →
  (∀ a x, a ∈ rt → a ≤ x < a + cs → ¬ (QcowHeader.refcount_table_offset h ≤ x <
    QcowHeader.refcount_table_offset h + refcount_table_clusters h * cs)) →
  ((length rt - 1) * Z.to_nat (cs `div` 2) ≤ length counts)%nat →
  ∃ f', write_refblocks true counts h rt (cs `div` 2) f = (f', Ok tt) ∧
    counts_written cs h counts rt f f'.
Proof.
  intros [Hfits Ebits Hhl Hro _ [_ Hn]] Hok Hnd Hrt Hdisj Hlen.
  destruct (header_fits_lazy h Hfits) as [Hf1 Hf4]. destruct (hf_end _ Hfits) as [_ Hend].
  assert (table_end h = QcowHeader.refcount_table_offset h + refcount_table_clusters h * cs - 2) as Et.
  { unfold table_end. by rewrite Ebits. }
  destruct (write_to_spec (lazy_header h) (with_pos f 0) Hf1 eq_refl) as (f1 & E1 & W1).
  destruct (write_refblocks_loop counts (imap pair rt) f1) as (f2 & E2 & Ok2 & L2 & M2 & O2 & B2).
  { by rewrite imap_pair_snd. }
  { apply Forall_forall. intros [k a] Hka%elem_of_imap_pair. cbn [fst snd].
    rewrite Forall_lookup in Hrt. destruct (Hrt k a Hka) as [? ?]. split_and!; [done|lia|lia|].
    apply lookup_lt_Some in Hka. etrans; [|exact Hlen]. apply Nat.mul_le_mono_r. lia. }
  { by apply W1. }
  rewrite imap_pair_snd in O2.
  set (f3 := with_pos (write_at (QcowHeader.refcount_table_offset h) (be_encode 8 rt) f2)
    (QcowHeader.refcount_table_offset h + Z.of_nat (length (be_encode 8 rt)))).
  assert (write_pointer_table (QcowHeader.refcount_table_offset h) rt 0 f2 = (f3, Ok tt)) as E3.
  { unfold write_pointer_table. rewrite lor_zero_table. unfold mbind. rewrite seek_start_ok by lia.
    unfold write_all, file_write, mbind, mret. cbn [fpos with_pos]. unfold f3. f_equal.
    by destruct (be_encode 8 rt). }
  destruct (write_to_spec (exact_header h) (with_pos f3 0) Hf4 eq_refl) as (f4 & E4 & W4).
  exists f4. split; [by eapply write_refblocks_run|].
  by apply (counts_written_steps h counts rt f f1 f2 f3 f4).
Qed.

Lemma ceil_bound a b m : 0 ≤ a ≤ m → 1 ≤ b → 0 ≤ ceil a b ≤ m.
Proof.
  intros Ha Hb. unfold ceil. split; [apply Z.div_pos; lia|].
  apply Z.lt_succ_r, Z.div_lt_upper_bound; nia.
Qed.

Lemma u64_add_small a b : 0 ≤ a ≤ 2 ^ 62 → 0 ≤ b ≤ 2 ^ 62 → u64_add a b = a + b.
Proof. intros Ha Hb. unfold u64_add, u64_wrap. apply Z.mod_small. lia. Qed.

(** The sizes are computed without overflow. *)
Lemma image_clusters_spec h :
  0 ≤ QcowHeader.size h ≤ 2 ^ 44 → image_clusters h cs = max_clusters cs h ∧ 1 ≤ max_clusters cs h ≤ 2 ^ 46.
Proof.
  intros Hs. destruct (cs_even cs Hpow Hcs) as [E2 E8].
  assert (ceil 128 cs = 1) as E1.
  { unfold ceil. symmetry. apply (Z.div_unique _ _ _ 127); lia. }
  unfold max_clusters, image_clusters, QCOW_HEADER_STRUCT_SIZE.
  rewrite (div_round_up_spec (QcowHeader.size h) cs) by lia.
  pose proof (ceil_bound (QcowHeader.size h) cs (2 ^ 44) Hs ltac:(lia)) as Hd.
  generalize dependent (ceil (QcowHeader.size h) cs). intros d Hd.
  rewrite (div_round_up_spec d) by lia.
  pose proof (ceil_bound d (cs `div` 8) (2 ^ 44) Hd ltac:(lia)) as Hl2.
  generalize dependent (ceil d (cs `div` 8)). intros l2 Hl2. rewrite (div_round_up_spec l2) by lia.
  pose proof (ceil_bound l2 (cs `div` 8) (2 ^ 44) Hl2 ltac:(lia)) as Hl1.
  rewrite (div_round_up_spec 128), E1 by lia.
  rewrite (u64_add_small d l2), (u64_add_small (d + l2)), u64_add_small by lia. lia.
Qed.

Lemma last_valid_index_spec m n :
  0 ≤ m ≤ 2 ^ 46 → 0 ≤ n ≤ 2 ^ 46 →
  let t := ceil n (cs `div` 8) in
  let r := ceil (n + t) (cs `div` 2) in
  last_valid_index cs (cs `div` 2) m n = m + (n + t) + (r + ceil r (cs `div` 2)).
Proof.
  intros Hm Hn t r. destruct (cs_even cs Hpow Hcs) as [E2 E8]. unfold last_valid_index.
  rewrite (div_round_up_spec n) by lia.
  pose proof (ceil_bound n (cs `div` 8) (2 ^ 46) Hn ltac:(lia)) as Ht. fold t in Ht |- *.
  rewrite (u64_add_small n t), (div_round_up_spec (n + t)) by lia.
  pose proof (ceil_bound (n + t) (cs `div` 2) (2 ^ 47) ltac:(lia) ltac:(lia)) as Hr. fold r in Hr |- *.
  rewrite (div_round_up_spec r) by lia.
  pose proof (ceil_bound r (cs `div` 2) (2 ^ 47) Hr ltac:(lia)).
  rewrite (u64_add_small m), (u64_add_small r), u64_add_small by lia. done.
Qed.

Lemma rebuild_run h f :
  refcount_order h = 4 → 0 ≤ QcowHeader.size h ≤ 2 ^ 44 →
  rebuild_max cs h ≤ MAX_RAM_POINTER_TABLE_SIZE → cs ≤ flen f ≤ rebuild_max cs h * cs + cs →
  rebuild_refcounts true h cs f =
  (let* p := count_references h cs (rebuild_max cs h) (rebuild_blocks cs h) in
   write_refblocks true p.1 h p.2 (cs `div` 2)) f.
Proof.
  intros Eo Hs Hmax Hf. destruct (image_clusters_spec h Hs) as [Em Hm].
  destruct (cs_even cs Hpow Hcs) as [E2 E8].
  pose proof (ceil_bound (max_clusters cs h) (cs `div` 2) (2 ^ 46) ltac:(lia) ltac:(lia)) as Hn.
  unfold rebuild_refcounts. rewrite Eo. change (div_round_up_u64 (Z.shiftl 1 4) 8) with 2.
  rewrite Em, (div_round_up_spec (max_clusters cs h)) by lia.
  fold (rebuild_blocks cs h) in Hn |- *. rewrite last_valid_index_spec by lia.
  fold (rebuild_max cs h). destruct (Z.ltb_spec MAX_RAM_POINTER_TABLE_SIZE (rebuild_max cs h)); [lia|].
  unfold MAX_RAM_POINTER_TABLE_SIZE in *. unfold u64_mul, u64_sub, u64_wrap.
  rewrite !Z.mod_small by nia.
  destruct (Z.ltb_spec (rebuild_max cs h * cs) (flen f - cs)); [lia|]. done.
Qed.

(** ** The counts of the file *)

Lemma refs_to_pos a l : a ∈ l → 1 ≤ refs_to cs l (cluster_index cs a).
Proof.
  intros Ha. unfold refs_to. assert (a ∈ filter (λ b, cluster_index cs b = cluster_index cs a) l) as Hin.
  { by apply list_elem_of_filter. }
  apply list_elem_of_lookup_1 in Hin as [k Hk]. apply lookup_lt_Some in Hk. lia.
Qed.

Lemma elem_of_free_indices counts s i :
  i ∈ free_indices counts s ↔ counts !! i = Some 0 ∧ (s ≤ i)%nat.
Proof.
  unfold free_indices. rewrite list_elem_of_filter, elem_of_seq. split; [tauto|]. intros Hi.
  split; [done|]. destruct Hi as [Hi _]. apply lookup_lt_Some in Hi. lia.
Qed.

Lemma cluster_index_in a x : (cs | a) → a ≤ x < a + cs → cluster_index cs x = cluster_index cs a.
Proof.
  intros [i ->] Hx. unfold cluster_index. rewrite Z.div_mul by lia. f_equal.
  symmetry. apply (Z.div_unique _ _ _ (x - i * cs)); lia.
Qed.

Lemma ref_table_referenced h x :
  (cs | QcowHeader.refcount_table_offset h) → in_ref_table cs h x →
  ∃ b, b ∈ ref_table_refs cs h ∧ cluster_index cs x = cluster_index cs b.
Proof.
  intros Hd Hx. set (o := QcowHeader.refcount_table_offset h) in *. unfold in_ref_table in Hx. fold o in Hx.
  pose proof (Z.div_mod (x - o) cs ltac:(lia)). pose proof (Z.mod_pos_bound (x - o) cs ltac:(lia)).
  exists (o + (x - o) `div` cs * cs). split.
  - apply list_elem_of_fmap. exists ((x - o) `div` cs). split; [done|]. apply elem_of_seqZ.
    split; [apply Z.div_pos; lia|]. apply Z.div_lt_upper_bound; lia.
  - apply cluster_index_in; [|lia]. apply Z.divide_add_r; [done|by eexists].
Qed.

Lemma refs_to_nodup rt i : NoDup rt → (∀ a, a ∈ rt → (cs | a) ∧ 0 ≤ a) → refs_to cs rt i ≤ 1.
Proof.
  induction rt as [|a rt IH]; intros Hnd Ha; [done|]. apply NoDup_cons in Hnd as [Hni Hnd].
  rewrite refs_to_cons. assert (refs_to cs rt i ≤ 1) by (apply IH; [done|]; intros b Hb; apply Ha; by right).
  case_decide as Hi; [|lia]. enough (refs_to cs rt i = 0) by lia. unfold refs_to.
  rewrite filter_none; [done|]. intros b Hb Hib. apply Hni. assert (b = a) as <-; [|done].
  destruct (Ha a ltac:(by left)) as [[k ->] Hk], (Ha b ltac:(by right)) as [[l ->] Hl].
  unfold cluster_index in *. rewrite Z.div_mul in * by lia. f_equal. nia.
Qed.

Lemma new_refblocks_spec h f max n :
  countable_image cs h f max n → 0 ≤ n → (∀ i, refs_to cs (references cs f h) i < 65536) →
  let rt := new_refblocks cs h f max n in
  Z.of_nat (length rt) = n ∧ NoDup rt ∧
  ∀ a, a ∈ rt → (cs | a) ∧ cs ≤ a ∧ a + cs ≤ max * cs ∧
    ∀ b, b ∈ references cs f h → cluster_index cs b ≠ cluster_index cs a.
Proof.
  intros Hc Hn Hsm rt. unfold rt, new_refblocks. pose proof (cm_free _ _ _ _ _ Hc) as Hfree.
  destruct (cm_max _ _ _ _ _ Hc) as [Hm _].
  set (c := add_refs cs _ _) in *. split_and!.
  - rewrite length_fmap, length_take. lia.
  - apply NoDup_fmap_2; [intros i j E; nia|]. apply (sublist_NoDup _ (free_indices c 0)).
    + apply NoDup_filter, NoDup_seq.
    + apply sublist_take.
  - intros a (i & -> & Hi)%list_elem_of_fmap. apply elem_of_take in Hi as (k & Hi & _).
    apply list_elem_of_lookup_2, elem_of_free_indices in Hi as [Hi _].
    unfold c in Hi. rewrite lookup_add_refs in Hi. apply fmap_Some in Hi as (z & Hz & E).
    apply lookup_replicate in Hz as [-> Hlt]. rewrite Z.add_0_l, Z.mod_small in E
      by (pose proof (refs_to_nonneg cs (references cs f h) i); pose proof (Hsm i); lia).
    assert (∀ b, b ∈ references cs f h → cluster_index cs b ≠ i) as Hun.
    { intros b Hb <-. pose proof (refs_to_pos b _ Hb). lia. }
    assert (i ≠ 0%nat) as Hi0.
    { intros ->. apply (Hun 0); [by left|done]. }
    split_and!; [by eexists|nia|nia|]. by rewrite cluster_index_mul.
Qed.

Lemma get_bytes_word n vs f off j v :
  get_bytes f off (Z.of_nat n * Z.of_nat (length vs)) = be_encode n vs → vs !! j = Some v →
  get_bytes f (off + Z.of_nat n * Z.of_nat j) (Z.of_nat n) = be_bytes n v.
Proof.
  intros Hg Hj. rewrite <-(take_drop_middle vs j v Hj) in Hg.
  assert (length (take j vs) = j) as El by (apply length_take_le, Nat.lt_le_incl; by eapply lookup_lt_Some).
  unfold be_encode in Hg. rewrite fmap_app, concat_app in Hg. cbn [fmap list_fmap concat] in Hg.
  rewrite length_app, El in Hg. cbn [length] in Hg.
  replace (Z.of_nat n * Z.of_nat (j + S (length (drop (S j) vs)))) with
    (Z.of_nat n * Z.of_nat j + (Z.of_nat n + Z.of_nat n * Z.of_nat (length (drop (S j) vs)))) in Hg by lia.
  rewrite get_bytes_app in Hg by lia. apply app_inj_1 in Hg as [_ Hg].
  2:{ fold (be_encode n (take j vs)). rewrite length_get_bytes, length_be_encode, El. lia. }
  rewrite get_bytes_app in Hg by lia. apply app_inj_1 in Hg as [Hg _]; [done|].
  rewrite length_get_bytes, length_be_bytes. lia.
Qed.

(** The count that is read is the count that was written. *)
Lemma disk_refcount_written h counts rt f f' i n :
  counts_written cs h counts rt f f' → counts_ok counts → counts !! i = Some n →
  (i / Z.to_nat (cs `div` 2) < length rt)%nat → Forall (λ a, cs ≤ a ≤ 2 ^ 56) rt →
  disk_refcount cs h f' i = n.
Proof.
  intros Hw Hok Hi Ht Hrt. destruct half_cluster as (Eh & E2 & Hp).
  unfold disk_refcount. set (e := Z.to_nat (cs `div` 2)) in *.
  destruct (lookup_lt_is_Some_2 _ _ Ht) as [a Ha].
  pose proof (get_bytes_word 8 rt f' _ (i / e) a (cw_table _ _ _ _ _ _ Hw) Ha) as Hg.
  change (Z.of_nat 8) with 8 in Hg. rewrite Hg, be_value_bytes. rewrite Forall_lookup in Hrt.
  pose proof (Hrt _ _ Ha). rewrite Z.mod_small by (simpl; lia). destruct (Z.eqb_spec a 0); [lia|].
  pose proof (cw_blocks _ _ _ _ _ _ Hw _ _ Ha) as Hh.
  assert (get_bytes f' a cs = be_encode 2 (refblock cs counts (i / e))) as Hb.
  { apply (get_bytes_holds cs Hpow Hcs); [done|]. rewrite length_be_encode, length_refblock. lia. }
  assert (refblock cs counts (i / e) !! (i mod e)%nat = Some n) as Hr.
  { unfold refblock. fold e. pose proof (Nat.mod_upper_bound i e ltac:(lia)) as Hmod.
    pose proof (Nat.div_mod_eq i e) as Hdm. apply lookup_app_l_Some.
    rewrite lookup_take_lt, lookup_drop by done. by replace (i / e * e + i mod e)%nat with i by lia. }
  pose proof (get_bytes_word 2 (refblock cs counts (i / e)) f' a (i mod e) n) as Hg2.
  rewrite length_refblock in Hg2. fold e in Hg2. change (Z.of_nat 2) with 2 in Hg2.
  replace (2 * Z.of_nat e) with cs in Hg2 by lia. rewrite Hg2 by done. rewrite be_value_bytes.
  unfold counts_ok in Hok. rewrite Forall_lookup in Hok. apply Z.mod_small. by apply (Hok i).
Qed.

Lemma rebuilt_counts_lookup h f i :
  rebuildable cs h f → Z.of_nat i < rebuild_max cs h →
  let rt := new_refblocks cs h f (rebuild_max cs h) (rebuild_blocks cs h) in
  rebuilt_counts cs h f (rebuild_max cs h) (rebuild_blocks cs h) !! i =
  Some (refs_to cs (references cs f h ++ rt) i).
Proof.
  intros Hb Hi rt. destruct (tr_blocks _ _ _ (rb_room _ _ _ Hb)) as [Hn _].
  destruct (new_refblocks_spec h f _ _ (rb_count _ _ _ Hb) Hn (rb_small _ _ _ Hb)) as (_ & Hnd & Hrt).
  fold rt in Hnd, Hrt. unfold rebuilt_counts. fold rt. rewrite lookup_add_refs, lookup_replicate_2 by lia.
  cbn [fmap option_fmap option_map]. f_equal. rewrite Z.add_0_l. apply Z.mod_small.
  split; [apply refs_to_nonneg|]. rewrite refs_to_app.
  pose proof (rb_small _ _ _ Hb i). destruct (decide (refs_to cs rt i = 0)) as [->|Hne]; [lia|].
  assert (refs_to cs rt i ≤ 1) by (apply refs_to_nodup; [done|]; intros a Ha; destruct (Hrt a Ha) as (? & ? & _); split; [done|lia]).
  assert (refs_to cs (references cs f h) i = 0); [|lia].
  assert (∃ a, a ∈ rt ∧ cluster_index cs a = i) as (a & Ha & <-).
  { unfold refs_to in Hne. destruct (filter (λ a, cluster_index cs a = i) rt) as [|a l] eqn:E; [done|].
    exists a. assert (a ∈ filter (λ a, cluster_index cs a = i) rt) as Hin by (rewrite E; by left).
    by apply list_elem_of_filter in Hin as [? ?]. }
  unfold refs_to. rewrite filter_none; [done|]. intros b Hb'. by apply (Hrt a Ha).
Qed.

Lemma blocks_in_counts h :
  0 ≤ QcowHeader.size h ≤ 2 ^ 44 → 0 ≤ rebuild_blocks cs h →
  (rebuild_blocks cs h - 1) * (cs `div` 2) ≤ rebuild_max cs h.
Proof.
  intros Hs Hn. destruct half_cluster as (_ & _ & Hp). destruct (cs_even cs Hpow Hcs) as [_ E8].
  destruct (image_clusters_spec h Hs) as [_ Hm]. trans (max_clusters cs h).
  - unfold rebuild_blocks, ceil.
    pose proof (Z.div_mod (max_clusters cs h + cs `div` 2 - 1) (cs `div` 2) ltac:(lia)).
    pose proof (Z.mod_pos_bound (max_clusters cs h + cs `div` 2 - 1) (cs `div` 2) Hp). nia.
  - unfold rebuild_max. generalize dependent (rebuild_blocks cs h). intros n Hn.
    pose proof (ceil_bound n (cs `div` 8) n ltac:(lia) ltac:(lia)) as Ht.
    generalize dependent (ceil n (cs `div` 8)). intros t Ht.
    pose proof (ceil_bound (n + t) (cs `div` 2) (n + t) ltac:(lia) ltac:(lia)) as Hr.
    generalize dependent (ceil (n + t) (cs `div` 2)). intros r Hr.
    pose proof (ceil_bound r (cs `div` 2) r ltac:(lia) ltac:(lia)). lia.
Qed.

Lemma rebuild_body h f :
  rebuildable cs h f →
  let rt := new_refblocks cs h f (rebuild_max cs h) (rebuild_blocks cs h) in
  ∃ f', rebuild_refcounts true h cs f = (f', Ok tt) ∧
    counts_written cs h (rebuilt_counts cs h f (rebuild_max cs h) (rebuild_blocks cs h)) rt f f' ∧
    Forall (λ a, cs ≤ a ≤ 2 ^ 56) rt.
Proof.
  intros Hb rt. pose proof (rb_room _ _ _ Hb) as Hroom. destruct (tr_blocks _ _ _ Hroom) as [Hn _].
  destruct (new_refblocks_spec h f _ _ (rb_count _ _ _ Hb) Hn (rb_small _ _ _ Hb)) as (El & Hnd & Hrt).
  fold rt in El, Hnd, Hrt. pose proof (rb_max _ _ _ Hb) as Hmax. unfold MAX_RAM_POINTER_TABLE_SIZE in Hmax.
  destruct (count_references_spec cs Hpow Hcs h f _ _ (rb_count _ _ _ Hb)) as [p Ec]. fold rt in Ec.
  assert (Forall (λ a, (cs | a) ∧ cs ≤ a ≤ 2 ^ 56) rt) as Hall.
  { apply Forall_forall. intros a Ha. destruct (Hrt a Ha) as (? & ? & ? & _). split_and!; [done|done|nia]. }
  destruct (write_refblocks_spec h (rebuilt_counts cs h f (rebuild_max cs h) (rebuild_blocks cs h)) rt (with_pos f p))
    as (f' & E & Hw); try done.
  - by rewrite El.
  - apply (rb_file _ _ _ Hb).
  - intros a x Ha Hax Hx. destruct (Hrt a Ha) as (Hd & _ & _ & Hun).
    destruct (ref_table_referenced h x (tr_aligned _ _ _ Hroom) Hx) as (b & Hb' & Eb).
    apply (Hun b); [unfold references; rewrite !elem_of_app; tauto|].
    by rewrite <-Eb, (cluster_index_in a x).
  - unfold rebuilt_counts. rewrite length_add_refs, length_replicate.
    pose proof (blocks_in_counts h (rb_size _ _ _ Hb) Hn). destruct half_cluster as (Eh & _). nia.
  - exists f'. split_and!; [|by destruct Hw; constructor|].
    + rewrite rebuild_run; [|apply Hb..]. erewrite mbind_ok by exact Ec. exact E.
    + eapply Forall_impl; [exact Hall|]. by intros a [_ ?].
Qed.

(** C16: rebuilding the counts succeeds for an image that is [rebuildable]: counts of 16 bits;
    a virtual size of at most 2^44 bytes and few enough clusters for the limit on tables
    in memory (about 2 TiB with clusters of 64 KiB); a file of at least one cluster and
    no longer than these clusters; an L1 table and L2 tables that can be read; references inside that range, below 65536
    to one cluster; a table of counts on a cluster boundary after the first cluster with
    room for the new blocks; the header in the first cluster; and enough clusters without
    references for the new blocks.  Afterwards the count in the file of every cluster
    that the new blocks cover is the number of references to it from the header, the L1
    table, the L2 tables, the data, the table of counts and the new blocks of counts;
    the header is marked exact again; and no byte of a cluster in use, other than the
    header's and the table's own, has changed. *)
Theorem rebuild_exact h f :
  rebuildable cs h f →
  let rt := new_refblocks cs h f (rebuild_max cs h) (rebuild_blocks cs h) in
  ∃ f', rebuild_refcounts true h cs f = (f', Ok tt) ∧
    next_bytes (with_pos f' 0) (header_bytes (exact_header h)) ∧
    (∀ i, Z.of_nat i < rebuild_max cs h → Z.of_nat i < rebuild_blocks cs h * (cs `div` 2) →
      disk_refcount cs h f' i = refs_to cs (references cs f h ++ rt) i) ∧
    (∀ a x, a ∈ references cs f h → cluster_index cs x = cluster_index cs a →
      cs ≤ x → ¬ in_ref_table cs h x → fbyte f' x = fbyte f x).
Proof.
  intros Hb rt. pose proof (rb_room _ _ _ Hb) as Hroom. destruct (tr_blocks _ _ _ Hroom) as [Hn _].
  destruct (new_refblocks_spec h f _ _ (rb_count _ _ _ Hb) Hn (rb_small _ _ _ Hb)) as (El & _ & Hrt).
  destruct (rebuild_body h f Hb) as (f' & E & Hw & Hall). fold rt in El, Hrt, Hw, Hall.
  exists f'. split_and!; [done|apply Hw|..].
  - intros i Hi Hi'. eapply disk_refcount_written; [exact Hw|apply counts_ok_add_refs| |..|done].
    + by apply rebuilt_counts_lookup.
    + destruct half_cluster as (Eh & _ & Hp). apply Nat.Div0.div_lt_upper_bound. nia.
  - intros a x Ha Ex Hx Hnot. apply (cw_outside _ _ _ _ _ _ Hw); [done|done|].
    intros b Hb' Hbx. destruct (Hrt b Hb') as (Hd & _ & _ & Hun). apply (Hun a Ha).
    by rewrite <-Ex, (cluster_index_in b x).
Qed.

End Write.
