(* ===== verification/QcowRead.v ===== *)
(** * Reading a qcow2 image

    [read] of a [QcowFile] that satisfies the invariant of [QcowDisk] returns the content
    of the virtual disk and leaves it as it is.  An image is thereby a [Disk] that
    satisfies [DiskLaws], which is what it asks of its own backing file. *)

From S2P Require Import Prelude Words Methods BlockFile QcowTables QcowHeader QcowFile QcowAlloc QcowDisk.
From stdpp Require Import options.
Local Open Scope Z_scope.

(** The bytes [x], ..., [x + n - 1] of the virtual disk. *)
Definition disk_range `{DiskLaws B} (cs : Z) (q : QcowFile B) (x n : Z) : list Z :=
  content cs q <$> seqZ x n.

Section Ops.
#[local] Set Default Proof Using "All".
Context (cs : Z) (Hpow : is_power_of_two cs = true) (Hcs : 512 ≤ cs ≤ 2 ^ 21).
Context `{DiskLaws B} `{HashOrderLaws}.
Implicit Types q : QcowFile B.

(** ** Reading *)

Lemma cluster_offset_mod Hd q x : qinv cs Hd q → cluster_offset (raw_file q) x = x `mod` cs.
Proof. intros Hi. unfold cluster_offset. rewrite (qi_mask _ _ _ Hi). by apply land_mask. Qed.

(** Same tables, same entries. *)
Lemma entries_same q q' :
  l1_table q' = l1_table q → (∀ i, l2_view cs q' i = l2_view cs q i) →
  entries cs q' = entries cs q.
Proof. intros El Hv. apply (entries_ext cs Hpow Hcs); [by rewrite El|done]. Qed.

Lemma same_indices Hd Hd' q q' x :
  qinv cs Hd q → qinv cs Hd' q' →
  l1_table_index q' x = l1_table_index q x ∧ l2_table_index q' x = l2_table_index q x.
Proof.
  intros Hi Hi'. unfold l1_table_index, l2_table_index.
  by rewrite (qi_cs _ _ _ Hi), (qi_cs _ _ _ Hi'), (qi_l2 _ _ _ Hi), (qi_l2 _ _ _ Hi').
Qed.

Lemma entry_at_same q q' x : entries cs q' = entries cs q → entry_at cs q' x = entry_at cs q x.
Proof. unfold entry_at. by intros ->. Qed.

Lemma entry_at_elem q x : entry_at cs q x ≠ 0 → entry_at cs q x ∈ entries cs q.
Proof.
  unfold entry_at. destruct (vec_get _ _) as [e|] eqn:E; [|done]. intros _.
  apply vec_get_Some in E as [_ E]. by eapply list_elem_of_lookup_2.
Qed.

(** An address in a table that is loaded. *)
Lemma loaded_entry Hd Hd' q q1 x a t :
  qinv cs Hd q → 0 ≤ x → vec_get (l1_table q) (l1_table_index q x) = Some a →
  qinv cs Hd' q1 → l1_table q1 = l1_table q → entries cs q1 = entries cs q →
  cmap (l2_cache q1) !! l1_table_index q x = Some t →
  vec_get t (l2_table_index q x) = Some (entry_at cs q x) ∧
  l2_entry (l1_table_index q x) (l2_table_index q x) q1 = (q1, Ok (entry_at cs q x)).
Proof.
  intros Hi Hx Ha Hi1 El Ee Ht. destruct (same_indices _ _ q q1 x Hi Hi1) as [E1 E2].
  rewrite <-E1, <-E2, <-(entry_at_same q q1 x Ee).
  apply (entry_at_cached cs Hpow Hcs Hd' q1 x t a); [done|done|by rewrite El, E1|by rewrite E1].
Qed.

Lemma file_offset_read_spec Hd q x :
  qinv cs Hd q → 0 ≤ x < virtual_size q →
  ∃ q', file_offset_read x q =
      (q', Ok (if entry_at cs q x =? 0 then None else Some (entry_at cs q x + x `mod` cs))) ∧
    moves cs 0 Hd q q' ∧ entries cs q' = entries cs q ∧ backing_file q' = backing_file q.
Proof.
  intros Hi Hx. unfold file_offset_read.
  destruct (l1_index_valid cs Hpow Hcs _ _ _ Hi Hx) as (a & Ha & E). erewrite mbind_ok by exact E.
  destruct (Z.eqb_spec a 0) as [->|Hne].
  { destruct (entry_at_absent cs Hpow Hcs Hd q x Hi (proj1 Hx) Ha) as [-> _].
    exists q. split; [done|]. split; [by apply moves_refl|done]. }
  erewrite mbind_ok by done.
  destruct (load_l2_spec cs Hpow Hcs _ _ _ _ Hi Ha Hne) as (q1 & t & E1 & Hm1 & Hv1 & Ht & El & Eb).
  erewrite mbind_ok by exact E1. pose proof (entries_same q q1 El Hv1) as Ee.
  destruct (loaded_entry Hd Hd q q1 x a t) as [_ E2]; try done; [lia|apply Hm1|].
  erewrite mbind_ok by exact E2. exists q1. rewrite (cluster_offset_mod Hd) by done.
  by destruct (Z.eqb_spec (entry_at cs q x) 0).
Qed.

(** The content of an address in terms of its entry. *)
Lemma content_entry q x y :
  x `div` cs = y `div` cs →
  content cs q y = if entry_at cs q x =? 0 then backing_byte q y
                   else fbyte (rfile (raw_file q)) (entry_at cs q x + y `mod` cs).
Proof. intros E. unfold content. by replace (entry_at cs q y) with (entry_at cs q x) by (unfold entry_at; by rewrite E). Qed.

(** The range up to the end of the cluster. *)
Lemma limit_range_cluster_spec Hd q x n :
  qinv cs Hd q → 0 ≤ x → 0 < n →
  let c := limit_range_cluster q x n in
  0 < c ≤ n ∧ x `mod` cs + c ≤ cs ∧
  ∀ y, x ≤ y < x + c → y `div` cs = x `div` cs ∧ y `mod` cs = x `mod` cs + (y - x).
Proof.
  intros Hi Hx Hn c. unfold c, limit_range_cluster.
  rewrite (cluster_offset_mod Hd), (qi_cs _ _ _ Hi) by done.
  pose proof (Z.mod_pos_bound x cs ltac:(lia)) as Hm.
  split_and!; [lia..|]. intros y Hy. pose proof (Z.div_mod x cs ltac:(lia)) as E.
  assert (y = cs * (x `div` cs) + (x `mod` cs + (y - x))) as Ey by lia.
  split; symmetry; [apply (Z.div_unique y cs _ (x `mod` cs + (y - x)))|
                    apply (Z.mod_unique y cs (x `div` cs))]; lia.
Qed.

Lemma read_range Hd q o c :
  qinv cs Hd q → 0 ≤ o → 0 ≤ c → o + c ≤ flen (rfile (raw_file q)) →
  on_rfile (let* _ := seek_start o in read_exact c) q =
  (with_raw q (with_rfile (raw_file q) (with_pos (rfile (raw_file q)) (o + c))),
   Ok (get_bytes (rfile (raw_file q)) o c)).
Proof.
  intros Hi Ho Hc Hl. pose proof (ci_len _ _ _ (qi_core _ _ _ Hi)) as Hlen. simpl in Hlen.
  unfold on_rfile, on_raw, on_file, mbind. by rewrite seek_start_ok, read_exact_ok by (simpl; lia).
Qed.

(** One pass of the loop of [read]. *)
Lemma read_chunk_spec Hd q x c :
  qinv cs Hd q → 0 ≤ x → 0 < c → x + c ≤ virtual_size q → x `mod` cs + c ≤ cs →
  (∀ y, x ≤ y < x + c → y `div` cs = x `div` cs ∧ y `mod` cs = x `mod` cs + (y - x)) →
  ∃ q', (let* file_offset := file_offset_read x in
         match file_offset with
         | Some offset => on_rfile (let* _ := seek_start offset in read_exact c)
         | None =>
             match backing_file q with
             | Some backing => on_backing backing (disk_read_at x c)
             | None => mret (replicate (Z.to_nat c) 0)
             end
         end) q = (q', Ok (content cs q <$> seqZ x c)) ∧ moves cs 0 Hd q q'.
Proof.
  intros Hi Hx Hc Hv Hm Hy.
  destruct (file_offset_read_spec Hd q x Hi) as (q1 & E1 & Hm1 & Ee & Eb); [lia|].
  erewrite mbind_ok by exact E1.
  destruct (Z.eqb_spec (entry_at cs q x) 0) as [E0|E0].
  - destruct (backing_file q) as [b|] eqn:Ebq.
    + destruct (qi_backing _ _ _ Hi b Ebq) as [Hok Hsz].
      destruct (disk_read_spec b x c Hok) as (b' & Er & Hok' & Es & Hx'); [lia..|].
      unfold on_backing. rewrite Er. eexists. split.
      * do 2 f_equal. apply list_fmap_ext. intros k y [-> Hk]%lookup_seqZ.
        rewrite (content_entry q x) by (symmetry; apply Hy; lia).
        rewrite E0. simpl. unfold backing_byte. by rewrite Ebq.
      * apply (moves_trans cs Hpow Hcs 0 0 Hd Hd q q1); [done|].
        by apply (moves_backing cs Hpow Hcs Hd q1 b b'); [apply Hm1|..].
    + exists q1. split; [|done]. unfold mret. do 2 f_equal. apply list_eq. intros k.
      rewrite list_lookup_fmap. destruct (decide (k < Z.to_nat c)%nat) as [Hk|Hk].
      * rewrite lookup_replicate_2, lookup_seqZ_lt by lia. simpl. f_equal.
        rewrite (content_entry q x) by (symmetry; apply Hy; lia).
        rewrite E0. simpl. unfold backing_byte. by rewrite Ebq.
      * rewrite lookup_seqZ_ge by lia. simpl. apply lookup_replicate_None. lia.
  - assert (entry_at cs q x ∈ entries cs q1) as Hin.
    { rewrite Ee. by apply entry_at_elem. }
    destruct (entry_clus cs Hpow Hcs Hd q1 _ (mv_inv _ _ _ _ _ Hm1) Hin E0) as (_ & (_ & Hb & _) & Hf).
    pose proof (Z.mod_pos_bound x cs ltac:(lia)).
    rewrite (read_range Hd q1) by (lia || apply Hm1). eexists. split; [do 2 f_equal|].
    + unfold get_bytes. apply list_eq. intros k. rewrite !list_lookup_fmap.
      destruct (decide (k < Z.to_nat c)%nat) as [Hk|Hk];
        [rewrite !lookup_seqZ_lt by lia; simpl|by rewrite !lookup_seqZ_ge by lia].
      rewrite <-(mv_content _ _ _ _ _ Hm1), (content_entry q1 x) by (symmetry; apply Hy; lia).
      rewrite (entry_at_same q q1 x Ee). destruct (Z.eqb_spec (entry_at cs q x) 0); [done|].
      destruct (Hy (x + Z.of_nat k)) as [_ ->]; [lia|]. do 2 f_equal. lia.
    + apply (moves_trans cs Hpow Hcs 0 0 Hd Hd q q1); [done|].
      by apply (moves_pos cs Hpow Hcs), Hm1.
Qed.

Lemma seqZ_split x n c : 0 ≤ c ≤ n → seqZ x n = seqZ x c ++ seqZ (x + c) (n - c).
Proof. intros Hc. rewrite <-seqZ_app by lia. f_equal. lia. Qed.

Lemma read_loop_spec fuel Hd q address nread count buf :
  qinv cs Hd q → 0 ≤ address → 0 ≤ nread ≤ count → address + count ≤ virtual_size q →
  (Z.to_nat (count - nread) < fuel)%nat →
  ∃ q', read_loop fuel address nread count buf q =
      (q', Ok (buf ++ (content cs q <$> seqZ (address + nread) (count - nread)))) ∧
    moves cs 0 Hd q q'.
Proof.
  revert q nread buf. induction fuel as [|fuel IH]; intros q nread buf Hi Ha Hn Hv Hf; [lia|].
  cbn [read_loop]. destruct (Z.leb_spec count nread).
  { exists q. split; [|by apply moves_refl]. replace (count - nread) with 0 by lia.
    unfold mret. by rewrite app_nil_r. }
  unfold mbind at 1, mget at 1. cbv zeta.
  destruct (limit_range_cluster_spec Hd q (address + nread) (count - nread) Hi)
    as (Hc & Hm & Hy); [lia..|].
  set (c := limit_range_cluster q (address + nread) (count - nread)) in *.
  destruct (read_chunk_spec Hd q (address + nread) c Hi) as (q1 & E1 & Hm1); try done; [lia..|].
  rewrite (mbind_ok2 _ _ _ _ _ _ E1).
  destruct (IH q1 (nread + c) (buf ++ (content cs q <$> seqZ (address + nread) c)))
    as (q2 & E2 & Hm2); try lia; [apply Hm1|unfold virtual_size in *; by rewrite (mv_header _ _ _ _ _ Hm1)|].
  exists q2. split; [|by apply (moves_trans cs Hpow Hcs 0 0 Hd Hd q q1)].
  rewrite E2. do 2 f_equal. rewrite <-app_assoc. f_equal.
  rewrite (seqZ_split (address + nread) (count - nread) c), fmap_app by lia. f_equal.
  rewrite Z.add_assoc, Z.sub_add_distr. apply list_fmap_ext. intros k x _. apply Hm1.
Qed.

Lemma limit_range_file_spec Hd q address n :
  qinv cs Hd q → 0 ≤ n ≤ i64_max → 0 ≤ address ≤ virtual_size q →
  limit_range_file q address n = Z.min n (virtual_size q - address).
Proof.
  intros Hi Hn Ha. pose proof (qi_small _ _ _ Hi). unfold limit_range_file, u64_max, i64_max in *.
  destruct (Z.ltb_spec (2 ^ 64 - 1) (address + n)), (Z.ltb_spec (virtual_size q) address); simpl; lia.
Qed.

Lemma qinv_offset Hd q o : qinv cs Hd q → qinv cs Hd (with_offset q o).
Proof. intros Hi. constructor; apply Hi. Qed.

Lemma moves_offset k Hd q q' o : moves cs k Hd q q' → moves cs k Hd (with_offset q o) (with_offset q' o).
Proof. intros [Hi E _ X Hb N M R]. constructor; try done. by apply qinv_offset. Qed.

Lemma read_body q n :
  qinv cs [] q → 0 ≤ n ≤ i64_max → 0 ≤ current_offset q ≤ virtual_size q →
  let count := Z.min n (virtual_size q - current_offset q) in
  ∃ q', read n q = (q', Ok (content cs q <$> seqZ (current_offset q) count)) ∧
    moves cs 0 [] (with_offset q (current_offset q + count)) q'.
Proof.
  intros Hi Hn Ho count. unfold read. rewrite (limit_range_file_spec [] q) by done. fold count.
  destruct (read_loop_spec (S (Z.to_nat count)) [] q (current_offset q) 0 count [] Hi)
    as (q1 & E1 & Hm1); [lia..|].
  erewrite mbind_ok by exact E1. rewrite Z.add_0_r, Z.sub_0_r. eexists. split; [reflexivity|].
  cbn beta. rewrite (mv_offset _ _ _ _ _ Hm1). by apply moves_offset.
Qed.

(** ** An image is a backing file *)

Lemma read_exact_loop_spec q n :
  qinv cs [] q → 0 ≤ n → 0 ≤ current_offset q → current_offset q + n ≤ virtual_size q →
  ∃ q', read_exact_loop (S (Z.to_nat n)) n [] q =
      (q', Ok (content cs q <$> seqZ (current_offset q) n)) ∧
    qinv cs [] q' ∧ (∀ x, content cs q' x = content cs q x) ∧ header q' = header q.
Proof.
  intros Hi Hn Ho Hv. cbn [read_exact_loop]. destruct (Z.eqb_spec n 0) as [->|Hn0].
  { by exists q. }
  pose proof (qi_small _ _ _ Hi). unfold i64_max.
  destruct (read_body q n Hi) as (q1 & E1 & Hm); [unfold i64_max; lia|lia|].
  rewrite Z.min_l in E1 by lia. erewrite mbind_ok by exact E1.
  rewrite length_fmap, length_seqZ, Z2Nat.id, Z.sub_diag by lia.
  destruct (Z.eqb_spec n 0); [done|]. exists q1. split_and!; [|apply Hm..].
  destruct (Z.to_nat n) eqn:E; [lia|]. done.
Qed.

Lemma qcow_read_at_spec q off n :
  qinv cs [] q → 0 ≤ off → 0 ≤ n → off + n ≤ virtual_size q →
  ∃ q', qcow_read_at off n q = (q', Ok (content cs q <$> seqZ off n)) ∧
    qinv cs [] q' ∧ virtual_size q' = virtual_size q ∧ ∀ x, content cs q' x = content cs q x.
Proof.
  intros Hi Ho Hn Hv. unfold qcow_read_at.
  assert (seek (Start off) q = (with_offset q off, Ok off)) as Es.
  { unfold seek. by destruct (Z.leb_spec off (virtual_size q)); [|lia]. }
  erewrite mbind_ok by exact Es.
  destruct (read_exact_loop_spec (with_offset q off) n) as (q' & E & Hi' & Hx & Eh);
    [by apply qinv_offset|done..|].
  exists q'. split_and!; [done|done|unfold virtual_size; by rewrite Eh|done].
Qed.

(** [read] returns the bytes of the virtual disk from the current offset up to its end,
    moves the offset past them, and changes nothing that the disk holds: whatever
    tables it loads and evicts, the image stays well formed. *)
Theorem read_spec q n :
  qinv cs [] q → 0 ≤ n ≤ i64_max → 0 ≤ current_offset q ≤ virtual_size q →
  let count := Z.min n (virtual_size q - current_offset q) in
  ∃ q', read n q = (q', Ok (disk_range cs q (current_offset q) count)) ∧
    qinv cs [] q' ∧ (∀ x, content cs q' x = content cs q x) ∧ header q' = header q ∧
    current_offset q' = current_offset q + count.
Proof.
  intros Hi Hn Ho count. destruct (read_body q n Hi Hn Ho) as (q' & E & Hm).
  exists q'. split_and!; [exact E|apply Hm..].
Qed.

End Ops.

(** The interface that an image asks of its backing file is one it provides. *)
Definition qcow_disk_laws (cs : Z) (Hpow : is_power_of_two cs = true)
    (Hcs : 512 ≤ cs ≤ 2 ^ 21) `{DiskLaws B} `{HashOrderLaws} `{ZeroOps} :
  DiskLaws (QcowFile B) :=
  {| disk_ok q := qinv cs [] q; disk_byte q := content cs q;
     disk_read_spec := qcow_read_at_spec cs Hpow Hcs |}.
