(* ===== verification/QcowWrite.v ===== *)
(** * Writing a qcow2 image

    [write] of a [QcowFile] that satisfies the invariant of [QcowDisk]: clusters and
    tables are allocated, moved and counted, the content of the virtual disk changes
    exactly where it is written, and the invariant holds again. *)

From S2P Require Import Prelude Words Methods BlockFile QcowTables QcowHeader QcowFile QcowAlloc QcowDisk QcowRead.
From stdpp Require Import options.
Local Open Scope Z_scope.

(** The cache with one entry of a table changed. *)
Definition set_entry {B} (q : QcowFile B) (i j x : Z) (t : VecCache) : QcowFile B :=
  with_l2_cache q (with_cmap (l2_cache q) (<[i := vec_set t j x]> (cmap (l2_cache q)))).

(** The tables of an image are as they were. *)
Record same_tables {B} (cs : Z) (q q' : QcowFile B) : Prop := {
  st_l1 : l1_table q' = l1_table q;
  st_cache : l2_cache q' = l2_cache q;
  st_view i : l2_view cs q' i = l2_view cs q i;
  st_backing : backing_file q' = backing_file q;
}.

(** A count to set is that of a cluster. *)
Definition countable {B} (q : QcowFile B) (p : Z * Z) : Prop :=
  0 ≤ p.1 ≤ max_valid_cluster_offset (refcounts q).

(** The disk with the bytes [bs] at [x]. *)
Definition overwrite (d : Z → Z) (x : Z) (bs : list Z) (y : Z) : Z :=
  if decide (x ≤ y < x + Z.of_nat (length bs)) then default 0 (bs !! Z.to_nat (y - x)) else d y.

(** How many clusters the [n] bytes from [x] touch. *)
Definition spans (cs x n : Z) : Z :=
  if n <=? 0 then 0 else (x + n - 1) `div` cs - x `div` cs + 1.

(** A write never reads past the end of the backing file. *)
Definition backing_fits {B} (cs : Z) (q : QcowFile B) : Prop :=
  backing_file q = None ∨ (cs | virtual_size q).

(** A method does not change [f] of the state. *)
Definition keeps {S E A X} (f : S → X) (m : method S E A) : Prop := ∀ s, f (m s).1 = f s.

(** ** Permutations of the clusters in use *)

Lemma perm_unref (un Hd m l e u : list Z) :
  (un ++ Hd) ++ m ++ l ++ e ++ u ≡ₚ Hd ++ m ++ l ++ e ++ u ++ un.
Proof. rewrite <-!app_assoc, (Permutation_app_comm un). by rewrite <-!app_assoc. Qed.

Lemma perm_l1 a (Hd m l l' e u : list Z) :
  l' ≡ₚ a :: l → (a :: Hd) ++ m ++ l ++ e ++ u ≡ₚ Hd ++ m ++ l' ++ e ++ u.
Proof.
  intros ->. simpl. rewrite !app_assoc, <-!(app_assoc (Hd ++ m)). simpl.
  by rewrite <-Permutation_middle.
Qed.

Lemma perm_l1_swap a o (Hd m l l' e u : list Z) :
  o :: l' ≡ₚ a :: l → (a :: Hd) ++ m ++ l ++ e ++ u ≡ₚ (o :: Hd) ++ m ++ l' ++ e ++ u.
Proof.
  intros Hl. rewrite (perm_l1 a Hd m l (a :: l)), (perm_l1 o Hd m l' (o :: l')) by done.
  by rewrite Hl.
Qed.

Lemma perm_entries a (Hd m l e e' u : list Z) :
  e' ≡ₚ a :: e → (a :: Hd) ++ m ++ l ++ e ++ u ≡ₚ Hd ++ m ++ l ++ e' ++ u.
Proof.
  intros He. rewrite (app_assoc m), (app_assoc m), !(app_assoc Hd). simpl.
  rewrite He. simpl. by rewrite <-Permutation_middle, <-!app_assoc.
Qed.

(** ** Methods that keep a part of the state *)

Lemma keeps_mret {S E A X} (f : S → X) (a : A) : keeps f (mret (E := E) a).
Proof. done. Qed.
Lemma keeps_merr {S E A X} (f : S → X) (e : E) : keeps f (merr (A := A) e).
Proof. done. Qed.
Lemma keeps_mbind {S E A C X} (f : S → X) (m : method S E A) (k : A → method S E C) :
  keeps f m → (∀ a, keeps f (k a)) → keeps f (let* x := m in k x).
Proof.
  intros Hm Hk s. unfold mbind. specialize (Hm s). destruct (m s) as [s' [a|e]]; simpl in *; [|done].
  by rewrite Hk.
Qed.
Lemma keeps_miter {S E A X} (f : S → X) (body : A → method S E unit) l :
  (∀ a, keeps f (body a)) → keeps f (miter body l).
Proof. intros Hb. induction l as [|a l IH]; [apply keeps_mret|]. by apply keeps_mbind. Qed.
Lemma keeps_on_raw {B A X} (f : QcowFile B → X) (m : method QcowRawFile io_error A) :
  (∀ q r, f (with_raw q r) = f q) → keeps f (on_raw m).
Proof. intros Hf q. unfold on_raw. destruct (m (raw_file q)). apply Hf. Qed.

Section Shape.
Context `{HashOrder} `{ZeroOps} {B : Type}.

Notation shape := (λ q : QcowFile B, rc_shape (refcounts q)).

Lemma rc_set_shape address v nc :
  keeps (λ s : RefCount * File, rc_shape s.1) (rc_set_cluster_refcount address v nc).
Proof.
  intros [rc f]. unfold rc_set_cluster_refcount, fill_refblock, update_refblock, insert_refblock,
    mbind, mmodify, mret, rc_shape, vec_len.
  repeat (case_match; simplify_eq/=; rewrite ?length_insert; try done).
Qed.

Lemma get_new_cluster_shape data : keeps shape (get_new_cluster data).
Proof.
  intros q. unfold get_new_cluster, mbind, mmodify, on_raw, mret, merr.
  repeat (case_match; simplify_eq/=; try done).
Qed.

Lemma set_refcount_loop_shape fuel address v nc added : keeps shape (set_refcount_loop fuel address v nc added).
Proof.
  revert nc added. induction fuel as [|fuel IH]; intros nc added q; [done|]. cbn [set_refcount_loop].
  pose proof (rc_set_shape address v nc (refcounts q, rfile (raw_file q))) as Hrc.
  unfold on_refcounts. destruct (rc_set_cluster_refcount address v nc _) as [[rc f] r].
  simpl in Hrc. set (q1 := with_refcounts _ rc).
  assert (shape q1 = shape q) as <- by exact Hrc.
  destruct r as [[]|[]]; try done.
  - refine (keeps_mbind shape _ _ _ _ q1); [by apply keeps_on_raw|]. intros. apply IH.
  - refine (keeps_mbind shape _ _ _ _ q1); [apply get_new_cluster_shape|]. intros. apply IH.
Qed.

Lemma set_cluster_refcount_go_shape fuel address v : keeps shape (set_cluster_refcount_go fuel address v).
Proof.
  revert address v. induction fuel as [|fuel IH]; intros address v; [done|]. cbn [set_cluster_refcount_go].
  apply keeps_mbind; [apply set_refcount_loop_shape|]. intros p.
  apply keeps_mbind; [|by intros ??]. apply keeps_miter. intros a. apply keeps_mbind; [apply IH|done].
Qed.

Lemma set_cluster_refcount_shape address v q :
  shape (set_cluster_refcount address v q).1 = shape q.
Proof. apply set_cluster_refcount_go_shape. Qed.

End Shape.

Section Update.
#[local] Set Default Proof Using "All".
Context (cs : Z) (Hpow : is_power_of_two cs = true) (Hcs : 512 ≤ cs ≤ 2 ^ 21).
Context `{DiskLaws B}.
Implicit Types q : QcowFile B.

Notation N8 := (Z.to_nat (cs `div` 8)).

(** ** Changes of the tables *)

(** A cluster in the hands of an operation is not zero. *)
Lemma held_clus a Hd q :
  qinv cs (a :: Hd) q → a ≠ 0 ∧ clus cs (refcounts q) (rfile (raw_file q)) a ∧
  a ∉ kept cs q.
Proof.
  intros Hi. pose proof (ci_nodup _ _ _ (qi_core _ _ _ Hi)) as Hnd. simpl in Hnd.
  apply NoDup_cons in Hnd as [Hni _].
  assert (a ∉ kept cs q) as Hk by (intros Hin; apply Hni; rewrite !elem_of_app; tauto).
  pose proof (ci_clus _ _ _ (qi_core _ _ _ Hi)) as Hcl. rewrite Forall_forall in Hcl.
  split_and!; [|apply Hcl; simpl; by left|done]. intros ->. apply Hk, (kept_zero cs Hpow Hcs).
Qed.

(** Held clusters become unreferenced. *)
Lemma moves_unref un Hd q :
  qinv cs (un ++ Hd) q → moves cs 0 Hd q (with_unref q (unref_clusters q ++ un)).
Proof.
  intros Hi. constructor; try done; [|intros n; by rewrite Z.add_0_r].
  constructor; try apply Hi. eapply core_inv_perm; [done..| |apply Hi].
  exact (perm_unref un Hd (meta cs q) _ _ _).
Qed.

Lemma meta_set_l1 q i a : meta cs (with_l1 q (vec_set (l1_table q) i a)) = meta cs q.
Proof. unfold meta. simpl. by rewrite length_insert. Qed.

(** A table of zeros is given to an L1 entry that was zero. *)
Lemma moves_attach a Hd q i :
  qinv cs (a :: Hd) q → vec_get (l1_table q) i = Some 0 →
  holds cs (rfile (raw_file q)) a None →
  let q' := with_l1 q (vec_set (l1_table q) i a) in
  moves cs 0 Hd q q' ∧ ∀ k, l2_view cs q' k = l2_view cs q k.
Proof.
  intros Hi Hl Hh q'. destruct (held_clus _ _ _ Hi) as (Ha0 & Hca & Hka).
  assert (cmap (l2_cache q) !! i = None) as Hn.
  { destruct (cmap (l2_cache q) !! i) as [t|] eqn:Et; [|done].
    destruct (qi_cache _ _ _ Hi _ _ Et) as (b & Hb & ? & _). congruence. }
  pose proof (on_disk_zeros cs Hpow Hcs _ _ Hh) as [Hcomp Hz].
  pose proof Hl as [Hi0 Hl']%vec_get_Some.
  assert (∀ k, l2_view cs q' k = l2_view cs q k) as Hv.
  { intros k. unfold l2_view. simpl. destruct (cmap (l2_cache q) !! Z.of_nat k) eqn:Ek; [done|].
    destruct (decide (k = Z.to_nat i)) as [->|Hne].
    - rewrite list_lookup_insert_eq by (by eapply lookup_lt_Some). rewrite Hl'. simpl.
      by destruct (Z.eqb_spec a 0).
    - by rewrite list_lookup_insert_ne by done. }
  assert (entries cs q' = entries cs q) as Ee.
  { apply (entries_ext cs Hpow Hcs); [simpl; apply length_insert|done]. }
  split; [|done]. constructor; try done; [|by apply content_frame, preserved_refl|intros n; by rewrite Z.add_0_r].
  pose proof (nz_insert_zero _ _ a Hl' Ha0) as Hp.
  constructor; try apply Hi.
  - simpl. rewrite length_insert. apply Hi.
  - eapply (core_inv_perm cs Hpow Hcs ((a :: Hd) ++ kept cs q)); [|apply Hi].
    unfold kept. rewrite Ee, (meta_set_l1 q i a : meta cs q' = _). by apply perm_l1.
  - done.
  - rewrite Ee. simpl. rewrite Hp. simpl. constructor; [apply Hh|apply Hi].
  - intros k t Ht. destruct (qi_cache _ _ _ Hi k t Ht) as (b & Hb & Hb0 & Hlb & Hon).
    exists b. split_and!; try done. simpl. rewrite vec_get_set_ne; [done|done|]. congruence.
  - intros k b Hb Hb0 Hk. simpl in *. destruct (decide (i = k)) as [<-|Hik].
    + rewrite (vec_get_set_eq _ _ _ _ Hl) in Hb. by simplify_eq.
    + rewrite vec_get_set_ne in Hb by done. by apply (qi_disk _ _ _ Hi k).
Qed.

(** A dirty table is given another cluster. *)
Lemma moves_relocate a old Hd q i t :
  qinv cs (a :: Hd) q → vec_get (l1_table q) i = Some old → old ≠ 0 →
  cmap (l2_cache q) !! i = Some t → dirty t = true → a + cs ≤ flen (rfile (raw_file q)) →
  let q' := with_l1 q (vec_set (l1_table q) i a) in
  moves cs 0 (old :: Hd) q q' ∧ ∀ k, l2_view cs q' k = l2_view cs q k.
Proof.
  intros Hi Hl Ho Ht Hdt Hf q'. destruct (held_clus _ _ _ Hi) as (Ha0 & Hca & Hka).
  pose proof Hl as [Hi0 Hl']%vec_get_Some.
  assert (∀ k, l2_view cs q' k = l2_view cs q k) as Hv.
  { intros k. unfold l2_view. simpl. destruct (cmap (l2_cache q) !! Z.of_nat k) eqn:Ek; [done|].
    rewrite list_lookup_insert_ne; [done|]. intros <-. rewrite Z2Nat.id in Ek by done. congruence. }
  assert (entries cs q' = entries cs q) as Ee.
  { apply (entries_ext cs Hpow Hcs); [simpl; apply length_insert|done]. }
  split; [|done]. constructor; try done; [|by apply content_frame, preserved_refl|intros n; by rewrite Z.add_0_r].
  pose proof (nz_insert_nonzero _ _ a old Hl' Ho Ha0) as Hp.
  constructor; try apply Hi.
  - simpl. rewrite length_insert. apply Hi.
  - eapply (core_inv_perm cs Hpow Hcs ((a :: Hd) ++ kept cs q)); [|apply Hi].
    unfold kept. rewrite Ee, (meta_set_l1 q i a : meta cs q' = _). by apply perm_l1_swap.
  - done.
  - rewrite Ee. assert (Forall (λ x, x + cs ≤ flen (rfile (raw_file q)))
      ((old :: nz (<[Z.to_nat i := a]> (vec (l1_table q)))) ++ nz (entries cs q))) as Hall.
    { rewrite Hp. constructor; [done|apply Hi]. }
    by apply Forall_cons in Hall as [_ Hall].
  - intros k t' Ht'. destruct (qi_cache _ _ _ Hi k t' Ht') as (b & Hb & Hb0 & Hlb & Hon).
    simpl in Ht'. destruct (decide (i = k)) as [<-|Hik].
    + exists a. simplify_eq. split_and!; [by eapply vec_get_set_eq|done|done|]. congruence.
    + exists b. split_and!; try done. simpl. by rewrite vec_get_set_ne.
  - intros k b Hb Hb0 Hk. simpl in *. rewrite vec_get_set_ne in Hb; [|done|congruence].
    by apply (qi_disk _ _ _ Hi k).
Qed.

Lemma entries_set_entry Hd q x d t a :
  qinv cs Hd q → 0 ≤ x → vec_get (l1_table q) (l1_table_index q x) = Some a →
  cmap (l2_cache q) !! l1_table_index q x = Some t →
  let q' := set_entry q (l1_table_index q x) (l2_table_index q x) d t in
  entries cs q' = <[Z.to_nat (x `div` cs) := d]> (entries cs q) ∧
  entries cs q !! Z.to_nat (x `div` cs) = Some (entry_at cs q x).
Proof.
  intros Hi Hx Ha Ht q'. destruct (index_split cs Hpow Hcs x Hx) as [Es Hj].
  pose proof (entry_at_view cs Hpow Hcs _ _ _ _ Hi Hx Ha) as He.
  pose proof Ha as [Hi0 Ha']%vec_get_Some.
  assert (l1_table_index q x = (x `div` cs) `div` (cs `div` 8) ∧
          l2_table_index q x = (x `div` cs) `mod` (cs `div` 8)) as [E1 E2].
  { unfold l1_table_index, l2_table_index. by rewrite (qi_cs _ _ _ Hi), (qi_l2 _ _ _ Hi). }
  rewrite Es, <-E1, <-E2. rewrite <-E2 in Hj. split.
  - apply (entries_set cs Hpow Hcs Hd); [done|done|by eapply lookup_lt_Some|done|..].
    + intros k Hk. unfold l2_view. simpl. rewrite lookup_insert_ne; [done|]. lia.
    + rewrite (view_cached cs Hpow Hcs q _ t) by done. unfold l2_view. simpl.
      by rewrite Z2Nat.id, lookup_insert_eq.
  - rewrite (entries_lookup cs Hpow Hcs Hd); [done|done|by eapply lookup_lt_Some|done].
Qed.

Lemma entry_at_set_entry q q' x d y :
  0 ≤ x → entries cs q' = <[Z.to_nat (x `div` cs) := d]> (entries cs q) →
  (Z.to_nat (x `div` cs) < length (entries cs q))%nat →
  entry_at cs q' y = if decide (y `div` cs = x `div` cs) then d else entry_at cs q y.
Proof.
  intros Hx Ee Hlt. unfold entry_at, vec_get. rewrite Ee. simpl.
  pose proof (Z.div_pos x cs ltac:(lia) ltac:(lia)).
  destruct (decide (y `div` cs = x `div` cs)) as [->|Hne].
  - destruct (Z.leb_spec 0 (x `div` cs)); [|lia]. by rewrite list_lookup_insert_eq.
  - destruct (Z.leb_spec 0 (y `div` cs)); [|done]. rewrite list_lookup_insert_ne by lia. done.
Qed.

(** The other parts of the invariant when an entry changes. *)
Lemma qinv_set_entry Hd Hd' q x d t a :
  qinv cs Hd q → 0 ≤ x → vec_get (l1_table q) (l1_table_index q x) = Some a → a ≠ 0 →
  cmap (l2_cache q) !! l1_table_index q x = Some t →
  let q' := set_entry q (l1_table_index q x) (l2_table_index q x) d t in
  core_inv cs (Hd' ++ kept cs q') (core q) →
  (d ≠ 0 → d + cs ≤ flen (rfile (raw_file q))) →
  qinv cs Hd' q'.
Proof.
  intros Hi Hx Ha Ha0 Ht q' Hc Hf.
  destruct (entries_set_entry _ _ _ d _ _ Hi Hx Ha Ht) as [Ee Hk].
  constructor; try apply Hi; [done|..].
  - fold q' in Ee. rewrite Ee. pose proof (qi_full _ _ _ Hi) as [Hf1 Hf2]%Forall_app.
    apply Forall_app. split; [done|]. apply Forall_forall. intros b [Hb Hb0]%elem_of_nz.
    apply list_elem_of_lookup in Hb as [k Hb].
    apply list_lookup_insert_Some in Hb as [(_ & -> & _)|[_ Hb]]; [by apply Hf|].
    rewrite Forall_forall in Hf2. apply Hf2, elem_of_nz. split; [by eapply list_elem_of_lookup_2|done].
  - intros k t' Hk'. simpl in Hk'. apply lookup_insert_Some in Hk' as [[<- <-]|[Hne Ht']]; [|by apply Hi].
    destruct (qi_cache _ _ _ Hi _ _ Ht) as (b & Hb & Hb0 & Hlb & _). exists b.
    split_and!; try done. simpl. by rewrite length_insert.
  - intros k b Hb Hb0 Hn. simpl in Hn. apply lookup_insert_None in Hn as [Hn _].
    by apply (qi_disk _ _ _ Hi k).
Qed.

(** An entry that is zero is given a cluster that holds what was read before. *)
Lemma moves_set_entry d Hd q x t a :
  qinv cs (d :: Hd) q → 0 ≤ x → vec_get (l1_table q) (l1_table_index q x) = Some a → a ≠ 0 →
  cmap (l2_cache q) !! l1_table_index q x = Some t → entry_at cs q x = 0 →
  d + cs ≤ flen (rfile (raw_file q)) →
  (∀ y, y `div` cs = x `div` cs →
    fbyte (rfile (raw_file q)) (d + y `mod` cs) = backing_byte q y) →
  let q' := set_entry q (l1_table_index q x) (l2_table_index q x) d t in
  moves cs 0 Hd q q' ∧ entry_at cs q' x = d.
Proof.
  intros Hi Hx Ha Ha0 Ht E0 Hf Hb q'. destruct (held_clus _ _ _ Hi) as (Hd0 & Hcd & Hkd).
  destruct (entries_set_entry _ _ _ d _ _ Hi Hx Ha Ht) as [Ee Hk]. fold q' in Ee.
  rewrite E0 in Hk. pose proof (lookup_lt_Some _ _ _ Hk) as Hlt.
  pose proof (λ y, entry_at_set_entry q q' x d y Hx Ee Hlt) as He.
  split; [|rewrite He; by rewrite decide_True].
  constructor; try done; [| |intros n; by rewrite Z.add_0_r].
  - apply (qinv_set_entry (d :: Hd) Hd q x d t a); try done.
    eapply (core_inv_perm cs Hpow Hcs ((d :: Hd) ++ kept cs q)); [|apply Hi].
    fold q'. unfold kept. rewrite Ee. apply perm_entries. by apply nz_insert_zero.
  - intros y. unfold content. rewrite He. case_decide as Ey.
    + destruct (Z.eqb_spec d 0); [done|]. rewrite Hb by done.
      assert (entry_at cs q y = 0) as ->; [|done]. rewrite <-E0. unfold entry_at. by rewrite Ey.
    + done.
Qed.

(** A table is made dirty by writing an entry over itself. *)
Lemma moves_dirty Hd q i j t e :
  qinv cs Hd q → cmap (l2_cache q) !! i = Some t → vec_get t j = Some e →
  moves cs 0 Hd q (set_entry q i j e t) ∧ ∀ k, l2_view cs (set_entry q i j e t) k = l2_view cs q k.
Proof.
  intros Hi Ht [_ He]%vec_get_Some.
  assert (vec (vec_set t j e) = vec t) as Ev by (simpl; by apply list_insert_id).
  apply (qinv_cache cs Hpow Hcs); [done| |].
  - intros k t' Hk. assert (∃ t0, cmap (l2_cache q) !! k = Some t0 ∧ vec t' = vec t0 ∧
      (dirty t' = false → t' = t0)) as (t0 & Ht0 & Ev' & Hdt).
    { apply lookup_insert_Some in Hk as [[<- <-]|[_ Hk]]; [by exists t|by exists t']. }
    destruct (qi_cache _ _ _ Hi k t0 Ht0) as (b & Hb & Hb0 & Hlb & Hon). exists b.
    split_and!; try done.
    + rewrite Ev'. symmetry. apply (view_cached cs Hpow Hcs); [|done].
      by apply vec_get_Some in Hb as [? _].
    + intros Hfalse. specialize (Hdt Hfalse) as ->. auto.
  - intros k t' [Hn _]%lookup_insert_None Hk. congruence.
Qed.

Lemma backing_fits_moves k Hd q q' : moves cs k Hd q q' → backing_fits cs q → backing_fits cs q'.
Proof.
  intros Hm [Hn|Hdv]; [left; by apply Hm|right]. unfold virtual_size. by rewrite (mv_header _ _ _ _ _ Hm).
Qed.

Lemma overwrite_app d x bs1 bs2 y :
  overwrite (overwrite d x bs1) (x + Z.of_nat (length bs1)) bs2 y = overwrite d x (bs1 ++ bs2) y.
Proof.
  unfold overwrite. rewrite length_app. repeat case_decide; try lia; try done.
  - rewrite lookup_app_r by lia. do 2 f_equal. lia.
  - by rewrite lookup_app_l by lia.
Qed.

Lemma overwrite_ext d d' x bs y :
  (∀ z, d z = d' z) → overwrite d x bs y = overwrite d' x bs y.
Proof. intros Hd. unfold overwrite. case_decide; [done|apply Hd]. Qed.

Lemma take_chunk (buf : list Z) nw c n :
  0 ≤ nw → 0 ≤ c → nw + c ≤ n →
  take (Z.to_nat c) (drop (Z.to_nat nw) buf) ++
    take (Z.to_nat (n - (nw + c))) (drop (Z.to_nat (nw + c)) buf) =
  take (Z.to_nat (n - nw)) (drop (Z.to_nat nw) buf).
Proof.
  intros Hnw Hc Hn. replace (Z.to_nat (nw + c)) with (Z.to_nat nw + Z.to_nat c)%nat by lia.
  rewrite <-drop_drop. replace (Z.to_nat (n - nw)) with (Z.to_nat c + Z.to_nat (n - (nw + c)))%nat by lia.
  by rewrite take_take_drop.
Qed.

Lemma spans_step x n c :
  0 ≤ x → 0 < n → c = Z.min n (cs - x `mod` cs) → spans cs x n = 1 + spans cs (x + c) (n - c).
Proof.
  intros Hx Hn Ec. unfold spans. pose proof (Z.mod_pos_bound x cs ltac:(lia)) as Hm.
  pose proof (Z.div_mod x cs ltac:(lia)) as Ex. destruct (Z.leb_spec n 0); [lia|].
  destruct (Z.leb_spec (n - c) 0).
  - assert ((x + n - 1) `div` cs = x `div` cs) as ->; [|lia].
    symmetry. apply (Z.div_unique _ _ _ (x `mod` cs + n - 1)); lia.
  - replace (x + c + (n - c) - 1) with (x + n - 1) by lia.
    assert ((x + c) `div` cs = x `div` cs + 1) as ->; [|lia].
    symmetry. apply (Z.div_unique _ _ _ 0); nia.
Qed.

Lemma spans_nonneg x n : 0 ≤ spans cs x n.
Proof.
  unfold spans. destruct (Z.leb_spec n 0); [lia|].
  pose proof (Z.div_le_mono x (x + n - 1) cs ltac:(lia) ltac:(lia)). lia.
Qed.

(** ** Allocation *)

Section Alloc.
Context `{HashOrderLaws} `{ZeroLaws}.

Lemma same_tables_trans q q1 q2 :
  same_tables cs q q1 → same_tables cs q1 q2 → same_tables cs q q2.
Proof. intros [] []. constructor; congruence. Qed.

Lemma same_tables_core Hd q c' :
  qinv cs Hd q → preserved cs (kept cs q) (rfile (raw_file q)) (c_file c') →
  same_tables cs q (set_core q c').
Proof.
  intros Hi Hp. constructor; try done. intros i. apply (view_preserved cs Hpow Hcs); try done.
  eapply preserved_subset; [|exact Hp]. intros a. apply (kept_l1 cs Hpow Hcs).
Qed.

Lemma holds_preserved K f f' a data :
  preserved cs K f f' → a ∈ K → holds cs f a data → holds cs f' a data.
Proof.
  intros [Hl Hp] Ha [Hf Hb]. split; [lia|]. intros i Hi. rewrite (Hp a) by (done || lia). auto.
Qed.

Lemma get_new_cluster_moves Hd q data :
  qinv cs Hd q → room cs 1 (core q) → (∀ d, data = Some d → Z.of_nat (length d) = cs) →
  ∃ q' a, get_new_cluster data q = (q', Ok a) ∧ moves cs 1 (a :: Hd) q q' ∧
    same_tables cs q q' ∧ holds cs (rfile (raw_file q')) a data ∧
    preserved cs (Hd ++ kept cs q) (rfile (raw_file q)) (rfile (raw_file q')) ∧
    unref_clusters q' = unref_clusters q.
Proof.
  intros Hi Hr Hdata.
  destruct (get_new_cluster_spec cs Hpow Hcs (Hd ++ kept cs q) q data)
    as (c' & a & E & Hc & Hp & Hh & Hrc & Hroom & _); try apply Hi; try done.
  assert (preserved cs (Hd ++ kept cs q) (rfile (raw_file q)) (c_file c')) as Hp1.
  { eapply preserved_subset; [|exact Hp]. intros x. rewrite !elem_of_app. tauto. }
  assert (preserved cs (kept cs q) (rfile (raw_file q)) (c_file c')) as Hp2.
  { eapply preserved_subset; [|exact Hp1]. intros x. rewrite !elem_of_app. tauto. }
  exists (set_core q c'), a. split_and!; [done| |by eapply same_tables_core|done|done|done].
  apply (moves_core cs Hpow Hcs 1 Hd (a :: Hd)); try done; by rewrite Hrc.
Qed.

Lemma count_cluster_spec Hd q a v :
  qinv cs Hd q → 0 ≤ a ≤ max_valid_cluster_offset (refcounts q) → room cs 3 (core q) →
  ∃ q', count_cluster a v q = (q', Ok tt) ∧ moves cs 3 Hd q q' ∧ same_tables cs q q' ∧
    preserved cs (Hd ++ kept cs q) (rfile (raw_file q)) (rfile (raw_file q')).
Proof.
  intros Hi Ha Hr.
  destruct (set_cluster_refcount_spec cs Hpow Hcs (Hd ++ kept cs q) q a v)
    as (c' & un & E & Hok); try apply Hi; try done. destruct Hok as [Hc Hp Hmax Hroom].
  assert (preserved cs (kept cs q) (rfile (raw_file q)) (c_file c')) as Hp2.
  { eapply preserved_subset; [|exact Hp]. intros x. rewrite !elem_of_app. tauto. }
  unfold count_cluster. erewrite mbind_ok by exact E.
  assert (moves cs 3 (un ++ Hd) q (set_core q c')) as Hm1.
  { apply (moves_core cs Hpow Hcs 3 Hd); [done|by rewrite <-app_assoc| |done..].
    pose proof (set_cluster_refcount_shape a v q) as Hsh. rewrite E in Hsh. exact Hsh. }
  pose proof (moves_unref un Hd _ (mv_inv _ _ _ _ _ Hm1)) as Hm2.
  eexists. split; [reflexivity|]. split_and!.
  - by apply (moves_trans cs Hpow Hcs 3 0 (un ++ Hd) Hd q (set_core q c')).
  - eapply same_tables_trans; [by eapply same_tables_core|]. done.
  - done.
Qed.

Lemma append_data_cluster_spec Hd q data :
  qinv cs Hd q → room cs 4 (core q) → (∀ d, data = Some d → Z.of_nat (length d) = cs) →
  ∃ q' a, append_data_cluster data q = (q', Ok a) ∧ moves cs 4 (a :: Hd) q q' ∧
    same_tables cs q q' ∧ holds cs (rfile (raw_file q')) a data.
Proof.
  intros Hi Hr Hdata. unfold append_data_cluster.
  destruct (get_new_cluster_moves Hd q data Hi) as (q1 & a & E1 & Hm1 & Hs1 & Hh1 & _); [|done|].
  { unfold room in *. lia. }
  erewrite mbind_ok by exact E1. destruct (held_clus _ _ _ (mv_inv _ _ _ _ _ Hm1)) as (_ & (_ & Ha & _) & _).
  destruct (count_cluster_spec (a :: Hd) q1 a 1) as (q2 & E2 & Hm2 & Hs2 & Hp2);
    [apply Hm1|done|by apply (mv_room _ _ _ _ _ Hm1)|].
  erewrite mbind_ok by exact E2. exists q2, a. split_and!; [done| |by eapply same_tables_trans|].
  - by apply (moves_trans cs Hpow Hcs 1 3 (a :: Hd) (a :: Hd) q q1).
  - eapply holds_preserved; [exact Hp2|by left|done].
Qed.

Lemma moves_weaken k k' Hd q q' : k ≤ k' → moves cs k Hd q q' → moves cs k' Hd q q'.
Proof.
  intros Hk [I E O X Bb N M R]. constructor; try done. intros n Hn. apply R.
  unfold room in *. nia.
Qed.

Lemma set_l1_entry_ok q i a old :
  vec_get (l1_table q) i = Some old →
  set_l1_entry i a q = (with_l1 q (vec_set (l1_table q) i a), Ok tt).
Proof. intros E. unfold set_l1_entry. by rewrite E. Qed.

Lemma set_l2_entry_ok q i j d t e :
  cmap (l2_cache q) !! i = Some t → vec_get t j = Some e →
  set_l2_entry i j d q = (set_entry q i j d t, Ok tt).
Proof. intros E1 E2. unfold set_l2_entry. by rewrite E1, E2. Qed.

(** What is known of the image once the table of an address is in the cache. *)
Notation table_ready Hd q q' srs i := (∃ t a',
  moves cs 1 Hd q q' ∧ entries cs q' = entries cs q ∧ cmap (l2_cache q') !! i = Some t ∧
  vec_get (l1_table q') i = Some a' ∧ a' ≠ 0 ∧ backing_file q' = backing_file q ∧
  Forall (countable q') srs ∧ (length srs ≤ 1)%nat).

Lemma new_l2_spec Hd q i :
  qinv cs Hd q → vec_get (l1_table q) i = Some 0 → room cs 1 (core q) →
  ∃ q' srs, load_or_new_l2 i 0 q = (q', Ok srs) ∧ table_ready Hd q q' srs i.
Proof.
  intros Hi Ha Hr. unfold load_or_new_l2. erewrite mbind_ok by done.
  assert (cmap (l2_cache q) !! i = None) as Et.
  { destruct (cmap (l2_cache q) !! i) as [t|] eqn:Et; [|done].
    destruct (qi_cache _ _ _ Hi _ _ Et) as (a' & Ha' & Ha0 & _). congruence. }
  rewrite (contains_key_None _ _ Et), Z.eqb_refl.
  destruct (get_new_cluster_moves Hd q None Hi Hr) as (q1 & a & E1 & Hm1 & [Sl Sc Sv Sb] & Hh & _); [done|].
  erewrite mbind_ok by exact E1. destruct (held_clus _ _ _ (mv_inv _ _ _ _ _ Hm1)) as (Ha0 & (_ & Hca & _) & _).
  rewrite <-Sl in Ha. erewrite mbind_ok by (by eapply set_l1_entry_ok).
  destruct (moves_attach a Hd q1 i) as [Hm2 Hv2]; [apply Hm1|done|done|].
  set (q2 := with_l1 q1 (vec_set (l1_table q1) i a)) in *.
  destruct (insert_l2_spec cs Hpow Hcs Hd q2 i a (vec_new (l2_entries q)))
    as (q3 & E3 & Hm3 & Hv3 & Ht & El3 & Eb3).
  { apply Hm2. } { by eapply vec_get_set_eq. } { done. } { simpl. by rewrite Sc. }
  { rewrite Hv2. unfold l2_view. apply vec_get_Some in Ha as [Hi0 Ha].
    rewrite Z2Nat.id, Sc, Et, Ha by done. simpl. unfold zeros. by rewrite (qi_l2 _ _ _ Hi). }
  erewrite mbind_ok by exact E3. exists q3, [(a, 1)]. split; [done|].
  exists (vec_new (l2_entries q)), a. split_and!; try done.
  - apply (moves_trans cs Hpow Hcs 1 0 (a :: Hd) Hd q q1); [done|].
    by apply (moves_trans cs Hpow Hcs 0 0 Hd Hd q1 q2).
  - apply (entries_ext cs Hpow Hcs); [rewrite El3; simpl; rewrite length_insert; by rewrite Sl|].
    intros k _. by rewrite Hv3, Hv2, Sv.
  - rewrite El3. by eapply vec_get_set_eq.
  - by rewrite Eb3.
  - constructor; [|done]. unfold countable. rewrite (mv_max _ _ _ _ _ Hm3). done.
Qed.

Lemma load_or_new_load i a q :
  a ≠ 0 → load_or_new_l2 i a q = (let* _ := load_l2 i a in mret []) q.
Proof.
  intros Ha. unfold load_or_new_l2, load_l2, mbind, mget. destruct (contains_key (l2_cache q) i); [done|].
  destruct (Z.eqb_spec a 0); [done|].
  by destruct (on_rfile (read_l2_cluster (cluster_size (raw_file q)) a) q) as [q1 [t|e]].
Qed.

(** The L2 table of an address is in the cache afterwards. *)
Lemma load_or_new_l2_spec Hd q i a :
  qinv cs Hd q → vec_get (l1_table q) i = Some a → room cs 1 (core q) →
  ∃ q' srs, load_or_new_l2 i a q = (q', Ok srs) ∧ table_ready Hd q q' srs i.
Proof.
  intros Hi Ha Hr. destruct (decide (a = 0)) as [->|Hne]; [by apply new_l2_spec|].
  rewrite load_or_new_load by done.
  destruct (load_l2_spec cs Hpow Hcs _ _ _ _ Hi Ha Hne) as (q1 & t & E1 & Hm1 & Hv1 & Ht & El & Eb).
  erewrite mbind_ok by exact E1. exists q1, []. split; [done|]. exists t, a.
  split_and!; try done; [by apply (moves_weaken 0)| |by rewrite El|simpl; lia].
  apply (entries_ext cs Hpow Hcs); [by rewrite El|]. intros k _. by rewrite Hv1.
Qed.

(** What a new data cluster is filled with is what the disk reads there. *)
Lemma initial_cluster_spec Hd q x :
  qinv cs Hd q → 0 ≤ x < virtual_size q → backing_fits cs q →
  ∃ q' data, initial_cluster x q = (q', Ok data) ∧ moves cs 0 Hd q q' ∧
    (l1_table q' = l1_table q ∧ l2_cache q' = l2_cache q ∧ entries cs q' = entries cs q) ∧
    (∀ d, data = Some d → Z.of_nat (length d) = cs) ∧
    ∀ y, y `div` cs = x `div` cs →
      match data with Some l => default 0 (l !! Z.to_nat (y `mod` cs)) | None => 0 end =
      backing_byte q y.
Proof.
  intros Hi Hx Hb. unfold backing_fits in Hb. unfold initial_cluster. erewrite mbind_ok by done.
  destruct (backing_file q) as [b|] eqn:Eb.
  2: { exists q, None. unfold mret, backing_byte. rewrite Eb. split_and!; try done. by apply moves_refl. }
  destruct Hb as [|[k Hk]]; [done|]. destruct (qi_backing _ _ _ Hi b Eb) as [Hok Hsz].
  rewrite (qi_cs _ _ _ Hi). pose proof (Z.div_mod x cs ltac:(lia)) as Ex.
  pose proof (Z.mod_pos_bound x cs ltac:(lia)) as Hm.
  assert (x `div` cs < k) by (apply Z.div_lt_upper_bound; lia).
  pose proof (Z.div_pos x cs ltac:(lia) ltac:(lia)).
  destruct (disk_read_spec b (x - x `mod` cs) cs Hok) as (b' & Er & Hok' & Es & Hx'); [nia..|].
  assert (on_backing b (disk_read_at (x - x `mod` cs) cs) q =
    (with_backing q (Some b'), Ok (disk_byte b <$> seqZ (x - x `mod` cs) cs))) as E.
  { unfold on_backing. by rewrite Er. }
  erewrite mbind_ok by exact E. eexists _, _. split; [reflexivity|].
  split_and!; [by apply (moves_backing cs Hpow Hcs Hd q b b')|done|done|done| |].
  - intros d [= <-]. rewrite length_fmap, length_seqZ. lia.
  - intros y Hy. pose proof (Z.mod_pos_bound y cs ltac:(lia)).
    pose proof (Z.div_mod y cs ltac:(lia)) as Ey. rewrite list_lookup_fmap, lookup_seqZ_lt by lia.
    simpl. unfold backing_byte. rewrite Eb. f_equal. nia.
Qed.

Lemma get_new_cluster_unref q data l :
  get_new_cluster data (with_unref q l) =
  let '(q', r) := get_new_cluster data q in (with_unref q' l, r).
Proof.
  unfold get_new_cluster. simpl. destruct (last (avail_clusters q)) as [a|]; simpl;
    unfold mbind, mmodify, on_raw, mret; simpl.
  - destruct data as [d|].
    + by destruct (write_cluster a d (raw_file q)) as [r [[]|e]].
    + by destruct (zero_cluster a (raw_file q)) as [r [[]|e]].
  - destruct (add_cluster_end _ (raw_file q)) as [r [[a|]|e]]; simpl; [|done..].
    destruct data as [d|]; simpl; [|done]. by destruct (write_cluster a d r) as [r' [[]|e]].
Qed.

(** The same data after the tables changed around an entry: [update_cluster_addr] of a
    table that is dirty, and of a clean one, which moves to a new cluster. *)
Lemma update_dirty_spec d Hd q x srs t :
  qinv cs (d :: Hd) q → cmap (l2_cache q) !! l1_table_index q x = Some t → dirty t = true →
  vec_get t (l2_table_index q x) = Some 0 →
  update_cluster_addr (l1_table_index q x) (l2_table_index q x) d srs q =
  (set_entry q (l1_table_index q x) (l2_table_index q x) d t, Ok srs).
Proof.
  intros Hi Ht Hdt He. unfold update_cluster_addr. erewrite mbind_ok by done.
  rewrite Ht, Hdt. erewrite mbind_ok by done.
  by erewrite mbind_ok by (by eapply set_l2_entry_ok).
Qed.

Lemma update_clean_run d q i j srs t a q1 new :
  cmap (l2_cache q) !! i = Some t → dirty t = false → vec_get (l1_table q) i = Some a → a ≠ 0 →
  vec_get t j = Some 0 → get_new_cluster None q = (q1, Ok new) → same_tables cs q q1 →
  unref_clusters q1 = unref_clusters q →
  update_cluster_addr i j d srs q =
  (let q2 := set_entry q1 i j 0 t in
   let q3 := with_l1 q2 (vec_set (l1_table q2) i new) in
   let q4 := with_unref q3 (unref_clusters q3 ++ [a]) in
   set_entry q4 i j d (vec_set t j 0), Ok ((srs ++ [(a, 0)]) ++ [(new, 1)])).
Proof.
  intros Ht Hdt Ha Ha0 He E [Sl Sc Sv Sb] Su. unfold update_cluster_addr. erewrite mbind_ok by done.
  rewrite Ht, Hdt, Ha. simpl negb. cbv iota. destruct (Z.eqb_spec a 0); [done|]. simpl negb. cbv iota.
  unfold append_unref, mbind, mmodify, mret. rewrite get_new_cluster_unref, E.
  rewrite (set_l1_entry_ok _ i new a) by (simpl; by rewrite Sl).
  rewrite (set_l2_entry_ok _ i j d t 0) by (simpl; by rewrite ?Sc).
  f_equal. unfold set_entry, with_l1, with_unref, with_l2_cache. simpl. f_equal; [|by rewrite Su].
  rewrite insert_insert_eq. unfold vec_set. simpl. by rewrite list_insert_insert_eq.
Qed.

(** The table of index [i] moves from cluster [a] to a new one, and [a] is unreferenced. *)
Lemma relocate_spec Hd q i j t a e :
  qinv cs Hd q → vec_get (l1_table q) i = Some a → a ≠ 0 →
  cmap (l2_cache q) !! i = Some t → vec_get t j = Some e → room cs 1 (core q) →
  ∃ q1 new, get_new_cluster None q = (q1, Ok new) ∧ same_tables cs q q1 ∧
    unref_clusters q1 = unref_clusters q ∧
    let q2 := set_entry q1 i j e t in
    let q3 := with_l1 q2 (vec_set (l1_table q2) i new) in
    let q4 := with_unref q3 (unref_clusters q3 ++ [a]) in
    moves cs 1 Hd q q4 ∧ entries cs q4 = entries cs q ∧
    vec_get (l1_table q4) i = Some new ∧ new ≠ 0 ∧ countable q (new, 1) ∧
    preserved cs (Hd ++ kept cs q) (rfile (raw_file q)) (rfile (raw_file q4)).
Proof.
  intros Hi Ha Ha0 Ht He Hr.
  destruct (get_new_cluster_moves _ q None Hi Hr) as (q1 & new & E1 & Hm1 & Hs & Hh1 & Hp1 & Su); [done|].
  exists q1, new. split_and!; [done..|]. cbv zeta. destruct Hs as [Sl Sc Sv Sb].
  destruct (held_clus _ _ _ (mv_inv _ _ _ _ _ Hm1)) as (Hn0 & (_ & Hcn & _) & _).
  destruct (moves_dirty _ q1 i j t e (mv_inv _ _ _ _ _ Hm1)) as [Hm2 Hv2]; [by rewrite Sc|done|].
  set (q2 := set_entry q1 i j e t) in *.
  destruct (moves_relocate new a Hd q2 i (vec_set t j e)) as [Hm3 Hv3];
    [apply Hm2|simpl; by rewrite Sl|done|simpl; by rewrite lookup_insert_eq|done|apply Hh1|].
  set (q3 := with_l1 q2 (vec_set (l1_table q2) i new)) in *.
  pose proof (moves_unref [a] Hd q3 (mv_inv _ _ _ _ _ Hm3)) as Hm4.
  split_and!; [| | |done| |done].
  - apply (moves_trans cs Hpow Hcs 1 0 (new :: Hd) Hd q q1); [done|].
    apply (moves_trans cs Hpow Hcs 0 0 (new :: Hd) Hd q1 q2); [done|].
    by apply (moves_trans cs Hpow Hcs 0 0 (a :: Hd) Hd q2 q3).
  - apply (entries_ext cs Hpow Hcs); [simpl; by rewrite length_insert, Sl|].
    intros k _. rewrite <-Sv, <-Hv2, <-Hv3. done.
  - simpl. rewrite Sl. by eapply vec_get_set_eq.
  - unfold countable. by rewrite <-(mv_max _ _ _ _ _ Hm1).
Qed.

(** A new data cluster [d] becomes that of address [x]. *)
Notation entry_ready d Hd q x data := (
  qinv cs (d :: Hd) q ∧ 0 ≤ x ∧ entry_at cs q x = 0 ∧ holds cs (rfile (raw_file q)) d data ∧
  ∀ y, y `div` cs = x `div` cs →
    match data with Some l => default 0 (l !! Z.to_nat (y `mod` cs)) | None => 0 end =
    backing_byte q y).

Lemma set_entry_ready d Hd q x data t a :
  entry_ready d Hd q x data →
  vec_get (l1_table q) (l1_table_index q x) = Some a → a ≠ 0 →
  cmap (l2_cache q) !! l1_table_index q x = Some t →
  let q' := set_entry q (l1_table_index q x) (l2_table_index q x) d t in
  moves cs 0 Hd q q' ∧ entry_at cs q' x = d.
Proof.
  intros (Hi & Hx & E0 & [Hf Hh] & Hbk) Ha Ha0 Ht.
  apply (moves_set_entry d Hd q x t a); try done. intros y Hy.
  rewrite Hh by (apply Z.mod_pos_bound; lia). by apply Hbk.
Qed.

Lemma countable_moves k Hd q q' srs :
  moves cs k Hd q q' → Forall (countable q) srs → Forall (countable q') srs.
Proof. intros Hm. unfold countable. by rewrite (mv_max _ _ _ _ _ Hm). Qed.

Lemma update_cluster_addr_spec d Hd q x data t a srs :
  entry_ready d Hd q x data →
  vec_get (l1_table q) (l1_table_index q x) = Some a → a ≠ 0 →
  cmap (l2_cache q) !! l1_table_index q x = Some t →
  room cs 1 (core q) → Forall (countable q) srs →
  ∃ q' srs', update_cluster_addr (l1_table_index q x) (l2_table_index q x) d srs q = (q', Ok srs') ∧
    moves cs 1 Hd q q' ∧ entry_at cs q' x = d ∧ Forall (countable q') srs' ∧
    (length srs' ≤ length srs + 2)%nat.
Proof.
  intros Hrd Ha Ha0 Ht Hr Hsrs. pose proof Hrd as (Hi & Hx & E0 & Hh & Hbk).
  destruct (entry_at_cached cs Hpow Hcs _ _ _ _ _ Hi Hx Ha Ht) as [He _]. rewrite E0 in He.
  destruct (dirty t) eqn:Hdt.
  { destruct (set_entry_ready d Hd q x data t a Hrd Ha Ha0 Ht) as [Hm Hed].
    rewrite (update_dirty_spec d Hd) with (t := t) by done. eexists _, srs. split; [done|].
    split_and!; [by apply (moves_weaken 0)|done|by eapply countable_moves|lia]. }
  destruct (relocate_spec _ q _ _ t a 0 Hi Ha Ha0 Ht He Hr)
    as (q1 & new & E1 & Hs & Su & Hm4 & Ee & Hnew & Hn0 & Hcn & Hp).
  rewrite (update_clean_run d q _ _ srs t a q1 new) by done. cbv zeta in *.
  set (q4 := with_unref _ _) in *.
  destruct (same_indices cs Hpow Hcs _ _ q q4 x Hi (mv_inv _ _ _ _ _ Hm4)) as [Ei Ej].
  destruct (set_entry_ready d Hd q4 x data (vec_set t (l2_table_index q x) 0) new) as [Hm5 Hed].
  { split_and!; [apply Hm4|done|by rewrite (entry_at_same cs Hpow Hcs q q4 x Ee)| |].
    - eapply holds_preserved; [exact Hp|by left|done].
    - intros y Hy. rewrite Hbk by done. symmetry. apply Hm4. }
  { by rewrite Ei. } { done. } { rewrite Ei. simpl. by rewrite lookup_insert_eq. }
  rewrite Ei, Ej in Hm5, Hed. eexists _, _. split; [reflexivity|].
  split_and!; [by apply (moves_trans cs Hpow Hcs 1 0 (d :: Hd) Hd q q4)|done| |
    rewrite !length_app; simpl; lia].
  apply (countable_moves 1 Hd q); [by apply (moves_trans cs Hpow Hcs 1 0 (d :: Hd) Hd q q4)|].
  rewrite !Forall_app. split_and!; [done| |by constructor].
  constructor; [|done]. unfold countable. simpl. by apply (l1_clus cs Hpow Hcs (d :: Hd) q (l1_table_index q x) a).
Qed.

Lemma count_all_spec Hd q srs :
  qinv cs Hd q → Forall (countable q) srs → room cs (3 * Z.of_nat (length srs)) (core q) →
  ∃ q', miter (λ ac, count_cluster ac.1 ac.2) srs q = (q', Ok tt) ∧
    moves cs (3 * Z.of_nat (length srs)) Hd q q' ∧ entries cs q' = entries cs q.
Proof.
  intros Hi Hsrs. revert q Hi Hsrs. induction srs as [|[a v] srs IH]; intros q Hi Hsrs Hr.
  { exists q. split_and!; [done| |done]. by apply (moves_weaken 0), moves_refl. }
  apply Forall_cons in Hsrs as [Ha Hsrs]. simpl length in *.
  destruct (count_cluster_spec Hd q a v Hi Ha) as (q1 & E1 & Hm1 & Hs1 & _).
  { unfold room in *. nia. }
  destruct (IH q1) as (q2 & E2 & Hm2 & Ee2); [apply Hm1|by eapply countable_moves| |].
  { apply (mv_room _ _ _ _ _ Hm1). unfold room in *. lia. }
  exists q2. cbn [miter]. erewrite mbind_ok by exact E1. split_and!; [done| |].
  - replace (3 * Z.of_nat (S (length srs))) with (3 + 3 * Z.of_nat (length srs)) by lia.
    by apply (moves_trans cs Hpow Hcs _ _ Hd Hd q q1).
  - rewrite Ee2. by apply (entries_same cs Hpow Hcs); apply Hs1.
Qed.

(** The part of [file_offset_write] that gives an address a data cluster. *)
Lemma new_data_spec Hd q x t a srs :
  qinv cs Hd q → 0 ≤ x < virtual_size q → backing_fits cs q →
  vec_get (l1_table q) (l1_table_index q x) = Some a → a ≠ 0 →
  cmap (l2_cache q) !! l1_table_index q x = Some t → entry_at cs q x = 0 →
  room cs 5 (core q) → Forall (countable q) srs →
  ∃ q' d srs',
    (let* initial_data := initial_cluster x in
     let* cluster_addr := append_data_cluster initial_data in
     let* set_refcounts :=
       update_cluster_addr (l1_table_index q x) (l2_table_index q x) cluster_addr srs in
     mret (cluster_addr, set_refcounts)) q = (q', Ok (d, srs')) ∧
    moves cs 5 Hd q q' ∧ entry_at cs q' x = d ∧ d ≠ 0 ∧ Forall (countable q') srs' ∧
    (length srs' ≤ length srs + 2)%nat.
Proof.
  intros Hi Hx Hb Ha Ha0 Ht E0 Hr Hsrs.
  destruct (initial_cluster_spec Hd q x Hi Hx Hb) as (q1 & data & E1 & Hm1 & (El1 & Ec1 & Ee1) & Hlen & Hbk).
  erewrite mbind_ok by exact E1.
  destruct (append_data_cluster_spec Hd q1 data) as (q2 & d & E2 & Hm2 & [Sl Sc Sv Sb] & Hh);
    [apply Hm1|apply (mv_room _ _ _ _ _ Hm1); unfold room in *; lia|done|].
  erewrite mbind_ok by exact E2. pose proof (moves_trans cs Hpow Hcs _ _ _ _ _ _ _ Hm1 Hm2) as Hm12.
  destruct (same_indices cs Hpow Hcs _ _ q q2 x Hi (mv_inv _ _ _ _ _ Hm2)) as [Ei Ej].
  rewrite <-Ei, <-Ej.
  destruct (update_cluster_addr_spec d Hd q2 x data t a srs) as (q3 & srs' & E3 & Hm3 & Hed & Hs3 & Hl3).
  { split_and!; [apply Hm2|lia| |done|].
    - rewrite <-E0. apply (entry_at_same cs Hpow Hcs). rewrite <-Ee1.
      by apply (entries_same cs Hpow Hcs).
    - intros y Hy. rewrite Hbk by done. symmetry. apply Hm12. }
  { by rewrite Sl, El1, Ei. } { done. } { by rewrite Sc, Ec1, Ei. }
  { apply (mv_room _ _ _ _ _ Hm12). unfold room in *. lia. } { by eapply countable_moves. }
  erewrite mbind_ok by exact E3. exists q3, d, srs'.
  split_and!; try done; [|apply (held_clus _ _ _ (mv_inv _ _ _ _ _ Hm2))].
  by apply (moves_trans cs Hpow Hcs (0 + 4) 1 (d :: Hd) Hd q q2).
Qed.

Lemma file_offset_write_spec Hd q x :
  qinv cs Hd q → 0 ≤ x < virtual_size q → backing_fits cs q →
  room cs 15 (core q) →
  ∃ q', file_offset_write x q = (q', Ok (entry_at cs q' x + x `mod` cs)) ∧
    moves cs 15 Hd q q' ∧ entry_at cs q' x ≠ 0.
Proof.
  intros Hi Hx Hb Hr. unfold file_offset_write.
  destruct (l1_index_valid cs Hpow Hcs _ _ _ Hi Hx) as (a & Ha & E). erewrite mbind_ok by exact E.
  erewrite mbind_ok by done. cbv zeta.
  destruct (load_or_new_l2_spec Hd q _ a Hi Ha) as (q1 & srs & E1 & t & a1 & Hm1 & Ee1 & Ht & Ha1 & Ha0 & Eb & Hs1 & Hl1).
  { unfold room in *. lia. }
  erewrite mbind_ok by exact E1.
  destruct (same_indices cs Hpow Hcs _ _ q q1 x Hi (mv_inv _ _ _ _ _ Hm1)) as [Ei Ej].
  rewrite <-Ei, <-Ej in *.
  destruct (entry_at_cached cs Hpow Hcs _ q1 x t a1 (mv_inv _ _ _ _ _ Hm1)) as [_ E2]; [lia|done|done|].
  erewrite mbind_ok by exact E2. rewrite (cluster_offset_mod cs Hpow Hcs Hd) by done.
  assert (∃ q2 d srs', (if entry_at cs q1 x =? 0 then
       let* initial_data := initial_cluster x in
       let* cluster_addr := append_data_cluster initial_data in
       let* set_refcounts := update_cluster_addr (l1_table_index q1 x) (l2_table_index q1 x) cluster_addr srs in
       mret (cluster_addr, set_refcounts)
     else mret (entry_at cs q1 x, srs)) q1 = (q2, Ok (d, srs')) ∧ moves cs 5 Hd q1 q2 ∧
     entry_at cs q2 x = d ∧ d ≠ 0 ∧ Forall (countable q2) srs' ∧ (length srs' ≤ 3)%nat)
    as (q2 & d & srs' & E3 & Hm2 & Hed & Hd0 & Hs2 & Hl2).
  { destruct (Z.eqb_spec (entry_at cs q1 x) 0) as [E0|E0].
    - destruct (new_data_spec Hd q1 x t a1 srs) as (q2 & d & srs' & ? & ? & ? & ? & ? & ?); try done.
      + apply Hm1.
      + unfold virtual_size. by rewrite (mv_header _ _ _ _ _ Hm1).
      + by eapply backing_fits_moves.
      + apply (mv_room _ _ _ _ _ Hm1). unfold room in *. lia.
      + exists q2, d, srs'. split_and!; try done. lia.
    - exists q1, (entry_at cs q1 x), srs. split_and!; try done; [|lia].
      by apply (moves_weaken 0), moves_refl, Hm1. }
  erewrite mbind_ok by exact E3. cbn [fst snd].
  pose proof (moves_trans cs Hpow Hcs _ _ _ _ _ _ _ Hm1 Hm2) as Hm12.
  destruct (count_all_spec Hd q2 srs') as (q3 & E4 & Hm3 & Ee3); [apply Hm2|done| |].
  { apply (mv_room _ _ _ _ _ Hm12). unfold room in *. nia. }
  erewrite mbind_ok by exact E4. pose proof (entry_at_same cs Hpow Hcs q2 q3 x Ee3) as Eq3.
  exists q3. rewrite Eq3, Hed. split_and!; [done| |done].
  apply (moves_weaken (1 + 5 + 3 * Z.of_nat (length srs'))); [lia|].
  by apply (moves_trans cs Hpow Hcs _ _ Hd Hd q q2).
Qed.

(** ** Writing *)

Lemma entries_nodup Hd q : qinv cs Hd q → NoDup (nz (entries cs q)).
Proof.
  intros Hi. pose proof (ci_nodup _ _ _ (qi_core _ _ _ Hi)) as Hnd. unfold kept in Hnd.
  rewrite <-!app_assoc in Hnd. apply NoDup_app in Hnd as (_ & _ & Hnd).
  apply NoDup_app in Hnd as (_ & _ & Hnd). apply NoDup_app in Hnd as (_ & _ & Hnd).
  by apply NoDup_app in Hnd as (Hnd & _).
Qed.

(** Two addresses of one data cluster are in one cluster of the disk. *)
Lemma entry_at_inj Hd q x y :
  qinv cs Hd q → entry_at cs q x = entry_at cs q y → entry_at cs q x ≠ 0 → x `div` cs = y `div` cs.
Proof.
  intros Hi. unfold entry_at.
  destruct (vec_get (from_vec (entries cs q)) (x `div` cs)) as [e|] eqn:Ex; [|done].
  destruct (vec_get (from_vec (entries cs q)) (y `div` cs)) as [e'|] eqn:Ey; simpl; [|done].
  intros -> He. apply vec_get_Some in Ex as [? Ex], Ey as [? Ey].
  apply Z2Nat.inj; [done..|]. eapply nz_lookup_inj; [by eapply entries_nodup|done..].
Qed.

(** A file with bytes changed inside a data cluster. *)
Lemma qinv_write_data Hd q x f' :
  qinv cs Hd q → entry_at cs q x ≠ 0 → flen f' = flen (rfile (raw_file q)) →
  (∀ z, ¬ (entry_at cs q x ≤ z < entry_at cs q x + cs) → fbyte f' z = fbyte (rfile (raw_file q)) z) →
  let q' := with_raw q (with_rfile (raw_file q) f') in
  qinv cs Hd q' ∧ entries cs q' = entries cs q ∧
  ∀ y, y `div` cs ≠ x `div` cs → content cs q' y = content cs q y.
Proof.
  intros Hi He El Hout q'. pose proof (entry_at_elem cs Hpow Hcs q x He) as Hin.
  destruct (entry_clus cs Hpow Hcs Hd q _ Hi Hin He) as (Hnz & (Hdv & Hr & _) & Hf).
  assert (new_cluster_written cs (rfile (raw_file q)) f' (entry_at cs q x)
    (Some (get_bytes f' (entry_at cs q x) cs))) as Hw.
  { constructor; [lia| |done]. split; [lia|]. intros i Hi'. rewrite lookup_get_bytes by lia.
    simpl. f_equal. lia. }
  destruct (core_inv_rewrite_kept cs Hpow Hcs (Hd ++ kept cs q) (core q) f' (entry_at cs q x)
    (Some (get_bytes f' (entry_at cs q x) cs))) as [Hc _]; [apply Hi| |done|done|].
  { apply elem_of_app. right. by apply (kept_entries cs Hpow Hcs). }
  pose proof (ci_clus _ _ _ (qi_core _ _ _ Hi)) as Hcl. rewrite Forall_forall in Hcl.
  assert (∀ b z, b ∈ kept cs q → b ≠ entry_at cs q x → b ≤ z < b + cs →
    fbyte f' z = fbyte (rfile (raw_file q)) z) as Hp.
  { intros b z Hb Hbe Hz. apply Hout. intros Hz'. apply Hbe.
    apply (cluster_overlap cs b (entry_at cs q x) z); try done; [lia|]. apply Hcl.
    rewrite !elem_of_app. tauto. }
  destruct (qinv_nodup cs Hpow Hcs Hd q Hi) as (_ & Hn2 & Hn3).
  destruct (qinv_core_tables cs Hpow Hcs Hd Hd q (core_file (core q) f') Hi Hc) as [Hi' Ee]; [done| | |].
  { split; [simpl; lia|]. intros b z Hb.
    apply Hp; [by apply (kept_l1 cs Hpow Hcs)|]. intros ->. by eapply Hn2. }
  { intros Hdl. apply (l1_on_disk_preserved cs Hpow Hcs (meta cs q) q (rfile (raw_file q)));
      [|done|by apply Hi]. split; [simpl; lia|]. intros b z Hb.
    apply Hp; [by apply (kept_meta cs Hpow Hcs)|]. intros ->. by destruct (Hn3 _ Hb). }
  split_and!; [exact Hi'|exact Ee|]. intros y Hy. unfold content.
  rewrite (entry_at_same cs Hpow Hcs q q' y Ee). destruct (Z.eqb_spec (entry_at cs q y) 0); [done|].
  pose proof (Z.mod_pos_bound y cs ltac:(lia)).
  apply (Hp (entry_at cs q y)); [|intros E; apply Hy; by apply (entry_at_inj Hd q)|lia].
  apply (kept_entries cs Hpow Hcs), (entry_clus cs Hpow Hcs Hd q); [done|by apply (entry_at_elem cs Hpow Hcs)|done].
Qed.

(** The bytes of one pass of the loop of [write] reach the disk. *)
Lemma write_data_spec Hd q x bs :
  qinv cs Hd q → 0 ≤ x → entry_at cs q x ≠ 0 → bs ≠ [] →
  x `mod` cs + Z.of_nat (length bs) ≤ cs →
  ∃ q', on_rfile (let* _ := seek_start (entry_at cs q x + x `mod` cs) in file_write bs) q =
      (q', Ok (Z.of_nat (length bs))) ∧
    qinv cs Hd q' ∧ header q' = header q ∧ current_offset q' = current_offset q ∧
    backing_file q' = backing_file q ∧
    (∀ y, content cs q' y = overwrite (content cs q) x bs y) ∧
    ∀ n, room cs n (core q) → room cs n (core q').
Proof.
  intros Hi Hx He Hbs Hl. pose proof (Z.mod_pos_bound x cs ltac:(lia)) as Hm.
  destruct (entry_clus cs Hpow Hcs Hd q _ Hi (entry_at_elem cs Hpow Hcs q x He) He) as (_ & (_ & Hr & _) & Hf).
  pose proof (ci_len _ _ _ (qi_core _ _ _ Hi)) as Hlen. simpl in Hlen.
  set (o := entry_at cs q x + x `mod` cs).
  set (f' := with_pos (write_at o bs (rfile (raw_file q))) (o + Z.of_nat (length bs))).
  assert (flen f' = flen (rfile (raw_file q))) as El.
  { unfold f'. simpl. rewrite flen_write_at by done. unfold o. lia. }
  assert (∀ z, fbyte f' z = if decide (o ≤ z < o + Z.of_nat (length bs))
    then default 0 (bs !! Z.to_nat (z - o)) else fbyte (rfile (raw_file q)) z) as Hfb.
  { intros z. unfold f'. rewrite fbyte_with_pos. apply fbyte_write_at. }
  destruct (qinv_write_data Hd q x f' Hi He El) as (Hi' & Ee & Hne).
  { intros z Hz. rewrite Hfb, decide_False by (unfold o; lia). done. }
  eexists. split; [|split_and!; [exact Hi'|done|done|done| |]].
  - unfold on_rfile, on_raw, on_file, mbind. rewrite seek_start_ok by (unfold o; lia). simpl.
    unfold f'. by destruct bs.
  - intros y. unfold overwrite. destruct (decide (y `div` cs = x `div` cs)) as [Ey|Ey].
    + rewrite (content_entry cs Hpow Hcs _ x y), (content_entry cs Hpow Hcs q x y) by done.
      rewrite (entry_at_same cs Hpow Hcs q _ x Ee). destruct (Z.eqb_spec (entry_at cs q x) 0); [done|].
      simpl. rewrite Hfb. unfold o. pose proof (Z.div_mod x cs ltac:(lia)).
      pose proof (Z.div_mod y cs ltac:(lia)). rewrite Ey in *.
      destruct (decide (x ≤ y < x + Z.of_nat (length bs))).
      * rewrite decide_True by lia. do 3 f_equal. lia.
      * by rewrite decide_False by lia.
    + rewrite Hne by done. rewrite decide_False; [done|]. intros Hy. apply Ey.
      pose proof (Z.div_mod x cs ltac:(lia)).
      symmetry. apply (Z.div_unique y cs _ (x `mod` cs + (y - x))); lia.
  - intros n. unfold room, core. cbn [c_file c_rc raw_file rfile with_raw with_rfile]. by rewrite El.
Qed.

Lemma write_loop_spec fuel Hd q address nw count buf :
  qinv cs Hd q → backing_fits cs q → 0 ≤ address → 0 ≤ nw ≤ count →
  address + count ≤ virtual_size q → count ≤ Z.of_nat (length buf) →
  room cs (15 * spans cs (address + nw) (count - nw)) (core q) →
  (Z.to_nat (count - nw) < fuel)%nat →
  ∃ q', write_loop fuel address nw count buf q = (q', Ok tt) ∧ qinv cs Hd q' ∧
    header q' = header q ∧ current_offset q' = current_offset q ∧ backing_fits cs q' ∧
    (∀ y, content cs q' y = overwrite (content cs q) (address + nw)
      (take (Z.to_nat (count - nw)) (drop (Z.to_nat nw) buf)) y) ∧
    ∀ n, room cs (n + 15 * spans cs (address + nw) (count - nw)) (core q) → room cs n (core q').
Proof.
  revert q nw. induction fuel as [|fuel IH]; intros q nw Hi Hb Ha Hn Hv Hl Hr Hf; [lia|].
  cbn [write_loop]. destruct (Z.leb_spec count nw) as [Hle|Hlt].
  { exists q. split_and!; try done; replace (count - nw) with 0 by lia.
    - intros y. unfold overwrite. simpl. rewrite decide_False by lia. done.
    - intros n. unfold spans. simpl. by rewrite Z.add_0_r. }
  erewrite mbind_ok by done. cbv zeta.
  destruct (limit_range_cluster_spec cs Hpow Hcs Hd q (address + nw) (count - nw) Hi)
    as (Hc & Hm & _); [lia..|].
  assert (limit_range_cluster q (address + nw) (count - nw) =
    Z.min (count - nw) (cs - (address + nw) `mod` cs)) as Ec.
  { unfold limit_range_cluster. by rewrite (cluster_offset_mod cs Hpow Hcs Hd), (qi_cs _ _ _ Hi). }
  set (c := limit_range_cluster q (address + nw) (count - nw)) in *.
  rewrite (spans_step _ _ c) in * by (done || lia).
  pose proof (spans_nonneg (address + nw + c) (count - nw - c)) as Hsp.
  destruct (file_offset_write_spec Hd q (address + nw)) as (q1 & E1 & Hm1 & He1); [done|lia|done| |].
  { unfold room in *. nia. }
  erewrite mbind_ok by exact E1.
  set (bs := take (Z.to_nat c) (drop (Z.to_nat nw) buf)).
  assert (Z.of_nat (length bs) = c) as Ebs by (unfold bs; rewrite length_take, length_drop; lia).
  destruct (write_data_spec Hd q1 (address + nw) bs) as (q2 & E2 & Hi2 & Eh2 & Eo2 & Eb2 & Hx2 & Hr2);
    [apply Hm1|lia|done|intros E; rewrite E in Ebs; simpl in Ebs; lia|lia|].
  erewrite mbind_ok by exact E2. rewrite Ebs.
  assert (virtual_size q2 = virtual_size q) as Ev.
  { unfold virtual_size. by rewrite Eh2, (mv_header _ _ _ _ _ Hm1). }
  destruct (IH q2 (nw + c)) as (q3 & E3 & Hi3 & Eh3 & Eo3 & Hb3 & Hx3 & Hr3); try done; try lia.
  { destruct (backing_fits_moves _ _ _ _ Hm1 Hb) as [?|?]; [left; congruence|right].
    unfold virtual_size in *. by rewrite Eh2. }
  { apply Hr2, (mv_room _ _ _ _ _ Hm1). rewrite Z.add_assoc, Z.sub_add_distr. unfold room in *. nia. }
  exists q3. split_and!; [done|done|by rewrite Eh3, Eh2, (mv_header _ _ _ _ _ Hm1)|
    by rewrite Eo3, Eo2, (mv_offset _ _ _ _ _ Hm1)|done| |].
  - intros y. rewrite Hx3, Z.add_assoc, <-Ebs.
    rewrite (overwrite_ext _ (overwrite (content cs q) (address + nw) bs)).
    + rewrite overwrite_app, Ebs. unfold bs. by rewrite (take_chunk buf nw c count) by lia.
    + intros z. rewrite Hx2. apply overwrite_ext, Hm1.
  - intros n Hroom. apply Hr3, Hr2, (mv_room _ _ _ _ _ Hm1).
    rewrite Z.add_assoc, Z.sub_add_distr. unfold room in *. nia.
Qed.

Lemma write_body q buf :
  qinv cs [] q → backing_fits cs q → 0 ≤ current_offset q ≤ virtual_size q →
  Z.of_nat (length buf) ≤ i64_max →
  let count := Z.min (Z.of_nat (length buf)) (virtual_size q - current_offset q) in
  room cs (15 * spans cs (current_offset q) count) (core q) →
  ∃ q', write buf q = (q', Ok count) ∧ qinv cs [] q' ∧ header q' = header q ∧
    current_offset q' = current_offset q + count ∧
    (∀ y, content cs q' y =
      overwrite (content cs q) (current_offset q) (take (Z.to_nat count) buf) y) ∧
    backing_fits cs q' ∧
    ∀ n, room cs (n + 15 * spans cs (current_offset q) count) (core q) → room cs n (core q').
Proof.
  intros Hi Hb Ho Hl count Hr. unfold write.
  rewrite (limit_range_file_spec cs Hpow Hcs [] q) by (done || lia). fold count.
  destruct (write_loop_spec (S (Z.to_nat count)) [] q (current_offset q) 0 count buf Hi Hb)
    as (q1 & E1 & Hi1 & Eh & Eo & Hb1 & Hx & Hr1); try lia; [by rewrite Z.add_0_r, Z.sub_0_r|].
  erewrite mbind_ok by exact E1. eexists. split; [reflexivity|]. rewrite Z.add_0_r, Z.sub_0_r in *.
  split_and!; [by apply (qinv_offset cs Hpow Hcs)|done|simpl; by rewrite Eo|exact Hx|exact Hb1|exact Hr1].
Qed.

(** [write] puts the bytes of the buffer at the current offset of the virtual disk and
    changes no other byte of it, whatever clusters it allocates, counts and moves; it
    returns how many bytes reach the end of the disk and moves the offset past
    them.  It never fails while the file can grow by 15 clusters for each cluster
    of the disk that the bytes touch. *)
Theorem write_spec q buf :
  qinv cs [] q → backing_fits cs q → 0 ≤ current_offset q ≤ virtual_size q →
  Z.of_nat (length buf) ≤ i64_max →
  let count := Z.min (Z.of_nat (length buf)) (virtual_size q - current_offset q) in
  room cs (15 * spans cs (current_offset q) count) (core q) →
  ∃ q', write buf q = (q', Ok count) ∧ qinv cs [] q' ∧ header q' = header q ∧
    current_offset q' = current_offset q + count ∧
    ∀ y, content cs q' y =
      overwrite (content cs q) (current_offset q) (take (Z.to_nat count) buf) y.
Proof.
  intros Hi Hb Ho Hl count Hr.
  destruct (write_body q buf Hi Hb Ho Hl Hr) as (q' & E & Hi' & Eh & Eo & Hx & _).
  by exists q'.
Qed.

End Alloc.

End Update.
