(* ===== verification/QcowFlush.v ===== *)
(** * Writing the caches of an image

    [flush] of a [QcowFile] that satisfies the invariant of [QcowDisk] succeeds, leaves
    the virtual disk as it is and every table clean; the content of the disk can
    then be read from the file alone. *)

From S2P Require Import Prelude Words Methods BlockFile QcowTables QcowHeader QcowFile QcowAlloc QcowDisk QcowRead.
From stdpp Require Import options.
Local Open Scope Z_scope.

(** ** Definitions *)

Section Defs.
Context (cs : Z) {B : Type}.
Implicit Types q : QcowFile B.

(** The L1 table of the file. *)
Definition l1_of_disk (f : File) (h : QcowHeader) (n : nat) : list Z :=
  (λ e, Z.land e L1_TABLE_OFFSET_MASK) <$>
    be_words 8 n (get_bytes f (l1_table_offset h) (8 * Z.of_nat n)).

(** The image with nothing cached and the L1 table read from the file. *)
Definition reread q : QcowFile B :=
  with_l2_cache
    (with_l1 q (from_vec (l1_of_disk (rfile (raw_file q)) (header q) (length (vec (l1_table q))))))
    (with_cmap (l2_cache q) ∅).

(** Nothing is left to write. *)
Record clean q : Prop := {
  cl_l1 : dirty (l1_table q) = false;
  cl_l2 : map_Forall (λ _ t, dirty t = false) (cmap (l2_cache q));
  cl_ref_table : dirty (ref_table (refcounts q)) = false;
  cl_refblocks : map_Forall (λ _ t, dirty t = false) (cmap (refblock_cache (refcounts q)));
  cl_unref : unref_clusters q = [];
}.

(** The clusters of a table of the header. *)
Definition region (off n : Z) : list Z := (λ i, off + i * cs) <$> seqZ 0 n.

End Defs.

(** The tables of a cache with those of the keys of [l] marked clean. *)
Definition cleaned (l : list Z) (m : gmap Z VecCache) : gmap Z VecCache :=
  map_imap (λ i t, Some (if decide (i ∈ l) then mark_clean t else t)) m.

(** ** Caches *)

Lemma lookup_cleaned l m i :
  cleaned l m !! i = (λ t, if decide (i ∈ l) then mark_clean t else t) <$> m !! i.
Proof. unfold cleaned. rewrite map_lookup_imap. by destruct (m !! i). Qed.

Lemma cleaned_nil m : cleaned [] m = m.
Proof.
  apply map_eq. intros i. rewrite lookup_cleaned. by destruct (m !! i).
Qed.

Lemma cleaned_cons i t l m :
  m !! i = Some t → i ∉ l → cleaned l (<[i := mark_clean t]> m) = cleaned (i :: l) m.
Proof.
  intros Hi Hni. apply map_eq. intros j. rewrite !lookup_cleaned.
  destruct (decide (j = i)) as [->|Hne].
  - rewrite lookup_insert_eq, Hi. simpl. rewrite decide_False by done.
    by rewrite decide_True by (by left).
  - rewrite lookup_insert_ne by done. destruct (m !! j); simpl; [|done]. f_equal.
    apply decide_ext. rewrite elem_of_cons. naive_solver.
Qed.

Section Order.
#[local] Set Default Proof Using "All".
Context `{HashOrderLaws}.

(** The tables to write, in the order of the hash map. *)
Lemma dirty_tables_spec (m : gmap Z VecCache) :
  let l := filter (λ p : Z * VecCache, dirty p.2 = true) (hash_iter m) in
  NoDup l.*1 ∧ (∀ p, p ∈ l → m !! p.1 = Some p.2) ∧
  map_Forall (λ _ t, dirty t = false) (cleaned l.*1 m).
Proof.
  intros l. assert (∀ p, p ∈ l ↔ dirty p.2 = true ∧ m !! p.1 = Some p.2) as Hl.
  { intros [i t]. unfold l. rewrite list_elem_of_filter, hash_iter_perm. simpl.
    by rewrite elem_of_map_to_list. }
  split_and!.
  - apply (NoDup_fmap_fst l).
    + intros i t1 t2 H1%Hl H2%Hl. simpl in *. destruct H1, H2. congruence.
    + unfold l. apply NoDup_filter. rewrite hash_iter_perm. apply NoDup_map_to_list.
  - intros p Hp%Hl. apply Hp.
  - intros i t Ht. rewrite lookup_cleaned in Ht.
    destruct (m !! i) as [t'|] eqn:Et; [|done]. simpl in Ht. simplify_eq.
    case_decide as Hd; [done|]. apply not_true_is_false. intros Hdt. apply Hd.
    apply list_elem_of_fmap. exists (i, t'). split; [done|]. by apply Hl.
Qed.

End Order.

(** ** Tables of reference counts *)

Section Core.
#[local] Set Default Proof Using "All".
Context (cs : Z) (Hpow : is_power_of_two cs = true) (Hcs : 512 ≤ cs ≤ 2 ^ 21).

Lemma flush_block_spec K c t b :
  core_inv cs K c → cmap (refblock_cache (c_rc c)) !! t = Some b →
  ∃ f', flush_block (t, b) (c_rc c, c_file c) =
      ((c_rc (core_cache c (<[t := mark_clean b]> (cmap (refblock_cache (c_rc c))))), f'), Ok tt) ∧
    core_inv cs K (core_file (core_cache c (<[t := mark_clean b]> (cmap (refblock_cache (c_rc c))))) f') ∧
    preserved cs K (c_file c) f' ∧ flen f' = flen (c_file c).
Proof.
  intros Hi Hb. destruct (ci_cache _ _ _ Hi t b Hb) as [(a & Ha & Hne) Hl].
  assert (a ∈ nz (vec (ref_table (c_rc c)))) as Hin.
  { apply elem_of_nz. split; [|done]. apply vec_get_Some in Ha as [_ Ha]. by eapply list_elem_of_lookup_2. }
  destruct (write_refcount_block_written cs Hpow Hcs (c_file c) a (vec b)) as (f' & Ew & Hw).
  { pose proof (ci_clus _ _ _ Hi) as Hcl. rewrite Forall_forall in Hcl.
    destruct (Hcl a) as (_ & ? & _); [rewrite !elem_of_app; tauto|].
    pose proof (ci_max_small _ _ _ Hi). lia. }
  { done. }
  destruct (core_inv_rewrite cs Hpow Hcs K c f' a _ Hi Hin Hw) as (Hc & Hp & El).
  exists f'. split_and!; [| |done|done].
  - unfold flush_block. cbn [fst snd]. rewrite Ha. destruct (Z.eqb_spec a 0); [done|]. by rewrite Ew.
  - apply (core_inv_cache cs Hpow Hcs K (core_file c f')); [done|].
    intros t' b' [[<- <-]|[_ Hb']]%lookup_insert_Some; [|by apply (ci_cache _ _ _ Hi)]. eauto.
Qed.

Lemma flush_blocks_loop K l c :
  core_inv cs K c → NoDup l.*1 → (∀ p, p ∈ l → cmap (refblock_cache (c_rc c)) !! p.1 = Some p.2) →
  ∃ f', miter flush_block l (c_rc c, c_file c) =
      ((c_rc (core_cache c (cleaned l.*1 (cmap (refblock_cache (c_rc c))))), f'), Ok tt) ∧
    core_inv cs K (core_file (core_cache c (cleaned l.*1 (cmap (refblock_cache (c_rc c))))) f') ∧
    preserved cs K (c_file c) f' ∧ flen f' = flen (c_file c).
Proof.
  revert c. induction l as [|[t b] l IH]; intros c Hi Hnd Hl.
  { exists (c_file c). cbn [fmap list_fmap]. rewrite cleaned_nil.
    assert (core_cache c (cmap (refblock_cache (c_rc c))) = c) as -> by (by destruct c as [? [? ? [] ? ? ?] ?]).
    split_and!; [done|by destruct c|apply preserved_refl|done]. }
  cbn [fmap list_fmap fst] in *. apply NoDup_cons in Hnd as [Hni Hnd].
  destruct (flush_block_spec K c t b Hi) as (f1 & E1 & Hi1 & Hp1 & El1); [by apply (Hl (t, b)); left|].
  cbn [miter]. erewrite mbind_ok by exact E1.
  destruct (IH _ Hi1 Hnd) as (f' & E & Hi' & Hp & El).
  { intros p Hp. simpl. rewrite lookup_insert_ne; [apply Hl; by right|].
    intros ->. apply Hni. by apply list_elem_of_fmap_2. }
  exists f'. cbn in E, Hi', Hp, El. rewrite <-(cleaned_cons t b) by (done || by apply (Hl (t, b)); left).
  split_and!; [exact E|exact Hi'|by eapply preserved_trans|by rewrite El].
Qed.

Lemma flush_blocks_spec `{HashOrderLaws} K c :
  core_inv cs K c →
  ∃ m f', flush_blocks (c_rc c, c_file c) = ((c_rc (core_cache c m), f'), Ok tt) ∧
    map_Forall (λ _ t, dirty t = false) m ∧ core_inv cs K (core_file (core_cache c m) f') ∧
    preserved cs K (c_file c) f' ∧ flen f' = flen (c_file c).
Proof.
  intros Hi. destruct (dirty_tables_spec (cmap (refblock_cache (c_rc c)))) as (Hnd & Hl & Hcl).
  destruct (flush_blocks_loop K _ c Hi Hnd Hl) as (f' & E & Hi' & Hp & El).
  eexists _, f'. split_and!; [exact E|exact Hcl|exact Hi'|done|done].
Qed.

(** A table of the header is written to clusters of its own. *)
Lemma write_region_spec K R c off bs :
  core_inv cs K c → 0 ≤ off ≤ 2 ^ 62 → R ⊆ K →
  (∀ z, off ≤ z < off + Z.of_nat (length bs) → ∃ a, a ∈ R ∧ a ≤ z < a + cs) →
  ∃ f', (let* _ := seek_start off in write_all bs) (c_file c) = (f', Ok tt) ∧
    core_inv cs K (core_file c f') ∧ flen (c_file c) ≤ flen f' ∧
    align_up (flen f') cs = align_up (flen (c_file c)) cs ∧
    (∀ z b, b ∈ K → b ∉ R → b ≤ z < b + cs → fbyte f' z = fbyte (c_file c) z) ∧
    get_bytes f' off (Z.of_nat (length bs)) = bs.
Proof.
  intros Hi Hoff HR Hz. unfold mbind. rewrite seek_start_ok by done.
  set (f' := with_pos (write_at off bs (with_pos (c_file c) off)) (off + Z.of_nat (length bs))).
  pose proof (ci_clus _ _ _ Hi) as Hcl. rewrite Forall_forall in Hcl.
  assert (∀ a, a ∈ K → clus cs (c_rc c) (c_file c) a) as HK.
  { intros a Ha. apply Hcl. rewrite elem_of_app. by left. }
  pose proof (ci_max_small _ _ _ Hi) as Hmax. pose proof (ci_len _ _ _ Hi).
  assert (flen (c_file c) ≤ flen f' ≤ align_up (flen (c_file c)) cs ∧
    flen f' ≤ Z.max (flen (c_file c)) (2 ^ 56)) as [Hlen Hlen'].
  { pose proof (align_up_spec cs ltac:(lia) (flen (c_file c))) as [_ Hb].
    destruct (decide (bs = [])) as [->|Hne]; [unfold f'; simpl; lia|]. unfold f'. cbn [flen with_pos].
    rewrite flen_write_at by done. cbn [flen with_pos].
    assert (0 < Z.of_nat (length bs)) by (destruct bs; [done|simpl; lia]).
    destruct (Hz (off + Z.of_nat (length bs) - 1)) as (a & Ha & Haz); [lia|].
    destruct (HK a (HR a Ha)) as (Hd & Hm & Hs).
    pose proof (started_cluster_end cs Hpow Hcs a _ Hd Hs). lia. }
  assert (∀ z, ¬ (off ≤ z < off + Z.of_nat (length bs)) → fbyte f' z = fbyte (c_file c) z) as Hout.
  { intros z Hn. unfold f'. by rewrite fbyte_with_pos, fbyte_write_at, decide_False, fbyte_with_pos. }
  exists f'. split_and!; [done| |lia|by apply align_up_between| |].
  - constructor; simpl c_file; simpl c_rc; simpl c_avail; try apply Hi.
    + intros i Hi'. assert (flen (c_file c) ≤ flen f' ∧ off + Z.of_nat (length bs) ≤ flen f' ∨ bs = []) as Hb.
      { destruct (decide (bs = [])) as [->|Hne]; [by right|]. left. split; [lia|].
        unfold f'. cbn [flen with_pos]. rewrite flen_write_at by done. cbn. lia. }
      destruct Hb as [Hb| ->]; [|by apply (ci_file _ _ _ Hi)].
      rewrite Hout by lia. apply (ci_file _ _ _ Hi). lia.
    + lia.
    + eapply Forall_impl; [apply Hi|]. intros a (? & ? & ?). split_and!; try done; lia.
    + eapply Forall_impl; [apply Hi|]. intros a Ha. cbv beta in Ha |- *. lia.
  - intros z b Hb Hnb Hbz. apply Hout. intros Hr. destruct (Hz z Hr) as (a & Ha & Haz). apply Hnb.
    assert (b = a) as ->; [|done].
    apply (cluster_overlap cs b a z); [lia|by apply HK|by apply HK, HR|done|done].
  - unfold f'. apply get_bytes_write_at.
Qed.

End Core.

(** ** The tables of an image *)

Section Image.
#[local] Set Default Proof Using "All".
Context (cs : Z) (Hpow : is_power_of_two cs = true) (Hcs : 512 ≤ cs ≤ 2 ^ 21).
Context `{DiskLaws B} `{HashOrderLaws}.
Implicit Types q : QcowFile B.

Lemma sync_l2_spec Hd q i t :
  qinv cs Hd q → cmap (l2_cache q) !! i = Some t →
  ∃ f', let q' := with_l2_cache (with_raw q (with_rfile (raw_file q) f'))
                    (with_cmap (l2_cache q) (<[i := mark_clean t]> (cmap (l2_cache q)))) in
    sync_l2 (i, t) q = (q', Ok tt) ∧ moves cs 0 Hd q q'.
Proof.
  intros Hi Ht. destruct (evict_l2_spec cs Hpow Hcs Hd q i t Hi Ht) as (a & f' & Ha & Hne & E & Hon & Hm & Hv).
  exists f'. intros q'. unfold evict_l2 in E. rewrite Ha in E. split.
  { unfold sync_l2. cbn [fst snd]. rewrite Ha. destruct (Z.eqb_spec a 0); [done|].
    by erewrite mbind_ok by (by apply (on_rfile_ok cs Hpow Hcs), E). }
  apply (moves_trans cs Hpow Hcs 0 0 Hd Hd q _ q' Hm).
  destruct (qinv_cache cs Hpow Hcs Hd _ (<[i := mark_clean t]> (cmap (l2_cache q))) (mv_inv _ _ _ _ _ Hm))
    as [Hm' _]; [| |exact Hm'].
  - intros j u [[<- <-]|[_ Hj]]%lookup_insert_Some.
    + exists a. split_and!; [done|done| |done]. rewrite Hv. symmetry.
      apply (view_cached cs Hpow Hcs q i t); [|done]. by apply vec_get_Some in Ha as [? _].
    + destruct (qi_cache _ _ _ (mv_inv _ _ _ _ _ Hm) j u Hj) as (b & Hb & Hb0 & _ & Honj).
      exists b. split_and!; [done|done| |done]. rewrite Hv. symmetry.
      apply (view_cached cs Hpow Hcs); [|done]. by apply vec_get_Some in Hb as [? _].
  - intros j u [Hj _]%lookup_insert_None Hj'. simpl in Hj'. by rewrite Hj in Hj'.
Qed.

Lemma sync_l2_loop Hd l q :
  qinv cs Hd q → NoDup l.*1 → (∀ p, p ∈ l → cmap (l2_cache q) !! p.1 = Some p.2) →
  ∃ f', let q' := with_l2_cache (with_raw q (with_rfile (raw_file q) f'))
                    (with_cmap (l2_cache q) (cleaned l.*1 (cmap (l2_cache q)))) in
    miter sync_l2 l q = (q', Ok tt) ∧ moves cs 0 Hd q q'.
Proof.
  revert q. induction l as [|[i t] l IH]; intros q Hi Hnd Hl.
  { exists (rfile (raw_file q)). cbn [fmap list_fmap]. rewrite cleaned_nil, (set_file_same cs Hpow Hcs).
    assert (with_l2_cache q (with_cmap (l2_cache q) (cmap (l2_cache q))) = q) as ->.
    { destruct q as [? ? ? ? []]. done. }
    split; [done|by apply (moves_refl cs Hpow Hcs)]. }
  cbn [fmap list_fmap fst] in *. apply NoDup_cons in Hnd as [Hni Hnd].
  assert (cmap (l2_cache q) !! i = Some t) as Hit by (by apply (Hl (i, t)); left).
  destruct (sync_l2_spec Hd q i t Hi Hit) as (f1 & E1 & Hm1).
  cbn [miter]. erewrite mbind_ok by exact E1.
  destruct (IH _ (mv_inv _ _ _ _ _ Hm1) Hnd) as (f' & E & Hm).
  { intros p Hp. simpl. rewrite lookup_insert_ne; [apply Hl; by right|].
    intros ->. apply Hni. by apply list_elem_of_fmap_2. }
  exists f'. cbn in E, Hm. rewrite <-(cleaned_cons i t) by done.
  split; [exact E|]. exact (moves_trans cs Hpow Hcs 0 0 Hd Hd _ _ _ Hm1 Hm).
Qed.

(** The bytes of a table of the header are in its clusters. *)
Lemma region_covers off n z :
  off ≤ z < off + n * cs → ∃ a, a ∈ region cs off n ∧ a ≤ z < a + cs.
Proof.
  intros Hz. exists (off + (z - off) `div` cs * cs).
  pose proof (Z.div_mod (z - off) cs ltac:(lia)). pose proof (Z.mod_pos_bound (z - off) cs ltac:(lia)).
  split; [|lia]. apply list_elem_of_fmap. exists ((z - off) `div` cs). split; [done|].
  apply elem_of_seqZ. split; [apply Z.div_pos; lia|]. apply Z.div_lt_upper_bound; lia.
Qed.

Notation l1_region q :=
  (region cs (l1_table_offset (header q)) ((Z.of_nat (length (vec (l1_table q))) * 8 + cs - 1) `div` cs)).
Notation ref_region q :=
  (region cs (QcowHeader.refcount_table_offset (header q)) (refcount_table_clusters (header q))).

Lemma meta_regions q : meta cs q = 0 :: l1_region q ++ ref_region q.
Proof. done. Qed.

Lemma l1_region_covers q z :
  let o := l1_table_offset (header q) in
  o ≤ z < o + 8 * Z.of_nat (length (vec (l1_table q))) → ∃ a, a ∈ l1_region q ∧ a ≤ z < a + cs.
Proof.
  intros o Hz. apply region_covers. set (n := Z.of_nat _ * 8 + cs - 1).
  pose proof (Z.div_mod n cs ltac:(lia)). pose proof (Z.mod_pos_bound n cs ltac:(lia)). lia.
Qed.

Lemma regions_disjoint Hd q a : qinv cs Hd q → a ∈ l1_region q → a ∉ ref_region q.
Proof.
  intros Hi Ha. pose proof (ci_nodup _ _ _ (qi_core _ _ _ Hi)) as Hnd. unfold kept in Hnd.
  rewrite <-!app_assoc in Hnd. apply NoDup_app in Hnd as (_ & _ & Hnd).
  apply NoDup_app in Hnd as (Hnd & _ & _). rewrite meta_regions in Hnd.
  apply NoDup_cons in Hnd as [_ Hnd]. apply NoDup_app in Hnd as (_ & Hnd & _). by apply Hnd.
Qed.

(** A table of the header is written, and no table or data with it. *)
Lemma meta_written Hd q R off bs :
  qinv cs Hd q → 0 ≤ off ≤ 2 ^ 62 → R ⊆ meta cs q →
  (∀ z, off ≤ z < off + Z.of_nat (length bs) → ∃ a, a ∈ R ∧ a ≤ z < a + cs) →
  ∃ f', (let* _ := seek_start off in write_all bs) (rfile (raw_file q)) = (f', Ok tt) ∧
    get_bytes f' off (Z.of_nat (length bs)) = bs ∧
    (∀ z b, b ∈ meta cs q → b ∉ R → b ≤ z < b + cs → fbyte f' z = fbyte (rfile (raw_file q)) z) ∧
    ((dirty (l1_table q) = false → l1_on_disk f' (header q) (vec (l1_table q))) →
     moves cs 0 Hd q (set_core q (core_file (core q) f')) ∧
     entries cs (set_core q (core_file (core q) f')) = entries cs q).
Proof.
  intros Hi Hoff HR Hz. destruct (write_region_spec cs Hpow Hcs (Hd ++ kept cs q) R (core q) off bs)
    as (f' & E & Hc & Hl & Hal & Hp & Hg); [apply Hi|done| |done|].
  { intros a Ha. apply elem_of_app. right. by apply (kept_meta cs Hpow Hcs), HR. }
  destruct (qinv_nodup cs Hpow Hcs Hd q Hi) as (_ & _ & Hn3).
  exists f'. split_and!; [done|done| |].
  { intros z b Hb Hb' Hbz. apply (Hp z b); [|done|done]. apply elem_of_app. right.
    by apply (kept_meta cs Hpow Hcs). }
  intros Hl1. destruct (qinv_core_tables cs Hpow Hcs Hd Hd q (core_file (core q) f') Hi Hc)
    as [Hi' Ee]; [done| |done|].
  { split; [done|]. intros b z Hb Hbz. apply (Hp z b); [|by intros Hr; destruct (Hn3 b (HR b Hr))|done].
    apply elem_of_app. right. by apply (kept_l1 cs Hpow Hcs). }
  split; [|done]. constructor; try done.
  - apply (content_frame cs Hpow Hcs); [done|done|]. split; [done|].
    intros b z Hb Hbz. apply (Hp z b); [|by intros Hr; destruct (Hn3 b (HR b Hr))|done].
    apply elem_of_app. right. by apply (kept_entries cs Hpow Hcs).
  - intros n. unfold room. simpl. by rewrite Hal, Z.add_0_r.
Qed.

Lemma be_encode_table_length t :
  Z.of_nat (length (be_encode 8 (entry_word 0 <$> t))) = 8 * Z.of_nat (length t).
Proof. rewrite length_be_encode, length_fmap. lia. Qed.

Lemma l1_word_spec a : entry_ok a → Z.land (entry_word 0 a `mod` 256 ^ Z.of_nat 8) L1_TABLE_OFFSET_MASK = a.
Proof.
  intros [->|[[k ->] Hb]]; [done|]. unfold entry_word.
  assert ((if k * 512 =? 0 then 0 else Z.lor (k * 512) 0) = k * 512) as ->.
  { rewrite Z.lor_0_r. by destruct (Z.eqb_spec (k * 512) 0). }
  rewrite Z.mod_small by lia. change L1_TABLE_OFFSET_MASK with (Z.shiftl (Z.ones 47) 9).
  replace (k * 512) with (Z.shiftl k 9) by (rewrite Z.shiftl_mul_pow2; lia).
  rewrite <-Z.shiftl_land, Z.land_ones, Z.mod_small by lia. done.
Qed.

Lemma l1_entry_ok Hd q : qinv cs Hd q → Forall entry_ok (vec (l1_table q)).
Proof.
  intros Hi. apply Forall_forall. intros a Ha. destruct (decide (a = 0)) as [->|Hne]; [by left|].
  apply list_elem_of_lookup in Ha as [i Ha].
  destruct (l1_clus cs Hpow Hcs Hd q (Z.of_nat i) a Hi) as (_ & Hc & _); [|done|].
  { apply vec_get_Some. rewrite Nat2Z.id. split; [lia|done]. }
  by apply (clus_entry_ok cs Hpow Hcs Hd q).
Qed.

(** The L1 table that was written is on disk. *)
Lemma l1_on_disk_written f h t :
  Forall entry_ok t →
  get_bytes f (l1_table_offset h) (8 * Z.of_nat (length t)) = be_encode 8 (entry_word 0 <$> t) →
  l1_on_disk f h t.
Proof.
  intros Ht Hg. unfold l1_on_disk. rewrite Hg.
  replace (length t) with (length (entry_word 0 <$> t)) by apply length_fmap.
  rewrite <-(app_nil_r (be_encode 8 _)), be_words_encode, <-!list_fmap_compose.
  rewrite <-(list_fmap_id t) at 2. apply list_fmap_ext. intros i e He. simpl.
  apply l1_word_spec. rewrite Forall_forall in Ht. by eapply Ht, list_elem_of_lookup_2.
Qed.

Lemma l1_written Hd q :
  qinv cs Hd q → dirty (l1_table q) = true →
  ∃ f', write_pointer_table (l1_table_offset (header q)) (vec (l1_table q)) 0 (rfile (raw_file q)) = (f', Ok tt) ∧
    moves cs 0 Hd q (with_l1 (with_raw q (with_rfile (raw_file q) f')) (mark_clean (l1_table q))).
Proof.
  intros Hi Hdl. destruct (qi_shape _ _ _ Hi) as (_ & _ & _ & Hoff).
  destruct (meta_written Hd q (l1_region q) (l1_table_offset (header q))
    (be_encode 8 (entry_word 0 <$> vec (l1_table q)))) as (f' & E & Hg & _ & Hm); [done|done| | |].
  { intros a Ha. rewrite meta_regions. right. apply elem_of_app. by left. }
  { intros z Hz. rewrite be_encode_table_length in Hz. by apply l1_region_covers. }
  rewrite be_encode_table_length in Hg. exists f'. split; [exact E|].
  destruct Hm as [Hm Ee]; [by rewrite Hdl|].
  apply (moves_trans cs Hpow Hcs 0 0 Hd Hd q _ _ Hm). pose proof (mv_inv _ _ _ _ _ Hm) as Hi1.
  constructor; try done; [|intros n; by rewrite Z.add_0_r].
  constructor; try apply Hi1. intros _. by apply l1_on_disk_written; [apply (l1_entry_ok Hd q)|].
Qed.

Lemma ref_table_written Hd q :
  qinv cs Hd q → dirty (ref_table (refcounts q)) = true →
  ∃ f', flush_table (refcounts q, rfile (raw_file q)) =
      ((with_ref_table (refcounts q) (mark_clean (ref_table (refcounts q))), f'), Ok true) ∧
    moves cs 0 Hd q (with_refcounts (with_raw q (with_rfile (raw_file q) f'))
      (with_ref_table (refcounts q) (mark_clean (ref_table (refcounts q))))).
Proof.
  intros Hi Hdr. destruct (qi_shape _ _ _ Hi) as (Eo & Hl & Hoff & _). simpl in Eo, Hl.
  destruct (meta_written Hd q (ref_region q) (QcowHeader.refcount_table_offset (header q))
    (be_encode 8 (entry_word 0 <$> vec (ref_table (refcounts q))))) as (f' & E & _ & Hp & Hm); [done|done| | |].
  { intros a Ha. rewrite meta_regions. right. apply elem_of_app. by right. }
  { intros z Hz. rewrite be_encode_table_length in Hz. apply region_covers. unfold vec_len in Hl. lia. }
  exists f'. split.
  { unfold flush_table. rewrite Hdr, Eo. unfold write_pointer_table.
    change (λ addr : Z, if addr =? 0 then 0 else Z.lor addr 0) with (entry_word 0). by rewrite E. }
  destruct Hm as [Hm Ee].
  { intros Hdl. pose proof (qi_l1 _ _ _ Hi Hdl) as Hon. unfold l1_on_disk in *.
    rewrite (get_bytes_ext f' (rfile (raw_file q))); [done|]. intros z Hz.
    destruct (l1_region_covers q z Hz) as (a & Ha & Haz).
    apply (Hp z a); [|by apply (regions_disjoint Hd)|done].
    rewrite meta_regions. right. apply elem_of_app. by left. }
  apply (moves_trans cs Hpow Hcs 0 0 Hd Hd q _ _ Hm). pose proof (mv_inv _ _ _ _ _ Hm) as Hi1.
  constructor; try done; [|intros n; by rewrite Z.add_0_r].
  constructor; try apply Hi1. pose proof (qi_core _ _ _ Hi1) as Hc. constructor; apply Hc.
Qed.

Lemma mark_clean_id v : dirty v = false → mark_clean v = v.
Proof. by destruct v as [? []]. Qed.

(** The steps of [sync_caches] after the L2 tables. *)
Lemma flush_blocks_moves Hd q :
  qinv cs Hd q →
  ∃ m f', let rc := with_refblocks (refcounts q) (with_cmap (refblock_cache (refcounts q)) m) in
    let q' := with_refcounts (with_raw q (with_rfile (raw_file q) f')) rc in
    on_refcounts flush_blocks q = (q', Ok tt) ∧ map_Forall (λ _ t, dirty t = false) m ∧
    moves cs 0 Hd q q'.
Proof.
  intros Hi. destruct (flush_blocks_spec cs Hpow Hcs (Hd ++ kept cs q) (core q)) as (m & f' & E & Hm & Hc & Hp & El);
    [apply Hi|]. exists m, f'. intros rc q'. split_and!; [|done|].
  { unfold on_refcounts. cbn [c_rc c_file core] in E. by rewrite E. }
  assert (q' = set_core q (core_file (core_cache (core q) m) f')) as -> by done.
  apply (moves_core cs Hpow Hcs 0 Hd); [done|done|done| |done|].
  - eapply preserved_subset; [|exact Hp]. intros a Ha. apply elem_of_app. by right.
  - intros n. unfold room. simpl in *. by rewrite El, Z.add_0_r.
Qed.

Lemma sync_l1_moves Hd q :
  qinv cs Hd q →
  ∃ f', let q' := with_l1 (with_raw q (with_rfile (raw_file q) f')) (mark_clean (l1_table q)) in
    (if dirty (l1_table q) then
       let* _ := on_rfile (write_pointer_table (l1_table_offset (header q)) (vec (l1_table q)) 0) in
       mmodify (λ q, with_l1 q (mark_clean (l1_table q)))
     else mret tt) q = (q', Ok tt) ∧ moves cs 0 Hd q q'.
Proof.
  intros Hi. destruct (dirty (l1_table q)) eqn:Hdl.
  - destruct (l1_written Hd q Hi Hdl) as (f' & E & Hm). exists f'. split; [|done].
    by erewrite mbind_ok by (by apply (on_rfile_ok cs Hpow Hcs), E).
  - exists (rfile (raw_file q)). rewrite (set_file_same cs Hpow Hcs), mark_clean_id by done.
    assert (with_l1 q (l1_table q) = q) as -> by (by destruct q).
    split; [done|by apply (moves_refl cs Hpow Hcs)].
Qed.

Lemma flush_table_moves Hd q :
  qinv cs Hd q →
  ∃ f' b, let rc := with_ref_table (refcounts q) (mark_clean (ref_table (refcounts q))) in
    let q' := with_refcounts (with_raw q (with_rfile (raw_file q) f')) rc in
    on_refcounts flush_table q = (q', Ok b) ∧ moves cs 0 Hd q q'.
Proof.
  intros Hi. unfold on_refcounts. destruct (dirty (ref_table (refcounts q))) eqn:Hdr.
  - destruct (ref_table_written Hd q Hi Hdr) as (f' & E & Hm). exists f', true. by rewrite E.
  - exists (rfile (raw_file q)), false. unfold flush_table.
    rewrite Hdr, (set_file_same cs Hpow Hcs), mark_clean_id by done.
    assert (with_ref_table (refcounts q) (ref_table (refcounts q)) = refcounts q) as ->
      by (by destruct (refcounts q)).
    assert (with_refcounts q (refcounts q) = q) as -> by (by destruct q).
    split; [done|by apply (moves_refl cs Hpow Hcs)].
Qed.

(** The clusters that are no longer referenced become available. *)
Lemma moves_release Hd q :
  qinv cs Hd q → moves cs 0 Hd q (with_unref (with_avail q (avail_clusters q ++ unref_clusters q)) []).
Proof.
  intros Hi. constructor; try done; [|intros n; by rewrite Z.add_0_r].
  constructor; try apply Hi. pose proof (qi_core _ _ _ Hi) as Hc.
  set (q' := with_unref _ _).
  assert ((Hd ++ kept cs q') ++ nz (vec (ref_table (refcounts q))) ++ avail_clusters q' ≡ₚ
    (Hd ++ kept cs q) ++ nz (vec (ref_table (refcounts q))) ++ avail_clusters q) as Hp.
  { unfold kept. change (meta cs q') with (meta cs q). change (entries cs q') with (entries cs q).
    change (unref_clusters q') with (@nil Z). change (l1_table q') with (l1_table q).
    change (avail_clusters q') with (avail_clusters q ++ unref_clusters q).
    rewrite app_nil_r, <-!app_assoc. by rewrite (Permutation_app_comm (unref_clusters q)), <-app_assoc. }
  constructor; try apply Hc.
  - apply elem_of_app. right. apply (kept_zero cs Hpow Hcs).
  - change (NoDup ((Hd ++ kept cs q') ++ nz (vec (ref_table (refcounts q))) ++ avail_clusters q')).
    rewrite Hp. apply Hc.
  - change (Forall (clus cs (refcounts q) (rfile (raw_file q)))
      ((Hd ++ kept cs q') ++ nz (vec (ref_table (refcounts q))) ++ avail_clusters q')).
    rewrite Hp. apply Hc.
Qed.

Lemma flush_body Hd q :
  qinv cs Hd q →
  ∃ q', flush q = (q', Ok tt) ∧ moves cs 0 Hd q q' ∧ clean q' ∧
    vec (l1_table q') = vec (l1_table q) ∧
    avail_clusters q' = avail_clusters q ++ unref_clusters q.
Proof.
  intros Hi. destruct (dirty_tables_spec (cmap (l2_cache q))) as (Hnd & Hl & Hcl).
  destruct (sync_l2_loop Hd _ q Hi Hnd Hl) as (f1 & E1 & Hm1). set (q1 := with_l2_cache _ _) in E1, Hm1.
  destruct (flush_blocks_moves Hd q1 (mv_inv _ _ _ _ _ Hm1)) as (m & f2 & E2 & Hcb & Hm2).
  set (q2 := with_refcounts _ _) in E2, Hm2.
  destruct (sync_l1_moves Hd q2 (mv_inv _ _ _ _ _ Hm2)) as (f3 & E3 & Hm3).
  set (q3 := with_l1 _ _) in E3, Hm3.
  destruct (flush_table_moves Hd q3 (mv_inv _ _ _ _ _ Hm3)) as (f4 & b & E4 & Hm4).
  set (q4 := with_refcounts _ _) in E4, Hm4.
  pose proof (moves_release Hd q4 (mv_inv _ _ _ _ _ Hm4)) as Hm5.
  exists (with_unref (with_avail q4 (avail_clusters q4 ++ unref_clusters q4)) []).
  split_and!; [| |constructor; [done|exact Hcl|done|exact Hcb|done]|done|done].
  - unfold flush, sync_caches. erewrite mbind_ok; [reflexivity|].
    erewrite mbind_ok by reflexivity. erewrite mbind_ok by exact E1. erewrite mbind_ok by exact E2.
    erewrite mbind_ok by reflexivity. erewrite mbind_ok by exact E3. by erewrite mbind_ok by exact E4.
  - refine (moves_trans cs Hpow Hcs 0 0 Hd Hd _ _ _ Hm1 _).
    refine (moves_trans cs Hpow Hcs 0 0 Hd Hd _ _ _ Hm2 _).
    refine (moves_trans cs Hpow Hcs 0 0 Hd Hd _ _ _ Hm3 _).
    exact (moves_trans cs Hpow Hcs 0 0 Hd Hd _ _ _ Hm4 Hm5).
Qed.

(** A clean image can be read back from its file. *)
Lemma reread_spec q :
  qinv cs [] q → clean q → qinv cs [] (reread q) ∧ ∀ x, content cs (reread q) x = content cs q x.
Proof.
  intros Hi Hc. pose proof (qi_l1 _ _ _ Hi (cl_l1 _ Hc)) as Hl1.
  assert (reread q = with_l2_cache q (with_cmap (l2_cache q) ∅)) as ->.
  { unfold reread, l1_of_disk. rewrite Hl1.
    assert (from_vec (vec (l1_table q)) = l1_table q) as ->; [|by destruct q].
    pose proof (cl_l1 _ Hc). by destruct (l1_table q); simplify_eq/=. }
  destruct (qinv_cache cs Hpow Hcs [] q ∅ Hi) as [Hm _].
  - intros i t Ht. by rewrite lookup_empty in Ht.
  - intros i t _ Ht. destruct (qi_cache _ _ _ Hi i t Ht) as (a & Ha & Hne & _ & Hon).
    exists a. split_and!; try done. apply Hon, (cl_l2 _ Hc i t Ht).
  - split; [apply Hm|apply (mv_content _ _ _ _ _ Hm)].
Qed.

(** C15: [flush] succeeds and changes nothing that the disk holds; afterwards every table is
    clean, the clusters that were no longer referenced can be allocated again, and
    the image that forgets its caches and reads the L1 table from the file again
    holds the same disk: nothing of it is in memory only. *)
Theorem flush_durable q :
  qinv cs [] q →
  ∃ q', flush q = (q', Ok tt) ∧ qinv cs [] q' ∧ clean q' ∧
    header q' = header q ∧ current_offset q' = current_offset q ∧
    avail_clusters q' = avail_clusters q ++ unref_clusters q ∧
    (∀ x, content cs q' x = content cs q x) ∧
    qinv cs [] (reread q') ∧ ∀ x, content cs (reread q') x = content cs q x.
Proof.
  intros Hi. destruct (flush_body [] q Hi) as (q' & E & Hm & Hc & _ & Ea).
  destruct (reread_spec q' (mv_inv _ _ _ _ _ Hm) Hc) as [Hr Hx].
  exists q'. split_and!; try done; try apply Hm. intros x. rewrite Hx. apply Hm.
Qed.

End Image.
