(* ===== verification/QcowRefine.v ===== *)
(** * An image is a disk

    A disk is a size, an offset and an array of bytes, with the operations of [Read],
    [Write], [Seek] and [flush].  Any sequence of operations on a [QcowFile] that
    satisfies the invariant of [QcowDisk] returns what the disk returns, as long
    as the file can grow. *)

From S2P Require Import Prelude Words Methods BlockFile QcowTables QcowHeader QcowFile QcowAlloc QcowDisk QcowRead QcowWrite QcowFlush.
From stdpp Require Import options.
Local Open Scope Z_scope.

(** ** The disk *)

Record VirtualDisk := { d_size : Z; d_offset : Z; d_byte : Z → Z }.

Inductive disk_op :=
| DRead (n : Z)
| DWrite (buf : list Z)
| DSeek (pos : SeekFrom)
| DFlush.

Inductive disk_out := OBytes (bs : list Z) | OCount (n : Z) | ODone.

Definition disk_step (op : disk_op) (d : VirtualDisk) : VirtualDisk * result disk_out io_error :=
  let '{| d_size := size; d_offset := offset; d_byte := byte |} := d in
  match op with
  | DRead n =>
      let n := Z.min n (size - offset) in
      ({| d_size := size; d_offset := offset + n; d_byte := byte |}, Ok (OBytes (byte <$> seqZ offset n)))
  | DWrite buf =>
      let n := Z.min (Z.of_nat (length buf)) (size - offset) in
      ({| d_size := size; d_offset := offset + n;
          d_byte := overwrite byte offset (take (Z.to_nat n) buf) |}, Ok (OCount n))
  | DSeek pos =>
      let p := match pos with
               | Start off => off
               | End off => size + off
               | Current off => offset + off
               end in
      if (0 <=? p) && (p <=? size) then
        ({| d_size := size; d_offset := p; d_byte := byte |}, Ok (OCount p))
      else (d, Err EINVAL)
  | DFlush => (d, Ok ODone)
  end.

Fixpoint disk_run (ops : list disk_op) (d : VirtualDisk) : VirtualDisk * list (result disk_out io_error) :=
  match ops with
  | [] => (d, [])
  | op :: ops =>
      let '(d, r) := disk_step op d in
      let '(d, rs) := disk_run ops d in (d, r :: rs)
  end.

(** ** The image *)

Section Image.
Context `{Disk B} `{HashOrder} `{ZeroOps}.

Definition image_step (op : disk_op) : method (QcowFile B) io_error disk_out :=
  match op with
  | DRead n => let* bs := read n in mret (OBytes bs)
  | DWrite buf => let* n := write buf in mret (OCount n)
  | DSeek pos => let* p := seek pos in mret (OCount p)
  | DFlush => let* _ := flush in mret ODone
  end.

Fixpoint image_run (ops : list disk_op) (q : QcowFile B) : QcowFile B * list (result disk_out io_error) :=
  match ops with
  | [] => (q, [])
  | op :: ops =>
      let '(q, r) := image_step op q in
      let '(q, rs) := image_run ops q in (q, r :: rs)
  end.
End Image.

(** The arguments that the machine types allow. *)
Definition op_ok (op : disk_op) : Prop :=
  match op with
  | DRead n => 0 ≤ n ≤ i64_max
  | DWrite buf => Z.of_nat (length buf) ≤ i64_max
  | DSeek (Start off) => in_u64 off
  | DSeek (End off | Current off) => i64_min ≤ off ≤ i64_max
  | DFlush => True
  end.

(** How many clusters an operation may add to the file. *)
Definition op_cost (cs : Z) (op : disk_op) : Z :=
  match op with
  | DWrite buf => 15 * (Z.of_nat (length buf) `div` cs + 2)
  | _ => 0
  end.

(** The image [q] holds the disk [d]. *)
Record holds_disk `{DiskLaws B} (cs : Z) (d : VirtualDisk) (q : QcowFile B) : Prop := {
  hd_inv : qinv cs [] q;
  hd_fits : backing_fits cs q;
  hd_size : virtual_size q = d_size d;
  hd_offset : current_offset q = d_offset d;
  hd_range : 0 ≤ d_offset d ≤ d_size d;
  hd_bytes x : content cs q x = d_byte d x;
}.

(** ** Lemmas *)

Lemma spans_bound cs x n :
  0 < cs → 0 ≤ n → 0 ≤ spans cs x n ≤ n `div` cs + 2.
Proof.
  intros Hcs Hn. unfold spans. pose proof (Z.div_pos n cs Hn Hcs).
  destruct (Z.leb_spec n 0); [lia|].
  pose proof (Z.div_mod (x + n - 1) cs ltac:(lia)). pose proof (Z.mod_pos_bound (x + n - 1) cs Hcs).
  pose proof (Z.div_mod x cs ltac:(lia)). pose proof (Z.mod_pos_bound x cs Hcs).
  pose proof (Z.div_mod n cs ltac:(lia)). pose proof (Z.mod_pos_bound n cs Hcs).
  split; [enough (x `div` cs ≤ (x + n - 1) `div` cs) by lia; apply Z.div_le_mono; lia|].
  assert ((x + n - 1) `div` cs < x `div` cs + n `div` cs + 2); [|lia].
  apply Z.div_lt_upper_bound; [done|]. nia.
Qed.

Lemma seek_spec {B} pos (q : QcowFile B) :
  op_ok (DSeek pos) → 0 ≤ current_offset q ≤ virtual_size q → virtual_size q ≤ 2 ^ 44 →
  seek pos q =
  let p := match pos with
           | Start off => off
           | End off => virtual_size q + off
           | Current off => current_offset q + off
           end in
  if (0 <=? p) && (p <=? virtual_size q) then (with_offset q p, Ok p) else (q, Err EINVAL).
Proof.
  intros Hop Ho Hs.
  assert (∀ base off, 0 ≤ base ≤ virtual_size q → i64_min ≤ off ≤ i64_max →
    match relative base off with
    | Some o => if o <=? virtual_size q then (with_offset q o, Ok o) else (q, Err EINVAL)
    | None => (q, Err EINVAL)
    end = if (0 <=? base + off) && (base + off <=? virtual_size q)
          then (with_offset q (base + off), Ok (base + off)) else (q, Err EINVAL)) as Hrel.
  { intros base off Hb Hoff. unfold relative, u64_checked_sub, u64_checked_add, i64_min, i64_max, u64_max in *.
    destruct (Z.ltb_spec off 0); [destruct (Z.eqb_spec off (-9223372036854775808))|];
      repeat case_match; rewrite ?Z.leb_le, ?Z.leb_gt, ?andb_true_iff, ?andb_false_iff in *; try lia;
      simplify_eq; try lia; repeat f_equal; lia. }
  unfold seek. destruct pos as [off|off|off]; simpl in Hop |- *; [|by apply Hrel; [lia|]..].
  destruct (Z.leb_spec 0 off); [done|]. unfold in_u64 in Hop. lia.
Qed.

Section Sim.
#[local] Set Default Proof Using "All".
Context (cs : Z) (Hpow : is_power_of_two cs = true) (Hcs : 512 ≤ cs ≤ 2 ^ 21).
Context `{DiskLaws B} `{HashOrderLaws} `{ZeroLaws}.
Implicit Types q : QcowFile B.

Lemma room_le n m c : n ≤ m → room cs m c → room cs n c.
Proof. unfold room. nia. Qed.

Lemma Zsum_cost_nonneg ops : 0 ≤ Zsum (op_cost cs <$> ops).
Proof.
  unfold Zsum in *. induction ops as [|op ops IH]; [done|]. cbn [fmap list_fmap foldr].
  assert (0 ≤ op_cost cs op); [|lia]. destruct op as [|buf| |]; simpl; try lia.
  pose proof (Z.div_pos (Z.of_nat (length buf)) cs ltac:(lia) ltac:(lia)). lia.
Qed.

(** A step that does not change what the image holds. *)
Lemma moves_holds_disk k d q q' : holds_disk cs d q → moves cs k [] q q' → holds_disk cs d q'.
Proof.
  intros [Hi Hb Es Eo Hr Hx] Hm. unfold backing_fits, virtual_size in *.
  constructor; unfold backing_fits, virtual_size; rewrite ?(mv_header _ _ _ _ _ Hm); try done; [apply Hm| | |].
  - destruct Hb as [Hb|Hb]; [left; by apply (mv_none _ _ _ _ _ Hm)|by right].
  - by rewrite (mv_offset _ _ _ _ _ Hm).
  - intros x. rewrite (mv_content _ _ _ _ _ Hm). apply Hx.
Qed.

Lemma step_refines op d q n :
  holds_disk cs d q → op_ok op → 0 ≤ n → room cs (n + op_cost cs op) (core q) →
  ∃ q', image_step op q = (q', (disk_step op d).2) ∧ holds_disk cs (disk_step op d).1 q' ∧
    room cs n (core q').
Proof.
  intros [Hi Hb Es Eo Hr Hx] Hop Hn Hroom. destruct d as [size offset byte]. simpl in *. subst size offset.
  destruct op as [k|buf|pos|]; cbn [disk_step image_step op_ok op_cost fst snd] in *.
  - destruct (read_body cs Hpow Hcs q k Hi Hop Hr) as (q' & E & Hm).
    rewrite (mbind_ok _ _ _ _ _ E). exists q'. split_and!.
    + unfold mret. do 3 f_equal. by apply list_fmap_ext.
    + eapply moves_holds_disk; [|exact Hm].
      constructor; simpl; try done; [by apply (qinv_offset cs Hpow Hcs)|lia].
    + by apply (mv_room _ _ _ _ _ Hm).
  - pose proof (spans_bound cs (current_offset q)
      (Z.min (Z.of_nat (length buf)) (virtual_size q - current_offset q)) ltac:(lia) ltac:(lia)) as Hsp.
    assert (Z.min (Z.of_nat (length buf)) (virtual_size q - current_offset q) `div` cs ≤
      Z.of_nat (length buf) `div` cs) by (apply Z.div_le_mono; lia).
    destruct (write_body cs Hpow Hcs q buf Hi Hb Hr Hop) as (q' & E & Hi' & Eh & Eo & Hx' & Hb' & Hr').
    { eapply room_le; [|exact Hroom]. lia. }
    rewrite (mbind_ok _ _ _ _ _ E). exists q'. split_and!; [done| |].
    + constructor; simpl; try done; [unfold virtual_size; by rewrite Eh|lia|].
      intros x. rewrite Hx'. by apply (overwrite_ext cs Hpow Hcs).
    + apply Hr'. eapply room_le; [|exact Hroom]. lia.
  - unfold mbind. rewrite seek_spec by (done || apply Hi). cbv zeta.
    destruct (_ && _) eqn:Ep.
    + apply andb_true_iff in Ep as [Ep1%Z.leb_le Ep2%Z.leb_le]. eexists. split_and!; [done| |].
      * constructor; try done. by apply (qinv_offset cs Hpow Hcs).
      * by rewrite Z.add_0_r in Hroom.
    + exists q. split_and!; [done|by constructor|by rewrite Z.add_0_r in Hroom].
  - destruct (flush_body cs Hpow Hcs [] q Hi) as (q' & E & Hm & _).
    rewrite (mbind_ok _ _ _ _ _ E). exists q'. split_and!; [done| |by apply (mv_room _ _ _ _ _ Hm)].
    eapply moves_holds_disk; [|exact Hm]. by constructor.
Qed.

Lemma image_run_refines ops d q :
  holds_disk cs d q → Forall op_ok ops → room cs (Zsum (op_cost cs <$> ops)) (core q) →
  (image_run ops q).2 = (disk_run ops d).2 ∧
  holds_disk cs (disk_run ops d).1 (image_run ops q).1.
Proof.
  intros Hq Hops Hr. revert d q Hq Hr. induction Hops as [|op ops Hop Hops IH]; intros d q Hq Hr; [done|].
  cbn [fmap list_fmap Zsum foldr] in Hr.
  destruct (step_refines op d q (Zsum (op_cost cs <$> ops)) Hq Hop) as (q' & E & Hq' & Hr').
  { apply Zsum_cost_nonneg. } { by rewrite Z.add_comm. }
  cbn [image_run disk_run]. rewrite E. destruct (disk_step op d) as [d' r] eqn:Ed. simpl in Hq' |- *.
  destruct (IH d' q' Hq' Hr') as [E1 E2].
  destruct (image_run ops q') as [q2 rs], (disk_run ops d') as [d2 rs']. simpl in *. by rewrite E1.
Qed.

(** C14: an image satisfies the invariant, and has no backing file or a virtual size that is
    a multiple of the cluster size.  Then any sequence of reads, writes, seeks and flushes
    on it, with arguments in the range of their types, returns exactly what it returns on
    a disk with the content of the image, errors of seeks included, and the image holds
    that disk at the end, as long as the table of counts can address the clusters that the
    writes may add to the file. *)
Theorem image_refines_disk ops d q :
  holds_disk cs d q → Forall op_ok ops → room cs (Zsum (op_cost cs <$> ops)) (core q) →
  (image_run ops q).2 = (disk_run ops d).2 ∧
  holds_disk cs (disk_run ops d).1 (image_run ops q).1.
Proof. apply image_run_refines. Qed.

End Sim.
