(* ===== verification/QcowHoles.v ===== *)
(** * Holes and data of an image

    [seek_data] and [seek_hole] find the first address whose cluster is, or is not,
    allocated, and change nothing but the offset. *)

From S2P Require Import Prelude Words Methods BlockFile QcowTables QcowHeader QcowFile QcowAlloc QcowDisk QcowRead.
From stdpp Require Import options.
Local Open Scope Z_scope.

(** ** Definitions *)

(** The cluster of an address is allocated. *)
Definition allocated {B} (cs : Z) (q : QcowFile B) (x : Z) : bool := negb (entry_at cs q x =? 0).

(** [r] is the first address from [x] below [size] whose state is [b], if there is one. *)
Definition first_with (p : Z → bool) (b : bool) (x size : Z) (r : option Z) : Prop :=
  match r with
  | Some o => x ≤ o < size ∧ p o = b ∧ ∀ y, x ≤ y < o → p y = negb b
  | None => ∀ y, x ≤ y < size → p y = negb b
  end.

(** ** Lemmas *)

Section Holes.
#[local] Set Default Proof Using "All".
Context (cs : Z) (Hpow : is_power_of_two cs = true) (Hcs : 512 ≤ cs ≤ 2 ^ 21).
Context `{DiskLaws B} `{HashOrderLaws}.
Implicit Types q : QcowFile B.

Lemma allocated_cluster q x y : x `div` cs = y `div` cs → allocated cs q x = allocated cs q y.
Proof. intros E. unfold allocated, entry_at. by rewrite E. Qed.

Lemma cluster_allocated_spec Hd q x :
  qinv cs Hd q → 0 ≤ x < virtual_size q →
  ∃ q', cluster_allocated x q = (q', Ok (allocated cs q x)) ∧
    moves cs 0 Hd q q' ∧ entries cs q' = entries cs q.
Proof.
  intros Hi Hx. unfold cluster_allocated, allocated.
  destruct (l1_index_valid cs Hpow Hcs _ _ _ Hi Hx) as (a & Ha & E). erewrite mbind_ok by exact E.
  destruct (Z.eqb_spec a 0) as [->|Hne].
  { destruct (entry_at_absent cs Hpow Hcs Hd q x Hi (proj1 Hx) Ha) as [-> _].
    exists q. split; [done|]. split; [by apply (moves_refl cs Hpow Hcs)|done]. }
  erewrite mbind_ok by done.
  destruct (load_l2_spec cs Hpow Hcs _ _ _ _ Hi Ha Hne) as (q1 & t & E1 & Hm1 & Hv1 & Ht & El & _).
  erewrite mbind_ok by exact E1. pose proof (entries_same cs Hpow Hcs q q1 El Hv1) as Ee.
  destruct (loaded_entry cs Hpow Hcs Hd Hd q q1 x a t) as [_ E2]; try done; [lia|apply Hm1|].
  erewrite mbind_ok by exact E2. by exists q1.
Qed.

(** The state of the rest of a cluster is that of its first address. *)
Lemma first_with_skip q b x c size r :
  allocated cs q x = negb b → x ≤ c → (∀ y, x ≤ y < c → y `div` cs = x `div` cs) →
  first_with (allocated cs q) b c size r → first_with (allocated cs q) b x size r.
Proof.
  intros Hx Hc Hsame. assert (∀ y, x ≤ y < c → allocated cs q y = negb b) as Hbefore.
  { intros y Hy. by rewrite (allocated_cluster q y x (Hsame y Hy)). }
  destruct r as [o|]; simpl.
  - intros (Ho & Hpo & Hy). split_and!; [lia|lia|done|]. intros y Hxy.
    destruct (decide (y < c)); [apply Hbefore|apply Hy]; lia.
  - intros Hy y Hxy. destruct (decide (y < c)); [apply Hbefore|apply Hy]; lia.
Qed.

Lemma first_with_entries q q' b x size r :
  entries cs q' = entries cs q →
  first_with (allocated cs q') b x size r → first_with (allocated cs q) b x size r.
Proof.
  intros Ee. assert (∀ y, allocated cs q' y = allocated cs q y) as Ha.
  { intros y. unfold allocated. by rewrite (entry_at_same cs Hpow Hcs q q'). }
  destruct r; simpl; setoid_rewrite Ha; done.
Qed.

Lemma find_from_spec fuel Hd q c b :
  qinv cs Hd q → 0 ≤ c → (cs | c) → virtual_size q - c < Z.of_nat fuel * cs →
  ∃ q' r, find_from (S fuel) c (virtual_size q) b q = (q', Ok r) ∧ moves cs 0 Hd q q' ∧
    entries cs q' = entries cs q ∧ first_with (allocated cs q) b c (virtual_size q) r.
Proof.
  revert q c. induction fuel as [|fuel IH]; intros q c Hi Hc Hd' Hf; cbn [find_from].
  { destruct (Z.leb_spec (virtual_size q) c); [|lia]. exists q, None.
    split_and!; [done|by apply (moves_refl cs Hpow Hcs)|done|]. simpl. lia. }
  destruct (Z.leb_spec (virtual_size q) c).
  { exists q, None. split_and!; [done|by apply (moves_refl cs Hpow Hcs)|done|]. simpl. lia. }
  destruct (cluster_allocated_spec Hd q c Hi) as (q1 & E1 & Hm1 & Ee); [lia|].
  erewrite mbind_ok by exact E1. destruct (eqb (allocated cs q c) b) eqn:Eb.
  { apply eqb_prop in Eb. exists q1, (Some c). split_and!; [done|done|done|]. simpl. split_and!; try done; lia. }
  erewrite mbind_ok by done. rewrite (qi_cs _ _ _ (mv_inv _ _ _ _ _ Hm1)).
  assert (virtual_size q1 = virtual_size q) as Es by (unfold virtual_size; by rewrite (mv_header _ _ _ _ _ Hm1)).
  destruct (IH q1 (c + cs) (mv_inv _ _ _ _ _ Hm1)) as (q' & r & E & Hm & Ee' & Hr);
    [lia|by apply Z.divide_add_r; [|exists 1; lia]|rewrite Es; lia|]. rewrite Es in E, Hr.
  exists q', r. split_and!; [done|by apply (moves_trans cs Hpow Hcs 0 0 Hd Hd q q1)|congruence|].
  apply (first_with_skip q b c (c + cs)); [|lia| |by apply (first_with_entries q q1)].
  - apply eqb_false_iff in Eb. by destruct (allocated cs q c), b.
  - intros y Hy. destruct Hd' as [k ->]. rewrite Z.div_mul by lia.
    symmetry. apply (Z.div_unique y cs k (y - k * cs)); lia.
Qed.

Lemma find_allocated_cluster_spec Hd q x b :
  qinv cs Hd q → 0 ≤ x →
  ∃ q' r, find_allocated_cluster x b q = (q', Ok r) ∧ moves cs 0 Hd q q' ∧
    entries cs q' = entries cs q ∧ first_with (allocated cs q) b x (virtual_size q) r.
Proof.
  intros Hi Hx. unfold find_allocated_cluster. erewrite mbind_ok by done.
  destruct (Z.leb_spec (virtual_size q) x).
  { exists q, None. split_and!; [done|by apply (moves_refl cs Hpow Hcs)|done|]. simpl. lia. }
  destruct (cluster_allocated_spec Hd q x Hi) as (q1 & E1 & Hm1 & Ee); [lia|].
  erewrite mbind_ok by exact E1. destruct (eqb (allocated cs q x) b) eqn:Eb.
  { apply eqb_prop in Eb. exists q1, (Some x). split_and!; [done|done|done|]. simpl. split_and!; try done; lia. }
  cbv zeta. rewrite (qi_cs _ _ _ Hi). set (c := (x `div` cs + 1) * cs).
  pose proof (Z.div_mod x cs ltac:(lia)). pose proof (Z.mod_pos_bound x cs ltac:(lia)).
  assert (virtual_size q1 = virtual_size q) as Es by (unfold virtual_size; by rewrite (mv_header _ _ _ _ _ Hm1)).
  destruct (find_from_spec (Z.to_nat ((virtual_size q - c) `div` cs + 1)) Hd q1 c b (mv_inv _ _ _ _ _ Hm1))
    as (q' & r & E & Hm & Ee' & Hr); [lia|by eexists| |].
  { rewrite Es. pose proof (Z.div_mod (virtual_size q - c) cs ltac:(lia)).
    pose proof (Z.mod_pos_bound (virtual_size q - c) cs ltac:(lia)).
    assert (-1 ≤ (virtual_size q - c) `div` cs) by (apply Z.div_le_lower_bound; lia).
    rewrite Z2Nat.id by lia. lia. }
  rewrite Es in E, Hr. exists q', r.
  split_and!; [done|by apply (moves_trans cs Hpow Hcs 0 0 Hd Hd q q1)|congruence|].
  apply (first_with_skip q b x c); [|lia| |by apply (first_with_entries q q1)].
  - apply eqb_false_iff in Eb. by destruct (allocated cs q x), b.
  - intros y Hy. symmetry. apply (Z.div_unique y cs _ (y - x `div` cs * cs)); lia.
Qed.

(** [seek_data] moves the offset to the first address from [x] whose cluster is
    allocated, and returns nothing when no later cluster is; the search ends and changes
    nothing that the disk holds. *)
Theorem seek_data_spec q x :
  qinv cs [] q → 0 ≤ x →
  ∃ q' r, seek_data x q = (q', Ok r) ∧ first_with (allocated cs q) true x (virtual_size q) r ∧
    qinv cs [] q' ∧ (∀ y, content cs q' y = content cs q y) ∧
    current_offset q' = default (current_offset q) r.
Proof.
  intros Hi Hx. destruct (find_allocated_cluster_spec [] q x true Hi Hx) as (q1 & r & E & Hm & _ & Hr).
  unfold seek_data. erewrite mbind_ok by exact E. destruct r as [o|].
  - destruct Hr as (Ho & Hr). assert (virtual_size q1 = virtual_size q) as Es
      by (unfold virtual_size; by rewrite (mv_header _ _ _ _ _ Hm)).
    unfold seek, mbind. rewrite Es. destruct (Z.leb_spec o (virtual_size q)); [|lia].
    eexists _, _. split_and!; [done|exact (conj Ho Hr)|apply (qinv_offset cs Hpow Hcs), Hm|apply Hm|done].
  - exists q1, None. split_and!; [done|done|apply Hm..].
Qed.

(** [seek_hole]: the end of the disk is a hole. *)
Theorem seek_hole_spec q x :
  qinv cs [] q → 0 ≤ x →
  ∃ q' r, seek_hole x q = (q', Ok r) ∧
    match r with
    | Some o => x ≤ o ≤ virtual_size q ∧ (o < virtual_size q → allocated cs q o = false) ∧
                ∀ y, x ≤ y < o → allocated cs q y = true
    | None => virtual_size q ≤ x
    end ∧ qinv cs [] q' ∧ (∀ y, content cs q' y = content cs q y) ∧
    current_offset q' = default (current_offset q) r.
Proof.
  intros Hi Hx. destruct (find_allocated_cluster_spec [] q x false Hi Hx) as (q1 & r & E & Hm & _ & Hr).
  assert (virtual_size q1 = virtual_size q) as Es by (unfold virtual_size; by rewrite (mv_header _ _ _ _ _ Hm)).
  pose proof (qinv_offset cs Hpow Hcs [] q1) as Hoff.
  unfold seek_hole. erewrite mbind_ok by exact E. destruct r as [o|].
  - destruct Hr as (Ho & Hr). unfold seek, mbind. rewrite Es. destruct (Z.leb_spec o (virtual_size q)); [|lia].
    eexists _, (Some o). split_and!; [done|lia|lia|intros _; apply Hr|apply Hr|apply Hoff, Hm|apply Hm|done].
  - erewrite mbind_ok by done. rewrite Es. destruct (Z.ltb_spec x (virtual_size q)).
    + assert (seek (End 0) q1 = (with_offset q1 (virtual_size q), Ok (virtual_size q))) as E'.
      { unfold seek, relative, u64_checked_add. rewrite Es, Z.add_0_r. simpl.
        pose proof (qi_small _ _ _ Hi). unfold u64_max.
        destruct (Z.leb_spec (virtual_size q) (2 ^ 64 - 1)); [|lia]. by rewrite Z.leb_refl. }
      erewrite mbind_ok by exact E'. eexists _, (Some _).
      split_and!; [done|lia|lia|lia|exact Hr|apply Hoff, Hm|apply Hm|done].
    + exists q1, None. split_and!; [done|done|apply Hm..].
Qed.

End Holes.
