(* ===== verification/QcowLoad.v ===== *)
(** * Loading an image

    An image whose tables on disk are consistent opens to a state that satisfies the
    invariant: the tables are read, the clusters whose count is zero are available,
    and the disk holds what the tables of the file say. *)

From S2P Require Import Prelude Words Methods BlockFile QcowTables QcowHeader QcowFile QcowOpen QcowAlloc QcowDisk QcowRebuild.
From stdpp Require Import options.
Local Open Scope Z_scope.

(** ** Definitions *)

Section Defs.
Context (cs : Z).

(** The number of entries of the L1 table and of the table of reference counts. *)
Definition l1_entries (h : QcowHeader) : Z := ceil (ceil (QcowHeader.size h) cs) (cs `div` 8).
Definition ref_entries (h : QcowHeader) : Z :=
  let for_data := ceil (2 * max_clusters cs h) cs in for_data + ceil (2 * for_data) cs.

(** The tables in the file. *)
Definition l1_words (h : QcowHeader) (f : File) : list Z :=
  table_words f (l1_table_offset h) (Z.to_nat (l1_entries h)) L1_TABLE_OFFSET_MASK.
Definition ref_words (h : QcowHeader) (f : File) : list Z :=
  be_words 8 (Z.to_nat (ref_entries h))
    (get_bytes f (QcowHeader.refcount_table_offset h) (8 * ref_entries h)).

(** The words of the block of counts at [a]. *)
Definition block_words (f : File) (a : Z) : list Z :=
  be_words 2 (Z.to_nat (cs `div` 2)) (get_bytes f a cs).

Definition loaded_counts (h : QcowHeader) (f : File) : RefCount :=
  {| ref_table := from_vec (ref_words h f);
     QcowTables.refcount_table_offset := QcowHeader.refcount_table_offset h;
     refblock_cache := cache_new 50; refcount_block_entries := cs `div` 2; rc_cluster_size := cs;
     max_valid_cluster_offset := (ref_entries h * (cs `div` 2) - 1) * cs |}.

(** The image before the available clusters are found. *)
Definition loaded {B} (h : QcowHeader) (f : File) (b : option B) : QcowFile B :=
  {| raw_file := {| rfile := f; cluster_size := cs; cluster_mask := cs - 1 |};
     header := h; l1_table := from_vec (l1_words h f); l2_entries := cs `div` 8;
     l2_cache := cache_new 100; refcounts := loaded_counts h f; current_offset := 0;
     unref_clusters := []; avail_clusters := []; backing_file := b |}.

(** The clusters of an image in use, by its tables on disk. *)
Definition in_use (h : QcowHeader) (f : File) : list Z :=
  kept cs (loaded (B := Empty_set) h f None) ++ nz (ref_words h f).

(** The clusters of a file. *)
Definition file_clusters (f : File) : list Z := (λ i, i * cs) <$> seqZ 0 (ceil (flen f) cs).
Definition free_clusters (h : QcowHeader) (f : File) : list Z :=
  filter (λ a, disk_refcount cs h f (cluster_index cs a) = 0) (file_clusters f).

(** A file with consistent tables: sizes in bounds, no cluster used twice, every cluster
    that is used counted. *)
Record loadable (h : QcowHeader) (f : File) : Prop := {
  lo_bits : 2 ^ cluster_bits h = cs;
  lo_order : refcount_order h = 4;
  lo_size : 0 ≤ QcowHeader.size h ≤ 2 ^ 44;
  lo_clusters : max_clusters cs h < 2 ^ 32;
  lo_l1 : l1_entries h ≤ MAX_RAM_POINTER_TABLE_SIZE;
  lo_table : refcount_table_clusters h ≤ 2 * ref_entries h;
  lo_table_fits : 8 * ref_entries h ≤ refcount_table_clusters h * cs;
  lo_counts : ceil (l1_entries h) (cs `div` 8) + ref_entries h ≤ MAX_RAM_POINTER_TABLE_SIZE;
  lo_l1_offset : 0 ≤ l1_table_offset h ≤ 2 ^ 62;
  lo_l1_file : l1_table_offset h + 8 * l1_entries h ≤ flen f;
  lo_ref_offset : 0 ≤ QcowHeader.refcount_table_offset h ≤ 2 ^ 62;
  lo_ref_file : QcowHeader.refcount_table_offset h + 8 * ref_entries h ≤ flen f;
  lo_file : file_ok f;
  lo_len : flen f ≤ ref_entries h * (cs `div` 2) * cs ≤ 2 ^ 56;
  lo_nodup : NoDup (in_use h f);
  lo_clus : Forall (λ a, (cs | a) ∧ 0 ≤ a < flen f) (in_use h f);
  lo_full : Forall (λ a, a + cs ≤ flen f)
    (nz (l1_words h f) ++ nz (entries cs (loaded (B := Empty_set) h f None)) ++ nz (ref_words h f));
  lo_plain a : a ∈ nz (l1_words h f) → Forall (λ e, Z.land e COMPRESSED_FLAG = 0) (disk_words cs f a);
  lo_counted a : a ∈ in_use h f → disk_refcount cs h f (cluster_index cs a) ≠ 0;
}.

(** The backing file that opening an image gives. *)
Definition backing_of {B} (open_backing : option (list Z → result B Error)) (h : QcowHeader)
    : result (option B) Error :=
  match backing_file_path h with
  | None => Ok None
  | Some path =>
      match open_backing with
      | None => Err MaxNestingDepthExceeded
      | Some open => match open path with Ok b => Ok (Some b) | Err e => Err e end
      end
  end.

Definition lazy_refcounts (h : QcowHeader) : bool :=
  negb (Z.land (compatible_features h) COMPATIBLE_FEATURES_LAZY_REFCOUNTS =? 0).

(** The cache of blocks of counts holds what is on disk. *)
Definition cache_on_disk (h : QcowHeader) (f : File) (m : gmap Z VecCache) : Prop :=
  ∀ t b, m !! t = Some b →
    ∃ a, vec_get (from_vec (ref_words h f)) t = Some a ∧ a ≠ 0 ∧ b = from_vec (block_words f a).

(** The core and the image once the available clusters [av] are found. *)
Definition loaded_core (h : QcowHeader) (f g : File) (m : gmap Z VecCache) (av : list Z) : Core :=
  {| c_file := g; c_rc := with_refblocks (loaded_counts h f) (with_cmap (cache_new 50) m);
     c_avail := av |}.

End Defs.

(** ** Words of a file *)

Lemma lookup_be_words n count f off j :
  (j < count)%nat →
  be_words n count (get_bytes f off (Z.of_nat n * Z.of_nat count)) !! j =
  Some (be_value (get_bytes f (off + Z.of_nat n * Z.of_nat j) (Z.of_nat n))).
Proof.
  revert off j. induction count as [|count IH]; intros off j Hj; [lia|].
  replace (Z.of_nat n * Z.of_nat (S count)) with (Z.of_nat n + Z.of_nat n * Z.of_nat count) by lia.
  rewrite get_bytes_app by lia. cbn [be_words].
  rewrite take_app_length', drop_app_length' by (rewrite length_get_bytes; lia).
  destruct j as [|j]; cbn [lookup list_lookup].
  - do 3 f_equal. lia.
  - change (be_words n count (get_bytes f (off + Z.of_nat n) (Z.of_nat n * Z.of_nat count)) !! j =
      Some (be_value (get_bytes f (off + Z.of_nat n * Z.of_nat (S j)) (Z.of_nat n)))).
    rewrite IH by lia. do 3 f_equal. lia.
Qed.

Lemma read_words_ok n count f :
  0 ≤ count → fpos f + count * Z.of_nat n ≤ flen f →
  read_words n count f = (with_pos f (fpos f + count * Z.of_nat n),
    Ok (be_words n (Z.to_nat count) (get_bytes f (fpos f) (count * Z.of_nat n)))).
Proof. intros Hc Hl. unfold read_words, mbind. by rewrite read_exact_ok by lia. Qed.

Lemma with_pos_id f : with_pos f (fpos f) = f.
Proof. by destruct f. Qed.

Section Load.
#[local] Set Default Proof Using "All".
Context (cs : Z) (Hpow : is_power_of_two cs = true) (Hcs : 512 ≤ cs ≤ 2 ^ 21).

Lemma ref_entries_pos h f : loadable cs h f → 1 ≤ ref_entries cs h < 2 ^ 32.
Proof.
  intros Hl. pose proof (lo_counts _ _ _ Hl) as Hm. unfold MAX_RAM_POINTER_TABLE_SIZE in Hm.
  destruct (image_clusters_spec cs Hpow Hcs h (lo_size _ _ _ Hl)) as [_ Hc].
  destruct (cs_even cs Hpow Hcs) as [_ E8].
  assert (0 ≤ ceil (l1_entries cs h) (cs `div` 8)).
  { unfold ceil at 1. apply Z.div_pos; [|lia]. unfold l1_entries, ceil.
    pose proof (lo_size _ _ _ Hl). pose proof (Z.div_pos (QcowHeader.size h + cs - 1) cs ltac:(lia) ltac:(lia)).
    pose proof (Z.div_pos ((QcowHeader.size h + cs - 1) `div` cs + cs `div` 8 - 1) (cs `div` 8) ltac:(lia) ltac:(lia)). lia. }
  split; [|lia]. unfold ref_entries.
  assert (1 ≤ ceil (2 * max_clusters cs h) cs) as H1.
  { unfold ceil. apply Z.div_le_lower_bound; lia. }
  pose proof (Z.div_pos (2 * ceil (2 * max_clusters cs h) cs + cs - 1) cs ltac:(lia) ltac:(lia)).
  unfold ceil at 2. lia.
Qed.

Lemma ref_words_lookup h f i :
  0 ≤ i < ref_entries cs h →
  vec_get (from_vec (ref_words cs h f)) i =
  Some (be_value (get_bytes f (QcowHeader.refcount_table_offset h + 8 * i) 8)).
Proof.
  intros Hi. apply vec_get_Some. split; [lia|]. simpl. unfold ref_words.
  pose proof (lookup_be_words 8 (Z.to_nat (ref_entries cs h)) f (QcowHeader.refcount_table_offset h) (Z.to_nat i)) as E.
  rewrite !Z2Nat.id in E by lia. apply E. lia.
Qed.

Lemma block_words_lookup f a i :
  0 ≤ i < cs `div` 2 →
  vec_get (from_vec (block_words cs f a)) i = Some (be_value (get_bytes f (a + 2 * i) 2)).
Proof.
  intros Hi. apply vec_get_Some. split; [lia|]. simpl. unfold block_words.
  pose proof (lookup_be_words 2 (Z.to_nat (cs `div` 2)) f a (Z.to_nat i)) as E.
  destruct (cs_even cs Hpow Hcs) as [E2 _].
  rewrite !Z2Nat.id in E by lia. change (Z.of_nat 2) with 2 in E.
  replace (2 * (cs `div` 2)) with cs in E by lia. apply E. lia.
Qed.

Lemma length_ref_words h f : length (ref_words cs h f) = Z.to_nat (ref_entries cs h).
Proof. apply length_be_words. Qed.

Lemma length_l1_words h f : length (l1_words cs h f) = Z.to_nat (l1_entries cs h).
Proof. unfold l1_words, table_words. by rewrite length_fmap, length_be_words. Qed.

Lemma length_block_words f a : Z.of_nat (length (block_words cs f a)) = cs `div` 2.
Proof. unfold block_words. rewrite length_be_words. destruct (cs_even cs Hpow Hcs). lia. Qed.

Lemma ceil_cover a c : 0 ≤ a → 0 < c → 0 ≤ ceil a c ∧ a ≤ ceil a c * c.
Proof.
  intros Ha Hc. unfold ceil. pose proof (Z.div_mod (a + c - 1) c ltac:(lia)).
  pose proof (Z.mod_pos_bound (a + c - 1) c Hc). split; [apply Z.div_pos|]; lia.
Qed.

Lemma l1_entries_cover h :
  0 ≤ QcowHeader.size h →
  0 ≤ l1_entries cs h ∧ QcowHeader.size h ≤ l1_entries cs h * (cs `div` 8) * cs.
Proof.
  intros Hs. destruct (cs_even cs Hpow Hcs) as [_ E8]. unfold l1_entries.
  destruct (ceil_cover (QcowHeader.size h) cs ltac:(lia) ltac:(lia)) as [H1 H2].
  destruct (ceil_cover (ceil (QcowHeader.size h) cs) (cs `div` 8) H1 ltac:(lia)) as [H3 H4]. split; [done|nia].
Qed.

Lemma l1_words_on_disk h f : 0 ≤ l1_entries cs h → l1_on_disk f h (l1_words cs h f).
Proof. intros Hn. unfold l1_on_disk. by rewrite length_l1_words. Qed.

Lemma elem_of_file_clusters f a :
  a ∈ file_clusters cs f → 0 ≤ flen f → (cs | a) ∧ 0 ≤ a < flen f.
Proof.
  intros (i & -> & [H1 H2]%elem_of_seqZ)%list_elem_of_fmap Hf. split; [by eexists|].
  unfold ceil in H2. pose proof (Z.div_mod (flen f + cs - 1) cs ltac:(lia)).
  pose proof (Z.mod_pos_bound (flen f + cs - 1) cs ltac:(lia)). nia.
Qed.

Lemma NoDup_file_clusters f : NoDup (file_clusters cs f).
Proof. apply NoDup_fmap_2; [intros i j E; nia|]. apply NoDup_seqZ. Qed.

Lemma max_refcount_clusters_spec h :
  0 ≤ QcowHeader.size h ≤ 2 ^ 44 → max_clusters cs h < 2 ^ 32 →
  max_refcount_clusters 4 cs (max_clusters cs h) = ref_entries cs h.
Proof.
  intros Hs Hm. destruct (image_clusters_spec cs Hpow Hcs h Hs) as [_ Hc].
  unfold max_refcount_clusters, ref_entries. change (u64_wrap (Z.shiftl 1 4) `div` 8) with 2.
  generalize dependent (max_clusters cs h). intros m Hm Hc.
  assert (u64_mul m 2 = 2 * m) as -> by (unfold u64_mul, u64_wrap; rewrite Z.mod_small; lia).
  rewrite div_round_up_spec by lia.
  pose proof (ceil_bound cs Hpow Hcs (2 * m) cs (2 ^ 33) ltac:(lia) ltac:(lia)) as Hd.
  generalize dependent (ceil (2 * m) cs). intros d Hd.
  assert (u64_mul d 2 = 2 * d) as -> by (unfold u64_mul, u64_wrap; rewrite Z.mod_small; lia).
  rewrite div_round_up_spec by lia.
  pose proof (ceil_bound cs Hpow Hcs (2 * d) cs (2 ^ 34) ltac:(lia) ltac:(lia)) as Hr.
  by rewrite (u64_add_small cs Hpow Hcs) by lia.
Qed.

(** The number of clusters that [load_tables] computes. *)
Lemma load_clusters h :
  0 ≤ QcowHeader.size h ≤ 2 ^ 44 → max_clusters cs h < 2 ^ 32 →
  let d := ceil (QcowHeader.size h) cs in
  let l1 := ceil (l1_entries cs h) (cs `div` 8) in
  div_round_up_u64 (QcowHeader.size h) cs = d ∧
  div_round_up_u64 d (cs `div` 8) = l1_entries cs h ∧
  div_round_up_u64 (l1_entries cs h) (cs `div` 8) = l1 ∧
  u32_wrap (u64_add (u64_add (u64_add d l1) (l1_entries cs h))
    (div_round_up_u64 QCOW_HEADER_STRUCT_SIZE cs)) = max_clusters cs h ∧ 0 ≤ l1.
Proof.
  intros Hs Hm d l1. destruct (cs_even cs Hpow Hcs) as [_ E8].
  pose proof (ceil_bound cs Hpow Hcs (QcowHeader.size h) cs (2 ^ 44) Hs ltac:(lia)) as Hd. fold d in Hd.
  pose proof (ceil_bound cs Hpow Hcs d (cs `div` 8) (2 ^ 44) Hd ltac:(lia)) as H2.
  pose proof (ceil_bound cs Hpow Hcs (l1_entries cs h) (cs `div` 8) (2 ^ 44) H2 ltac:(lia)) as H1. fold l1 in H1.
  fold d in H2. change (ceil d (cs `div` 8)) with (l1_entries cs h) in H2.
  assert (div_round_up_u64 QCOW_HEADER_STRUCT_SIZE cs = 1) as ->.
  { unfold QCOW_HEADER_STRUCT_SIZE. rewrite div_round_up_spec by lia. unfold ceil.
    symmetry. apply (Z.div_unique _ _ _ 127); lia. }
  assert (max_clusters cs h = d + l1_entries cs h + l1 + 1) as Em by done. rewrite Em in Hm |- *.
  rewrite !div_round_up_spec by lia.
  split_and!; [done|done|done| |lia].
  rewrite (u64_add_small cs Hpow Hcs d l1), (u64_add_small cs Hpow Hcs (d + l1)),
    (u64_add_small cs Hpow Hcs _ 1) by lia.
  unfold u32_wrap. rewrite Z.mod_small; lia.
Qed.

Lemma loaded_entries {B} h f (b : option B) :
  entries cs (loaded cs h f b) = concat ((λ a, if a =? 0 then zeros cs
    else (λ e, Z.land e L2_TABLE_OFFSET_MASK) <$> disk_words cs f a) <$> l1_words cs h f).
Proof.
  unfold entries. cbn [loaded l1_table vec from_vec]. f_equal. apply list_eq. intros i.
  rewrite !list_lookup_fmap. destruct (l1_words cs h f !! i) as [a|] eqn:E.
  - rewrite lookup_seq_lt by (by eapply lookup_lt_Some). cbn [fmap option_fmap option_map]. f_equal.
    rewrite Nat.add_0_l. unfold l2_view. cbn [loaded l2_cache cache_new cmap l1_table vec from_vec raw_file rfile].
    by rewrite lookup_empty, E.
  - by rewrite lookup_seq_ge by (by apply lookup_ge_None).
Qed.

(** The position of the file does not matter. *)
Lemma l1_words_pos h f p : l1_words cs h (with_pos f p) = l1_words cs h f.
Proof. unfold l1_words, table_words. generalize (Z.to_nat (l1_entries cs h)). done. Qed.

Lemma ref_words_pos h f p : ref_words cs h (with_pos f p) = ref_words cs h f.
Proof. unfold ref_words. generalize (Z.to_nat (ref_entries cs h)), (8 * ref_entries cs h). done. Qed.

Lemma entries_pos {B} h f p (b : option B) :
  entries cs (loaded cs h (with_pos f p) b) = entries cs (loaded cs h f b).
Proof. by rewrite !loaded_entries, l1_words_pos. Qed.

Lemma in_use_pos h f p : in_use cs h (with_pos f p) = in_use cs h f.
Proof.
  unfold in_use, kept, meta. rewrite entries_pos, ref_words_pos.
  cbn [loaded l1_table vec from_vec header unref_clusters]. by rewrite l1_words_pos.
Qed.

Lemma disk_refcount_pos h f p i : disk_refcount cs h (with_pos f p) i = disk_refcount cs h f i.
Proof. done. Qed.

Lemma free_clusters_pos h f p : free_clusters cs h (with_pos f p) = free_clusters cs h f.
Proof. done. Qed.

Lemma content_pos `{DiskLaws B} h f p (b : option B) x :
  content cs (loaded cs h (with_pos f p) b) x = content cs (loaded cs h f b) x.
Proof. unfold content, entry_at. by rewrite entries_pos. Qed.

Lemma loadable_pos h f p : loadable cs h f → loadable cs h (with_pos f p).
Proof.
  intros Hl. constructor; rewrite ?in_use_pos, ?l1_words_pos, ?entries_pos, ?ref_words_pos; try apply Hl.
Qed.

#[local] Opaque ref_words l1_words block_words ref_entries l1_entries.

(** ** The counts *)

Lemma read_block f p a :
  0 ≤ a ≤ 2 ^ 56 → a + cs ≤ flen f →
  read_refcount_block cs a (with_pos f p) = (with_pos f (a + cs), Ok (block_words cs f a)).
Proof.
  intros Ha Hl. destruct (cs_even cs Hpow Hcs) as [E2 _]. unfold read_refcount_block, mbind.
  rewrite seek_start_ok by lia. rewrite read_words_ok by (cbn [fpos flen with_pos]; lia).
  change (Z.of_nat 2) with 2. rewrite E2. done.
Qed.

Lemma ref_word_cluster h f t a :
  loadable cs h f → vec_get (from_vec (ref_words cs h f)) t = Some a → a ≠ 0 →
  0 ≤ a ≤ 2 ^ 56 ∧ a + cs ≤ flen f.
Proof.
  intros Hl [_ Ht]%vec_get_Some Ha.
  assert (a ∈ nz (ref_words cs h f)) as Hin.
  { apply elem_of_nz. split; [|done]. exact (list_elem_of_lookup_2 _ _ _ Ht). }
  pose proof (lo_full _ _ _ Hl) as Hf. pose proof (lo_clus _ _ _ Hl) as Hc. rewrite Forall_forall in Hf, Hc.
  destruct (Hc a) as [_ Hc1]; [unfold in_use; apply elem_of_app; by right|].
  pose proof (lo_len _ _ _ Hl). split; [lia|]. apply Hf. rewrite !elem_of_app. by right; right.
Qed.

Section Counts.
Context `{HashOrderLaws}.

Lemma insert_clean rc f p t b m h :
  refblock_cache rc = with_cmap (cache_new 50) m → cache_on_disk cs h f m →
  ∃ m', insert_refblock t b (rc, with_pos f p) =
    ((with_refblocks rc (with_cmap (cache_new 50) (<[t := b]> m')), with_pos f p), Ok tt) ∧ m' ⊆ m.
Proof.
  intros Ec Hm. destruct (cache_insert_spec cs Hpow Hcs (refblock_cache rc) (with_pos f p) t b (evict_refblock rc))
    as (m' & f' & E & Hcase).
  { by rewrite Ec. }
  { intros e b' Hb Hd. rewrite Ec in Hb. destruct (Hm e b' Hb) as (a & _ & _ & ->). done. }
  exists m'. unfold insert_refblock. rewrite E, Ec.
  destruct Hcase as [[-> ->]|(e & b' & Hb & -> & Hf)]; rewrite Ec in *; [done|].
  destruct (Hm e b' Hb) as (a & _ & _ & ->). simpl in Hf. subst f'. split; [done|apply delete_subseteq].
Qed.

Lemma load_block h f p m t a :
  loadable cs h f → cache_on_disk cs h f m → vec_get (from_vec (ref_words cs h f)) t = Some a → a ≠ 0 →
  let rc m := with_refblocks (loaded_counts cs h f) (with_cmap (cache_new 50) m) in
  ∃ m' p', load_refblock t a (rc m, with_pos f p) = ((rc m', with_pos f p'), Ok tt) ∧
    cache_on_disk cs h f m' ∧ m' !! t = Some (from_vec (block_words cs f a)).
Proof.
  intros Hl Hm Ht Ha rc. unfold load_refblock. cbn [rc with_refblocks refblock_cache rc_cluster_size loaded_counts].
  destruct (m !! t) as [b|] eqn:Eb.
  - rewrite (contains_key_Some _ _ b) by done. exists m, p. split_and!; [done|done|].
    destruct (Hm t b Eb) as (a' & Ha' & _ & ->). rewrite Eb. congruence.
  - rewrite contains_key_None by done.
    destruct (ref_word_cluster h f t a Hl Ht Ha) as [Hc Hf].
    rewrite read_block by done. destruct (insert_clean (rc m) f (a + cs) t (from_vec (block_words cs f a)) m h)
      as (m' & E' & Hsub); [done|done|].
    exists (<[t := from_vec (block_words cs f a)]> m'), (a + cs). split_and!; [exact E'| |apply lookup_insert_eq].
    intros t' b' [[<- <-]|[_ Hb]]%lookup_insert_Some; [by exists a|]. apply Hm. by eapply lookup_weaken.
Qed.

(** Reading a count fills the cache with what is on disk. *)
Lemma get_count h f p m i :
  loadable cs h f → cache_on_disk cs h f m → 0 ≤ i < ref_entries cs h * (cs `div` 2) →
  let rc m := with_refblocks (loaded_counts cs h f) (with_cmap (cache_new 50) m) in
  ∃ m' p', rc_get_cluster_refcount (i * cs) (rc m, with_pos f p) =
      ((rc m', with_pos f p'), Ok (disk_refcount cs h f (Z.to_nat i))) ∧ cache_on_disk cs h f m'.
Proof.
  intros Hl Hm Hi rc. destruct (half_cluster cs Hpow Hcs) as (Eh & E2 & Hp).
  unfold rc_get_cluster_refcount, get_refcount_index. cbn [rc with_refblocks rc_cluster_size
    refcount_block_entries loaded_counts ref_table refblock_cache]. rewrite Z.div_mul by lia.
  set (t := i `div` (cs `div` 2)). set (j := i `mod` (cs `div` 2)).
  assert (0 ≤ j < cs `div` 2) as Hj by (apply Z.mod_pos_bound; lia).
  assert (0 ≤ t < ref_entries cs h) as Ht.
  { split; [apply Z.div_pos; lia|]. apply Z.div_lt_upper_bound; lia. }
  rewrite ref_words_lookup by done. unfold disk_refcount.
  replace (Z.of_nat (Z.to_nat i / Z.to_nat (cs `div` 2))) with t
    by (unfold t; rewrite Nat2Z.inj_div, !Z2Nat.id; lia).
  replace (Z.of_nat (Z.to_nat i mod Z.to_nat (cs `div` 2))) with j
    by (unfold j; rewrite Nat2Z.inj_mod, !Z2Nat.id; lia).
  set (a := be_value (get_bytes f _ 8)). destruct (Z.eqb_spec a 0) as [|Ha]; [by exists m, p|].
  assert (∃ m' p', load_refblock t a (rc m, with_pos f p) = ((rc m', with_pos f p'), Ok tt) ∧
    cache_on_disk cs h f m' ∧ m' !! t = Some (from_vec (block_words cs f a))) as (m' & p' & E & Hm' & Hb).
  { apply load_block; [done|done| |done]. by apply ref_words_lookup. }
  exists m', p'. erewrite mbind_ok by exact E. unfold mbind, mget. cbn [fst]. cbn [rc with_refblocks refblock_cache with_cmap cmap].
  rewrite Hb, block_words_lookup by done. done.
Qed.

(** ** The available clusters *)

Section Find.
Context {B : Type} (h : QcowHeader) (f : File) (b : option B) (Hl : loadable cs h f).

Lemma find_loop l p m av :
  Forall (λ i, 0 ≤ i < ref_entries cs h * (cs `div` 2)) l → cache_on_disk cs h f m →
  ∃ p' m', miter (λ i, let* refcount := mmap_err (λ _, GettingRefcount)
                         (on_refcounts (rc_get_cluster_refcount (i * cs))) in
                       if refcount =? 0 then
                         mmodify (λ q, with_avail q (avail_clusters q ++ [i * cs]))
                       else mret tt) l
      (set_core (loaded cs h f b) (loaded_core cs h f (with_pos f p) m av)) =
    (set_core (loaded cs h f b) (loaded_core cs h f (with_pos f p') m'
       (av ++ filter (λ a, disk_refcount cs h f (cluster_index cs a) = 0) ((λ i, i * cs) <$> l))), Ok tt) ∧
    cache_on_disk cs h f m'.
Proof.
  revert p m av. induction l as [|i l IH]; intros p m av Hr Hm.
  { exists p, m. by rewrite app_nil_r. }
  apply Forall_cons in Hr as [Hi Hr]. destruct (get_count h f p m i Hl Hm Hi) as (m1 & p1 & E & Hm1).
  cbn [miter]. unfold mbind at 1 2, mmap_err.
  rewrite (on_refcounts_core (rc_get_cluster_refcount (i * cs)) (loaded cs h f b)
    (loaded_core cs h f (with_pos f p) m av) (loaded_core cs h f (with_pos f p1) m1 av) _ E) by done.
  cbn [fmap list_fmap]. rewrite filter_cons.
  assert (cluster_index cs (i * cs) = Z.to_nat i) as -> by (unfold cluster_index; by rewrite Z.div_mul by lia).
  destruct (Z.eqb_spec (disk_refcount cs h f (Z.to_nat i)) 0) as [E0|E0].
  - rewrite decide_True by done. destruct (IH p1 m1 (av ++ [i * cs]) Hr Hm1) as (p' & m' & E' & Hm').
    exists p', m'. rewrite (cons_middle (i * cs)), app_assoc. split; [|done]. exact E'.
  - rewrite decide_False by done. apply IH; done.
Qed.

Lemma find_avail_spec p :
  ∃ p' m', find_avail_clusters (set_core (loaded cs h f b) (loaded_core cs h f (with_pos f p) ∅ [])) =
    (set_core (loaded cs h f b) (loaded_core cs h f (with_pos f p') m' (free_clusters cs h f)), Ok tt) ∧
    cache_on_disk cs h f m'.
Proof.
  destruct (find_loop (seqZ 0 (ceil (flen f) cs)) p ∅ []) as (p' & m' & E & Hm').
  - apply Forall_forall. intros i [H1 H2]%elem_of_seqZ. split; [done|].
    pose proof (lo_len _ _ _ Hl). enough (ceil (flen f) cs ≤ ref_entries cs h * (cs `div` 2)) by lia.
    unfold ceil. apply Z.lt_succ_r, Z.div_lt_upper_bound; lia.
  - done.
  - exists p', m'. split; [|done]. exact E.
Qed.

End Find.

End Counts.

(** ** The invariant *)

Section Inv.
Context `{DiskLaws B} (h : QcowHeader) (f : File) (b : option B) (Hl : loadable cs h f).
Context (Hb : ∀ b', b = Some b' → disk_ok b' ∧ QcowHeader.size h ≤ disk_size b').

Lemma loaded_core_inv g m av :
  (∀ x, fbyte g x = fbyte f x) → flen g = flen f → cache_on_disk cs h f m →
  av = [] ∨ av = free_clusters cs h f →
  core_inv cs (kept cs (loaded (B := Empty_set) cs h f None)) (loaded_core cs h f g m av).
Proof.
  intros Hg Hlen Hm Hav. pose proof (ref_entries_pos h f Hl) as Hn. pose proof (lo_len _ _ _ Hl) as Hf.
  assert (0 ≤ flen f) as Hf0.
  { pose proof (lo_ref_file _ _ _ Hl). pose proof (lo_ref_offset _ _ _ Hl). lia. }
  assert (∀ a, a ∈ av → (cs | a) ∧ 0 ≤ a < flen f ∧ disk_refcount cs h f (cluster_index cs a) = 0) as Ha.
  { intros a Ha. destruct Hav as [-> | ->]; [by apply elem_of_nil in Ha|].
    apply list_elem_of_filter in Ha as [Hz Ha]. apply elem_of_file_clusters in Ha as [? ?]; done. }
  assert (vec_len (from_vec (ref_words cs h f)) = ref_entries cs h) as En.
  { unfold vec_len. cbn [vec from_vec]. rewrite length_ref_words. lia. }
  assert (∀ a, a ∈ in_use cs h f ++ av → (cs | a) ∧ 0 ≤ a < flen f) as Hall.
  { intros a [Hin|Hin]%elem_of_app; [|by destruct (Ha a Hin) as (? & ? & _)].
    pose proof (lo_clus _ _ _ Hl) as Hc. rewrite Forall_forall in Hc. by apply Hc. }
  constructor; cbn [loaded_core c_file c_rc c_avail with_refblocks loaded_counts ref_table refblock_cache
    rc_cluster_size refcount_block_entries max_valid_cluster_offset vec from_vec].
  - intros i Hi. rewrite Hg. apply (lo_file _ _ _ Hl). by rewrite <-Hlen.
  - lia.
  - done.
  - done.
  - by rewrite En.
  - lia.
  - done.
  - apply elem_of_app. left. by left.
  - rewrite app_assoc. apply NoDup_app. split_and!; [apply (lo_nodup _ _ _ Hl)| |].
    + intros a Hin Hav'. destruct (Ha a Hav') as (_ & _ & Hz). by apply (lo_counted _ _ _ Hl a Hin).
    + destruct Hav as [-> | ->]; [apply NoDup_nil_2|]. apply NoDup_filter, NoDup_file_clusters.
  - rewrite app_assoc. apply Forall_forall. intros a Hin. destruct (Hall a Hin) as [[k ->] ?].
    unfold clus. cbn [max_valid_cluster_offset]. split_and!; [by eexists|lia| |lia].
    apply Z.mul_le_mono_nonneg_r; [lia|]. apply Z.lt_le_pred, (Z.mul_lt_mono_pos_r cs); lia.
  - rewrite Hlen. pose proof (lo_full _ _ _ Hl) as Hfull. rewrite !Forall_app in Hfull. by destruct Hfull as (_ & _ & ?).
  - intros t x Hx. destruct (Hm t x Hx) as (a & Ht & Hne & ->). split; [eauto|].
    apply length_block_words.
Qed.

Lemma loaded_inv : qinv cs [] (loaded cs h f b).
Proof.
  pose proof (lo_size _ _ _ Hl) as Hs. destruct (l1_entries_cover h ltac:(lia)) as [H1 H2]. destruct (cs_even cs Hpow Hcs) as [_ E8].
  assert (Z.of_nat (length (l1_words cs h f)) = l1_entries cs h) as El by (rewrite length_l1_words; lia).
  pose proof (lo_full _ _ _ Hl) as Hfull. rewrite !Forall_app in Hfull. destruct Hfull as (F1 & F2 & _).
  constructor.
  - done.
  - done.
  - done.
  - cbn [loaded l1_table vec from_vec]. rewrite El. unfold virtual_size. cbn [loaded header]. lia.
  - apply (lo_size _ _ _ Hl).
  - done.
  - unfold shape_ok, rc_shape, vec_len. cbn [loaded refcounts loaded_counts header QcowTables.refcount_table_offset
      ref_table vec from_vec fst snd]. rewrite length_ref_words. pose proof (ref_entries_pos h f Hl).
    split_and!; try apply Hl; [done|]. pose proof (lo_table_fits _ _ _ Hl). lia.
  - apply (loaded_core_inv f ∅ []); [done|done|done|by left].
  - intros _. by apply l1_words_on_disk.
  - cbn [loaded l1_table vec from_vec raw_file rfile]. apply Forall_app. split; [exact F1|exact F2].
  - done.
  - intros i a [_ Ha]%vec_get_Some Hne _. cbn [loaded raw_file rfile]. apply (lo_plain _ _ _ Hl).
    apply elem_of_nz. split; [exact (list_elem_of_lookup_2 _ _ _ Ha)|done].
  - intros b' Eb. by apply Hb.
Qed.

End Inv.

(** ** Opening *)

Lemma check_compressed_ok h f p a :
  loadable cs h f → a ∈ l1_words cs h f → ∃ p', check_compressed cs a (with_pos f p) = (with_pos f p', Ok tt).
Proof.
  intros Hl Ha. unfold check_compressed. destruct (Z.eqb_spec a 0) as [|Hne]; [by exists p|].
  assert (a ∈ nz (l1_words cs h f)) as Hin by by apply elem_of_nz.
  pose proof (lo_full _ _ _ Hl) as Hf. rewrite Forall_forall in Hf.
  pose proof (Hf a ltac:(apply elem_of_app; by left)) as Hfa.
  pose proof (lo_clus _ _ _ Hl) as Hc. rewrite Forall_forall in Hc.
  destruct (Hc a) as [_ Ha0].
  { unfold in_use, kept. rewrite !elem_of_app. left; right; left. exact Hin. }
  pose proof (lo_len _ _ _ Hl). exists (a + cs).
  rewrite (read_l2_cluster_spec cs Hpow Hcs); [done|lia|done|]. by apply (lo_plain _ _ _ Hl).
Qed.

Lemma check_compressed_all h f p l :
  loadable cs h f → l ⊆ l1_words cs h f →
  ∃ p', miter (check_compressed cs) l (with_pos f p) = (with_pos f p', Ok tt).
Proof.
  intros Hl. revert p. induction l as [|a l IH]; intros p Hsub; [by exists p|].
  destruct (check_compressed_ok h f p a Hl) as [p1 E]; [apply Hsub; by left|].
  destruct (IH p1) as [p2 E2]; [intros x Hx; apply Hsub; by right|].
  exists p2. cbn [miter]. by erewrite mbind_ok by exact E.
Qed.

Lemma refcount_new_spec h f p :
  loadable cs h f →
  ∃ p', refcount_new (QcowHeader.refcount_table_offset h) (ref_entries cs h) (cs `div` 2) cs (with_pos f p) =
    (with_pos f p', Ok (loaded_counts cs h f)).
Proof.
  intros Hl. pose proof (ref_entries_pos h f Hl) as Hn. pose proof (lo_ref_offset _ _ _ Hl).
  pose proof (lo_ref_file _ _ _ Hl). pose proof (lo_len _ _ _ Hl) as Hlen.
  destruct (half_cluster cs Hpow Hcs) as (_ & _ & Hp).
  eexists. unfold refcount_new, read_pointer_table. unfold mbind at 1 2 3. rewrite seek_start_ok by lia.
  rewrite read_words_ok by (cbn [fpos flen with_pos]; lia). cbn [fpos with_pos].
  change (Z.of_nat 8) with 8. rewrite (Z.mul_comm _ 8).
  change (be_words 8 _ (get_bytes (with_pos _ _) _ _)) with (be_words 8 (Z.to_nat (ref_entries cs h))
    (get_bytes f (QcowHeader.refcount_table_offset h) (8 * ref_entries cs h))).
  unfold mret, loaded_counts, vec_len. cbn [vec from_vec]. rewrite length_be_words.
  unfold u64_mul, u64_sub, u64_wrap. rewrite Z2Nat.id by lia.
  assert (1 ≤ ref_entries cs h * (cs `div` 2)) by nia. destruct Hlen as [_ Hlen].
  generalize dependent (ref_entries cs h * (cs `div` 2)). intros n Hn1 Hn2.
  assert (0 ≤ (n - 1) * cs < 2 ^ 64) by nia.
  rewrite (Z.mod_small n), (Z.mod_small (n - 1)), Z.mod_small by nia. done.
Qed.

Lemma load_tables_spec h f p :
  loadable cs h f →
  ∃ p', load_tables h cs (with_pos f p) = (with_pos f p', Ok (l1_words cs h f, loaded_counts cs h f)).
Proof.
  intros Hl. pose proof (lo_size _ _ _ Hl) as Hs. pose proof (lo_clusters _ _ _ Hl) as Hm.
  destruct (load_clusters h Hs Hm) as (E1 & E2 & E3 & E4 & H0).
  pose proof (ref_entries_pos h f Hl) as Hn. destruct (l1_entries_cover h ltac:(lia)) as [H1 _].
  pose proof (lo_l1 _ _ _ Hl) as Hl1. pose proof (lo_counts _ _ _ Hl) as Hct.
  unfold load_tables. rewrite E1, E2, E3, E4, (lo_order _ _ _ Hl), max_refcount_clusters_spec by done.
  destruct (Z.ltb_spec MAX_RAM_POINTER_TABLE_SIZE (l1_entries cs h)); [lia|].
  pose proof (read_pointer_table_ok (with_pos f p) (l1_table_offset h) (l1_entries cs h) L1_TABLE_OFFSET_MASK
    (lo_l1_offset _ _ _ Hl) H1 (lo_l1_file _ _ _ Hl)) as Er.
  unfold mbind at 1, mmap_err at 1. rewrite Er. clear Er.
  assert (u64_mul 2 (ref_entries cs h) = 2 * ref_entries cs h) as ->.
  { unfold u64_mul, u64_wrap. rewrite Z.mod_small; lia. }
  pose proof (lo_table _ _ _ Hl) as Ht.
  destruct (Z.ltb_spec (2 * ref_entries cs h) (refcount_table_clusters h)); [lia|].
  rewrite (u64_add_small cs Hpow Hcs) by (unfold MAX_RAM_POINTER_TABLE_SIZE in *; lia).
  destruct (Z.ltb_spec MAX_RAM_POINTER_TABLE_SIZE (ceil (l1_entries cs h) (cs `div` 8) + ref_entries cs h)); [lia|].
  change ((u64_wrap (Z.shiftl 1 4) + 7) `div` 8) with 2.
  destruct (refcount_new_spec h f (l1_table_offset h + l1_entries cs h * 8) Hl) as [p1 Er].
  unfold mbind at 1, mmap_err at 1.
  change (with_pos (with_pos f p) ?x) with (with_pos f x). rewrite Er.
  destruct (check_compressed_all h f p1 (l1_words cs h f) Hl) as [p2 Ec]; [done|].
  exists p2. change (table_words (with_pos f p) _ _ _) with (l1_words cs h f).
  by erewrite mbind_ok by exact Ec.
Qed.

Lemma open_offsets {B} h f (b : option B) :
  loadable cs h f →
  l1_table_offset h + l1_address_offset (loaded cs h f b) (QcowHeader.size h) ≤ u64_max ∧
  QcowHeader.refcount_table_offset h + u64_mul (refcount_table_clusters h) cs ≤ u64_max.
Proof.
  intros Hl. pose proof (lo_size _ _ _ Hl) as Hs. pose proof (lo_l1_offset _ _ _ Hl).
  pose proof (lo_ref_offset _ _ _ Hl). pose proof (lo_table _ _ _ Hl). pose proof (ref_entries_pos h f Hl).
  destruct (cs_even cs Hpow Hcs) as [_ E8]. unfold u64_max, l1_address_offset, l1_table_index, u64_mul, u64_wrap.
  cbn [loaded raw_file cluster_size l2_entries].
  pose proof (Z.div_pos (QcowHeader.size h) cs ltac:(lia) ltac:(lia)).
  pose proof (Z.div_le_upper_bound (QcowHeader.size h) cs (2 ^ 44) ltac:(lia) ltac:(nia)).
  pose proof (Z.div_pos (QcowHeader.size h `div` cs) (cs `div` 8) ltac:(lia) ltac:(lia)).
  pose proof (Z.div_le_upper_bound (QcowHeader.size h `div` cs) (cs `div` 8) (2 ^ 44) ltac:(lia) ltac:(nia)).
  pose proof (Z.mod_le ((QcowHeader.size h `div` cs) `div` (cs `div` 8) * 8) (2 ^ 64) ltac:(lia) ltac:(lia)).
  pose proof (lo_table_fits _ _ _ Hl). assert (0 ≤ refcount_table_clusters h) by nia.
  pose proof (Z.mod_le (refcount_table_clusters h * cs) (2 ^ 64) ltac:(nia) ltac:(lia)). split; [lia|nia].
Qed.

Lemma read_u64_ok f p :
  p + 8 ≤ flen f → read_u64 (with_pos f p) = (with_pos f (p + 8), Ok (be_value (get_bytes f p 8))).
Proof. intros Hp. unfold read_u64, mbind. by rewrite read_exact_ok. Qed.

Lemma read_u16_ok f p :
  p + 2 ≤ flen f → read_u16 (with_pos f p) = (with_pos f (p + 2), Ok (be_value (get_bytes f p 2))).
Proof. intros Hp. unfold read_u16, mbind. by rewrite read_exact_ok. Qed.

(** The first count of a consistent image is not zero. *)
Lemma first_count_set h f p :
  loadable cs h f → ∃ p', first_refcount_zero h (with_pos f p) = (with_pos f p', Ok false).
Proof.
  intros Hl. pose proof (ref_entries_pos h f Hl) as Hn. pose proof (lo_ref_offset _ _ _ Hl).
  pose proof (lo_ref_file _ _ _ Hl). destruct (half_cluster cs Hpow Hcs) as (_ & _ & Hp).
  assert (disk_refcount cs h f 0 ≠ 0) as Hc.
  { apply (lo_counted _ _ _ Hl 0). unfold in_use. apply elem_of_app. left. apply elem_of_app. left. by left. }
  unfold disk_refcount in Hc. rewrite Nat.Div0.div_0_l, Nat.Div0.mod_0_l in Hc.
  cbn [Z.of_nat] in Hc. rewrite !Z.mul_0_r, !Z.add_0_r in Hc.
  pose proof (ref_words_lookup h f 0 ltac:(lia)) as Ew. rewrite Z.mul_0_r, Z.add_0_r in Ew.
  set (a := be_value (get_bytes f (QcowHeader.refcount_table_offset h) 8)) in *.
  destruct (Z.eqb_spec a 0) as [|Ha]; [done|]. destruct (ref_word_cluster h f 0 a Hl Ew Ha) as [H1 H2].
  exists (a + 2). unfold first_refcount_zero. unfold mbind at 1, mmap_err at 1. rewrite seek_start_ok by lia.
  change (with_pos (with_pos f p) ?x) with (with_pos f x). unfold mbind at 1, mmap_err at 1.
  rewrite read_u64_ok by lia. fold a. destruct (Z.eqb_spec a 0); [done|].
  unfold mbind at 1, mmap_err at 1. rewrite seek_start_ok by lia.
  change (with_pos (with_pos f _) ?x) with (with_pos f x). unfold mbind at 1, mmap_err at 1.
  rewrite read_u16_ok by lia. unfold mret. by destruct (Z.eqb_spec (be_value (get_bytes f a 2)) 0).
Qed.

Section Open.
Context `{HashOrderLaws} `{ZeroOps} {B : Type}.

Lemma open_image_spec writable (ob : option (list Z → result B Error)) h f b zero (P : File → Prop) :
  header_ok h → next_bytes (with_pos f 0) (header_bytes h) → check_header h = Ok tt →
  backing_of ob h = Ok b → check_tables h (flen f) = Ok tt →
  (∀ p, ∃ p', first_refcount_zero h (with_pos f p) = (with_pos f p', Ok zero)) →
  (∀ p, ∃ g, (if zero || lazy_refcounts h then rebuild_refcounts writable h cs else mret tt) (with_pos f p) =
    (g, Ok tt) ∧ loadable cs h g ∧ P g) →
  ∃ g p m, P g ∧ loadable cs h g ∧ open_image writable ob f = (with_pos g p, Ok (set_core (loaded cs h g b)
      (loaded_core cs h g (with_pos g p) m (free_clusters cs h g)))) ∧ cache_on_disk cs h g m.
Proof.
  intros Hh Hn Hch Hb Hct Hz Hr. destruct (header_new_spec h f Hh Hn) as [p1 E1].
  destruct (Hz p1) as [p2 E2]. destruct (Hr p2) as (g & E3 & Hl & HP).
  destruct (load_tables_spec h g (fpos g) Hl) as [p4 E4]. rewrite with_pos_id in E4.
  destruct (find_avail_spec h g b Hl p4) as (p & m & E5 & Hm). destruct (open_offsets h g b Hl) as [O1 O2].
  exists g, p, m. split_and!; [done|done| |done]. unfold open_image. erewrite mbind_ok by exact E1.
  rewrite Hch. cbn [mlift]. erewrite mbind_ok by reflexivity.
  rewrite Z.shiftl_1_l, (lo_bits _ _ _ Hl).
  erewrite mbind_ok; cycle 1.
  { instantiate (1 := b). instantiate (1 := with_pos f p1). revert Hb. unfold backing_of.
    destruct (backing_file_path h) as [path|]; [|by intros [= <-]].
    destruct ob as [open|]; [|done]. unfold mbind, mlift. destruct (open path); [|done]. by intros [= <-]. }
  erewrite mbind_ok by reflexivity. cbn [flen with_pos]. rewrite Hct. erewrite mbind_ok by reflexivity.
  erewrite mbind_ok by exact E2. fold (lazy_refcounts h).
  unfold raw_from. rewrite Hpow. erewrite mbind_ok by exact E3. erewrite mbind_ok by exact E4.
  erewrite mbind_ok by reflexivity. cbn [fst snd].
  set (q := {| raw_file := _ |}).
  change (l1_address_offset q (virtual_size q)) with (l1_address_offset (loaded cs h g b) (QcowHeader.size h)).
  destruct (Z.ltb_spec u64_max (l1_table_offset h + l1_address_offset (loaded cs h g b) (QcowHeader.size h))); [lia|].
  destruct (Z.ltb_spec u64_max (QcowHeader.refcount_table_offset h + u64_mul (refcount_table_clusters h) cs)); [lia|].
  change q with (set_core (loaded cs h g b) (loaded_core cs h g (with_pos g p4) ∅ [])).
  rewrite E5. done.
Qed.

End Open.

Section Opened.
Context `{HashOrderLaws} `{ZeroOps} `{DiskLaws B}.

Lemma opened_inv h f (b : option B) p m :
  loadable cs h f → cache_on_disk cs h f m →
  (∀ b', b = Some b' → disk_ok b' ∧ QcowHeader.size h ≤ disk_size b') →
  let q := set_core (loaded cs h f b) (loaded_core cs h f (with_pos f p) m (free_clusters cs h f)) in
  qinv cs [] q ∧ (∀ x, content cs q x = content cs (loaded cs h f b) x) ∧
  entries cs q = entries cs (loaded cs h f b).
Proof.
  intros Hl Hm Hb q. pose proof (loaded_inv h f b Hl Hb) as Hi.
  destruct (qinv_core cs Hpow Hcs [] [] (loaded cs h f b) (loaded_core cs h f (with_pos f p) m (free_clusters cs h f)))
    as (Hi' & He & Hc).
  - done.
  - apply (loaded_core_inv h f b Hl Hb); [done|done|done|by right].
  - done.
  - by split.
  - done.
Qed.

Lemma open_exact_body writable (ob : option (list Z → result B Error)) h f b :
  header_ok h → next_bytes (with_pos f 0) (header_bytes h) → check_header h = Ok tt →
  check_tables h (flen f) = Ok tt → lazy_refcounts h = false → loadable cs h f →
  backing_of ob h = Ok b → (∀ b', b = Some b' → disk_ok b' ∧ QcowHeader.size h ≤ disk_size b') →
  ∃ p q, open_image writable ob f = (with_pos f p, Ok q) ∧ qinv cs [] q ∧ header q = h ∧
    backing_file q = b ∧ current_offset q = 0 ∧ avail_clusters q = free_clusters cs h f ∧
    ∀ x, content cs q x = content cs (loaded cs h f b) x.
Proof.
  intros Hh Hn Hch Hct Hlz Hl Hob Hb.
  destruct (open_image_spec writable ob h f b false (λ g, ∃ p, g = with_pos f p))
    as (g & p & m & [p0 ->] & Hlg & E & Hm); try done.
  - intros p. by apply first_count_set.
  - intros p. rewrite Hlz. exists (with_pos f p). split_and!; [done|by apply loadable_pos|by exists p].
  - destruct (opened_inv h (with_pos f p0) b p m Hlg Hm Hb) as (Hi & Hc & _).
    exists p. eexists. split_and!; [exact E|exact Hi|reflexivity..|].
    intros x. by rewrite Hc, content_pos.
Qed.

(** An image whose tables are consistent and whose reference counts are exact opens;
    the state satisfies the invariant, the disk holds what the tables of the file say,
    and exactly the clusters of the file whose count is zero are available. *)
Theorem open_exact writable (ob : option (list Z → result B Error)) h f b :
  header_ok h → next_bytes (with_pos f 0) (header_bytes h) → check_header h = Ok tt →
  check_tables h (flen f) = Ok tt → lazy_refcounts h = false → loadable cs h f →
  backing_of ob h = Ok b → (∀ b', b = Some b' → disk_ok b' ∧ QcowHeader.size h ≤ disk_size b') →
  ∃ p q, open_image writable ob f = (with_pos f p, Ok q) ∧ qinv cs [] q ∧ header q = h ∧
    backing_file q = b ∧ current_offset q = 0 ∧ avail_clusters q = free_clusters cs h f ∧
    ∀ x, content cs q x = content cs (loaded cs h f b) x.
Proof. apply open_exact_body. Qed.

End Opened.

End Load.
