(* ===== verification/QcowRepair.v ===== *)
(** * Opening an image whose reference counts are rebuilt

    Rebuilding the counts of an image that uses no cluster twice leaves tables that are
    consistent, so that the image opens to the disk that its tables held before. *)

From S2P Require Import Prelude Words Methods BlockFile QcowTables QcowHeader QcowFile QcowOpen QcowAlloc QcowDisk QcowRebuild QcowLoad.
From stdpp Require Import options.
Local Open Scope Z_scope.

(** ** Definitions *)

Section Defs.
Context (cs : Z).

(** The blocks that a rebuild of the image adds. *)
Definition added_blocks (h : QcowHeader) (f : File) : list Z :=
  new_refblocks cs h f (rebuild_max cs h) (rebuild_blocks cs h).

(** An image that can be rebuilt, uses no cluster twice, and whose clusters the new blocks
    count; the rest of the table of counts is empty. *)
Record repairable (h : QcowHeader) (f : File) : Prop := {
  rp_rebuild : rebuildable cs h f;
  rp_l1_size : l1_size h = l1_entries cs h;
  rp_clusters : max_clusters cs h < 2 ^ 32;
  rp_l1 : l1_entries cs h ≤ MAX_RAM_POINTER_TABLE_SIZE;
  rp_table : refcount_table_clusters h ≤ 2 * ref_entries cs h;
  rp_table_fits : 8 * ref_entries cs h ≤ refcount_table_clusters h * cs;
  rp_counts : ceil (l1_entries cs h) (cs `div` 8) + ref_entries cs h ≤ MAX_RAM_POINTER_TABLE_SIZE;
  rp_len : flen f ≤ ref_entries cs h * (cs `div` 2) * cs ≤ 2 ^ 56;
  rp_nodup : NoDup (references cs f h);
  rp_clus : Forall (λ a, (cs | a) ∧ 0 ≤ a < flen f) (references cs f h);
  rp_full : Forall (λ a, a + cs ≤ flen f) (data_refs cs f h);
  rp_ref_file : QcowHeader.refcount_table_offset h + 8 * ref_entries cs h ≤ flen f;
  rp_table_end : QcowHeader.refcount_table_offset h + refcount_table_clusters h * cs ≤
    ref_entries cs h * (cs `div` 2) * cs;
  rp_covered : Forall (λ a, Z.of_nat (cluster_index cs a) < rebuild_blocks cs h * (cs `div` 2))
    (references cs f h ++ added_blocks h f);
  rp_stale x : QcowHeader.refcount_table_offset h + 8 * rebuild_blocks cs h ≤ x <
    QcowHeader.refcount_table_offset h + 8 * ref_entries cs h → fbyte f x = 0;
  rp_plain a : a ∈ nz (l1_words cs h f) → Forall (λ e, Z.land e COMPRESSED_FLAG = 0) (disk_words cs f a);
}.

(** The first count of the file can be read. *)
Definition first_count_readable (h : QcowHeader) (f : File) : Prop :=
  let a := be_value (get_bytes f (QcowHeader.refcount_table_offset h) 8) in
  a = 0 ∨ 0 ≤ a ≤ 2 ^ 62 ∧ a + 2 ≤ flen f.
Definition first_count_zero (h : QcowHeader) (f : File) : bool :=
  let a := be_value (get_bytes f (QcowHeader.refcount_table_offset h) 8) in
  (a =? 0) || (be_value (get_bytes f a 2) =? 0).

End Defs.

#[global] Instance empty_disk_laws : DiskLaws Empty_set.
Proof. refine {| disk_ok _ := True; disk_byte _ _ := 0 |}. by intros []. Defined.

(** ** The clusters that tables reference *)

Lemma get_bytes_zero f' off n : (∀ x, off ≤ x < off + n → fbyte f' x = 0) → get_bytes f' off n = replicate (Z.to_nat n) 0.
Proof.
  intros Hz. apply list_eq. intros i. destruct (decide (i < Z.to_nat n)%nat) as [Hi|Hi].
  - rewrite lookup_get_bytes, lookup_replicate_2 by lia. f_equal. apply Hz. lia.
  - rewrite !lookup_ge_None_2; [done|rewrite length_replicate; lia|rewrite length_get_bytes; lia].
Qed.

Section Repair.
#[local] Set Default Proof Using "All".
Context (cs : Z) (Hpow : is_power_of_two cs = true) (Hcs : 512 ≤ cs ≤ 2 ^ 21).

Lemma ceil_scale a c k : 0 ≤ a → 0 < c → 0 < k → ceil (k * a) (k * c) = ceil a c.
Proof.
  intros Ha Hc Hk. unfold ceil. symmetry.
  pose proof (Z.div_mod (a + c - 1) c ltac:(lia)). pose proof (Z.mod_pos_bound (a + c - 1) c Hc).
  apply (Z.div_unique _ _ _ (k * ((a + c - 1) `mod` c) + k - 1)); nia.
Qed.

Lemma blocks_le_entries h : 0 ≤ max_clusters cs h → 0 ≤ rebuild_blocks cs h ≤ ref_entries cs h.
Proof.
  intros Hm. destruct (half_cluster cs Hpow Hcs) as (_ & E2 & Hp). unfold rebuild_blocks, ref_entries.
  rewrite <-(ceil_scale (max_clusters cs h) (cs `div` 2) 2) by lia.
  replace (2 * (cs `div` 2)) with cs by lia.
  destruct (ceil_cover cs Hpow Hcs (2 * max_clusters cs h) cs ltac:(lia) ltac:(lia)) as [H1 _].
  destruct (ceil_cover cs Hpow Hcs (2 * ceil (2 * max_clusters cs h) cs) cs ltac:(lia) ltac:(lia)) as [H2 _]. lia.
Qed.

Lemma ref_entries_one h : 0 ≤ QcowHeader.size h ≤ 2 ^ 44 → 1 ≤ ref_entries cs h.
Proof.
  intros Hs. destruct (image_clusters_spec cs Hpow Hcs h Hs) as [_ Hm]. unfold ref_entries.
  destruct (ceil_cover cs Hpow Hcs (2 * max_clusters cs h) cs ltac:(lia) ltac:(lia)) as [_ H1].
  destruct (ceil_cover cs Hpow Hcs (2 * ceil (2 * max_clusters cs h) cs) cs ltac:(nia) ltac:(lia)) as [H2 _]. nia.
Qed.

Lemma nz_zeros n : nz (replicate n 0) = [].
Proof. induction n as [|n IH]; [done|]. exact IH. Qed.

Lemma nz_cons a l : a ≠ 0 → nz (a :: l) = a :: nz l.
Proof. intros Ha. unfold nz. by rewrite filter_cons, decide_True. Qed.

Lemma nz_id l : (∀ a, a ∈ l → a ≠ 0) → nz l = l.
Proof.
  induction l as [|a l IH]; intros Ha; [done|]. rewrite nz_cons by (apply Ha; by left).
  f_equal. apply IH. intros b Hb. apply Ha. by right.
Qed.

Lemma nz_app l l' : nz (l ++ l') = nz l ++ nz l'.
Proof. apply filter_app. Qed.

(** What the L2 tables of a list of addresses reference. *)
Lemma l2_refs_perm f l :
  concat (l2_refs cs f <$> l) ≡ₚ
  nz l ++ nz (concat ((λ a, if a =? 0 then zeros cs
    else (λ e, Z.land e L2_TABLE_OFFSET_MASK) <$> disk_words cs f a) <$> l)).
Proof.
  induction l as [|a l IH]; [done|]. cbn [fmap list_fmap concat]. rewrite IH, nz_app. unfold l2_refs at 1.
  destruct (Z.eqb_spec a 0) as [->|Ha].
  - unfold zeros. rewrite nz_zeros. done.
  - rewrite (nz_cons a l Ha). cbn [app]. apply perm_skip.
    unfold table_words, disk_words.
    replace (8 * Z.of_nat (Z.to_nat (cs `div` 8))) with cs by (destruct (cs_even cs Hpow Hcs); lia).
    rewrite !app_assoc. f_equiv. apply Permutation_app_comm.
Qed.

Lemma l1_refs_meta n : 0 ≤ n → (n * 8 + cs - 1) `div` cs = (n + cs `div` 8 - 1) `div` (cs `div` 8).
Proof.
  intros Hn. destruct (cs_even cs Hpow Hcs) as [_ E8]. pose proof (ceil_scale n (cs `div` 8) 8 Hn ltac:(lia) ltac:(lia)) as E.
  unfold ceil in E. replace (8 * (cs `div` 8)) with cs in E by lia. by replace (n * 8) with (8 * n) by lia.
Qed.

(** The clusters of a loaded image are those that its tables reference. *)
Lemma kept_references h f :
  l1_size h = l1_entries cs h → 0 ≤ l1_entries cs h →
  kept cs (loaded (B := Empty_set) cs h f None) ≡ₚ references cs f h.
Proof.
  intros El Hn. unfold kept, references. rewrite (loaded_entries cs Hpow Hcs).
  cbn [loaded unref_clusters l1_table vec from_vec]. rewrite app_nil_r.
  unfold meta, ref_table_refs, l1_refs, data_refs. cbn [loaded header l1_table vec from_vec].
  rewrite length_l1_words, Z2Nat.id, l1_refs_meta, El by done.
  fold (l1_words cs h f). rewrite l2_refs_perm. cbn [app]. apply perm_skip.
  rewrite <-!app_assoc. f_equiv. by rewrite Permutation_app_comm, <-app_assoc.
Qed.

(** ** What a rebuild keeps *)

Lemma aligned_eq a b : (cs | a) → (cs | b) → 0 ≤ a → 0 ≤ b → cluster_index cs a = cluster_index cs b → a = b.
Proof.
  intros [i ->] [j ->] Ha Hb. unfold cluster_index. rewrite !Z.div_mul by lia. intros E. f_equal. nia.
Qed.

Lemma l1_region h z :
  0 ≤ l1_size h → l1_table_offset h ≤ z < l1_table_offset h + 8 * l1_size h →
  ∃ a, a ∈ l1_refs cs h ∧ a ≤ z < a + cs.
Proof.
  intros Hn Hz. set (o := l1_table_offset h) in *. exists (o + (z - o) `div` cs * cs).
  pose proof (Z.div_mod (z - o) cs ltac:(lia)). pose proof (Z.mod_pos_bound (z - o) cs ltac:(lia)).
  split; [|lia]. apply list_elem_of_fmap. exists ((z - o) `div` cs). split; [done|].
  apply elem_of_seqZ. split; [apply Z.div_pos; lia|]. rewrite <-l1_refs_meta by done.
  destruct (ceil_cover cs Hpow Hcs (l1_size h * 8) cs ltac:(lia) ltac:(lia)) as [_ Hc]. unfold ceil in Hc.
  rewrite Z.add_0_l. apply Z.div_lt_upper_bound; lia.
Qed.

Lemma in_data_refs h f a :
  l1_size h = l1_entries cs h → a ∈ nz (l1_words cs h f) ++ nz (entries cs (loaded (B := Empty_set) cs h f None)) →
  a ∈ data_refs cs f h.
Proof.
  intros El. unfold data_refs. rewrite El. fold (l1_words cs h f). by rewrite l2_refs_perm, (loaded_entries cs Hpow Hcs).
Qed.

Section Kept.
Context (h : QcowHeader) (f g : File) (Hr : repairable cs h f).
Context (Hw : counts_written cs h (rebuilt_counts cs h f (rebuild_max cs h) (rebuild_blocks cs h))
  (added_blocks cs h f) f g).

Lemma repair_l1 : 0 ≤ l1_entries cs h.
Proof.
  pose proof (rb_size _ _ _ (rp_rebuild _ _ _ Hr)). apply (l1_entries_cover cs Hpow Hcs). lia.
Qed.

Lemma repair_added :
  Z.of_nat (length (added_blocks cs h f)) = rebuild_blocks cs h ∧ NoDup (added_blocks cs h f) ∧
  ∀ a, a ∈ added_blocks cs h f → (cs | a) ∧ cs ≤ a ∧ a + cs ≤ rebuild_max cs h * cs ∧
    ∀ b, b ∈ references cs f h → cluster_index cs b ≠ cluster_index cs a.
Proof.
  pose proof (rp_rebuild _ _ _ Hr) as Hb. apply (new_refblocks_spec cs Hpow Hcs); try apply Hb.
Qed.

Lemma references_split : NoDup (0 :: (l1_refs cs h ++ data_refs cs f h) ++ ref_table_refs cs h).
Proof. rewrite <-app_assoc. apply (rp_nodup _ _ _ Hr). Qed.

Lemma referenced_cluster a : a ∈ l1_refs cs h ++ data_refs cs f h → (cs | a) ∧ cs ≤ a < flen f ∧
  a ∈ references cs f h ∧ a ∉ ref_table_refs cs h.
Proof.
  intros Ha. pose proof references_split as [H0 Hn]%NoDup_cons. apply NoDup_app in Hn as (_ & Hn & _).
  assert (a ∈ references cs f h) as Hin by (unfold references; rewrite !elem_of_app in *; tauto).
  pose proof (rp_clus _ _ _ Hr) as Hc. rewrite Forall_forall in Hc. destruct (Hc a Hin) as [Hd Hl].
  split_and!; [done| |lia|done|by apply Hn]. destruct Hd as [k ->].
  assert (k ≠ 0); [|nia]. intros ->. apply H0. rewrite elem_of_app. by left.
Qed.

Lemma rebuild_keeps : preserved cs (l1_refs cs h ++ data_refs cs f h) f g.
Proof.
  split; [apply Hw|]. intros a x Ha Hx. destruct (referenced_cluster a Ha) as (Hd & Hl & Hin & Hnot).
  pose proof (cluster_index_in cs Hpow Hcs a x Hd Hx) as Ex.
  apply (cw_outside _ _ _ _ _ _ Hw); [lia| |].
  - intros Ht. pose proof (rp_rebuild _ _ _ Hr) as Hb.
    destruct (ref_table_referenced cs Hpow Hcs h x (tr_aligned _ _ _ (rb_room _ _ _ Hb)) Ht) as (b & Hb' & Eb).
    apply Hnot. pose proof (rp_clus _ _ _ Hr) as Hc. rewrite Forall_forall in Hc.
    destruct (Hc b) as [Hdb Hlb]; [unfold references; rewrite !elem_of_app; tauto|].
    rewrite (aligned_eq a b); [done|done|done|lia|lia|congruence].
  - intros b Hb Hbx. destruct repair_added as (_ & _ & Hadd). destruct (Hadd b Hb) as (Hdb & _ & _ & Hun).
    apply (Hun a Hin). by rewrite <-Ex, (cluster_index_in cs Hpow Hcs b x).
Qed.

Lemma rebuild_l1_words : l1_words cs h g = l1_words cs h f.
Proof.
  unfold l1_words, table_words. do 2 f_equal. apply get_bytes_ext. intros z Hz. pose proof repair_l1.
  rewrite Z2Nat.id, <-(rp_l1_size _ _ _ Hr) in Hz by done.
  destruct (l1_region h z) as (a & Ha & Haz); [by rewrite (rp_l1_size _ _ _ Hr)|done|].
  apply rebuild_keeps with a; [apply elem_of_app; by left|done].
Qed.

Lemma rebuild_data_kept :
  preserved cs (nz (l1_words cs h f) ++ nz (entries cs (loaded (B := Empty_set) cs h f None))) f g.
Proof.
  eapply preserved_subset; [|apply rebuild_keeps]. intros a Ha. apply elem_of_app. right.
  apply in_data_refs; [apply Hr|done].
Qed.

Lemma rebuild_entries {B} (b : option B) : entries cs (loaded cs h g b) = entries cs (loaded cs h f b).
Proof.
  rewrite !(loaded_entries cs Hpow Hcs), rebuild_l1_words. f_equal. apply list_fmap_ext. intros i a Ha. cbn beta.
  destruct (Z.eqb_spec a 0) as [|Hne]; [done|]. f_equal.
  apply (disk_words_preserved cs Hpow Hcs _ _ _ _ rebuild_data_kept). apply elem_of_app. left.
  apply elem_of_nz. split; [exact (list_elem_of_lookup_2 _ _ _ Ha)|done].
Qed.

Lemma rebuild_kept :
  kept cs (loaded (B := Empty_set) cs h g None) = kept cs (loaded (B := Empty_set) cs h f None).
Proof.
  unfold kept, meta. rewrite rebuild_entries. cbn [loaded l1_table vec from_vec header unref_clusters].
  by rewrite rebuild_l1_words.
Qed.

Lemma added_small a : a ∈ added_blocks cs h f → cs ≤ a ≤ 2 ^ 56.
Proof.
  intros Ha. destruct repair_added as (_ & _ & Hadd). destruct (Hadd a Ha) as (_ & H1 & H2 & _).
  pose proof (rb_max _ _ _ (rp_rebuild _ _ _ Hr)) as Hm. unfold MAX_RAM_POINTER_TABLE_SIZE in Hm. nia.
Qed.

Lemma repair_blocks : 0 ≤ rebuild_blocks cs h ≤ ref_entries cs h.
Proof.
  apply blocks_le_entries. pose proof (rb_size _ _ _ (rp_rebuild _ _ _ Hr)) as Hs.
  destruct (image_clusters_spec cs Hpow Hcs h Hs). lia.
Qed.

(** The table of counts is the new blocks and zeros. *)
Lemma rebuild_ref_words :
  ref_words cs h g = added_blocks cs h f ++ replicate (Z.to_nat (ref_entries cs h - rebuild_blocks cs h)) 0.
Proof.
  destruct repair_added as (El & _ & _). pose proof repair_blocks as Hn.
  apply list_eq. intros i. destruct (decide (i < Z.to_nat (ref_entries cs h))%nat) as [Hi|Hi].
  - pose proof (ref_words_lookup cs Hpow Hcs h g (Z.of_nat i) ltac:(lia)) as [_ E]%vec_get_Some.
    rewrite Nat2Z.id in E. cbn [vec from_vec] in E. rewrite E.
    destruct (added_blocks cs h f !! i) as [a|] eqn:Ea.
    + rewrite (lookup_app_l_Some _ _ _ _ Ea). f_equal.
      pose proof (get_bytes_word cs Hpow Hcs 8 (added_blocks cs h f) g (QcowHeader.refcount_table_offset h) i a
        (cw_table _ _ _ _ _ _ Hw) Ea) as Hg. change (Z.of_nat 8) with 8 in Hg. rewrite Hg, be_value_bytes.
      pose proof (added_small a ltac:(by eapply list_elem_of_lookup_2)). apply Z.mod_small. simpl. lia.
    + apply lookup_ge_None in Ea. rewrite lookup_app_r, lookup_replicate_2 by lia. f_equal.
      rewrite get_bytes_zero; [done|]. intros x Hx. pose proof (rp_table_fits _ _ _ Hr).
      rewrite (cw_rest _ _ _ _ _ _ Hw) by lia. case_decide; [done|]. apply (rp_stale _ _ _ Hr). lia.
  - rewrite !lookup_ge_None_2; [done|..].
    + rewrite length_app, length_replicate. lia.
    + rewrite length_ref_words by done. lia.
Qed.

Lemma rebuild_in_use : in_use cs h g ≡ₚ references cs f h ++ added_blocks cs h f.
Proof.
  unfold in_use. rewrite rebuild_kept, kept_references, rebuild_ref_words, nz_app, nz_zeros, app_nil_r.
  - rewrite nz_id; [done|]. intros a Ha. pose proof (added_small a Ha). lia.
  - apply Hr.
  - apply repair_l1.
Qed.

Lemma rebuild_counted a :
  a ∈ references cs f h ++ added_blocks cs h f → disk_refcount cs h g (cluster_index cs a) ≠ 0.
Proof.
  intros Ha. pose proof (rp_rebuild _ _ _ Hr) as Hb. destruct repair_added as (El & _ & Hadd).
  pose proof (rp_covered _ _ _ Hr) as Hcov. rewrite Forall_forall in Hcov. pose proof (Hcov a Ha) as Hi.
  destruct (half_cluster cs Hpow Hcs) as (Eh & _ & Hp).
  assert (Z.of_nat (cluster_index cs a) < rebuild_max cs h) as Hmax.
  { destruct (cm_max _ _ _ _ _ (rb_count _ _ _ Hb)) as [Hm _]. apply elem_of_app in Ha as [Ha|Ha].
    - pose proof (cm_range _ _ _ _ _ (rb_count _ _ _ Hb)) as Hc. rewrite Forall_forall in Hc.
      pose proof (Hc a Ha). simpl in *. lia.
    - destruct (Hadd a Ha) as ([k ->] & Hk & Hk2 & _). unfold cluster_index. rewrite Z.div_mul by lia. nia. }
  pose proof (refs_to_pos cs Hpow Hcs a _ Ha) as Hpos.
  erewrite (disk_refcount_written cs Hpow Hcs) with
    (n := refs_to cs (references cs f h ++ added_blocks cs h f) (cluster_index cs a));
    [|exact Hw|apply counts_ok_add_refs| |..].
  - lia.
  - by apply (rebuilt_counts_lookup cs Hpow Hcs).
  - apply Nat.Div0.div_lt_upper_bound. nia.
  - apply Forall_forall. apply added_small.
Qed.

Lemma rebuild_loadable : loadable cs h g.
Proof.
  pose proof (rp_rebuild _ _ _ Hr) as Hb. pose proof (rb_room _ _ _ Hb) as Ht. pose proof (rb_count _ _ _ Hb) as Hc.
  destruct repair_added as (El & Hnd & Hadd). pose proof repair_blocks as Hn. destruct (half_cluster cs Hpow Hcs) as (_ & _ & Hp).
  pose proof (cw_len _ _ _ _ _ _ Hw) as Hlen. pose proof (rp_clus _ _ _ Hr) as Hrc. rewrite Forall_forall in Hrc.
  pose proof (rp_covered _ _ _ Hr) as Hcov. rewrite Forall_forall in Hcov.
  assert (∀ a, a ∈ added_blocks cs h f → a + cs ≤ flen g) as Hfull.
  { intros a [k Hk]%list_elem_of_lookup_1. apply (cw_blocks _ _ _ _ _ _ Hw k a Hk). }
  constructor.
  - apply Ht.
  - apply Hb.
  - apply Hb.
  - apply Hr.
  - apply Hr.
  - apply Hr.
  - apply Hr.
  - apply Hr.
  - apply Hc.
  - rewrite <-(rp_l1_size _ _ _ Hr). pose proof (cm_l1_file _ _ _ _ _ Hc). lia.
  - apply Hc.
  - pose proof (rp_ref_file _ _ _ Hr). lia.
  - apply Hw.
  - split; [|apply Hr]. apply (cw_max _ _ _ _ _ _ Hw); [apply Hr| |apply Hr].
    intros a Ha. pose proof (Hcov a ltac:(apply elem_of_app; by right)) as Hi. destruct (Hadd a Ha) as ([k ->] & Hk & _).
    unfold cluster_index in Hi. rewrite Z.div_mul in Hi by lia.
    assert (k + 1 ≤ ref_entries cs h * (cs `div` 2)) by nia. nia.
  - rewrite rebuild_in_use. apply NoDup_app. split_and!; [apply Hr| |done].
    intros a Ha Ha'. destruct (Hadd a Ha') as (_ & _ & _ & Hun). by apply (Hun a).
  - rewrite rebuild_in_use. apply Forall_app. split; apply Forall_forall; intros a Ha.
    + destruct (Hrc a Ha). split; [done|lia].
    + destruct (Hadd a Ha) as (? & ? & _). pose proof (Hfull a Ha). split; [done|lia].
  - rewrite rebuild_l1_words, rebuild_entries, rebuild_ref_words, nz_app, nz_zeros, app_nil_r.
    pose proof (rp_full _ _ _ Hr) as Hf. rewrite Forall_forall in Hf. rewrite app_assoc. apply Forall_app.
    split; apply Forall_forall; intros a Ha.
    + pose proof (Hf a (in_data_refs h f a (rp_l1_size _ _ _ Hr) Ha)). simpl in *. lia.
    + apply elem_of_nz in Ha as [Ha _]. by apply Hfull.
  - rewrite rebuild_l1_words. intros a Ha.
    rewrite (disk_words_preserved cs Hpow Hcs _ _ _ a rebuild_data_kept) by (apply elem_of_app; by left).
    by apply (rp_plain _ _ _ Hr).
  - intros a Ha. rewrite rebuild_in_use in Ha. by apply rebuild_counted.
Qed.

End Kept.

Lemma first_count_spec h f p :
  0 ≤ QcowHeader.refcount_table_offset h ≤ 2 ^ 62 → QcowHeader.refcount_table_offset h + 8 ≤ flen f →
  first_count_readable h f →
  ∃ p', first_refcount_zero h (with_pos f p) = (with_pos f p', Ok (first_count_zero h f)).
Proof.
  intros Ho Hl Hr. unfold first_refcount_zero, first_count_zero. unfold first_count_readable in Hr.
  unfold mbind at 1, mmap_err at 1. rewrite seek_start_ok by lia.
  change (with_pos (with_pos f p) ?x) with (with_pos f x). unfold mbind at 1, mmap_err at 1.
  rewrite (read_u64_ok cs Hpow Hcs) by lia.
  set (a := be_value (get_bytes f (QcowHeader.refcount_table_offset h) 8)) in *.
  destruct (Z.eqb_spec a 0) as [|Ha]; [by eexists|]. destruct Hr as [|[H1 H2]]; [done|].
  unfold mbind at 1, mmap_err at 1. rewrite seek_start_ok by lia.
  change (with_pos (with_pos f _) ?x) with (with_pos f x). unfold mbind at 1, mmap_err at 1.
  rewrite (read_u16_ok cs Hpow Hcs) by lia. by eexists.
Qed.

Section Opened.
Context `{HashOrderLaws} `{ZeroOps} `{DiskLaws B}.

Lemma rebuild_content h f g (b : option B) x :
  repairable cs h f →
  counts_written cs h (rebuilt_counts cs h f (rebuild_max cs h) (rebuild_blocks cs h)) (added_blocks cs h f) f g →
  content cs (loaded cs h g b) x = content cs (loaded cs h f b) x.
Proof.
  intros Hr Hw. apply (content_frame cs Hpow Hcs); [by apply rebuild_entries|done|].
  eapply preserved_subset; [|exact (rebuild_data_kept h f g Hr Hw)].
  assert (entries cs (loaded cs h f b) = entries cs (loaded (B := Empty_set) cs h f None)) as ->
    by by rewrite !(loaded_entries cs Hpow Hcs).
  intros a Ha. apply elem_of_app. by right.
Qed.

Lemma repairable_pos h f p : repairable cs h f → repairable cs h (with_pos f p).
Proof.
  intros []. constructor; rewrite ?references_pos, ?(l1_words_pos cs Hpow Hcs); try assumption.
  by apply rebuildable_pos.
Qed.

Lemma open_rebuilt_body (ob : option (list Z → result B Error)) h f b :
  header_ok h → next_bytes (with_pos f 0) (header_bytes h) → check_header h = Ok tt →
  check_tables h (flen f) = Ok tt → first_count_readable h f →
  first_count_zero h f || lazy_refcounts h = true → repairable cs h f →
  backing_of ob h = Ok b → (∀ b', b = Some b' → disk_ok b' ∧ QcowHeader.size h ≤ disk_size b') →
  ∃ g q, open_image true ob f = (g, Ok q) ∧ qinv cs [] q ∧ header q = h ∧ backing_file q = b ∧
    current_offset q = 0 ∧ next_bytes (with_pos g 0) (header_bytes (exact_header h)) ∧
    (∀ x, content cs q x = content cs (loaded cs h f b) x) ∧
    entries cs q = entries cs (loaded cs h f b) ∧
    max_valid_cluster_offset (refcounts q) = (ref_entries cs h * (cs `div` 2) - 1) * cs ∧
    ∀ n, flen f ≤ n → (∀ a, a ∈ added_blocks cs h f → a + cs ≤ n) →
      QcowHeader.refcount_table_offset h + refcount_table_clusters h * cs ≤ n → flen (rfile (raw_file q)) ≤ n.
Proof.
  intros Hh Hn Hch Hct Hf Hz Hr Hob Hb. pose proof (rp_rebuild _ _ _ Hr) as Hrb.
  destruct (open_image_spec cs Hpow Hcs true ob h f b (first_count_zero h f) (λ g, ∃ p,
    counts_written cs h (rebuilt_counts cs h (with_pos f p) (rebuild_max cs h) (rebuild_blocks cs h))
      (added_blocks cs h (with_pos f p)) (with_pos f p) g)) as (g & p & m & [p0 Hw] & Hlg & E & Hm); try done.
  - intros p. apply first_count_spec; [apply Hrb| |done].
    pose proof (rp_ref_file _ _ _ Hr). pose proof (ref_entries_one h (rb_size _ _ _ Hrb)). lia.
  - intros p. rewrite Hz.
    destruct (rebuild_body cs Hpow Hcs h (with_pos f p) (rebuildable_pos _ _ _ _ Hrb)) as (g & E & Hw & _).
    exists g. split_and!; [done| |by exists p].
    by apply (rebuild_loadable h (with_pos f p) g (repairable_pos _ _ _ Hr)).
  - destruct (opened_inv cs Hpow Hcs h g b p m Hlg Hm Hb) as (Hi & Hc & He).
    exists (with_pos g p). eexists. split_and!; [exact E|exact Hi|reflexivity..| | | |reflexivity|].
    + apply (cw_header _ _ _ _ _ _ Hw).
    + intros x. rewrite Hc, (rebuild_content h (with_pos f p0) g b x (repairable_pos _ _ _ Hr) Hw).
      apply (content_pos cs Hpow Hcs).
    + rewrite He, (rebuild_entries h (with_pos f p0) g (repairable_pos _ _ _ Hr) Hw). apply (entries_pos cs Hpow Hcs).
    + apply (cw_max _ _ _ _ _ _ Hw).
Qed.

(** C17: an image whose counts are lazy, or whose first count is zero, is rebuilt when it is
    opened for writing.  It opens if its header can be read back and passes the checks of
    [QcowFile::from], its first count can be read, its backing file, if it names one, opens and is at least as large, and it is [repairable]:
    its counts can be rebuilt (see [rebuildable]); the tables have the sizes that the
    virtual size asks for, within the limits on tables in memory, and the table of counts
    can address the whole file; no cluster is used twice, all are aligned and inside the file, and none is compressed; the new blocks of
    counts cover every cluster in use and themselves, which fails for images that are
    nearly full; and the entries of the table of counts after theirs are zero.  Then the
    state satisfies the invariant, the disk is the one that the tables held, and the
    header on disk says that the counts are exact. *)
Theorem open_rebuilt (ob : option (list Z → result B Error)) h f b :
  header_ok h → next_bytes (with_pos f 0) (header_bytes h) → check_header h = Ok tt →
  check_tables h (flen f) = Ok tt → first_count_readable h f →
  first_count_zero h f || lazy_refcounts h = true → repairable cs h f →
  backing_of ob h = Ok b → (∀ b', b = Some b' → disk_ok b' ∧ QcowHeader.size h ≤ disk_size b') →
  ∃ g q, open_image true ob f = (g, Ok q) ∧ qinv cs [] q ∧ header q = h ∧ backing_file q = b ∧
    current_offset q = 0 ∧ next_bytes (with_pos g 0) (header_bytes (exact_header h)) ∧
    ∀ x, content cs q x = content cs (loaded cs h f b) x.
Proof.
  intros Hh Hn Hch Hct Hf Hz Hr Hob Hb.
  destruct (open_rebuilt_body ob h f b Hh Hn Hch Hct Hf Hz Hr Hob Hb) as (g & q & E & Q1 & Q2 & Q3 & Q4 & Q5 & Q6 & _).
  exists g, q. by split_and!.
Qed.

End Opened.

End Repair.
