(* ===== verification/QcowChain.v ===== *)
(** * Images and their backing files

    An image of any depth provides the interface that it asks of its backing file, and a
    chain of consistent images opens to the disk of the chain: a cluster that an
    image does not hold is read from the image behind it. *)

From S2P Require Import Prelude Words Methods BlockFile QcowTables QcowHeader QcowFile QcowOpen QcowAlloc QcowDisk QcowRead QcowRebuild QcowLoad QcowRepair.
From stdpp Require Import options.
Local Open Scope Z_scope.

(** ** Definitions *)

Section Laws.
#[local] Set Default Proof Using "All".
Context `{HashOrderLaws} `{ZeroOps}.

(** An image of any cluster size is a disk. *)
Definition qcow_laws `{DiskLaws B} : DiskLaws (QcowFile B).
Proof.
  refine {| disk_ok q := is_power_of_two (cluster_size (raw_file q)) = true ∧
              512 ≤ cluster_size (raw_file q) ≤ 2 ^ 21 ∧ qinv (cluster_size (raw_file q)) [] q;
            disk_byte q := content (cluster_size (raw_file q)) q |}.
  intros q off n (Hp & Hc & Hi) Ho Hn Hs.
  destruct (qcow_read_at_spec _ Hp Hc q off n Hi Ho Hn Hs) as (q' & E & Hi' & Hv & Hx).
  exists q'. rewrite (qi_cs _ _ _ Hi'). split_and!; (done || lia).
Defined.

#[global] Instance image_laws : ∀ d, DiskLaws (Image d) :=
  fix image_laws d :=
    match d with
    | O => qcow_laws (B := Empty_set)
    | S d => qcow_laws (B := Image d) (H2 := image_disk d) (H3 := image_laws d)
    end.

End Laws.

Section Defs.
Context (open_file : list Z → result File io_error).

Definition chain_size (f : File) : Z :=
  match (header_new f).2 with Ok h => QcowHeader.size h | Err _ => 0 end.

(** The byte of the disk at [x], by the tables of the files. *)
Fixpoint chain_byte (d : nat) (f : File) (x : Z) : Z :=
  match (header_new f).2 with
  | Ok h =>
      let cs := 2 ^ cluster_bits h in
      let a := entry_at cs (loaded (B := Empty_set) cs h f None) x in
      if a =? 0 then
        match d, backing_file_path h with
        | S d, Some p => match open_file p with Ok f' => chain_byte d f' x | Err _ => 0 end
        | _, _ => 0
        end
      else fbyte f (a + x `mod` cs)
  | Err _ => 0
  end.

(** A file with consistent tables, exact counts, and a header that is its own. *)
Record consistent (cs : Z) (h : QcowHeader) (f : File) : Prop := {
  cn_pow : is_power_of_two cs = true;
  cn_range : 512 ≤ cs ≤ 2 ^ 21;
  cn_header : header_ok h;
  cn_bytes : next_bytes (with_pos f 0) (header_bytes h);
  cn_check : check_header h = Ok tt;
  cn_tables : check_tables h (flen f) = Ok tt;
  cn_exact : lazy_refcounts h = false;
  cn_loadable : loadable cs h f;
}.

(** A chain of [d] backing files at most, each at least as large as the image it backs. *)
Fixpoint good_chain (d : nat) (f : File) : Prop :=
  ∃ cs h, consistent cs h f ∧
    match backing_file_path h, d with
    | None, _ => True
    | Some p, O => False
    | Some p, S d => ∃ f', open_file p = Ok f' ∧ good_chain d f' ∧ QcowHeader.size h ≤ chain_size f'
    end.

End Defs.

(** ** Opening a chain *)

Section Chain.
#[local] Set Default Proof Using "All".
Context `{HashOrderLaws} `{ZeroOps} (open_file : list Z → result File io_error).

Lemma consistent_header cs h f : consistent cs h f → (header_new f).2 = Ok h.
Proof. intros Hc. destruct (header_new_spec h f (cn_header _ _ _ Hc) (cn_bytes _ _ _ Hc)) as [p ->]. done. Qed.

(** One image of the chain. *)
Lemma open_one `{DiskLaws B} writable (ob : option (list Z → result B Error)) cs h f b :
  consistent cs h f → backing_of ob h = Ok b →
  (∀ b', b = Some b' → disk_ok b' ∧ QcowHeader.size h ≤ disk_size b') →
  ∃ p q, open_image writable ob f = (with_pos f p, Ok q) ∧ cluster_size (raw_file q) = cs ∧
    qinv cs [] q ∧ virtual_size q = QcowHeader.size h ∧
    ∀ x, content cs q x =
      let a := entry_at cs (loaded (B := Empty_set) cs h f None) x in
      if a =? 0 then match b with Some b' => disk_byte b' x | None => 0 end
      else fbyte f (a + x `mod` cs).
Proof.
  intros Hc Hb Hok. pose proof (cn_pow _ _ _ Hc) as Hpow. pose proof (cn_range _ _ _ Hc) as Hcs.
  destruct (open_exact_body cs Hpow Hcs writable ob h f b) as (p & q & E & Hi & Eh & _ & _ & _ & Hx);
    try apply Hc; try done.
  exists p, q. split_and!; [done|apply Hi|done|unfold virtual_size; by rewrite Eh|].
  intros x. rewrite Hx. unfold content, entry_at, backing_byte. cbv zeta.
  by rewrite !(loaded_entries cs Hpow Hcs).
Qed.

Lemma open_chain_body d writable f :
  good_chain open_file d f →
  ∃ p q, from_with_nesting_depth open_file d writable f = (with_pos f p, Ok q) ∧ disk_ok q ∧
    disk_size q = chain_size f ∧ ∀ x, disk_byte q x = chain_byte open_file d f x.
Proof.
  revert writable f. induction d as [|d IH]; intros writable f (cs & h & Hc & Hb);
    pose proof (consistent_header cs h f Hc) as Eh; pose proof (lo_bits _ _ _ (cn_loadable _ _ _ Hc)) as Ecs.
  - assert (backing_of (B := Empty_set) None h = Ok None) as Hob.
    { unfold backing_of. by destruct (backing_file_path h). }
    destruct (open_one writable None cs h f None Hc Hob) as (p & q & E & Eq & Hi & Hv & Hx); [done|].
    exists p, q. split_and!; [exact E|..].
    + cbn. rewrite Eq. split_and!; [apply Hc|apply Hc|apply Hc|done].
    + cbn. unfold chain_size. by rewrite Eh.
    + intros x. cbn. rewrite Eq, Eh, Ecs. apply Hx.
  - set (ob := Some (λ path, match open_file path with
        | Err e => Err (BackingFileIo e)
        | Ok f => match from_with_nesting_depth open_file d false f with
                  | (_, Ok b) => Ok b
                  | (_, Err e) => Err (BackingFileOpen e)
                  end
        end)).
    assert (∃ b, backing_of ob h = Ok b ∧
      (∀ b', b = Some b' → disk_ok b' ∧ QcowHeader.size h ≤ disk_size b') ∧
      ∀ x, match b with Some b' => disk_byte b' x | None => 0 end =
           match backing_file_path h with
           | Some p => match open_file p with Ok f' => chain_byte open_file d f' x | Err _ => 0 end
           | None => 0
           end) as (b & Hob & Hok & Hbx).
    { unfold backing_of. destruct (backing_file_path h) as [path|]; [|by exists None].
      destruct Hb as (f' & Ef & Hg & Hs). destruct (IH false f' Hg) as (p' & q' & E' & Hok' & Hs' & Hx').
      exists (Some q'). cbn [ob]. rewrite Ef, E'. split_and!; [done| |done].
      intros b' [= <-]. split; [done|lia]. }
    destruct (open_one writable ob cs h f b Hc Hob Hok) as (p & q & E & Eq & Hi & Hv & Hx).
    exists p, q. split_and!; [exact E|..].
    + cbn. rewrite Eq. split_and!; [apply Hc|apply Hc|apply Hc|done].
    + cbn. unfold chain_size. by rewrite Eh.
    + intros x. cbn. rewrite Eq, Eh, Ecs, Hx. cbv zeta. by rewrite Hbx.
Qed.

(** C18: a chain of images opens, up to the depth [d] that is allowed, when each image in it is
    [consistent] (a header that can be read back and passes the checks, counts that are not lazy,
    tables in bounds, no cluster used twice, none compressed, every cluster in use
    counted), the
    path of each backing file opens, and no image is larger than its backing file.  The
    disk is that of the chain: it has the size of the first image, and each cluster comes
    from the first image that holds it. *)
Theorem open_chain d writable f :
  good_chain open_file d f →
  ∃ p q, from_with_nesting_depth open_file d writable f = (with_pos f p, Ok q) ∧ disk_ok q ∧
    disk_size q = chain_size f ∧ ∀ x, disk_byte q x = chain_byte open_file d f x.
Proof. apply open_chain_body. Qed.

End Chain.
