(* ===== verification/QcowNew.v ===== *)
(** * Creating an image

    [create_for_size_and_path] and [new_from_header] make an image of a disk that reads as
    zeros, or as its backing file. *)

From S2P Require Import Prelude Words Methods BlockFile QcowTables QcowHeader QcowFile QcowOpen QcowAlloc QcowDisk QcowRead QcowWrite QcowRefine QcowRebuild QcowLoad QcowRepair QcowChain.
From stdpp Require Import options.
Local Open Scope Z_scope.

(** ** Definitions *)

(** The cluster size of a new image, and the largest disk whose clusters can be counted. *)
Definition CS : Z := 65536.
Definition max_new_size : Z := 2 ^ 41.

(** The sizes of a new image: clusters of data, L2 tables, clusters of the L1 table. *)
Definition new_data (size : Z) : Z := ceil size CS.
Definition new_l2 (size : Z) : Z := ceil (new_data size) 8192.
Definition new_l1 (size : Z) : Z := ceil (new_l2 size) 8192.

Definition new_header (version size : Z) (path : option (list Z)) : QcowHeader :=
  let header_size := if version =? 2 then V2_BARE_HEADER_SIZE
                     else V3_BARE_HEADER_SIZE + QCOW_EMPTY_HEADER_EXTENSION_SIZE in
  {| magic := QCOW_MAGIC; QcowHeader.version := version;
     backing_file_offset := match path with None => 0 | Some _ => header_size end;
     backing_file_size := match path with None => 0 | Some p => Z.of_nat (length p) end;
     cluster_bits := DEFAULT_CLUSTER_BITS; QcowHeader.size := size; crypt_method := 0;
     l1_size := new_l2 size; l1_table_offset := CS;
     QcowHeader.refcount_table_offset := CS * (new_l1 size + 1); refcount_table_clusters := 1;
     nb_snapshots := 0; snapshots_offset := 0; incompatible_features := 0;
     compatible_features := 0; autoclear_features := 0; refcount_order := DEFAULT_REFCOUNT_ORDER;
     QcowHeader.header_size := header_size; backing_file_path := path |}.

(** What [new] is given: a supported version, a size, and a path that fits. *)
Record new_args (version size : Z) (path : option (list Z)) : Prop := {
  na_version : version = 2 ∨ version = 3;
  na_size : 0 ≤ size ≤ max_new_size;
  na_path : match path with
            | None => True
            | Some p => Z.of_nat (length p) ≤ MAX_BACKING_FILE_SIZE ∧ from_utf8 p = Some p
            end;
}.

(** The backing file of a new image, by its path: a chain that opens. *)
Definition backing_chain (open_file : list Z → result File io_error) (d : nat) (size : Z)
    (path : option (list Z)) : Prop :=
  match path with
  | None => True
  | Some p => ∃ f, open_file p = Ok f ∧ good_chain open_file d f ∧ size ≤ chain_size f
  end.
Definition backing_chain_byte (open_file : list Z → result File io_error) (d : nat)
    (path : option (list Z)) (x : Z) : Z :=
  match path with
  | None => 0
  | Some p => match open_file p with Ok f => chain_byte open_file d f x | Err _ => 0 end
  end.

(** ** Sizes *)

Lemma CS_pow : is_power_of_two CS = true.
Proof. reflexivity. Qed.

Lemma CS_range : 512 ≤ CS ≤ 2 ^ 21.
Proof. unfold CS. lia. Qed.

Lemma ceil_le a b c m : 0 ≤ a ≤ m → 0 < b → m ≤ c * b → 0 ≤ ceil a b ≤ c.
Proof.
  intros Ha Hb Hm. unfold ceil. split; [apply Z.div_pos; lia|].
  apply Z.lt_succ_r, Z.div_lt_upper_bound; nia.
Qed.

Lemma ceil_ge a b c : 0 < b → (c - 1) * b < a → c ≤ ceil a b.
Proof. intros Hb Ha. unfold ceil. apply Z.div_le_lower_bound; nia. Qed.

Lemma ceil_one a b : 0 < a ≤ b → ceil a b = 1.
Proof.
  intros Ha. pose proof (ceil_le a b 1 a ltac:(lia) ltac:(lia) ltac:(lia)).
  pose proof (ceil_ge a b 1 ltac:(lia) ltac:(lia)). lia.
Qed.

Lemma u32_add_small a b : 0 ≤ a → 0 ≤ b → a + b < 2 ^ 32 → u32_add a b = a + b.
Proof. intros Ha Hb Hs. unfold u32_add, u32_wrap. apply Z.mod_small. lia. Qed.

Section New.
#[local] Set Default Proof Using "All".
Context (version size : Z) (path : option (list Z)) (Ha : new_args version size path).
#[local] Notation h := (new_header version size path).

Lemma new_sizes :
  0 ≤ new_data size ≤ 33554432 ∧ 0 ≤ new_l2 size ≤ 4096 ∧ 0 ≤ new_l1 size ≤ 1 ∧
  max_clusters CS h = new_data size + new_l2 size + new_l1 size + 1.
Proof.
  pose proof (na_size _ _ _ Ha) as Hs. unfold max_new_size in Hs.
  assert (0 ≤ new_data size ≤ 33554432) as Hd by (unfold new_data, CS; eapply ceil_le; [exact Hs|lia|lia]).
  assert (0 ≤ new_l2 size ≤ 4096) as H2 by (unfold new_l2; eapply ceil_le; [exact Hd|lia|lia]).
  assert (0 ≤ new_l1 size ≤ 1) as H1 by (unfold new_l1; eapply ceil_le; [exact H2|lia|lia]).
  split_and!; try lia. reflexivity.
Qed.

Lemma div_round_up_u32_spec a b : 0 ≤ a < 2 ^ 31 → 0 < b → div_round_up_u32 a b = ceil a b.
Proof.
  intros Ha' Hb. unfold div_round_up_u32, ceil. pose proof (Z.div_mod a b ltac:(lia)) as Ed.
  pose proof (Z.mod_pos_bound a b Hb) as Hm. pose proof (Z.div_pos a b ltac:(lia) Hb).
  assert (a `div` b ≤ a) by (apply Z.div_le_upper_bound; nia).
  unfold u32_add, u32_wrap. rewrite Z.mod_small by (destruct (a `mod` b =? 0); lia).
  destruct (Z.eqb_spec (a `mod` b) 0) as [E|E].
  - rewrite Z.add_0_r. apply (Z.div_unique _ _ _ (b - 1)); lia.
  - apply (Z.div_unique _ _ _ (a `mod` b - 1)); lia.
Qed.

(** The blocks of counts of a new image. *)
Lemma new_blocks : 1 ≤ rebuild_blocks CS h ≤ 1025 ∧ rebuild_blocks CS h + 1 = ref_entries CS h ∧
  max_clusters CS h ≤ rebuild_blocks CS h * 32768.
Proof.
  destruct new_sizes as (Hd & H2 & H1 & Em). unfold rebuild_blocks, ref_entries.
  generalize dependent (max_clusters CS h). intros m Em.
  change (CS `div` 2) with 32768. change (ceil (2 * m) CS) with (ceil (2 * m) (2 * 32768)).
  rewrite (ceil_scale CS CS_pow CS_range m 32768 2) by lia.
  assert (1 ≤ ceil m 32768 ≤ 1025) as Hn.
  { split; [apply ceil_ge; lia|]. eapply (ceil_le m 32768 1025 m); lia. }
  split_and!; [lia|lia| |].
  - by rewrite (ceil_one (2 * ceil m 32768) CS) by (unfold CS; lia).
  - destruct (ceil_cover CS CS_pow CS_range m 32768 ltac:(lia) ltac:(lia)). lia.
Qed.

Lemma new_rebuild_max : max_clusters CS h + 2 ≤ rebuild_max CS h ≤ MAX_RAM_POINTER_TABLE_SIZE ∧
  rebuild_blocks CS h + 3 ≤ rebuild_max CS h.
Proof.
  destruct new_blocks as (Hn & _ & _). destruct new_sizes as (Hd & H2 & H1 & Em). unfold rebuild_max.
  generalize dependent (rebuild_blocks CS h). intros n Hn. unfold MAX_RAM_POINTER_TABLE_SIZE.
  change (CS `div` 8) with 8192. change (CS `div` 2) with 32768.
  rewrite (ceil_one n), (ceil_one (n + 1)), (ceil_one 1) by lia. lia.
Qed.

Lemma create_spec : create_for_size_and_path version size path = Ok h.
Proof.
  pose proof (na_size _ _ _ Ha) as Hs. unfold max_new_size in Hs. pose proof (na_path _ _ _ Ha) as Hp.
  destruct new_sizes as (Hd & H2 & H1 & Em). destruct new_blocks as (Hn & En & _).
  assert (match path with Some p => Z.of_nat (length p) | None => 0 end ≤ 1023 ∧
    0 ≤ match path with Some p => Z.of_nat (length p) | None => 0 end) as [Hl Hl0].
  { unfold MAX_BACKING_FILE_SIZE in Hp. destruct path; lia. }
  unfold create_for_size_and_path. change (Z.shiftl 1 DEFAULT_CLUSTER_BITS) with CS.
  rewrite (proj2 (Z.ltb_ge _ _)).
  2:{ unfold CS, V2_BARE_HEADER_SIZE, V3_BARE_HEADER_SIZE, QCOW_EMPTY_HEADER_EXTENSION_SIZE. destruct (version =? 2); lia. }
  change (CS `div` 8) with 8192. rewrite (div_round_up_spec size CS) by (unfold CS; lia).
  fold (new_data size). assert (u32_wrap (new_data size) = new_data size) as -> by (apply Z.mod_small; lia).
  rewrite !(div_round_up_u32_spec (new_data size)) by lia. fold (new_l2 size).
  rewrite !(div_round_up_u32_spec (new_l2 size)) by lia. fold (new_l1 size).
  change (div_round_up_u32 QCOW_HEADER_STRUCT_SIZE CS) with 1.
  assert (u32_add (u32_add (u32_add (new_data size) (new_l1 size)) (new_l2 size)) 1 = max_clusters CS h) as ->.
  { rewrite Em. rewrite (u32_add_small (new_data size)), (u32_add_small (new_data size + _)), u32_add_small by lia. lia. }
  change DEFAULT_REFCOUNT_ORDER with 4 at 1.
  rewrite (max_refcount_clusters_spec CS CS_pow CS_range h) by (simpl QcowHeader.size; lia).
  rewrite <-En.
  assert (u32_wrap (rebuild_blocks CS h + 1) = rebuild_blocks CS h + 1) as -> by (apply Z.mod_small; lia).
  assert (u32_mul (rebuild_blocks CS h + 1) 8 = (rebuild_blocks CS h + 1) * 8) as ->.
  { unfold u32_mul, u32_wrap. apply Z.mod_small. lia. }
  assert (CS = 65536) as HCS by done. rewrite div_round_up_u32_spec, ceil_one by lia.
  assert (u32_mul CS (u32_add (new_l1 size) 1) = CS * (new_l1 size + 1)) as ->.
  { rewrite u32_add_small by lia. unfold u32_mul, u32_wrap, CS. apply Z.mod_small. lia. }
  unfold new_header. do 2 f_equal. unfold u32_wrap. rewrite Z.mod_small by lia. by destruct path.
Qed.

Lemma new_fixed_length :
  Z.of_nat (length (fixed_bytes h)) = if version =? 2 then 72 else 112.
Proof.
  unfold fixed_bytes. rewrite !length_app, !length_be_bytes. cbn [new_header QcowHeader.version].
  destruct (na_version _ _ _ Ha) as [-> | ->]; [done|]. cbn [Z.eqb Pos.eqb].
  by rewrite !length_app, !length_be_bytes.
Qed.

Lemma new_header_length : 0 ≤ Z.of_nat (length (header_bytes h)) ≤ 1135.
Proof.
  unfold header_bytes. rewrite length_app, Nat2Z.inj_add, new_fixed_length.
  pose proof (na_path _ _ _ Ha) as Hp. unfold path_bytes. cbn [new_header backing_file_path].
  unfold MAX_BACKING_FILE_SIZE in Hp. destruct path as [p|]; destruct (version =? 2); cbn [default length from_option id]; lia.
Qed.

Lemma new_header_ok : header_ok h.
Proof.
  pose proof (na_size _ _ _ Ha) as Hs. unfold max_new_size in Hs. pose proof (na_path _ _ _ Ha) as Hp.
  destruct new_sizes as (Hd & H2 & H1 & _). pose proof new_header_length as Hl.
  constructor.
  - constructor.
    + unfold in_u32, u32_max, MAX_BACKING_FILE_SIZE in *.
      repeat (apply Forall_cons; split); try apply Forall_nil; cbn [new_header backing_file_size cluster_bits
        crypt_method l1_size refcount_table_clusters nb_snapshots refcount_order QcowHeader.header_size];
        unfold DEFAULT_CLUSTER_BITS, DEFAULT_REFCOUNT_ORDER, V2_BARE_HEADER_SIZE, V3_BARE_HEADER_SIZE,
          QCOW_EMPTY_HEADER_EXTENSION_SIZE; destruct path, (version =? 2); lia.
    + unfold in_u64, u64_max in *.
      repeat (apply Forall_cons; split); try apply Forall_nil; cbn [new_header backing_file_offset QcowHeader.size
        l1_table_offset QcowHeader.refcount_table_offset snapshots_offset incompatible_features
        compatible_features autoclear_features];
        unfold CS, V2_BARE_HEADER_SIZE, V3_BARE_HEADER_SIZE, QCOW_EMPTY_HEADER_EXTENSION_SIZE;
        destruct path, (version =? 2); lia.
    + done.
    + unfold table_end. cbn [new_header QcowHeader.refcount_table_offset refcount_table_clusters cluster_bits].
      change (2 ^ DEFAULT_CLUSTER_BITS) with CS. unfold CS. lia.
  - done.
  - cbn [new_header QcowHeader.version QcowHeader.header_size]. destruct (na_version _ _ _ Ha) as [-> | ->]; [by right|by left].
  - cbn [new_header backing_file_size]. unfold MAX_BACKING_FILE_SIZE in *. destruct path; lia.
  - pose proof new_fixed_length as Hf. cbn [new_header backing_file_path backing_file_offset backing_file_size].
    destruct path as [p|]; [|done]. destruct Hp as [_ Hp]. split_and!; [|done|done].
    rewrite Hf. unfold V2_BARE_HEADER_SIZE, V3_BARE_HEADER_SIZE, QCOW_EMPTY_HEADER_EXTENSION_SIZE. by destruct (version =? 2).
Qed.

(** ** The file with the header *)

Lemma refs_to_first E i :
  0 ≤ E → refs_to CS ((λ i, i * CS) <$> seqZ 0 E) i = if decide (Z.of_nat i < E) then 1 else 0.
Proof.
  intros HE. assert (0 < CS) as HC by done. case_decide as Hi.
  - assert (refs_to CS ((λ i, i * CS) <$> seqZ 0 E) i ≤ 1).
    { apply (refs_to_nodup CS CS_pow CS_range).
      - apply NoDup_fmap_2; [intros x y; nia|]. apply NoDup_seqZ.
      - intros a (j & -> & [Hj _]%elem_of_seqZ)%list_elem_of_fmap. split; [by eexists|nia]. }
    assert (Z.of_nat i * CS ∈ (λ i, i * CS) <$> seqZ 0 E) as Hin.
    { apply list_elem_of_fmap. exists (Z.of_nat i). split; [done|]. apply elem_of_seqZ. lia. }
    pose proof (refs_to_pos CS CS_pow CS_range _ _ Hin) as Hp.
    rewrite (cluster_index_mul CS CS_pow CS_range) in Hp. lia.
  - unfold refs_to. rewrite filter_none; [done|].
    intros a (j & -> & [Hj Hj2]%elem_of_seqZ)%list_elem_of_fmap. unfold cluster_index. rewrite Z.div_mul by lia. lia.
Qed.

Lemma filter_id {A} (P : A → Prop) `{∀ x, Decision (P x)} (l : list A) :
  (∀ x, x ∈ l → P x) → filter P l = l.
Proof.
  induction l as [|x l IH]; intros Hl; [done|]. rewrite filter_cons, decide_True by (apply Hl; by left).
  f_equal. apply IH. intros y Hy. apply Hl. by right.
Qed.

(** When the first [E] clusters are counted, the others are free. *)
Lemma free_after E M :
  (E ≤ M)%nat →
  free_indices (add_refs CS ((λ i, i * CS) <$> seqZ 0 (Z.of_nat E)) (replicate M 0)) 0 = seq E (M - E).
Proof.
  intros HE. unfold free_indices. rewrite length_add_refs, length_replicate.
  assert (seq 0 M = seq 0 E ++ seq E (M - E)) as ->
    by (rewrite <-seq_app; f_equal; lia). rewrite filter_app.
  assert (∀ i, (i < M)%nat → add_refs CS ((λ i, i * CS) <$> seqZ 0 (Z.of_nat E)) (replicate M 0) !! i =
    Some (if decide (Z.of_nat i < Z.of_nat E) then 1 else 0)) as Hl.
  { intros i Hi. rewrite lookup_add_refs, lookup_replicate_2 by done.
    cbn [fmap option_fmap option_map]. rewrite refs_to_first by lia. by case_decide. }
  rewrite filter_none, filter_id; [done|..].
  - intros i [H1 H2]%elem_of_seq. rewrite Hl, decide_False by lia. split; [done|lia].
  - intros i [H1 H2]%elem_of_seq. rewrite Hl, decide_True by lia. by intros [? _].
Qed.

Lemma table_words_zero f off n mask :
  (∀ x, off ≤ x < off + 8 * Z.of_nat n → fbyte f x = 0) → table_words f off n mask = replicate n 0.
Proof.
  intros Hz. unfold table_words. apply list_eq. intros i. rewrite list_lookup_fmap.
  destruct (decide (i < n)%nat) as [Hi|Hi].
  - pose proof (lookup_be_words 8 n f off i Hi) as E. change (Z.of_nat 8) with 8 in E. rewrite E, lookup_replicate_2 by done.
    cbn [fmap option_fmap option_map]. f_equal.
    rewrite get_bytes_zero by (intros x Hx; apply Hz; lia). done.
  - rewrite !lookup_ge_None_2; [done|rewrite length_replicate; lia|rewrite length_be_words; lia].
Qed.

Section Blank.
Context (f0 f : File) (Hok : file_ok f0) (Hempty : flen f0 = 0) (Hw : header_written h f0 f).

Lemma blank_table_end : table_end h = CS * (new_l1 size + 2) - 2.
Proof.
  unfold table_end. cbn [new_header QcowHeader.refcount_table_offset refcount_table_clusters cluster_bits].
  change (2 ^ DEFAULT_CLUSTER_BITS) with CS. lia.
Qed.

Lemma blank_bytes x : CS ≤ x → fbyte f x = 0.
Proof.
  intros Hx. pose proof new_header_length. assert (CS = 65536) as HC by done.
  destruct (decide (x = table_end h)) as [-> |Hne]; [apply Hw|].
  rewrite (hw_outside _ _ _ Hw) by lia. apply Hok. lia.
Qed.

Lemma blank_len : flen f = CS * (new_l1 size + 2) - 1.
Proof.
  rewrite (hw_len _ _ _ Hw), blank_table_end, Hempty. destruct new_sizes as (_ & _ & ? & _).
  assert (CS = 65536) as HC by done. lia.
Qed.

Lemma blank_l1_words : l1_words CS h f = replicate (Z.to_nat (new_l2 size)) 0.
Proof. apply table_words_zero. intros x Hx. apply blank_bytes. cbn [new_header l1_table_offset] in Hx. lia. Qed.

Lemma blank_data_refs : data_refs CS f h = [].
Proof.
  unfold data_refs. change (table_words f _ _ _) with (l1_words CS h f). rewrite blank_l1_words.
  induction (Z.to_nat (new_l2 size)); [done|]. done.
Qed.

Lemma blank_references : references CS f h = (λ i, i * CS) <$> seqZ 0 (new_l1 size + 2).
Proof.
  unfold references. rewrite blank_data_refs. unfold l1_refs, ref_table_refs.
  cbn [new_header l1_table_offset l1_size QcowHeader.refcount_table_offset refcount_table_clusters].
  change ((new_l2 size + CS `div` 8 - 1) `div` (CS `div` 8)) with (new_l1 size).
  destruct new_sizes as (_ & _ & H1 & _).
  assert (new_l1 size = 0 ∨ new_l1 size = 1) as [-> | ->] by lia; reflexivity.
Qed.

Lemma blank_added :
  added_blocks CS h f = (λ i, Z.of_nat i * CS) <$> seq (Z.to_nat (new_l1 size + 2)) (Z.to_nat (rebuild_blocks CS h)).
Proof.
  destruct new_sizes as (_ & _ & H1 & _). destruct new_rebuild_max as [_ Hm]. destruct new_blocks as (Hn & _).
  unfold added_blocks, new_refblocks. rewrite blank_references.
  rewrite <-(Z2Nat.id (new_l1 size + 2)) at 1 by lia. rewrite free_after by lia.
  f_equal. rewrite take_seq. f_equal. lia.
Qed.

Lemma blank_countable : countable_image CS h f (rebuild_max CS h) (rebuild_blocks CS h).
Proof.
  destruct new_sizes as (Hd & H2 & H1 & Em). destruct new_rebuild_max as [Hm Hm2]. destruct new_blocks as (Hn & _).
  assert (CS = 65536) as HC by done. unfold MAX_RAM_POINTER_TABLE_SIZE in Hm. pose proof blank_len as Hl.
  constructor.
  - cbn [new_header l1_table_offset]. lia.
  - cbn [new_header l1_size]. lia.
  - cbn [new_header l1_table_offset l1_size]. rewrite Hl. destruct (decide (new_l1 size = 0)) as [E|]; [|lia].
    assert (new_l2 size = 0); [|lia]. unfold new_l1 in E.
    pose proof (ceil_ge (new_l2 size) 8192 1 ltac:(lia)). lia.
  - change (table_words f _ _ _) with (l1_words CS h f). rewrite blank_l1_words.
    apply Forall_replicate. by left.
  - cbn [new_header QcowHeader.refcount_table_offset]. lia.
  - cbn [new_header refcount_table_clusters]. lia.
  - lia.
  - rewrite blank_references. apply Forall_forall. intros a (i & -> & Hi%elem_of_seqZ)%list_elem_of_fmap.
    unfold cluster_index. rewrite Z.div_mul by lia. lia.
  - rewrite blank_references. rewrite <-(Z2Nat.id (new_l1 size + 2)) by lia. rewrite free_after, length_seq by lia. lia.
Qed.

Lemma blank_rebuildable : rebuildable CS h f.
Proof.
  destruct new_sizes as (Hd & H2 & H1 & Em). destruct new_rebuild_max as [Hm Hm2]. destruct new_blocks as (Hn & _).
  assert (CS = 65536) as HC by done. pose proof blank_len as Hl. pose proof (na_size _ _ _ Ha) as Hs.
  unfold max_new_size in Hs. pose proof new_header_length as Hh.
  constructor.
  - done.
  - cbn [new_header QcowHeader.size]. lia.
  - apply Hm.
  - rewrite Hl. lia.
  - apply blank_countable.
  - intros i. rewrite blank_references, refs_to_first by lia. case_decide; lia.
  - constructor; [apply new_header_ok|done|lia| | |].
    + cbn [new_header QcowHeader.refcount_table_offset]. lia.
    + cbn [new_header QcowHeader.refcount_table_offset]. apply Z.divide_factor_l.
    + cbn [new_header refcount_table_clusters]. lia.
  - by apply Hw.
Qed.

Lemma blank_repairable : repairable CS h f.
Proof.
  destruct new_sizes as (Hd & H2 & H1 & Em). destruct new_rebuild_max as [Hm Hm2].
  destruct new_blocks as (Hn & En & Hmn). assert (CS = 65536) as HC by done. pose proof blank_len as Hl.
  unfold MAX_RAM_POINTER_TABLE_SIZE in Hm. change (CS `div` 2) with 32768 in *.
  constructor; change (CS `div` 2) with 32768; rewrite ?blank_references, <-?En.
  - apply blank_rebuildable.
  - reflexivity.
  - lia.
  - change (l1_entries CS h) with (new_l2 size). unfold MAX_RAM_POINTER_TABLE_SIZE. lia.
  - cbn [new_header refcount_table_clusters]. lia.
  - cbn [new_header refcount_table_clusters]. lia.
  - change (ceil (l1_entries CS h) (CS `div` 8)) with (new_l1 size). unfold MAX_RAM_POINTER_TABLE_SIZE. lia.
  - rewrite Hl. nia.
  - apply NoDup_fmap_2; [intros x y; nia|]. apply NoDup_seqZ.
  - apply Forall_forall. intros a (i & -> & Hi%elem_of_seqZ)%list_elem_of_fmap. split; [by eexists|]. rewrite Hl. nia.
  - rewrite blank_data_refs. apply Forall_nil_2.
  - cbn [new_header QcowHeader.refcount_table_offset]. rewrite Hl. lia.
  - cbn [new_header QcowHeader.refcount_table_offset refcount_table_clusters]. nia.
  - rewrite blank_added. apply Forall_app. split; apply Forall_forall.
    + intros a (i & -> & Hi%elem_of_seqZ)%list_elem_of_fmap. unfold cluster_index. rewrite Z.div_mul by lia. nia.
    + intros a (i & -> & Hi%elem_of_seq)%list_elem_of_fmap. unfold cluster_index. rewrite Z.div_mul by lia. nia.
  - cbn [new_header QcowHeader.refcount_table_offset]. intros x Hx. apply blank_bytes. nia.
  - rewrite blank_l1_words, (nz_zeros CS CS_pow CS_range). intros a Hin. by apply elem_of_nil in Hin.
Qed.

Lemma blank_checks : check_header h = Ok tt ∧ check_tables h (flen f) = Ok tt.
Proof.
  destruct new_sizes as (Hd & H2 & H1 & Em). pose proof (na_size _ _ _ Ha) as Hs. unfold max_new_size in Hs.
  pose proof blank_len as Hl. assert (CS = 65536) as HC by done. split.
  - unfold check_header. cbn [new_header QcowHeader.version l1_size cluster_bits QcowHeader.size].
    rewrite (proj2 (Z.ltb_ge _ _)) by (unfold MAX_RAM_POINTER_TABLE_SIZE; lia).
    rewrite (proj2 (Z.ltb_ge MAX_QCOW_FILE_SIZE size)) by (unfold MAX_QCOW_FILE_SIZE; lia).
    by destruct (na_version _ _ _ Ha) as [-> | ->].
  - unfold check_tables, offset_is_cluster_boundary.
    cbn [new_header refcount_order refcount_table_clusters l1_table_offset cluster_bits snapshots_offset
      QcowHeader.refcount_table_offset QcowHeader.size].
    change (Z.land CS (Z.shiftl 1 DEFAULT_CLUSTER_BITS - 1) =? 0) with true. cbn [Z.leb Z.eqb negb].
    assert (Z.land (CS * (new_l1 size + 1)) (Z.shiftl 1 DEFAULT_CLUSTER_BITS - 1) =? 0 = true) as ->
      by (assert (new_l1 size = 0 ∨ new_l1 size = 1) as [-> | ->] by lia; reflexivity).
    destruct (Z.ltb_spec (Z.max (flen f) size) (CS * (new_l1 size + 1))); [lia|]. reflexivity.
Qed.

Lemma blank_first_count : first_count_readable h f ∧ first_count_zero h f = true.
Proof.
  assert (be_value (get_bytes f (QcowHeader.refcount_table_offset h) 8) = 0) as E.
  { rewrite get_bytes_zero; [done|]. intros x Hx. apply blank_bytes.
    cbn [new_header QcowHeader.refcount_table_offset] in Hx. destruct new_sizes as (_ & _ & H1 & _).
    assert (CS = 65536) as HC by done. nia. }
  unfold first_count_readable, first_count_zero. rewrite E. split; [by left|done].
Qed.

End Blank.

End New.

(** ** Counting the tables *)

Section Count.
#[local] Set Default Proof Using "All".
Context (cs : Z) (Hpow : is_power_of_two cs = true) (Hcs : 512 ≤ cs ≤ 2 ^ 21).
Context `{HashOrderLaws} `{ZeroLaws} `{DiskLaws B}.

Lemma count_loop l (q : QcowFile B) :
  qinv cs [] q → Forall (λ i, 0 ≤ i * cs ≤ max_valid_cluster_offset (refcounts q)) l →
  room cs (3 * Z.of_nat (length l)) (core q) →
  ∃ q', miter (λ i, mmap_err SettingRefcountRefcount (count_cluster (i * cs) 1)) l q = (q', Ok tt) ∧
    moves cs (3 * Z.of_nat (length l)) [] q q' ∧ same_tables cs q q'.
Proof.
  revert q. induction l as [|i l IH]; intros q Hi Hl Hr.
  { exists q. split_and!; [done|by apply moves_refl|done]. }
  apply Forall_cons in Hl as [Hi0 Hl].
  destruct (count_cluster_spec cs Hpow Hcs [] q (i * cs) 1 Hi Hi0) as (q1 & E & Hm & Hs & _).
  { eapply (room_le cs Hpow Hcs); [|exact Hr]. simpl length. lia. }
  destruct (IH q1) as (q' & E' & Hm' & Hs').
  - apply Hm.
  - rewrite (mv_max _ _ _ _ _ Hm). exact Hl.
  - apply (mv_room _ _ _ _ _ Hm). eapply (room_le cs Hpow Hcs); [|exact Hr]. simpl length. lia.
  - exists q'. assert (moves cs (3 * Z.of_nat (length (i :: l))) [] q q') as Hmm.
    { replace (3 * Z.of_nat (length (i :: l))) with (3 + 3 * Z.of_nat (length l)) by (simpl length; lia).
      by apply (moves_trans cs Hpow Hcs 3 _ [] [] q q1). }
    split_and!; [|done|by eapply same_tables_trans]. cbn [miter]. unfold mbind, mmap_err at 1. by rewrite E.
Qed.

End Count.

(** ** The new image *)

Lemma lookup_concat_zeros cs n i a : concat (replicate n (zeros cs)) !! i = Some a → a = 0.
Proof.
  revert i. induction n as [|n IH]; intros i; [done|]. cbn [replicate concat].
  intros [E|[_ E]]%lookup_app_Some; [by apply lookup_replicate in E as [-> _]|by eapply IH].
Qed.

Section Create.
#[local] Set Default Proof Using "All".
Context `{HashOrderLaws} `{ZeroLaws} (open_file : list Z → result File io_error).
Context (version size : Z) (path : option (list Z)) (Ha : new_args version size path).
Context (f0 : File) (Hok : file_ok f0) (Hempty : flen f0 = 0).
#[local] Notation h := (new_header version size path).

(** Opening the file that holds only the header. *)
Lemma open_blank `{DiskLaws B} (ob : option (list Z → result B Error)) b f :
  header_written h f0 f → backing_of ob h = Ok b →
  (∀ b', b = Some b' → disk_ok b' ∧ size ≤ disk_size b') →
  ∃ g q, open_image true ob f = (g, Ok q) ∧ qinv CS [] q ∧ header q = h ∧ backing_file q = b ∧
    current_offset q = 0 ∧
    (∀ x, entry_at CS q x = 0) ∧
    max_valid_cluster_offset (refcounts q) = (ref_entries CS h * 32768 - 1) * CS ∧
    flen (rfile (raw_file q)) ≤ CS * (new_l1 size + 2 + rebuild_blocks CS h).
Proof.
  intros Hw Hob Hb. destruct (blank_checks version size path Ha f0 f Hok Hempty Hw) as [C1 C2].
  destruct (blank_first_count version size path Ha f0 f Hok Hempty Hw) as [F1 F2].
  pose proof (blank_repairable version size path Ha f0 f Hok Hempty Hw) as Hr.
  destruct (open_rebuilt_body CS CS_pow CS_range ob h f b (new_header_ok version size path Ha) (hw_bytes _ _ _ Hw)
    C1 C2 F1) as (g & q & E & Hi & Eh & Eb & Eo & _ & _ & He & Hmax & Hlen); [by rewrite F2|done|done|done|].
  exists g, q. split_and!; try done.
  - intros x. unfold entry_at. rewrite He.
    rewrite (loaded_entries CS CS_pow CS_range), (blank_l1_words version size path Ha f0 f Hok Hempty Hw), fmap_replicate.
    destruct (vec_get _ _) as [a|] eqn:Ea; [|done]. apply vec_get_Some in Ea as [_ Ea].
    assert (a = 0) as -> by exact (lookup_concat_zeros CS _ _ _ Ea). done.
  - apply Hlen.
    + rewrite (blank_len version size path Ha f0 f Hok Hempty Hw). destruct (new_blocks version size path Ha) as [? _].
      assert (CS = 65536) as HC by done. lia.
    + rewrite (blank_added version size path Ha f0 f Hok Hempty Hw).
      intros a (i & -> & Hi'%elem_of_seq)%list_elem_of_fmap. assert (CS = 65536) as HC by done.
      destruct (new_sizes version size path Ha) as (_ & _ & ? & _). destruct (new_blocks version size path Ha) as [? _]. nia.
    + cbn [new_header QcowHeader.refcount_table_offset refcount_table_clusters].
      assert (CS = 65536) as HC by done. destruct (new_blocks version size path Ha) as [? _]. nia.
Qed.

(** The room that is left once the tables are counted. *)
Lemma new_room :
  CS * (new_l1 size + 2 + rebuild_blocks CS h) + (new_data size + 31000 + 3 * (new_l1 size + 2)) * CS ≤
  ref_entries CS h * 32768 * CS.
Proof.
  destruct (new_sizes version size path Ha) as (Hd & H2' & H1' & Em).
  destruct (new_blocks version size path Ha) as (Hn & En & Hm). rewrite <-En. assert (CS = 65536) as HC by done. nia.
Qed.

Lemma count_tables_blank `{DiskLaws B} (q : QcowFile B) :
  qinv CS [] q → header q = h →
  max_valid_cluster_offset (refcounts q) = (ref_entries CS h * 32768 - 1) * CS →
  flen (rfile (raw_file q)) ≤ CS * (new_l1 size + 2 + rebuild_blocks CS h) →
  ∃ q', count_tables q = (q', Ok tt) ∧ moves CS (3 * (new_l1 size + 2)) [] q q' ∧
    same_tables CS q q' ∧ room CS (new_data size + 31000) (core q').
Proof.
  intros Hi Eh Hmax Hlen. pose proof new_room as Hr. assert (CS = 65536) as HC by done.
  destruct (new_sizes version size path Ha) as (Hd & H2' & H1' & Em).
  destruct (new_blocks version size path Ha) as (Hn & En & _).
  unfold count_tables. rewrite Eh. cbn [new_header QcowHeader.refcount_table_offset refcount_table_clusters cluster_bits].
  change (Z.shiftl 1 DEFAULT_CLUSTER_BITS) with CS.
  assert ((u64_add (CS * (new_l1 size + 1)) (u64_mul 1 CS) + CS - 1) `div` CS = new_l1 size + 2) as ->.
  { unfold u64_add, u64_mul, u64_wrap. rewrite !Z.mod_small by (rewrite ?Z.mod_small; lia).
    symmetry. apply (Z.div_unique _ _ _ (CS - 1)); lia. }
  assert (room CS (new_data size + 31000 + 3 * (new_l1 size + 2)) (core q)) as Hroom.
  { unfold room. cbn [core c_file c_rc]. rewrite Hmax.
    assert (align_up (flen (rfile (raw_file q))) CS ≤ CS * (new_l1 size + 2 + rebuild_blocks CS h)); [|nia].
    apply align_up_least; [done|by exists (new_l1 size + 2 + rebuild_blocks CS h); lia|done]. }
  destruct (count_loop CS CS_pow CS_range (seqZ 0 (new_l1 size + 2)) q Hi) as (q' & E & Hm & Hst).
  - apply Forall_forall. intros i [I1 I2]%elem_of_seqZ. rewrite Hmax. nia.
  - rewrite length_seqZ, Z2Nat.id by lia. eapply (room_le CS CS_pow CS_range); [|exact Hroom]. lia.
  - rewrite length_seqZ, Z2Nat.id in Hm by lia. exists q'. split_and!; [exact E|done|done|].
    by apply (mv_room _ _ _ _ _ Hm).
Qed.

Lemma backing_chain_open d (Hb : backing_chain open_file d size path) :
  ∃ b, backing_of (Some (λ path, match open_file path with
      | Err e => Err (BackingFileIo e)
      | Ok f => match from_with_nesting_depth open_file d false f with
                | (_, Ok b) => Ok b
                | (_, Err e) => Err (BackingFileOpen e)
                end
      end)) h = Ok b ∧
    (∀ b', b = Some b' → disk_ok b' ∧ size ≤ disk_size b') ∧ (path = None → b = None) ∧
    ∀ x, match b with Some b' => disk_byte b' x | None => 0 end = backing_chain_byte open_file d path x.
Proof.
  unfold backing_of. cbn [new_header backing_file_path]. unfold backing_chain in Hb. unfold backing_chain_byte.
  destruct path as [p|]; [|by exists None]. destruct Hb as (f & Ef & Hg & Hs).
  destruct (open_chain_body open_file d false f Hg) as (p' & q & E & Hq & Es & Hx).
  exists (Some q). rewrite Ef, E. split_and!; [done| |done|done]. intros b' [= <-]. split; [done|lia].
Qed.

Lemma new_from_header_body :
  backing_chain open_file 9 size path →
  ∃ f' (q : QcowFile (Image 9)), new_from_header open_file h f0 = (f', Ok q) ∧ qinv CS [] q ∧ header q = h ∧
    current_offset q = 0 ∧ (path = None → backing_file q = None) ∧
    (∀ x, entry_at CS q x = 0) ∧ (∀ x, content CS q x = backing_chain_byte open_file 9 path x) ∧
    room CS (new_data size + 31000) (core q).
Proof.
  intros Hb. destruct (backing_chain_open 9 Hb) as (b & Hob & Hbok & Hbn & Hbx).
  destruct (write_to_spec h (with_pos f0 0) (ho_fits _ (new_header_ok version size path Ha)) eq_refl) as (f & Ew & Hw).
  assert (header_written h f0 f) as Hw0 by (destruct Hw; constructor; assumption).
  destruct (open_blank _ b f Hw0 Hob Hbok) as (g & q & E & Hi & Eh & Eb & Eo & Hx & Hmax & Hlen).
  destruct (count_tables_blank q Hi Eh Hmax Hlen) as (q' & Ec & Hm & Hst & Hr).
  assert (∀ x, entry_at CS q' x = 0) as Hx'.
  { intros x. rewrite <-(Hx x). unfold entry_at.
    rewrite (entries_ext CS CS_pow CS_range q q'); [done|by rewrite (st_l1 _ _ _ Hst)|]. intros i _. apply Hst. }
  exists (rfile (raw_file q')), q'. split_and!.
  - unfold new_from_header. unfold mbind at 1, mmap_err at 1. rewrite seek_start_ok by lia.
    erewrite mbind_ok by exact Ew. erewrite mbind_ok by exact E.
    match goal with |- (let (q0, r) := ?x in _) = _ => change x with (count_tables q) end. by rewrite Ec.
  - apply Hm.
  - by rewrite (mv_header _ _ _ _ _ Hm).
  - by rewrite (mv_offset _ _ _ _ _ Hm).
  - intros Hp. apply (mv_none _ _ _ _ _ Hm). rewrite Eb. by apply Hbn.
  - done.
  - intros x. unfold content, backing_byte. rewrite Hx', (st_backing _ _ _ Hst), Eb. apply Hbx.
  - done.
Qed.

End Create.

Section Claims.
#[local] Set Default Proof Using "All".
Context `{HashOrderLaws} `{ZeroLaws} (open_file : list Z → result File io_error).

Lemma qinv_with_backing `{DiskLaws B} `{DiskLaws B'} (q : QcowFile B) (b : option B') :
  qinv CS [] q → (∀ b', b = Some b' → disk_ok b' ∧ virtual_size q ≤ disk_size b') →
  qinv CS [] (with_backing_file q b).
Proof.
  intros Hi Hb. constructor; try apply Hi. exact Hb.
Qed.

(** C19: creating an image in an empty file succeeds for every size up to 2 TiB, and the
    image is a blank disk of that size: any sequence of reads, writes, seeks and
    flushes on it returns what it returns on a disk of zeros, while the writes add
    no more clusters than there is room for. *)
Theorem new_blank version size f0 :
  new_args version size None → file_ok f0 → flen f0 = 0 →
  let blank := {| d_size := size; d_offset := 0; d_byte := λ _, 0 |} in
  ∃ f' (q : QcowFile (Image 9)), new open_file version size f0 = (f', Ok q) ∧ holds_disk CS blank q ∧
    ∀ ops, Forall op_ok ops → Zsum (op_cost CS <$> ops) ≤ new_data size + 31000 →
      (image_run ops q).2 = (disk_run ops blank).2.
Proof.
  intros Ha Hok He blank.
  destruct (new_from_header_body open_file version size None Ha f0 Hok He I)
    as (f' & q & E & Hi & Eh & Eo & Eb & _ & Hx & Hr).
  assert (holds_disk CS blank q) as Hd.
  { pose proof (na_size _ _ _ Ha). constructor; [exact Hi|left; by apply Eb|unfold virtual_size; by rewrite Eh|exact Eo|simpl; lia|exact Hx]. }
  exists f', q. split_and!; [|done|].
  - unfold new. rewrite (create_spec version size None Ha). erewrite mbind_ok by reflexivity. exact E.
  - intros ops Hops Hc. apply (image_run_refines CS CS_pow CS_range); [done|done|].
    by eapply (room_le CS CS_pow CS_range).
Qed.

(** C20: an image created on a backing file is a disk of the size of the backing file that
    reads as it. *)
Theorem new_overlay version name depth fb f0 :
  open_file name = Ok fb → good_chain open_file depth fb → good_chain open_file 9 fb →
  new_args version (chain_size fb) (Some name) → file_ok f0 → flen f0 = 0 →
  ∃ f' q, new_from_backing open_file version name depth f0 = (f', Ok q) ∧ qinv CS [] q ∧
    virtual_size q = chain_size fb ∧ current_offset q = 0 ∧
    ∀ x, content CS q x = chain_byte open_file depth fb x.
Proof.
  intros Ef Hd H9 Ha Hok He.
  destruct (open_chain_body open_file depth false fb Hd) as (p & b & Eb & Hb & Es & Hx).
  destruct (new_from_header_body open_file version (chain_size fb) (Some name) Ha f0 Hok He)
    as (f' & q & E & Hi & Eh & Eo & _ & H0' & _ & _); [by exists fb|].
  exists f', (with_backing_file q (Some b)). split_and!.
  - unfold new_from_backing. rewrite Ef, Eb. erewrite mbind_ok by reflexivity.
    rewrite Es, (create_spec version _ _ Ha). erewrite mbind_ok by reflexivity.
    by erewrite mbind_ok by exact E.
  - apply qinv_with_backing; [done|]. unfold virtual_size. rewrite Eh. cbn [new_header QcowHeader.size].
    intros b' [= <-]. split; [done|lia].
  - unfold virtual_size. cbn [with_backing_file header]. by rewrite Eh.
  - done.
  - intros x. unfold content. change (entry_at CS (with_backing_file q (Some b)) x) with (entry_at CS q x).
    rewrite H0'. apply Hx.
Qed.

End Claims.
