(* ===== verification/QcowConvert.v ===== *)
(** * Converting images

    [convert_reader_writer] copies the data of a source and skips its holes.  For a source
    whose holes read as zeros the destination ends up with the bytes of the source;
    an image without a backing file is such a source, and a raw file a destination. *)

From S2P Require Import Prelude Words Methods BlockFile QcowTables QcowHeader QcowFile QcowOpen QcowAlloc QcowDisk QcowRead QcowWrite QcowRefine QcowHoles QcowRebuild QcowLoad QcowRepair QcowChain.
From stdpp Require Import options.
Local Open Scope Z_scope.

(** ** What a source and a destination promise *)

(** [src_is r size byte p]: the source [r] holds the disk of [size] bytes, at position [p];
    [src_data r x]: there is data at [x]. *)
Class SourceLaws (R : Type) `{Source R} := {
  src_is : R → Z → (Z → Z) → Z → Prop;
  src_data : R → Z → Prop;
  src_size_ok r n b p : src_is r n b p → 0 ≤ n ≤ 2 ^ 44;
  src_seek_spec r n b p off : src_is r n b p → 0 ≤ off ≤ n →
    ∃ r', src_seek (Start off) r = (r', Ok off) ∧ src_is r' n b off;
  src_end_spec r n b p : src_is r n b p → ∃ r', src_seek (End 0) r = (r', Ok n) ∧ src_is r' n b n;
  src_read_spec r n b p k : src_is r n b p → 0 ≤ p ≤ n → 0 ≤ k ≤ CHUNK_SIZE →
    ∃ r', src_read k r = (r', Ok (b <$> seqZ p (Z.min k (n - p)))) ∧ src_is r' n b (p + Z.min k (n - p));
  src_seek_data_spec r n b p x : src_is r n b p → 0 ≤ x ≤ n →
    ∃ r' o p', src_seek_data x r = (r', Ok o) ∧ src_is r' n b p' ∧
      match o with
      | Some o => x ≤ o < n ∧ (∀ y, x ≤ y < o → b y = 0) ∧ src_data r' o
      | None => ∀ y, x ≤ y < n → b y = 0
      end;
  src_seek_hole_spec r n b p x : src_is r n b p → 0 ≤ x < n → src_data r x →
    ∃ r' o p', src_seek_hole x r = (r', Ok (Some o)) ∧ src_is r' n b p' ∧ x < o ≤ n;
}.

(** [dst_is w size byte p]: the destination holds a disk, at position [p]. *)
Class DestinationLaws (W : Type) `{Destination W} := {
  dst_is : W → Z → (Z → Z) → Z → Prop;
  dst_ext w n b b' p : (∀ x, b x = b' x) → dst_is w n b p → dst_is w n b' p;
  dst_seek_spec w n b p off : dst_is w n b p → 0 ≤ off ≤ n →
    ∃ w', dst_seek off w = (w', Ok tt) ∧ dst_is w' n b off;
  dst_write_spec w n b p buf : dst_is w n b p → 0 ≤ p → p + Z.of_nat (length buf) ≤ n →
    ∃ w', dst_write buf w = (w', Ok (Z.of_nat (length buf))) ∧
      dst_is w' n (overwrite b p buf) (p + Z.of_nat (length buf));
}.

(** The disk [b] with [n] bytes from [x] replaced by those of [s]. *)
Definition copy_range (b s : Z → Z) (x n y : Z) : Z := if decide (x ≤ y < x + n) then s y else b y.

(** ** The copy *)

Lemma overwrite_copy b s x n y :
  0 ≤ n → overwrite b x (s <$> seqZ x n) y = copy_range b s x n y.
Proof.
  intros Hn. unfold overwrite, copy_range. rewrite length_fmap, length_seqZ, Z2Nat.id by done.
  case_decide as Hy; [|done]. rewrite list_lookup_fmap, lookup_seqZ_lt by lia. simpl. f_equal. lia.
Qed.

Section Copy.
#[local] Set Default Proof Using "All".
Context `{SourceLaws R} `{DestinationLaws W} (size : Z) (s : Z → Z).

Lemma copy_loop_spec fuel o n rc r w b :
  src_is r size s (o + rc) → dst_is w size b (o + rc) → 0 ≤ o → 0 ≤ rc ≤ n → o + n ≤ size →
  n - rc < Z.of_nat fuel →
  ∃ r' w' p p', copy_loop fuel rc n (r, w) = ((r', w'), Ok tt) ∧ src_is r' size s p ∧
    dst_is w' size (copy_range b s (o + rc) (n - rc)) p'.
Proof.
  revert rc r w b. induction fuel as [|fuel IH]; intros rc r w b Hs Hd Ho Hrc Hn Hf; [lia|].
  set (k := Z.min CHUNK_SIZE (n - rc)). assert (0 < CHUNK_SIZE) as HC by done.
  destruct (src_read_spec r size s (o + rc) k Hs) as (r1 & E1 & Hs1); [lia|lia|].
  rewrite Z.min_l in E1, Hs1 by lia. set (buf := s <$> seqZ (o + rc) k) in *.
  assert (Z.of_nat (length buf) = k) as El by (unfold buf; rewrite length_fmap, length_seqZ; lia).
  destruct (dst_write_spec w size b (o + rc) buf Hd) as (w1 & E2 & Hd1); [lia|lia|].
  rewrite El in E2, Hd1. cbn [copy_loop]. fold k. unfold mbind, on_src, on_dst, mmap_err. rewrite E1, E2, El.
  assert (dst_is w1 size (copy_range b s (o + rc) k) (o + rc + k)) as Hd2.
  { eapply dst_ext; [|exact Hd1]. intros y. apply overwrite_copy. lia. }
  destruct ((k =? 0) || (rc + k =? n)) eqn:Ek.
  - exists r1, w1, (o + rc + k), (o + rc + k). split_and!; [done|done|].
    replace (n - rc) with k; [done|]. apply orb_true_iff in Ek as [Ek%Z.eqb_eq|Ek%Z.eqb_eq]; lia.
  - apply orb_false_iff in Ek as [Ek1%Z.eqb_neq Ek2%Z.eqb_neq].
    destruct (IH (rc + k) r1 w1 (copy_range b s (o + rc) k)) as (r' & w' & p & p' & E & Hs' & Hd');
      [by rewrite Z.add_assoc|by rewrite Z.add_assoc|lia..|].
    exists r', w', p, p'. split_and!; [exact E|done|]. eapply dst_ext; [|exact Hd'].
    intros y. unfold copy_range. repeat case_decide; try lia; done.
Qed.

Lemma convert_copy_spec o n r w b p p' :
  src_is r size s p → dst_is w size b p' → 0 ≤ o → 0 ≤ n → o + n ≤ size →
  ∃ r' w' p p', convert_copy o n (r, w) = ((r', w'), Ok tt) ∧ src_is r' size s p ∧
    dst_is w' size (copy_range b s o n) p'.
Proof.
  intros Hs Hd Ho Hn Hsz. destruct (src_seek_spec r size s p o Hs) as (r1 & E1 & Hs1); [lia|].
  destruct (dst_seek_spec w size b p' o Hd) as (w1 & E2 & Hd1); [lia|].
  destruct (copy_loop_spec (S (Z.to_nat n)) o n 0 r1 w1 b) as (r' & w' & q & q' & E & Hs' & Hd');
    [by rewrite Z.add_0_r|by rewrite Z.add_0_r|lia..|].
  rewrite Z.add_0_r, Z.sub_0_r in Hd'. exists r', w', q, q'. split_and!; [|done|done].
  unfold convert_copy, mbind, on_src, on_dst, mmap_err. by rewrite E1, E2.
Qed.

(** What is copied so far. *)
Lemma convert_loop_spec fuel off r w b p p' :
  src_is r size s p → dst_is w size b p' → 0 ≤ off ≤ size → size - off < Z.of_nat fuel →
  (∀ y, 0 ≤ y < size → b y = if decide (y < off) then s y else 0) →
  ∃ r' w' b' p p', convert_loop fuel off size (r, w) = ((r', w'), Ok tt) ∧ src_is r' size s p ∧
    dst_is w' size b' p' ∧ ∀ y, 0 ≤ y < size → b' y = s y.
Proof.
  revert off r w b p p'. induction fuel as [|fuel IH]; intros off r w b p p' Hs Hd Ho Hf Hb; [lia|].
  cbn [convert_loop]. destruct (Z.leb_spec size off) as [|Hlt].
  { exists r, w, b, p, p'. split_and!; [done|done|done|]. intros y Hy. rewrite Hb, decide_True by lia. done. }
  destruct (src_seek_data_spec r size s p off Hs) as (r1 & o & p1 & E1 & Hs1 & Ho1); [lia|].
  unfold mbind at 1, on_src at 1, mmap_err at 1. rewrite E1. destruct o as [o|].
  2:{ exists r1, w, b, p1, p'. split_and!; [done|done|done|]. intros y Hy. rewrite Hb by done.
      case_decide; [done|]. symmetry. apply Ho1. lia. }
  destruct Ho1 as (Ho1 & Hz & Hdata).
  destruct (src_seek_hole_spec r1 size s p1 o Hs1) as (r2 & e & p2 & E2 & Hs2 & He); [lia|done|].
  unfold mbind at 1, on_src at 1, mmap_err at 1. rewrite E2.
  destruct (convert_copy_spec o (e - o) r2 w b p2 p' Hs2 Hd) as (r3 & w3 & p3 & p3' & E3 & Hs3 & Hd3); [lia..|].
  destruct (IH e r3 w3 _ p3 p3' Hs3 Hd3) as (r' & w' & b' & q & q' & E & Hrest); [lia|lia| |].
  - intros y Hy. unfold copy_range. rewrite Hb by done. repeat case_decide; try lia; try done.
    symmetry. apply Hz. lia.
  - exists r', w', b', q, q'. split; [|done]. by erewrite mbind_ok by exact E3.
Qed.

Lemma convert_reader_writer_body r w b p p' :
  src_is r size s p → dst_is w size b p' → (∀ y, 0 ≤ y < size → b y = 0) →
  ∃ r' w' b' p p', convert_reader_writer size (r, w) = ((r', w'), Ok tt) ∧ src_is r' size s p ∧
    dst_is w' size b' p' ∧ ∀ y, 0 ≤ y < size → b' y = s y.
Proof.
  intros Hs Hd Hb. pose proof (src_size_ok _ _ _ _ Hs). apply (convert_loop_spec _ _ _ _ b p p'); try done; [lia|lia|].
  intros y Hy. rewrite Hb by done. case_decide; [lia|done].
Qed.

End Copy.

(** ** Files as destinations *)

#[global] Instance file_destination_laws : DestinationLaws File.
Proof.
  refine {| dst_is f n b p := 0 ≤ n ≤ 2 ^ 44 ∧ flen f = n ∧ fpos f = p ∧ file_ok f ∧
              ∀ x, 0 ≤ x < n → fbyte f x = b x |}.
  - intros f n b b' p Hb (H1 & H2 & H3 & H4 & H5). split_and!; try done || lia. intros x Hx. by rewrite <-Hb, H5.
  - intros f n b p off (H1 & H2 & H3 & H4 & H5) Ho. exists (with_pos f off).
    split; [apply seek_start_ok; lia|]. split_and!; try done || lia.
  - intros f n b p buf (H1 & H2 & H3 & H4 & H5) Hp Hl. eexists. split; [reflexivity|].
    rewrite H3. split_and!; cbn [flen fpos with_pos]; [lia|lia| |done| |].
    + destruct buf as [|y buf]; [done|]. rewrite flen_write_at by done. lia.
    + apply file_ok_with_pos, file_ok_write_at; done.
    + intros x Hx. rewrite fbyte_with_pos, fbyte_write_at. unfold overwrite. by case_decide; [|apply H5].
Defined.

(** ** Images as sources *)

Section ImageSource.
#[local] Set Default Proof Using "All".
Context (cs : Z) (Hpow : is_power_of_two cs = true) (Hcs : 512 ≤ cs ≤ 2 ^ 21).
Context `{HashOrderLaws} `{DiskLaws B}.

(** An image without a backing file that holds a disk. *)
Definition image_is (q : QcowFile B) (n : Z) (b : Z → Z) (p : Z) : Prop :=
  qinv cs [] q ∧ backing_file q = None ∧ virtual_size q = n ∧ current_offset q = p ∧
  0 ≤ p ≤ n ∧ ∀ x, content cs q x = b x.

Lemma image_is_moves q q' n b p :
  image_is q n b p → moves cs 0 [] q q' → image_is q' n b p.
Proof.
  intros (Hi & Hn & Hv & Hp & Hr & Hx) Hm. split_and!; try lia.
  - apply Hm.
  - by apply (mv_none _ _ _ _ _ Hm).
  - unfold virtual_size. by rewrite (mv_header _ _ _ _ _ Hm).
  - by rewrite (mv_offset _ _ _ _ _ Hm).
  - intros x. by rewrite (mv_content _ _ _ _ _ Hm).
Qed.

Lemma image_is_offset q n b p o : image_is q n b p → 0 ≤ o ≤ n → image_is (with_offset q o) n b o.
Proof.
  intros (Hi & Hn & Hv & Hp & Hr & Hx) Ho. split_and!; try done || lia. by apply (qinv_offset cs Hpow Hcs).
Qed.

Lemma image_seek q n b p pos o :
  image_is q n b p → op_ok (DSeek pos) → 0 ≤ o ≤ n →
  match pos with Start off => off | End off => n + off | Current off => p + off end = o →
  seek pos q = (with_offset q o, Ok o).
Proof.
  intros (Hi & Hn & Hv & Hp & Hr & Hx) Hop Ho Ep.
  rewrite (seek_spec pos q Hop) by (lia || apply Hi). rewrite Hv, Hp. cbv zeta. rewrite Ep.
  destruct (Z.leb_spec 0 o), (Z.leb_spec o n); try lia. done.
Qed.

Lemma image_hole_zero q n b p x : image_is q n b p → allocated cs q x = false → b x = 0.
Proof.
  intros (Hi & Hn & _ & _ & _ & Hx) Ha. rewrite <-Hx. unfold content, backing_byte.
  unfold allocated in Ha. rewrite Hn. by destruct (entry_at cs q x =? 0).
Qed.

Lemma image_seek_data q n b p x :
  image_is q n b p → 0 ≤ x ≤ n →
  ∃ q' o p', seek_data x q = (q', Ok o) ∧ image_is q' n b p' ∧
    match o with
    | Some o => x ≤ o < n ∧ (∀ y, x ≤ y < o → b y = 0) ∧ allocated cs q' o = true
    | None => ∀ y, x ≤ y < n → b y = 0
    end.
Proof.
  intros Hq Hx. pose proof Hq as (Hi & _ & Hv & _).
  destruct (find_allocated_cluster_spec cs Hpow Hcs [] q x true Hi) as (q1 & r & E & Hm & Ee & Hr); [lia|].
  pose proof (image_is_moves q q1 n b p Hq Hm) as Hq1. unfold seek_data. erewrite mbind_ok by exact E.
  rewrite Hv in Hr. destruct r as [o|]; cbn [first_with] in Hr.
  - destruct Hr as (Ho & Ha & Hz). unfold mbind. rewrite (image_seek q1 n b p (Start o) o Hq1); [|unfold op_ok, in_u64, u64_max|lia|done].
    + eexists _, (Some o), o. split_and!; [done|by apply (image_is_offset q1 n b p); [|lia]|lia|lia| |].
      * intros y Hy. by apply (image_hole_zero q n b p y Hq), Hz.
      * rewrite <-Ha. unfold allocated. change (entry_at cs (with_offset q1 o) o) with (entry_at cs q1 o).
        by rewrite (entry_at_same cs Hpow Hcs q q1 o Ee).
    + pose proof (qi_small _ _ _ Hi). lia.
  - eexists _, None, p. split_and!; [done|done|]. intros y Hy. by apply (image_hole_zero q n b p y Hq), Hr.
Qed.

Lemma image_seek_hole q n b p x :
  image_is q n b p → 0 ≤ x < n → allocated cs q x = true →
  ∃ q' o p', seek_hole x q = (q', Ok (Some o)) ∧ image_is q' n b p' ∧ x < o ≤ n.
Proof.
  intros Hq Hx Hax. pose proof Hq as (Hi & _ & Hv & _). pose proof (qi_small _ _ _ Hi) as Hs.
  destruct (find_allocated_cluster_spec cs Hpow Hcs [] q x false Hi) as (q1 & r & E & Hm & Ee & Hr); [lia|].
  pose proof (image_is_moves q q1 n b p Hq Hm) as Hq1. pose proof Hq1 as (_ & _ & Hv1 & _).
  unfold seek_hole. erewrite mbind_ok by exact E. rewrite Hv in Hr. destruct r as [o|]; cbn [first_with] in Hr.
  - destruct Hr as (Ho & Ha & _). assert (x ≠ o) by congruence.
    unfold mbind. rewrite (image_seek q1 n b p (Start o) o Hq1); [|unfold op_ok, in_u64, u64_max; lia|lia|done].
    eexists _, o, o. split_and!; [done|by apply (image_is_offset q1 n b p); [|lia]|lia|lia].
  - erewrite mbind_ok by done. rewrite Hv1. destruct (Z.ltb_spec x n); [|lia].
    unfold mbind. rewrite (image_seek q1 n b p (End 0) n Hq1); [|unfold op_ok, i64_min, i64_max; lia|lia|lia].
    eexists _, n, n. split_and!; [done|by apply (image_is_offset q1 n b p); [|lia]|lia|lia].
Qed.

(** An image without a backing file is a source whose holes are zeros. *)
Definition image_source_laws : SourceLaws (QcowFile B).
Proof.
  refine {| src_is := image_is; src_data q x := allocated cs q x = true |}.
  - intros q n b p (Hi & _ & Hv & _). rewrite <-Hv. split; [apply (qi_size _ _ _ Hi)|apply (qi_small _ _ _ Hi)].
  - intros q n b p off Hq Ho. exists (with_offset q off). split; [|by eapply image_is_offset].
    apply (image_seek q n b p (Start off) off Hq); [|done|done].
    pose proof Hq as (Hi & _ & Hv & _). pose proof (qi_small _ _ _ Hi). unfold op_ok, in_u64, u64_max. lia.
  - intros q n b p Hq. pose proof Hq as (Hi & _ & Hv & _ & Hr & _). exists (with_offset q n).
    split; [|by eapply image_is_offset; [|lia]].
    apply (image_seek q n b p (End 0) n Hq); [unfold op_ok, i64_min, i64_max; lia|lia|lia].
  - intros q n b p k Hq Hp Hk. pose proof Hq as (Hi & _ & Hv & Eo & Hr & Hx).
    destruct (read_body cs Hpow Hcs q k Hi) as (q' & E & Hm); [unfold i64_max, CHUNK_SIZE in *; lia|lia|].
    rewrite Hv, Eo in E, Hm. exists q'. split.
    + change (read k q = (q', Ok (b <$> seqZ p (Z.min k (n - p))))). rewrite E. do 2 f_equal.
      apply list_fmap_ext. intros i x _. apply Hx.
    + apply (image_is_moves (with_offset q (p + Z.min k (n - p)))); [|done].
      eapply image_is_offset; [exact Hq|lia].
  - intros q n b p x Hq Hx. by apply (image_seek_data q n b p).
  - intros q n b p x Hq Hx Hd. by apply (image_seek_hole q n b p).
Defined.

End ImageSource.

(** ** Conversion to a raw file *)

Section Convert.
#[local] Set Default Proof Using "All".
Context `{HashOrderLaws} `{ZeroOps} `{FileHoles} (open_file : list Z → result File io_error).

Lemma truncated_file n dst :
  file_ok dst → 0 ≤ n ≤ 2 ^ 44 →
  dst_is (set_len n (set_len 0 dst).1).1 n (λ _, 0) (fpos dst).
Proof.
  intros Hok Hn. assert (∀ x, fbyte (set_len n (set_len 0 dst).1).1 x = 0) as Hz.
  { intros x. rewrite !fbyte_set_len. repeat case_decide; try done. apply Hok. by left. }
  split_and!; [lia|lia|done|done|by intros x _|by intros x _].
Qed.

Lemma convert_reader_raw `{SourceLaws R} r n b p dst :
  src_is r n b p → file_ok dst →
  ∃ r' w p', convert_reader open_file Raw r dst = (r', w, Ok tt) ∧ src_is r' n b p' ∧
    flen w = n ∧ ∀ x, 0 ≤ x < n → fbyte w x = b x.
Proof.
  intros Hs Hok. pose proof (src_size_ok _ _ _ _ Hs) as Hn.
  destruct (src_end_spec r n b p Hs) as (r1 & E1 & Hs1).
  destruct (src_seek_spec r1 n b n 0 Hs1) as (r2 & E2 & Hs2); [lia|].
  destruct (convert_reader_writer_body n b r2 _ (λ _, 0) 0 (fpos dst) Hs2 (truncated_file n dst Hok Hn))
    as (r' & w & b' & p1 & p2 & E & Hs' & (_ & Hlen & _ & _ & Hw) & Hb); [done|].
  exists r', w, p1. split_and!; [|done|done|].
  - unfold convert_reader, mbind, mmap_err. rewrite E1, E2. unfold mret. rewrite E. done.
  - intros x Hx. by rewrite Hw, Hb.
Qed.

Lemma detect_qcow h f :
  header_ok h → next_bytes (with_pos f 0) (header_bytes h) → 0 ≤ fpos f ≤ 2 ^ 62 →
  detect_image_type f = (f, Ok Qcow2).
Proof.
  intros Hh Hn Hp. assert (header_bytes h = be_bytes 4 (magic h) ++ drop 4 (fixed_bytes h) ++ path_bytes h)
    as Ef by done. rewrite Ef in Hn. apply read_next in Hn as [E _]. rewrite length_be_bytes in E.
  unfold detect_image_type, mbind, mmap_err. rewrite seek_start_ok by lia.
  unfold read_u32, mbind. change 4 with (Z.of_nat 4) at 1. rewrite E. unfold mret.
  rewrite be_value_bytes, (ho_magic _ Hh). rewrite seek_start_ok by done.
  change (with_pos (with_pos (with_pos f 0) _) ?x) with (with_pos f x). rewrite with_pos_id. done.
Qed.

(** What opening an image without a backing file gives to read from. *)
Lemma open_source `{DiskLaws B} (ob : option (list Z → result B Error)) cs h f :
  consistent cs h f → backing_file_path h = None →
  ∃ p q, open_image true ob f = (with_pos f p, Ok q) ∧
    image_is cs q (QcowHeader.size h) (content cs (loaded cs h f (None : option B))) 0.
Proof.
  intros Hc Hp. assert (backing_of ob h = Ok None) as Hob by (unfold backing_of; by rewrite Hp).
  destruct (open_exact_body cs (cn_pow _ _ _ Hc) (cn_range _ _ _ Hc) true ob h f None)
    as (p & q & E & Hi & Eh & Eb & Eo & _ & Hx); try apply Hc; try done.
  exists p, q. split; [done|]. unfold image_is, virtual_size. rewrite Eh, Eb, Eo.
  pose proof (lo_size _ _ _ (cn_loadable _ _ _ Hc)). split_and!; try done; lia.
Qed.

Lemma source_chain_byte d cs h f x `{DiskLaws B} :
  consistent cs h f → backing_file_path h = None →
  content cs (loaded cs h f (None : option B)) x = chain_byte open_file d f x.
Proof.
  intros Hc Hp. destruct (header_new_spec h f (cn_header _ _ _ Hc) (cn_bytes _ _ _ Hc)) as [p E].
  assert (chain_byte open_file d f x =
    let a := entry_at cs (loaded (B := Empty_set) cs h f None) x in
    if a =? 0 then 0 else fbyte f (a + x `mod` cs)) as ->.
  { destruct d; cbn [chain_byte]; rewrite E; cbn [snd]; rewrite (lo_bits _ _ _ (cn_loadable _ _ _ Hc)), ?Hp; done. }
  unfold content, entry_at, backing_byte. cbv zeta.
  by rewrite !(loaded_entries cs (cn_pow _ _ _ Hc) (cn_range _ _ _ Hc)).
Qed.

(** C21: converting a consistent image without a backing file to a raw file succeeds, and
    the raw file has the size and the bytes of the disk. *)
Theorem convert_exact d cs h f dst :
  consistent cs h f → backing_file_path h = None → 0 ≤ fpos f ≤ 2 ^ 62 → file_ok dst →
  ∃ f' w, convert open_file Raw d f dst = (f', w, Ok tt) ∧ flen w = QcowHeader.size h ∧
    ∀ x, 0 ≤ x < QcowHeader.size h → fbyte w x = chain_byte open_file d f x.
Proof.
  intros Hc Hp Hf Hok. pose proof (cn_pow _ _ _ Hc) as Hpow. pose proof (cn_range _ _ _ Hc) as Hcs.
  unfold convert. rewrite (detect_qcow h f (cn_header _ _ _ Hc) (cn_bytes _ _ _ Hc) Hf).
  destruct d as [|d].
  - destruct (open_source (B := Empty_set) None cs h f Hc Hp) as (p & q & E & Hq). cbn [from_with_nesting_depth]. rewrite E.
    destruct (convert_reader_raw (H4 := image_source_laws cs Hpow Hcs) q _ _ 0 dst Hq Hok) as (q' & w & p' & Ec & _ & Hl & Hw).
    change (Image 0) with (QcowFile Empty_set). rewrite Ec. eexists _, w. split_and!; [done|done|].
    intros x Hx. rewrite Hw by done. by apply source_chain_byte.
  - set (ob := λ path, match open_file path with
        | Err e => Err (BackingFileIo e)
        | Ok f => match from_with_nesting_depth open_file d false f with
                  | (_, Ok b) => Ok b
                  | (_, Err e) => Err (BackingFileOpen e)
                  end
        end).
    destruct (open_source (B := Image d) (Some ob) cs h f Hc Hp) as (p & q & E & Hq).
    cbn [from_with_nesting_depth]. fold ob. rewrite E.
    destruct (convert_reader_raw (H4 := image_source_laws cs Hpow Hcs) q _ _ 0 dst Hq Hok) as (q' & w & p' & Ec & _ & Hl & Hw).
    match goal with |- context [let (_, _) := ?t in _] => assert (t = (q', w, Ok tt)) as -> by exact Ec end. eexists _, w. split_and!; [done|done|].
    intros x Hx. rewrite Hw by done. by apply source_chain_byte.
Qed.

End Convert.
