(* ===== verification/QcowExample.v ===== *)
(** * A concrete image

    Instances of the parameters of the qcow2 files (the order of a hash map, the zeroing
    operations of a file, a backing disk in memory), a small empty image that
    satisfies the invariant, and the theorems on images applied to it. *)

From S2P Require Import Prelude Words Methods BlockFile QcowTables QcowHeader QcowFile QcowOpen QcowAlloc QcowDisk QcowRead QcowWrite QcowFlush QcowRefine QcowHoles QcowRebuild QcowLoad QcowRepair QcowChain QcowNew QcowConvert.
From stdpp Require Import options.
Local Open Scope Z_scope.

(** ** Instances *)

#[local] Instance list_order : HashOrder := map_to_list.

(** Zeros are written as bytes, and a hole is punched by writing zeros inside the file. *)
#[local] Instance plain_zero_ops : ZeroOps := {
  write_zeroes_at off n f := write_at off (replicate (Z.to_nat n) 0) f;
  punch_hole off n f := f }.

(** A disk whose bytes are a list. *)
#[local] Instance memory_disk : Disk (list Z) := {
  disk_size l := Z.of_nat (length l);
  disk_read_at off n := λ l,
    if off + n <=? Z.of_nat (length l) then (l, Ok ((λ i, default 0 (l !! Z.to_nat i)) <$> seqZ off n))
    else (l, Err UnexpectedEof) }.

(** ** An empty image of 32 KiB with clusters of 512 bytes *)

Definition blank_header : QcowHeader :=
  {| magic := QCOW_MAGIC; version := 3; backing_file_offset := 0; backing_file_size := 0;
     cluster_bits := 9; QcowHeader.size := 32768; crypt_method := 0; l1_size := 1;
     l1_table_offset := 512; QcowHeader.refcount_table_offset := 1024;
     refcount_table_clusters := 1; nb_snapshots := 0; snapshots_offset := 0;
     incompatible_features := 0; compatible_features := 0; autoclear_features := 0;
     refcount_order := 4; header_size := 104; backing_file_path := None |}.

Definition blank_refcounts : RefCount :=
  {| ref_table := from_vec [0]; QcowTables.refcount_table_offset := 1024; refblock_cache := cache_new 50;
     refcount_block_entries := 256; rc_cluster_size := 512;
     max_valid_cluster_offset := 130560 |}.

Definition blank_image : QcowFile (list Z) :=
  {| raw_file := {| rfile := {| fdata := ∅; flen := 1536; fpos := 0 |};
                    cluster_size := 512; cluster_mask := 511 |};
     header := blank_header; l1_table := from_vec [0]; l2_entries := 64;
     l2_cache := cache_new 100; refcounts := blank_refcounts; current_offset := 0;
     unref_clusters := []; avail_clusters := []; backing_file := None |}.

(** ** A nearly full image whose reference counts are lazy

    The disk has 250 clusters, all written but the first; the clusters of the file are the
    header, the L1 table, the table of counts, a block of counts, four L2 tables and
    the data, so the last has index 256. *)

Definition full_header : QcowHeader :=
  {| magic := QCOW_MAGIC; version := 3; backing_file_offset := 0; backing_file_size := 0;
     cluster_bits := 9; QcowHeader.size := 128000; crypt_method := 0; l1_size := 4;
     l1_table_offset := 512; QcowHeader.refcount_table_offset := 1024;
     refcount_table_clusters := 1; nb_snapshots := 0; snapshots_offset := 0;
     incompatible_features := 0; compatible_features := COMPATIBLE_FEATURES_LAZY_REFCOUNTS;
     autoclear_features := 0; refcount_order := 4; header_size := 104; backing_file_path := None |}.

Definition empty_file : File := {| fdata := ∅; flen := 0; fpos := 0 |}.

Definition full_file : File :=
  let entries := (λ i, i * 512) <$> seqZ 8 249 in
  with_pos (write_at 131072 (replicate 512 9)
    (write_at 2048 (be_encode 8 (0 :: entries))
    (write_at 1536 (be_encode 2 (replicate 256 1))
    (write_at 1024 (be_encode 8 [1536])
    (write_at 512 (be_encode 8 [2048; 2560; 3072; 3584])
    (write_at 0 (header_bytes full_header) empty_file)))))) 0.

(** The clusters that are available in the image of a file, opened without other files, and
    what operations on it give. *)
Definition opened_run (f : File) (ops : list disk_op) :=
  match from_with_nesting_depth (λ _, Err EINVAL) 0 true f with
  | (_, Ok q) => Ok (avail_clusters q, (image_run ops q).2)
  | (_, Err e) => Err e
  end.

(** ** A disk of two clusters, and an image behind which it stands *)

Definition small_header (path : option (list Z)) : QcowHeader :=
  {| magic := QCOW_MAGIC; version := 3;
     backing_file_offset := match path with Some _ => 112 | None => 0 end;
     backing_file_size := match path with Some p => Z.of_nat (length p) | None => 0 end;
     cluster_bits := 9; QcowHeader.size := 1024; crypt_method := 0; l1_size := 1;
     l1_table_offset := 512; QcowHeader.refcount_table_offset := 1024;
     refcount_table_clusters := 1; nb_snapshots := 0; snapshots_offset := 0;
     incompatible_features := 0; compatible_features := 0; autoclear_features := 0;
     refcount_order := 4; header_size := 112; backing_file_path := path |}.

(** Its first cluster holds nines. *)
Definition small_file : File :=
  with_pos (write_at 2560 (replicate 512 9)
    (write_at 2048 (be_encode 8 (2560 :: replicate 63 0))
    (write_at 1536 (be_encode 2 (replicate 6 1 ++ replicate 250 0))
    (write_at 1024 (be_encode 8 [1536])
    (write_at 512 (be_encode 8 [2048])
    (write_at 0 (header_bytes (small_header None)) empty_file)))))) 0.

(** An image that holds nothing, on top of it. *)
Definition top_file : File :=
  with_pos (write_at 1536 (be_encode 2 (replicate 4 1 ++ replicate 252 0))
    (write_at 1024 (be_encode 8 [1536])
    (write_at 0 (header_bytes (small_header (Some [98]))) empty_file))) 0.

Definition small_files (path : list Z) : result File io_error := Ok small_file.

(** A file system that does not report holes. *)
#[local] Instance no_holes : FileHoles := {
  file_seek_data off f := if off <? flen f then Some off else None;
  file_seek_hole off f := if off <? flen f then Some (flen f) else None }.

(** How an image converts to a raw file, and the first bytes of that file. *)
Definition converted (d : nat) (f : File) : result unit ConvertError * Z * list Z :=
  match convert small_files Raw d f empty_file with
  | (_, w, r) => (r, flen w, get_bytes w 0 4)
  end.

(** ** Laws *)

#[local] Instance list_order_laws : HashOrderLaws.
Proof. intros m. reflexivity. Qed.

#[local] Instance plain_zero_laws : ZeroLaws.
Proof.
  split; simpl.
  - intros off n f i Hn. rewrite fbyte_write_at, length_replicate, Z2Nat.id by done.
    case_decide; [|done]. by rewrite lookup_replicate_2 by lia.
  - intros off n f Hn. rewrite flen_write_at, length_replicate, Z2Nat.id by (destruct (Z.to_nat n) eqn:?; simpl; lia || done).
    done.
  - intros off n f. by destruct (replicate _ _).
  - intros off n f i. by left.
  - done.
  - done.
Qed.

#[local] Instance memory_disk_laws : DiskLaws (list Z).
Proof.
  refine {| disk_ok _ := True; disk_byte l i := default 0 (l !! Z.to_nat i) |}.
  intros b off n _ Ho Hn Hs. exists b. simpl in *.
  by destruct (Z.leb_spec (off + n) (Z.of_nat (length b))); [|lia].
Defined.

Lemma blank_inv : qinv 512 [] blank_image.
Proof.
  assert (kept 512 blank_image = [0; 512; 1024]) as Ek by (vm_compute; reflexivity).
  constructor; try done.
  - simpl app. rewrite Ek. constructor; try done.
    + by left.
    + apply NoDup_ListNoDup. repeat constructor; simpl; lia.
    + repeat constructor; simpl; try lia; [exists 0|exists 1|exists 2]; lia.
  - intros i a [_ Hi]%vec_get_Some Ha. simpl in Hi. destruct (Z.to_nat i) as [|[]]; simplify_eq/=; done.
Qed.

(** ** The theorems at the image *)

Lemma read_spec_witness :
  ∃ q', read 4 blank_image = (q', Ok [0; 0; 0; 0]).
Proof.
  destruct (read_spec 512 ltac:(reflexivity) ltac:(lia) blank_image 4 blank_inv) as (q' & E & _);
    [unfold i64_max; lia|split; vm_compute; discriminate|]. exists q'. exact E.
Defined.

Lemma write_spec_witness :
  ∃ q', write [1; 2; 3] blank_image = (q', Ok 3) ∧ content 512 q' 1 = 2.
Proof.
  destruct (write_spec 512 ltac:(reflexivity) ltac:(lia) blank_image [1; 2; 3] blank_inv)
    as (q' & E & _ & _ & _ & Hx); [by left|split; vm_compute; discriminate|vm_compute; discriminate|vm_compute; discriminate|].
  exists q'. split; [exact E|]. rewrite Hx. reflexivity.
Defined.

Lemma flush_durable_witness :
  ∃ q', flush blank_image = (q', Ok tt) ∧ content 512 (reread q') 7 = 0.
Proof.
  destruct (flush_durable 512 ltac:(reflexivity) ltac:(lia) blank_image blank_inv)
    as (q' & E & _ & _ & _ & _ & _ & _ & _ & Hx).
  exists q'. split; [exact E|]. rewrite Hx. reflexivity.
Defined.

Definition blank_disk : VirtualDisk := {| d_size := 32768; d_offset := 0; d_byte := λ _, 0 |}.

Lemma blank_holds : holds_disk 512 blank_disk blank_image.
Proof.
  constructor; [apply blank_inv|by left|done|done|simpl; lia|].
  intros x. unfold content, entry_at. replace (entries 512 blank_image) with (replicate 64 0) by reflexivity.
  destruct (vec_get _ _) as [a|] eqn:E; [|done]. apply vec_get_Some in E as [_ E].
  apply lookup_replicate in E as [-> _]. done.
Qed.

Lemma image_refines_disk_witness :
  (image_run [DSeek (Start 511); DWrite [7; 8; 9]; DFlush; DSeek (Current (-2)); DRead 4; DSeek (End 1)]
     blank_image).2 =
  [Ok (OCount 511); Ok (OCount 3); Ok ODone; Ok (OCount 512); Ok (OBytes [8; 9; 0; 0]); Err EINVAL].
Proof.
  destruct (image_refines_disk 512 ltac:(reflexivity) ltac:(lia)
    [DSeek (Start 511); DWrite [7; 8; 9]; DFlush; DSeek (Current (-2)); DRead 4; DSeek (End 1)]
    blank_disk blank_image blank_holds) as [E _].
  - repeat (apply Forall_cons; split); try apply Forall_nil; try done;
      simpl; unfold in_u64, u64_max, i64_min, i64_max; lia.
  - vm_compute. discriminate.
  - rewrite E. vm_compute. reflexivity.
Defined.

Lemma seek_data_spec_witness : ∃ q', seek_data 100 blank_image = (q', Ok None).
Proof.
  destruct (seek_data_spec 512 ltac:(reflexivity) ltac:(lia) blank_image 100 blank_inv)
    as (q' & r & E & Hr & _); [lia|]. destruct r as [o|]; [|by exists q'].
  exfalso. pose proof blank_holds as Hb. vm_compute in E. discriminate.
Defined.

Lemma blank_fits : header_fits blank_header.
Proof. constructor; try done; repeat constructor; done. Qed.

Lemma header_roundtrip_witness :
  ∃ f' f'', write_to blank_header (with_pos empty_file 0) = (f', Ok tt) ∧
    header_new f' = (f'', Ok blank_header).
Proof.
  apply (header_roundtrip blank_header). constructor; try done; [apply blank_fits|by left].
Defined.

Lemma sample_references :
  references 512 (rfile (raw_file blank_image)) blank_header = [0; 512; 1024].
Proof. vm_compute. reflexivity. Qed.

Lemma sample_countable : countable_image 512 blank_header (rfile (raw_file blank_image)) 71 1.
Proof.
  constructor; rewrite ?sample_references;
    try (cbn [l1_table_offset l1_size QcowHeader.refcount_table_offset refcount_table_clusters
              blank_header blank_image raw_file rfile flen]; lia).
  - replace (table_words _ _ _ _) with [0] by (vm_compute; reflexivity). repeat constructor.
  - rewrite !Forall_cons, Forall_nil. split_and!; [vm_compute; repeat constructor..|done].
  - vm_compute. discriminate.
Qed.

Lemma sample_rebuildable : rebuildable 512 blank_header (rfile (raw_file blank_image)).
Proof.
  assert (rebuild_max 512 blank_header = 71) as Em by (vm_compute; reflexivity).
  assert (rebuild_blocks 512 blank_header = 1) as En by (vm_compute; reflexivity).
  constructor; rewrite ?Em, ?En; [reflexivity|simpl QcowHeader.size; lia| |simpl flen; lia|apply sample_countable| | |].
  - vm_compute. discriminate.
  - intros i. rewrite sample_references. unfold refs_to.
    pose proof (length_filter (λ a, cluster_index 512 a = i) [0; 512; 1024]) as Hl. cbn [length] in Hl. lia.
  - constructor; [apply blank_fits|reflexivity|vm_compute; discriminate|vm_compute; discriminate|by exists 2|].
    simpl refcount_table_clusters. lia.
  - done.
Qed.

Lemma rebuild_exact_witness :
  ∃ f', rebuild_refcounts true blank_header 512 (rfile (raw_file blank_image)) = (f', Ok tt) ∧
    disk_refcount 512 blank_header f' 2 = 1 ∧ disk_refcount 512 blank_header f' 3 = 1 ∧
    disk_refcount 512 blank_header f' 4 = 0.
Proof.
  destruct (rebuild_exact 512 ltac:(reflexivity) ltac:(lia) blank_header (rfile (raw_file blank_image))
    sample_rebuildable) as (f' & E & _ & Hc & _).
  exists f'. split; [exact E|]. split_and!; (rewrite Hc; [|reflexivity..]); vm_compute; reflexivity.
Defined.

(** The blocks of a rebuild count only as many clusters as the disk, its tables and
    the header need, not the clusters of the counts themselves.  In a nearly full image
    the count of the last cluster is lost; opening the image takes that cluster for
    available, and a write to another cluster of the disk replaces its data. *)
Theorem rebuild_loses_cluster :
  opened_run full_file [DSeek (Start 127488); DRead 2; DSeek (Start 0); DWrite [7];
                        DSeek (Start 127488); DRead 2] =
  Ok ([131072],
      [Ok (OCount 127488); Ok (OBytes [9; 9]); Ok (OCount 0); Ok (OCount 1);
       Ok (OCount 127488); Ok (OBytes [7; 0])]).
Proof. vm_compute. reflexivity. Qed.

(** ** Consistent files *)

Lemma small_file_ok : file_ok small_file ∧ file_ok top_file ∧ file_ok empty_file.
Proof.
  assert (file_ok empty_file) as He by done.
  split_and!; [| |done]; apply file_ok_with_pos; repeat (apply file_ok_write_at; [lia|]); exact He.
Qed.

Lemma small_header_ok path : path = None ∨ path = Some [98] → header_ok (small_header path).
Proof.
  intros [-> | ->]; (constructor; [|done|by left|vm_compute; discriminate|vm_compute; done]);
    (constructor; [repeat constructor; done|repeat constructor; done|done|vm_compute; split; discriminate]).
Qed.

(** The facts that are computed from a file. *)
Lemma small_facts :
  in_use 512 (small_header None) small_file = [0; 512; 1024; 2048; 2560; 1536] ∧
  l1_words 512 (small_header None) small_file = [2048] ∧
  in_use 512 (small_header (Some [98])) top_file = [0; 512; 1024; 1536] ∧
  l1_words 512 (small_header (Some [98])) top_file = [0].
Proof. vm_compute. done. Qed.

Lemma NoDup_sorted (l : list Z) : bool_decide (NoDup l) = true → NoDup l.
Proof. apply bool_decide_eq_true. Qed.

(** Comparisons of numbers that are computed. *)
Ltac by_compute :=
  lazymatch goal with
  | |- _ = _ => vm_compute; reflexivity
  | |- _ ∧ _ => split; by_compute
  | |- (_ < _)%Z => vm_compute; reflexivity
  | |- _ => vm_compute; discriminate
  end.

Lemma clusters_compute f l :
  forallb (λ a, (a `mod` 512 =? 0) && (0 <=? a) && (a <? flen f)) l = true →
  Forall (λ a, (512 | a) ∧ 0 ≤ a < flen f) l.
Proof.
  rewrite forallb_forall. intros Hl. apply Forall_forall. intros a Ha%list_elem_of_In. specialize (Hl a Ha).
  apply andb_true_iff in Hl as [[H1%Z.eqb_eq H2%Z.leb_le]%andb_true_iff H3%Z.ltb_lt].
  split; [by apply Z.mod_divide|done].
Qed.

Lemma small_loadable : loadable 512 (small_header None) small_file.
Proof.
  destruct small_facts as (Eu & El & _). constructor; rewrite ?Eu, ?El.
  1-12: by_compute.
  - apply small_file_ok.
  - by_compute.
  - apply NoDup_sorted. by_compute.
  - apply clusters_compute. by_compute.
  - apply Forall_app. split; [|apply Forall_app; split]; vm_compute; repeat constructor; discriminate.
  - intros a [->%list_elem_of_singleton _]%elem_of_nz.
    replace (disk_words 512 small_file 2048) with (2560 :: replicate 63 0) by by_compute.
    apply Forall_cons. split; [done|]. by apply Forall_replicate.
  - apply Forall_forall. rewrite !Forall_cons. split_and!; try apply Forall_nil_2; by_compute.
Qed.

Lemma top_loadable : loadable 512 (small_header (Some [98])) top_file.
Proof.
  destruct small_facts as (_ & _ & Eu & El). constructor; rewrite ?Eu, ?El.
  1-12: by_compute.
  - apply small_file_ok.
  - by_compute.
  - apply NoDup_sorted. by_compute.
  - apply clusters_compute. by_compute.
  - apply Forall_app. split; [|apply Forall_app; split]; vm_compute; repeat constructor; discriminate.
  - intros a [->%list_elem_of_singleton Hne]%elem_of_nz. destruct (Hne eq_refl).
  - apply Forall_forall. rewrite !Forall_cons. split_and!; try apply Forall_nil_2; by_compute.
Qed.

Lemma small_consistent : consistent 512 (small_header None) small_file.
Proof.
  constructor; try apply small_loadable; try (apply small_header_ok; by left); try by_compute; done.
Qed.

Lemma top_consistent : consistent 512 (small_header (Some [98])) top_file.
Proof.
  constructor; try apply top_loadable; try (apply small_header_ok; by right); try by_compute; done.
Qed.

Lemma chains_good : good_chain small_files 0 small_file ∧ good_chain small_files 9 small_file ∧
  good_chain small_files 1 top_file.
Proof.
  assert (∀ d, good_chain small_files d small_file) as Hs.
  { intros []; exists 512, (small_header None); (split; [apply small_consistent|exact I]). }
  split_and!; [apply Hs..|]. exists 512, (small_header (Some [98])). split; [apply top_consistent|].
  exists small_file. split_and!; [reflexivity|apply (Hs 0%nat)|]. by_compute.
Qed.

(** ** Opening, creating and converting *)

Lemma open_exact_witness :
  ∃ p (q : QcowFile (list Z)), open_image true None small_file = (with_pos small_file p, Ok q) ∧
    qinv 512 [] q ∧ content 512 q 5 = 9 ∧ content 512 q 600 = 0.
Proof.
  destruct small_consistent as [Hp Hr Hh Hb Hc Ht Hz Hl].
  destruct (open_exact (B := list Z) 512 Hp Hr true None (small_header None) small_file None Hh Hb Hc Ht Hz Hl
    eq_refl ltac:(discriminate)) as (p & q & E & Hi & _ & _ & _ & _ & Hx).
  exists p, q. split_and!; [exact E|exact Hi|rewrite Hx; vm_compute; reflexivity..].
Defined.

Lemma open_chain_witness :
  ∃ p q, from_with_nesting_depth small_files 1 true top_file = (with_pos top_file p, Ok q) ∧
    disk_size q = 1024 ∧ disk_byte q 5 = 9.
Proof.
  destruct (open_chain small_files 1 true top_file ltac:(apply chains_good)) as (p & q & E & _ & Es & Hx).
  exists p, q. split_and!; [exact E|rewrite Es; vm_compute; reflexivity|rewrite Hx; vm_compute; reflexivity].
Defined.

Lemma new_args_small size path : 0 ≤ size ≤ 2 ^ 30 → path = None ∨ path = Some [98] → new_args 3 size path.
Proof.
  intros Hs Hp. constructor; [by right|unfold max_new_size; lia|]. destruct Hp as [-> | ->]; [exact I|].
  split; [by_compute|reflexivity].
Qed.

Lemma open_rebuilt_witness :
  let h := new_header 3 (2 ^ 30) None in
  ∃ f g (q : QcowFile (list Z)), write_to h empty_file = (f, Ok tt) ∧
    open_image true None f = (g, Ok q) ∧ qinv CS [] q ∧ header q = h.
Proof.
  intros h. pose proof (new_args_small (2 ^ 30) None ltac:(lia) ltac:(by left)) as Ha.
  destruct (write_to_spec h empty_file (ho_fits _ (new_header_ok 3 (2 ^ 30) None Ha)) eq_refl) as (f & Ew & Hw).
  assert (file_ok empty_file) as Hok by apply small_file_ok.
  destruct (blank_checks 3 (2 ^ 30) None Ha empty_file f Hok eq_refl Hw) as [C1 C2].
  destruct (blank_first_count 3 (2 ^ 30) None Ha empty_file f Hok eq_refl Hw) as [F1 F2].
  destruct (open_rebuilt (B := list Z) CS CS_pow CS_range None h f None (new_header_ok 3 (2 ^ 30) None Ha)
    (hw_bytes _ _ _ Hw) C1 C2 F1 ltac:(subst h; rewrite F2; reflexivity)
    (blank_repairable 3 (2 ^ 30) None Ha empty_file f Hok eq_refl Hw) eq_refl ltac:(discriminate))
    as (g & q & E & Hi & Eh & _).
  exists f, g, q. exact (conj Ew (conj E (conj Hi Eh))).
Defined.

Lemma new_blank_witness :
  ∃ f' q, new small_files 3 (2 ^ 30) empty_file = (f', Ok q) ∧
    (image_run [DSeek (Start 70000); DWrite [1; 2; 3]; DSeek (Start 69999); DRead 5] q).2 =
    [Ok (OCount 70000); Ok (OCount 3); Ok (OCount 69999); Ok (OBytes [0; 1; 2; 3; 0])].
Proof.
  destruct (new_blank small_files 3 (2 ^ 30) empty_file (new_args_small (2 ^ 30) None ltac:(lia) ltac:(by left))
    ltac:(apply small_file_ok) eq_refl) as (f' & q & E & _ & Hrun).
  exists f', q. split; [exact E|]. rewrite Hrun; [vm_compute; reflexivity| |vm_compute; discriminate].
  repeat constructor; by_compute.
Defined.

Lemma new_overlay_witness :
  ∃ f' q, new_from_backing small_files 3 [98] 0 empty_file = (f', Ok q) ∧
    virtual_size q = 1024 ∧ content CS q 5 = 9.
Proof.
  destruct (new_overlay small_files 3 [98] 0 small_file empty_file eq_refl ltac:(apply chains_good)
    ltac:(apply chains_good) (new_args_small (chain_size small_file) (Some [98]) ltac:(vm_compute; split; discriminate) ltac:(by right))
    ltac:(apply small_file_ok) eq_refl) as (f' & q & E & _ & Es & _ & Hx).
  exists f', q. split_and!; [exact E|rewrite Es; vm_compute; reflexivity|rewrite Hx; vm_compute; reflexivity].
Defined.

Lemma convert_exact_witness :
  ∃ f' w, convert small_files Raw 1 small_file empty_file = (f', w, Ok tt) ∧ flen w = 1024 ∧
    fbyte w 5 = 9 ∧ fbyte w 600 = 0.
Proof.
  destruct (convert_exact small_files 1 512 (small_header None) small_file empty_file small_consistent eq_refl
    ltac:(by_compute) ltac:(apply small_file_ok)) as (f' & w & E & El & Hx).
  exists f', w. split_and!; [exact E|exact El|rewrite Hx by by_compute; vm_compute; reflexivity..].
Defined.

(** Converting an image that has a backing file drops what only the backing file holds:
    the disk of the chain starts with nines, the raw file with zeros. *)
Theorem convert_loses_backing :
  converted 1 top_file = (Ok tt, 1024, [0; 0; 0; 0]) ∧
  (chain_byte small_files 1 top_file <$> [0; 1; 2; 3]) = [9; 9; 9; 9].
Proof. split; vm_compute; reflexivity. Qed.
