(* ===== verification/RelayProtocol.v ===== *)
(** * Messages of the relay

    form-net/formnet/src/relay/protocol.rs: the header of a relayed packet, requests,
    responses, heartbeats, discovery and announcements, with their checks of age.  A
    reading of the clock is an argument, in nanoseconds since the epoch. *)

From Stdlib Require Import SpecFloat.
From S2P Require Import Prelude Float64.
From stdpp Require Import options.
Local Open Scope Z_scope.

(** ** Definitions *)

(** Public keys and other strings of bytes. *)
Abbreviation bytes := (list Z).

(** [SystemTime::now().duration_since(UNIX_EPOCH).unwrap_or_default().as_secs()]. *)
Definition SECOND : Z := 1000000000.
Definition unix_secs (now : Z) : Z := Z.max 0 now `div` SECOND.

(** [f32]: conversion, product, sum, quotient, and [x.round() as u8], halves away from
    zero. *)
Definition f32_of_Z (n : Z) : spec_float := binary_normalize 24 128 n 0 false.
Definition f32_mul : spec_float → spec_float → spec_float := SFmul 24 128.
Definition f32_add : spec_float → spec_float → spec_float := SFadd 24 128.
Definition f32_div : spec_float → spec_float → spec_float := SFdiv 24 128.
Definition round_scaled (m e : Z) : Z :=
  let half x := if 0 <=? e then x * 2 ^ e else (2 * x + 2 ^ (- e)) `div` (2 * 2 ^ (- e)) in
  if 0 <=? m then half m else - half (- m).
Definition f32_round_as_u8 : spec_float → Z := cast_unsigned round_scaled u8_max.
Definition f32_as_u8 : spec_float → Z := cast_unsigned trunc_scaled u8_max.
(** A decimal literal [n / d]. *)
Definition f32_literal (n d : Z) : spec_float := f32_div (f32_of_Z n) (f32_of_Z d).

(** Not older than [past] seconds, and not more than [future] seconds ahead. *)
Definition fresh (past future timestamp now : Z) : bool :=
  if (timestamp <? now) && (past <? now - timestamp) then false
  else if (now <? timestamp) && (future <? timestamp - now) then false
  else true.

(** [RelayError], with the texts of the errors that the relay makes. *)
Inductive RelayError :=
| Io (e : string)
| Serialization (e : string)
| JsonSerialization (e : string)
| Protocol (e : string)
| Authentication (e : string)
| ResourceLimit (e : string).

Record RelayHeader := {
  dest_peer_id : bytes;
  h_session_id : Z;
  h_timestamp : Z;
  flags : Z;
}.

Module Header.
Definition new (now : Z) (dest_peer_id : bytes) (session_id : Z) : RelayHeader :=
  {| dest_peer_id := dest_peer_id; h_session_id := session_id; h_timestamp := unix_secs now;
     flags := 0 |}.
Definition has_flag (h : RelayHeader) (flag_bit : Z) : bool :=
  if 8 <=? flag_bit then false else negb (Z.land (flags h) (Z.shiftl 1 flag_bit) =? 0).
Definition set_flag (flag_bit : Z) (value : bool) (h : RelayHeader) : RelayHeader :=
  if 8 <=? flag_bit then h
  else
    {| dest_peer_id := dest_peer_id h; h_session_id := h_session_id h; h_timestamp := h_timestamp h;
       flags := if value then Z.lor (flags h) (Z.shiftl 1 flag_bit)
                else Z.land (flags h) (Z.lxor 255 (Z.shiftl 1 flag_bit)) |}.
Definition is_valid (now : Z) (h : RelayHeader) : bool := fresh 30 5 (h_timestamp h) (unix_secs now).
End Header.

Record RelayPacket := { header : RelayHeader; payload : bytes }.

Module Packet.
Definition new (now : Z) (dest_peer_id : bytes) (session_id : Z) (payload : bytes) : RelayPacket :=
  {| header := Header.new now dest_peer_id session_id; payload := payload |}.
End Packet.

Record ConnectionRequest := {
  peer_pubkey : bytes;
  target_pubkey : bytes;
  timestamp : Z;
  nonce : Z;
  auth_token : option bytes;
}.

Module Request.
Definition new (now random : Z) (peer_pubkey target_pubkey : bytes) : ConnectionRequest :=
  {| peer_pubkey := peer_pubkey; target_pubkey := target_pubkey; timestamp := unix_secs now;
     nonce := random; auth_token := None |}.
Definition is_valid (now : Z) (r : ConnectionRequest) : bool := fresh 60 5 (timestamp r) (unix_secs now).
End Request.

Inductive ConnectionStatus :=
| Success | Rejected | TargetUnreachable | AuthFailed | ResourceLimitReached | OtherError.

#[global] Instance ConnectionStatus_eq_dec : EqDecision ConnectionStatus.
Proof. solve_decision. Defined.

Record ConnectionResponse := {
  status : ConnectionStatus;
  r_session_id : option Z;
  r_timestamp : Z;
  request_nonce : Z;
  r_error : option string;
}.

Module Response.
Definition success (now request_nonce session_id : Z) : ConnectionResponse :=
  {| status := Success; r_session_id := Some session_id; r_timestamp := unix_secs now;
     request_nonce := request_nonce; r_error := None |}.
Definition error (now request_nonce : Z) (status : ConnectionStatus) (error : string)
    : ConnectionResponse :=
  {| status := status; r_session_id := None; r_timestamp := unix_secs now;
     request_nonce := request_nonce; r_error := Some error |}.
Definition is_success (r : ConnectionResponse) : bool :=
  bool_decide (status r = Success) && bool_decide (is_Some (r_session_id r)).
End Response.

Record HeartbeatMessage := { hb_session_id : Z; hb_timestamp : Z; sequence : Z }.

Module Heartbeat.
Definition new (now session_id sequence : Z) : HeartbeatMessage :=
  {| hb_session_id := session_id; hb_timestamp := unix_secs now; sequence := sequence |}.
End Heartbeat.

Record DiscoveryQuery := {
  q_peer_pubkey : bytes;
  q_timestamp : Z;
  q_nonce : Z;
  q_region : option string;
  min_capabilities : Z;
  max_results : Z;
}.

Module Query.
Definition new (now random : Z) (peer_pubkey : bytes) (max_results : Z) : DiscoveryQuery :=
  {| q_peer_pubkey := peer_pubkey; q_timestamp := unix_secs now; q_nonce := random;
     q_region := None; min_capabilities := 0; max_results := max_results |}.
Definition is_valid (now : Z) (q : DiscoveryQuery) : bool := fresh 30 5 (q_timestamp q) (unix_secs now).
End Query.

Record RelayNodeInfo := {
  ni_pubkey : bytes;
  endpoints : list string;
  ni_region : option string;
  ni_capabilities : Z;
  load : Z;
  latency : option Z;
  max_sessions : Z;
  protocol_version : Z;
  reliability : Z;
  last_result_time : option Z;
  packet_loss : option Z;
}.

Module NodeInfo.
(** [reliability] becomes four fifths of it plus one fifth of the result. *)
Definition weighted (w d current new_value : Z) : Z :=
  f32_round_as_u8 (f32_add (f32_mul (f32_of_Z current) (f32_literal w d))
                           (f32_mul (f32_of_Z new_value) (f32_literal (d - w) d))).
Definition update_reliability (now : Z) (success : bool) (i : RelayNodeInfo) : RelayNodeInfo :=
  {| ni_pubkey := ni_pubkey i; endpoints := endpoints i; ni_region := ni_region i;
     ni_capabilities := ni_capabilities i; load := load i; latency := latency i;
     max_sessions := max_sessions i; protocol_version := protocol_version i;
     reliability := weighted 8 10 (reliability i) (if success then 100 else 0);
     last_result_time := Some (unix_secs now); packet_loss := packet_loss i |}.
Definition update_packet_loss (loss_percentage : Z) (i : RelayNodeInfo) : RelayNodeInfo :=
  let loss := Z.min loss_percentage 100 in
  {| ni_pubkey := ni_pubkey i; endpoints := endpoints i; ni_region := ni_region i;
     ni_capabilities := ni_capabilities i; load := load i; latency := latency i;
     max_sessions := max_sessions i; protocol_version := protocol_version i;
     reliability := reliability i; last_result_time := last_result_time i;
     packet_loss := match packet_loss i with
                    | Some current_loss => Some (weighted 7 10 current_loss loss)
                    | None => Some loss
                    end |}.
End NodeInfo.

Record DiscoveryResponse := {
  d_request_nonce : Z;
  d_timestamp : Z;
  relays : list RelayNodeInfo;
  more_available : bool;
}.

Record RelayAnnouncement := {
  relay_info : RelayNodeInfo;
  a_timestamp : Z;
  expires : Z;
  signature : option bytes;
}.

Module Announcement.
Definition new (now : Z) (relay_info : RelayNodeInfo) (ttl_secs : Z) : RelayAnnouncement :=
  let now := unix_secs now in
  {| relay_info := relay_info; a_timestamp := now;
     expires := if 0 <? ttl_secs then u64_add now ttl_secs else 0; signature := None |}.
Definition is_valid (now : Z) (a : RelayAnnouncement) : bool :=
  let now := unix_secs now in
  if (0 <? expires a) && (expires a <? now) then false
  else fresh 86400 300 (a_timestamp a) now.
End Announcement.

Inductive RelayMessage :=
| MConnectionRequest (r : ConnectionRequest)
| MConnectionResponse (r : ConnectionResponse)
| MForwardPacket (p : RelayPacket)
| MHeartbeat (h : HeartbeatMessage)
| MDiscoveryQuery (q : DiscoveryQuery)
| MDiscoveryResponse (r : DiscoveryResponse)
| MRelayAnnouncement (a : RelayAnnouncement).

Module Message.
Definition timestamp (m : RelayMessage) : Z :=
  match m with
  | MConnectionRequest r => timestamp r
  | MConnectionResponse r => r_timestamp r
  | MForwardPacket p => h_timestamp (header p)
  | MHeartbeat h => hb_timestamp h
  | MDiscoveryQuery q => q_timestamp q
  | MDiscoveryResponse r => d_timestamp r
  | MRelayAnnouncement a => a_timestamp a
  end.
Definition is_valid (now : Z) (m : RelayMessage) : bool :=
  match m with
  | MConnectionRequest r => Request.is_valid now r
  | MConnectionResponse _ => true
  | MForwardPacket p => Header.is_valid now (header p)
  | MHeartbeat _ => true
  | MDiscoveryQuery q => Query.is_valid now q
  | MDiscoveryResponse _ => true
  | MRelayAnnouncement a => Announcement.is_valid now a
  end.
End Message.

(** ** Age of messages *)

Lemma fresh_spec past future timestamp now :
  0 ≤ past → 0 ≤ future → fresh past future timestamp now = true ↔ timestamp - future ≤ now ≤ timestamp + past.
Proof.
  intros Hp Hf. unfold fresh. repeat case_match; bool_to_prop; split; try done; try lia;
    repeat match goal with H : _ && _ = _ |- _ => apply andb_false_iff in H as [?|?] || apply andb_true_iff in H as [? ?] end;
    bool_to_prop; lia.
Qed.

(** A packet that arrives within 30 seconds passes, if no clock is more than 5 seconds ahead. *)
Lemma packet_fresh sent received dest session_id payload :
  Header.is_valid received (header (Packet.new sent dest session_id payload)) = true ↔
  unix_secs sent - 5 ≤ unix_secs received ≤ unix_secs sent + 30.
Proof. unfold Header.is_valid. by rewrite fresh_spec. Qed.

(** ** Flags *)

Lemma has_flag_testbit h i : 0 ≤ i < 8 → Header.has_flag h i = Z.testbit (flags h) i.
Proof.
  intros Hi. unfold Header.has_flag. destruct (Z.leb_spec 8 i); [lia|].
  assert (Z.land (flags h) (Z.shiftl 1 i) = if Z.testbit (flags h) i then 2 ^ i else 0) as ->.
  { apply Z.bits_inj'. intros j Hj. rewrite Z.land_spec, Z.shiftl_1_l, Z.pow2_bits_eqb by lia.
    destruct (Z.eqb_spec i j) as [-> |Hij].
    - destruct (Z.testbit (flags h) j); [by rewrite Z.pow2_bits_true by lia|by rewrite Z.bits_0].
    - rewrite andb_false_r. destruct (Z.testbit (flags h) i); [by rewrite Z.pow2_bits_false by lia|by rewrite Z.bits_0]. }
  destruct (Z.testbit (flags h) i); [|done]. pose proof (Z.pow_pos_nonneg 2 i). by destruct (Z.eqb_spec (2 ^ i) 0); [lia|].
Qed.

(** Setting a flag sets it and no other. *)
Theorem set_flag_spec h i v j :
  0 ≤ i < 8 → 0 ≤ j < 8 → Header.has_flag (Header.set_flag i v h) j = if i =? j then v else Header.has_flag h j.
Proof.
  intros Hi Hj. rewrite !has_flag_testbit by done. unfold Header.set_flag. destruct (Z.leb_spec 8 i); [lia|]. cbn [flags].
  destruct v.
  - rewrite Z.lor_spec, Z.shiftl_1_l, Z.pow2_bits_eqb by lia. destruct (i =? j); [apply orb_true_r|apply orb_false_r].
  - assert (Z.testbit 255 j = true) as H255.
    { change 255 with (Z.ones 8). apply Z.ones_spec_low. lia. }
    rewrite Z.land_spec, Z.lxor_spec, H255, Z.shiftl_1_l, Z.pow2_bits_eqb by lia.
    destruct (i =? j); [apply andb_false_r|apply andb_true_r].
Qed.

(** ** Reliability *)

Lemma weighted_exact r :
  0 ≤ r ≤ 100 →
  NodeInfo.weighted 8 10 r 0 = (8 * r + 5) `div` 10 ∧ NodeInfo.weighted 8 10 r 100 = (8 * r + 205) `div` 10.
Proof.
  intros Hr.
  assert (forallb (λ r, (NodeInfo.weighted 8 10 r 0 =? (8 * r + 5) `div` 10)
                        && (NodeInfo.weighted 8 10 r 100 =? (8 * r + 205) `div` 10)) (seqZ 0 101) = true) as Hall
    by (vm_compute; reflexivity).
  rewrite forallb_forall in Hall. specialize (Hall r).
  rewrite <-list_elem_of_In, elem_of_seqZ, andb_true_iff, !Z.eqb_eq in Hall. apply Hall. lia.
Qed.

(** Reliability stays a percentage; a result moves it a fifth of the way towards 100 or 0,
    rounded.  Because of the rounding no number of failures takes it from 2 or more to
    below 2, and no number of successes from 98 or less to above 98. *)
Theorem reliability_percentage now success i :
  0 ≤ reliability i ≤ 100 →
  let r := reliability (NodeInfo.update_reliability now success i) in
  0 ≤ r ≤ 100 ∧ r = (8 * reliability i + (if success then 205 else 5)) `div` 10 ∧
  (2 ≤ reliability i → 2 ≤ r) ∧ (reliability i ≤ 98 → r ≤ 98).
Proof.
  intros Hr r. destruct (weighted_exact (reliability i) Hr) as [E0 E1].
  assert (r = (8 * reliability i + (if success then 205 else 5)) `div` 10) as Er by (subst r; destruct success; [exact E1|exact E0]).
  rewrite Er. assert (0 ≤ (if success then 205 else 5) ≤ 205) by (destruct success; lia).
  split_and!; [apply Z.div_pos; lia|..|done| |]; [|intros; apply Z.div_le_lower_bound|intros; apply Z.lt_succ_r, Z.div_lt_upper_bound];
    destruct success; lia || (apply Z.lt_succ_r, Z.div_lt_upper_bound; lia).
Qed.

