(* ===== verification/RelayNode.v ===== *)
(** * The relay node

    form-net/formnet/src/relay/service.rs: sessions between two peers, the limits on
    sessions, packets and requests, and the handlers of the datagrams that arrive.
    The state [Node] has the maps and counters that the threads share behind locks, and
    the datagrams the socket has sent; a handler is a [method] of it.  Each call is one
    step.  An [Env] has what a call takes from outside: the readings of the clocks, in
    the order in which the call makes them, the number that the generator draws, and
    whether the socket sends.  The codec of datagrams (bincode), the names of keys in
    the maps (hex), the hash of tokens and the order of a [HashMap] are parameters. *)

From Stdlib Require Import SpecFloat.
From S2P Require Import Prelude Float64 Methods RelayProtocol.
From stdpp Require Import options.
Local Open Scope Z_scope.

(** ** Parameters *)

(** bincode, with its decoders of the four messages that a relay reads. *)
Class Bincode := {
  decode_packet : bytes → option RelayPacket;
  decode_request : bytes → option ConnectionRequest;
  decode_heartbeat : bytes → option HeartbeatMessage;
  decode_query : bytes → option DiscoveryQuery;
  encode_response : ConnectionResponse → result bytes string;
  encode_discovery : DiscoveryResponse → result bytes string;
}.

(** [hex::encode]. *)
Class Hex := hex_encode : bytes → string.

(** [DefaultHasher] on a vector of bytes. *)
Class TokenHash := token_hash : bytes → Z.

(** The order in which a [HashMap] of times is visited. *)
Class TimesOrder := times_iter : gmap string (list Z) → list (string * list Z).

(** Two clocks in nanoseconds: [Instant], which never goes back, and [SystemTime]. *)
Record Reading := { instant : Z; system : Z }.

Record Env := {
  clock : nat → Reading;
  random : Z;
  send_error : option string;
}.

(** ** Data *)

Record SocketAddr := { ip : IpAddr; port : Z }.

Definition DEFAULT_SESSION_EXPIRATION : Z := 3600 * SECOND.

Record RelaySession := {
  id : Z;
  initiator_pubkey : bytes;
  s_target_pubkey : bytes;
  created_at : Z;
  expires_at : Z;
  last_activity : Z;
  packets_forwarded_initiator_to_target : Z;
  packets_forwarded_target_to_initiator : Z;
  bytes_forwarded_initiator_to_target : Z;
  bytes_forwarded_target_to_initiator : Z;
  initiator_addr : option SocketAddr;
  target_addr : option SocketAddr;
}.

Module Session.

Definition new (system_now instant_now id : Z) (initiator_pubkey target_pubkey : bytes) : RelaySession :=
  {| id := id; initiator_pubkey := initiator_pubkey; s_target_pubkey := target_pubkey;
     created_at := system_now; expires_at := system_now + DEFAULT_SESSION_EXPIRATION;
     last_activity := instant_now; packets_forwarded_initiator_to_target := 0;
     packets_forwarded_target_to_initiator := 0; bytes_forwarded_initiator_to_target := 0;
     bytes_forwarded_target_to_initiator := 0; initiator_addr := None; target_addr := None |}.

Definition is_expired (system_now : Z) (s : RelaySession) : bool := expires_at s <? system_now.
(** [elapsed] saturates at zero. *)
Definition is_inactive (instant_now inactivity_threshold : Z) (s : RelaySession) : bool :=
  inactivity_threshold <? Z.max 0 (instant_now - last_activity s).

Definition update_activity (instant_now : Z) (s : RelaySession) : RelaySession :=
  {| id := id s; initiator_pubkey := initiator_pubkey s; s_target_pubkey := s_target_pubkey s;
     created_at := created_at s; expires_at := expires_at s; last_activity := instant_now;
     packets_forwarded_initiator_to_target := packets_forwarded_initiator_to_target s;
     packets_forwarded_target_to_initiator := packets_forwarded_target_to_initiator s;
     bytes_forwarded_initiator_to_target := bytes_forwarded_initiator_to_target s;
     bytes_forwarded_target_to_initiator := bytes_forwarded_target_to_initiator s;
     initiator_addr := initiator_addr s; target_addr := target_addr s |}.

Definition extend_expiration (system_now duration : Z) (s : RelaySession) : RelaySession :=
  {| id := id s; initiator_pubkey := initiator_pubkey s; s_target_pubkey := s_target_pubkey s;
     created_at := created_at s; expires_at := system_now + duration; last_activity := last_activity s;
     packets_forwarded_initiator_to_target := packets_forwarded_initiator_to_target s;
     packets_forwarded_target_to_initiator := packets_forwarded_target_to_initiator s;
     bytes_forwarded_initiator_to_target := bytes_forwarded_initiator_to_target s;
     bytes_forwarded_target_to_initiator := bytes_forwarded_target_to_initiator s;
     initiator_addr := initiator_addr s; target_addr := target_addr s |}.

Definition record_initiator_to_target (instant_now bytes : Z) (s : RelaySession) : RelaySession :=
  update_activity instant_now
  {| id := id s; initiator_pubkey := initiator_pubkey s; s_target_pubkey := s_target_pubkey s;
     created_at := created_at s; expires_at := expires_at s; last_activity := last_activity s;
     packets_forwarded_initiator_to_target := u64_add (packets_forwarded_initiator_to_target s) 1;
     packets_forwarded_target_to_initiator := packets_forwarded_target_to_initiator s;
     bytes_forwarded_initiator_to_target := u64_add (bytes_forwarded_initiator_to_target s) bytes;
     bytes_forwarded_target_to_initiator := bytes_forwarded_target_to_initiator s;
     initiator_addr := initiator_addr s; target_addr := target_addr s |}.

Definition record_target_to_initiator (instant_now bytes : Z) (s : RelaySession) : RelaySession :=
  update_activity instant_now
  {| id := id s; initiator_pubkey := initiator_pubkey s; s_target_pubkey := s_target_pubkey s;
     created_at := created_at s; expires_at := expires_at s; last_activity := last_activity s;
     packets_forwarded_initiator_to_target := packets_forwarded_initiator_to_target s;
     packets_forwarded_target_to_initiator := u64_add (packets_forwarded_target_to_initiator s) 1;
     bytes_forwarded_initiator_to_target := bytes_forwarded_initiator_to_target s;
     bytes_forwarded_target_to_initiator := u64_add (bytes_forwarded_target_to_initiator s) bytes;
     initiator_addr := initiator_addr s; target_addr := target_addr s |}.

Definition with_addrs (s : RelaySession) (i t : option SocketAddr) : RelaySession :=
  {| id := id s; initiator_pubkey := initiator_pubkey s; s_target_pubkey := s_target_pubkey s;
     created_at := created_at s; expires_at := expires_at s; last_activity := last_activity s;
     packets_forwarded_initiator_to_target := packets_forwarded_initiator_to_target s;
     packets_forwarded_target_to_initiator := packets_forwarded_target_to_initiator s;
     bytes_forwarded_initiator_to_target := bytes_forwarded_initiator_to_target s;
     bytes_forwarded_target_to_initiator := bytes_forwarded_target_to_initiator s;
     initiator_addr := i; target_addr := t |}.
Definition update_initiator_addr (addr : SocketAddr) (s : RelaySession) : RelaySession :=
  with_addrs s (Some addr) (target_addr s).
Definition update_target_addr (addr : SocketAddr) (s : RelaySession) : RelaySession :=
  with_addrs s (initiator_addr s) (Some addr).

Definition authenticate_packet (system_now : Z) (packet : RelayPacket) (s : RelaySession) : bool :=
  if negb (h_session_id (header packet) =? id s) then false
  else if negb (bool_decide (dest_peer_id (header packet) = initiator_pubkey s)
                || bool_decide (dest_peer_id (header packet) = s_target_pubkey s)) then false
  else if negb (Header.is_valid system_now (header packet)) then false
  else true.

(** The little-endian bytes of a [u64]. *)
Definition to_le_bytes (n : Z) : bytes := (λ i, n `div` 256 ^ i `mod` 256) <$> seqZ 0 8.

Definition generate_auth_token `{TokenHash} (system_now : Z) (s : RelaySession) : bytes :=
  let data := to_le_bytes (id s) ++ initiator_pubkey s ++ s_target_pubkey s
                ++ to_le_bytes (unix_secs system_now) in
  data ++ to_le_bytes (token_hash data).

(** The comparison takes the same time wherever the tokens differ. *)
Definition verify_auth_token `{TokenHash} (system_now : Z) (token : bytes) (s : RelaySession) : bool :=
  let current_token := generate_auth_token system_now s in
  if negb (Z.of_nat (length token) =? Z.of_nat (length current_token)) then false
  else foldl (λ result p, Z.lor result (Z.lxor p.1 p.2)) 0 (zip token current_token) =? 0.

End Session.

Record RelayStats := mkStats {
  connection_requests : Z;
  successful_connections : Z;
  rejected_connections : Z;
  packets_forwarded : Z;
  bytes_forwarded : Z;
  active_sessions : Z;
  expired_sessions : Z;
  heartbeats_processed : Z;
  current_bandwidth_bps : Z;
  peak_bandwidth_bps : Z;
  avg_packet_size : Z;
  active_clients : Z;
  cpu_usage_pct : Z;
  memory_usage_bytes : Z;
  uptime_seconds : Z;
  last_reset : Z;
}.

Module Stats.

(** [default], also [reset]. *)
Definition default (now : Z) : RelayStats := mkStats 0 0 0 0 0 0 0 0 0 0 0 0 0 0 0 now.

Definition with_connections (requests successful rejected active : Z) (s : RelayStats) : RelayStats :=
  mkStats requests successful rejected (packets_forwarded s) (bytes_forwarded s) active
    (expired_sessions s) (heartbeats_processed s) (current_bandwidth_bps s) (peak_bandwidth_bps s)
    (avg_packet_size s) (active_clients s) (cpu_usage_pct s) (memory_usage_bytes s)
    (uptime_seconds s) (last_reset s).
Definition with_forwarded (packets bytes avg : Z) (s : RelayStats) : RelayStats :=
  mkStats (connection_requests s) (successful_connections s) (rejected_connections s) packets bytes
    (active_sessions s) (expired_sessions s) (heartbeats_processed s) (current_bandwidth_bps s)
    (peak_bandwidth_bps s) avg (active_clients s) (cpu_usage_pct s) (memory_usage_bytes s)
    (uptime_seconds s) (last_reset s).
Definition with_sessions (active expired clients uptime : Z) (s : RelayStats) : RelayStats :=
  mkStats (connection_requests s) (successful_connections s) (rejected_connections s)
    (packets_forwarded s) (bytes_forwarded s) active expired (heartbeats_processed s)
    (current_bandwidth_bps s) (peak_bandwidth_bps s) (avg_packet_size s) clients (cpu_usage_pct s)
    (memory_usage_bytes s) uptime (last_reset s).
Definition with_traffic (heartbeats current peak : Z) (s : RelayStats) : RelayStats :=
  mkStats (connection_requests s) (successful_connections s) (rejected_connections s)
    (packets_forwarded s) (bytes_forwarded s) (active_sessions s) (expired_sessions s) heartbeats
    current peak (avg_packet_size s) (active_clients s) (cpu_usage_pct s) (memory_usage_bytes s)
    (uptime_seconds s) (last_reset s).

(** [update_bandwidth]; the period is in nanoseconds. *)
Definition update_bandwidth (bytes period : Z) (s : RelayStats) : RelayStats :=
  let secs := period `div` SECOND in
  if 0 <? secs then
    let bps := u64_mul bytes 8 `div` secs in
    with_traffic (heartbeats_processed s) bps
      (if peak_bandwidth_bps s <? bps then bps else peak_bandwidth_bps s) s
  else s.

Definition record_forwarded_packet (bytes : Z) (s : RelayStats) : RelayStats :=
  let packets := u64_add (packets_forwarded s) 1 in
  let total := u64_add (bytes_forwarded s) bytes in
  with_forwarded packets total (if 0 <? packets then total `div` packets else avg_packet_size s) s.

Definition calculate_uptime (now start_time : Z) (s : RelayStats) : RelayStats :=
  if start_time <=? now then
    with_sessions (active_sessions s) (expired_sessions s) (active_clients s)
      ((now - start_time) `div` SECOND) s
  else s.

(** The counters that the handlers increase. *)
Definition count_request (s : RelayStats) : RelayStats :=
  with_connections (u64_add (connection_requests s) 1) (successful_connections s)
    (rejected_connections s) (active_sessions s) s.
Definition count_rejected (s : RelayStats) : RelayStats :=
  with_connections (connection_requests s) (successful_connections s)
    (u64_add (rejected_connections s) 1) (active_sessions s) s.
Definition count_successful (active : Z) (s : RelayStats) : RelayStats :=
  with_connections (connection_requests s) (u64_add (successful_connections s) 1)
    (rejected_connections s) active s.
Definition count_heartbeat (s : RelayStats) : RelayStats :=
  with_traffic (u64_add (heartbeats_processed s) 1) (current_bandwidth_bps s)
    (peak_bandwidth_bps s) s.
Definition set_active_sessions (active : Z) (s : RelayStats) : RelayStats :=
  with_sessions active (expired_sessions s) (active_clients s) (uptime_seconds s) s.
Definition set_active_clients (clients : Z) (s : RelayStats) : RelayStats :=
  with_sessions (active_sessions s) (expired_sessions s) clients (uptime_seconds s) s.
Definition add_expired (n : Z) (s : RelayStats) : RelayStats :=
  with_sessions (active_sessions s) (u64_add (expired_sessions s) n) (active_clients s)
    (uptime_seconds s) s.

End Stats.

(** [ResourceLimits]; durations are in nanoseconds. *)
Record ResourceLimits := {
  max_total_sessions : Z;
  max_sessions_per_client : Z;
  max_connection_rate : Z;
  max_connection_rate_per_ip : Z;
  max_bandwidth_bps : option Z;
  max_packet_size : Z;
  max_packets_per_second : Z;
  max_packets_per_second_per_ip : Z;
  session_inactivity_timeout : Z;
  default_session_expiration : Z;
}.

Definition default_limits : ResourceLimits :=
  {| max_total_sessions := 1000; max_sessions_per_client := 5; max_connection_rate := 60;
     max_connection_rate_per_ip := 60; max_bandwidth_bps := None; max_packet_size := 1500;
     max_packets_per_second := 100; max_packets_per_second_per_ip := 100;
     session_inactivity_timeout := 300 * SECOND;
     default_session_expiration := DEFAULT_SESSION_EXPIRATION |}.

(** The fields of [RelayConfig] that a running node reads; the others are for files, for
    the discovery of other relays and for the timeouts of clients. *)
Record RelayConfig := {
  listen_addr : SocketAddr;
  pubkey : bytes;
  region : option string;
  capabilities : Z;
  limits : ResourceLimits;
  maintenance_interval : Z;
}.

(** [RelayNode]; [sent] is what its socket has sent, last first.  The handles of the threads
    and the channel that stops them are left out. *)
Record RelayNode := mkNode {
  config : RelayConfig;
  sessions : gmap Z RelaySession;
  initiator_sessions : gmap string (gset Z);
  target_sessions : gmap string (gset Z);
  connection_attempts : list Z;
  ip_connection_attempts : gmap string (list Z);
  ip_packet_times : gmap string (list Z);
  stats : RelayStats;
  start_time : Z;
  packet_times : list Z;
  sent : list (SocketAddr * bytes);
}.

Definition new_node (now : Reading) (config : RelayConfig) : RelayNode :=
  mkNode config ∅ ∅ ∅ [] ∅ ∅ (Stats.default (system now)) (system now) [] [].

Definition with_maps (n : RelayNode) (ss : gmap Z RelaySession) (mi mt : gmap string (gset Z)) : RelayNode :=
  mkNode (config n) ss mi mt (connection_attempts n) (ip_connection_attempts n) (ip_packet_times n)
    (stats n) (start_time n) (packet_times n) (sent n).
Definition with_session_map (n : RelayNode) (ss : gmap Z RelaySession) : RelayNode :=
  with_maps n ss (initiator_sessions n) (target_sessions n).
Definition with_attempts (n : RelayNode) (l : list Z) (m : gmap string (list Z)) : RelayNode :=
  mkNode (config n) (sessions n) (initiator_sessions n) (target_sessions n) l m (ip_packet_times n)
    (stats n) (start_time n) (packet_times n) (sent n).
Definition with_packets (n : RelayNode) (l : list Z) (m : gmap string (list Z)) : RelayNode :=
  mkNode (config n) (sessions n) (initiator_sessions n) (target_sessions n) (connection_attempts n)
    (ip_connection_attempts n) m (stats n) (start_time n) l (sent n).
Definition with_stats (n : RelayNode) (s : RelayStats) : RelayNode :=
  mkNode (config n) (sessions n) (initiator_sessions n) (target_sessions n) (connection_attempts n)
    (ip_connection_attempts n) (ip_packet_times n) s (start_time n) (packet_times n) (sent n).
Definition with_sent (n : RelayNode) (l : list (SocketAddr * bytes)) : RelayNode :=
  mkNode (config n) (sessions n) (initiator_sessions n) (target_sessions n) (connection_attempts n)
    (ip_connection_attempts n) (ip_packet_times n) (stats n) (start_time n) (packet_times n) l.

Abbreviation action := (method RelayNode RelayError).
Definition on_stats (f : RelayStats → RelayStats) : action unit :=
  mmodify (λ n, with_stats n (f (stats n))).

(** ** Limits on rates *)

(** [record_packet_time]; [duration_since] saturates at zero. *)
Definition record_packet_time (now : Z) : action bool := λ n,
  let times := filter (λ time, Z.max 0 (now - time) < SECOND) (packet_times n) in
  if max_packets_per_second (limits (config n)) <=? Z.of_nat (length times) then
    (with_packets n times (ip_packet_times n), Ok false)
  else (with_packets n (times ++ [now]) (ip_packet_times n), Ok true).

(** [timestamps.iter().max()]. *)
Definition latest (l : list Z) : option Z :=
  match l with [] => None | t :: l => Some (foldl Z.max t l) end.

(** The end of [check_ip_connection_rate_limit] and of [check_ip_packet_rate_limit]: when
    more than 10000 addresses are tracked, those without activity for [idle] are
    dropped, then the ones with the oldest activity until 5000 are left. *)
Definition drop_ips (m : gmap string (list Z)) (ips : list string) : gmap string (list Z) :=
  foldl (λ m ip, delete ip m) m ips.
Definition cap_tracked `{TimesOrder} (idle now : Z) (m : gmap string (list Z)) : gmap string (list Z) :=
  if 10000 <? Z.of_nat (size m) then
    let inactive_ips :=
      (filter (λ p : string * list Z, p.2 = [] ∨ Forall (λ t, idle < Z.max 0 (now - t)) p.2) (times_iter m)).*1 in
    let m := drop_ips m inactive_ips in
    if 5000 <? Z.of_nat (size m) then
      let ips_by_activity :=
        sort_by_key snd (omap (λ p, (λ t, (p.1, t)) <$> latest p.2) (times_iter m)) in
      drop_ips m (take (Z.to_nat (Z.of_nat (size m) - 5000)) ips_by_activity).*1
    else m
  else m.

(** The times of [ip] that are later than [window] ago, the new time, and whether there was
    room below [limit]. *)
Definition track_ip (window limit now : Z) (ip : string) (m : gmap string (list Z))
    : gmap string (list Z) * bool :=
  let times := filter (λ time, now - window < time) (default [] (m !! ip)) in
  (<[ip := times ++ [now]]> m, negb (limit <=? Z.of_nat (length times))).

Section Node.
Context `{Bincode} `{Hex} `{TimesOrder}.

Definition check_ip_connection_rate_limit (now elapsed_now : Z) (src_addr : SocketAddr) : action bool := λ n,
  let '(m, result) := track_ip (60 * SECOND) (max_connection_rate_per_ip (limits (config n))) now
                        (ip_to_string (ip src_addr)) (ip_connection_attempts n) in
  (with_attempts n (connection_attempts n) (cap_tracked (300 * SECOND) elapsed_now m), Ok result).

Definition check_ip_packet_rate_limit (now elapsed_now : Z) (src_addr : SocketAddr) : action bool := λ n,
  let '(m, result) := track_ip SECOND (max_packets_per_second_per_ip (limits (config n))) now
                        (ip_to_string (ip src_addr)) (ip_packet_times n) in
  (with_packets n (packet_times n) (cap_tracked (60 * SECOND) elapsed_now m), Ok result).

(** The limit on all requests: attempts of the last minute. *)
Definition check_connection_rate (minute_now push_now : Z) : action bool := λ n,
  let one_minute_ago := minute_now - 60 * SECOND in
  let attempts := filter (λ time, one_minute_ago < time) (connection_attempts n) in
  if max_connection_rate (limits (config n)) <=? Z.of_nat (length attempts) then
    (with_attempts n attempts (ip_connection_attempts n), Ok false)
  else (with_attempts n (attempts ++ [push_now]) (ip_connection_attempts n), Ok true).

(** ** Sessions *)

(** The new session in the three maps. *)
Definition store_session (s : RelaySession) : action unit :=
  mmodify (λ n,
    let insert_id key m := upsert ∅ (λ ids, {[id s]} ∪ ids) key m in
    with_maps n (<[id s := s]> (sessions n))
      (insert_id (hex_encode (initiator_pubkey s)) (initiator_sessions n))
      (insert_id (hex_encode (s_target_pubkey s)) (target_sessions n))).

(** A session identifier removed from the set of a key; an empty set is dropped. *)
Definition remove_id (key : string) (session_id : Z) (m : gmap string (gset Z)) : gmap string (gset Z) :=
  match m !! key with
  | Some ids =>
      let ids := ids ∖ {[session_id]} in
      if decide (ids = ∅) then delete key m else <[key := ids]> m
  | None => m
  end.

(** The removal of a session from the three maps, if it is there. *)
Definition drop_session (session_id : Z) (n : RelayNode) : RelayNode :=
  match sessions n !! session_id with
  | Some s =>
      with_maps n (delete session_id (sessions n))
        (remove_id (hex_encode (initiator_pubkey s)) session_id (initiator_sessions n))
        (remove_id (hex_encode (s_target_pubkey s)) session_id (target_sessions n))
  | None => n
  end.

Definition session_count (n : RelayNode) : Z := Z.of_nat (size (sessions n)).
(** Whether a client has as many sessions as it may. *)
Definition client_full (pubkey : bytes) (n : RelayNode) : bool :=
  match initiator_sessions n !! hex_encode pubkey with
  | Some ids => max_sessions_per_client (limits (config n)) <=? Z.of_nat (size ids)
  | None => false
  end.
Definition node_full (n : RelayNode) : bool := max_total_sessions (limits (config n)) <=? session_count n.

Definition create_session (e : Env) (initiator_pubkey target_pubkey : bytes) : action Z :=
  let* n := mget in
  if node_full n then merr (ResourceLimit "Maximum number of total sessions reached")
  else if client_full initiator_pubkey n then
    merr (ResourceLimit "Maximum number of sessions per client reached")
  else
    let session_id := random e in
    let* _ := store_session (Session.new (system (clock e 0)) (instant (clock e 0)) session_id
                               initiator_pubkey target_pubkey) in
    let* n := mget in
    let* _ := on_stats (Stats.set_active_sessions (session_count n)) in
    mret session_id.

Definition not_found (session_id : Z) : RelayError :=
  Protocol ("Session " +:+ pretty session_id +:+ " not found").

Definition remove_session (session_id : Z) : action unit := λ n,
  match sessions n !! session_id with
  | None => (n, Err (not_found session_id))
  | Some _ =>
      let n := drop_session session_id n in
      (with_stats n (Stats.set_active_sessions (session_count n) (stats n)), Ok tt)
  end.

Definition get_session (session_id : Z) (n : RelayNode) : option RelaySession := sessions n !! session_id.

Definition find_sessions_for_pubkey (pubkey : bytes) (n : RelayNode) : list Z :=
  let ids m := elements (default ∅ (m !! hex_encode pubkey)) in
  foldl (λ result session_id, if decide (session_id ∈ result) then result else result ++ [session_id])
    (ids (initiator_sessions n)) (ids (target_sessions n)).

(** A change of one session. *)
Definition alter_session (session_id : Z) (f : RelaySession → RelaySession) (err : RelayError)
    : action unit := λ n,
  match sessions n !! session_id with
  | Some s => (with_session_map n (<[session_id := f s]> (sessions n)), Ok tt)
  | None => (n, Err err)
  end.

Definition extend_session (e : Env) (session_id duration : Z) : action unit :=
  alter_session session_id (Session.extend_expiration (system (clock e 0)) duration) (not_found session_id).

Definition update_session_stats (e : Env) (session_id bytes : Z) (is_initiator_to_target : bool) : action unit :=
  alter_session session_id
    (if is_initiator_to_target then Session.record_initiator_to_target (instant (clock e 0)) bytes
     else Session.record_target_to_initiator (instant (clock e 0)) bytes) (not_found session_id).

(** A session that a clean-up removes. *)
Definition is_over (now : Reading) (n : RelayNode) (s : RelaySession) : bool :=
  Session.is_expired (system now) s
  || Session.is_inactive (instant now) (session_inactivity_timeout (limits (config n))) s.

Definition get_expired_sessions (now : Reading) (n : RelayNode) : list Z :=
  (filter (λ p : Z * RelaySession, is_over now n p.2 = true) (map_to_list (sessions n))).*1.

Definition cleanup_expired_sessions (e : Env) (n : RelayNode) : RelayNode * Z :=
  let expired_sessions := get_expired_sessions (clock e 0) n in
  let count := Z.of_nat (length expired_sessions) in
  let n := foldl (λ n session_id, (remove_session session_id n).1) n expired_sessions in
  (with_stats n (Stats.add_expired count (stats n)), count).

(** [perform_maintenance]: the clock is read for the uptime before and after. *)
Definition perform_maintenance (e : Env) (n : RelayNode) : RelayNode :=
  let clients n := Z.of_nat (size (initiator_sessions n)) in
  let n := with_stats n
    (Stats.set_active_clients (clients n)
      (Stats.set_active_sessions (session_count n)
        (Stats.calculate_uptime (system (clock e 0)) (start_time n) (stats n)))) in
  let expired_sessions := get_expired_sessions (clock e 1) n in
  let n := foldl (λ n session_id, drop_session session_id n) n expired_sessions in
  with_stats n
    (Stats.calculate_uptime (system (clock e 2)) (start_time n)
      (Stats.set_active_clients (clients n)
        (Stats.set_active_sessions (session_count n)
          (Stats.add_expired (Z.of_nat (length expired_sessions)) (stats n))))).

(** ** Datagrams *)

(** [socket.send_to]. *)
Definition send_to (e : Env) (data : bytes) (dest_addr : SocketAddr) : action unit :=
  match send_error e with
  | Some err => merr (Io err)
  | None => mmodify (λ n, with_sent n ((dest_addr, data) :: sent n))
  end.

Definition send_response (e : Env) (response : ConnectionResponse) (dest_addr : SocketAddr) : action unit :=
  let* response_data := mlift match encode_response response with
                              | Ok data => Ok data
                              | Err err => Err (Serialization err)
                              end in
  send_to e response_data dest_addr.

(** The block that [process_relay_packet] runs under the lock: the address and the payload
    to forward. *)
Definition route_packet (e : Env) (packet : RelayPacket) (src_addr : SocketAddr)
    : action (SocketAddr * bytes) := λ n,
  let session_id := h_session_id (header packet) in
  match sessions n !! session_id with
  | None => (n, Err (not_found session_id))
  | Some session =>
      if negb (Session.authenticate_packet (system (clock e 4)) packet session) then
        (n, Err (Authentication "Packet authentication failed"))
      else
        let is_from_initiator :=
          negb (bool_decide (initiator_pubkey session = dest_peer_id (header packet))) in
        let size := Z.of_nat (length (payload packet)) in
        let now := instant (clock e 5) in
        if is_from_initiator then
          match target_addr session with
          | None => (n, Err (Protocol "Target address not yet known"))
          | Some addr =>
              let session := Session.update_initiator_addr src_addr
                               (Session.record_initiator_to_target now size session) in
              (with_session_map n (<[session_id := session]> (sessions n)), Ok (addr, payload packet))
          end
        else
          match initiator_addr session with
          | None => (n, Err (Protocol "Initiator address not yet known"))
          | Some addr =>
              let session := Session.update_target_addr src_addr
                               (Session.record_target_to_initiator now size session) in
              (with_session_map n (<[session_id := session]> (sessions n)), Ok (addr, payload packet))
          end
  end.

Definition process_relay_packet (e : Env) (packet : RelayPacket) (src_addr : SocketAddr) : action unit :=
  let* p := route_packet e packet src_addr in
  let* _ := send_to e p.2 p.1 in
  let len := Z.of_nat (length p.2) in
  on_stats (λ s,
    Stats.record_forwarded_packet len
      (Stats.with_forwarded (u64_add (packets_forwarded s) 1) (u64_add (bytes_forwarded s) len)
         (avg_packet_size s) s)).

(** An answer that refuses a request because of a limit. *)
Definition refuse (e : Env) (request : ConnectionRequest) (error : string) (src_addr : SocketAddr)
    : action unit :=
  let* _ := send_response e (Response.error (system (clock e 9)) (nonce request) ResourceLimitReached error)
              src_addr in
  on_stats Stats.count_rejected.

Definition process_connection_request (e : Env) (request : ConnectionRequest) (src_addr : SocketAddr)
    : action unit :=
  let* _ := on_stats Stats.count_request in
  if forallb (Z.eqb 0) (target_pubkey request) then
    send_response e (Response.error (system (clock e 9)) (nonce request) Rejected "Invalid target pubkey")
      src_addr
  else
    let* ip_ok := check_ip_connection_rate_limit (instant (clock e 4)) (instant (clock e 5)) src_addr in
    if negb ip_ok then refuse e request "Connection rate limit exceeded for your IP" src_addr
    else
      let* rate_ok := check_connection_rate (instant (clock e 6)) (instant (clock e 7)) in
      if negb rate_ok then refuse e request "Connection rate limit exceeded" src_addr
      else
        let* n := mget in
        if client_full (peer_pubkey request) n then refuse e request "Maximum session limit reached" src_addr
        else if node_full n then refuse e request "Relay maximum session limit reached" src_addr
        else
          let session_id := random e in
          let* _ := store_session (Session.new (system (clock e 8)) (instant (clock e 8)) session_id
                                     (peer_pubkey request) (target_pubkey request)) in
          let* _ := mmodify (λ n, with_session_map n
                      (alter (Session.update_initiator_addr src_addr) session_id (sessions n))) in
          let* n := mget in
          let* _ := on_stats (Stats.count_successful (session_count n)) in
          send_response e (Response.success (system (clock e 9)) (nonce request) session_id) src_addr.

Definition process_heartbeat (e : Env) (heartbeat : HeartbeatMessage) : action unit :=
  let session_id := hb_session_id heartbeat in
  let* _ := alter_session session_id
              (λ s, Session.extend_expiration (system (clock e 5)) DEFAULT_SESSION_EXPIRATION
                      (Session.update_activity (instant (clock e 4)) s))
              (Protocol ("Unknown session ID: " +:+ pretty session_id)) in
  on_stats Stats.count_heartbeat.

(** [addr.to_string()]. *)
Definition addr_to_string (a : SocketAddr) : string :=
  match ip a with
  | V4 _ _ _ _ => ip_to_string (ip a) +:+ ":" +:+ pretty (port a)
  | V6 _ _ _ _ _ _ _ _ => "[" +:+ ip_to_string (ip a) +:+ "]:" +:+ pretty (port a)
  end.

(** A share in percent: [a as f32 / b as f32 * 100.0], and its cast to [u8]. *)
Definition share (a b : Z) : spec_float := f32_mul (f32_div (f32_of_Z a) (f32_of_Z b)) (f32_of_Z 100).
Definition percent (a b : Z) : Z := f32_as_u8 (share a b).

Definition node_info (load : Z) (c : RelayConfig) : RelayNodeInfo :=
  {| ni_pubkey := pubkey c; endpoints := [addr_to_string (listen_addr c)]; ni_region := region c;
     ni_capabilities := capabilities c; load := load; latency := None;
     max_sessions := u32_wrap (max_total_sessions (limits c)); protocol_version := 1;
     reliability := 100; last_result_time := None; packet_loss := None |}.

(** [get_node_info]: the share of the sessions, unless the statistics have a number of
    sessions; that number and the maximum are cast to [u8]. *)
Definition get_node_info (n : RelayNode) : RelayNodeInfo :=
  let max := max_total_sessions (limits (config n)) in
  let active := active_sessions (stats n) in
  node_info (if 0 <? active then percent (active `mod` 256) (Z.min max 255)
             else f32_as_u8 (f64_min (share (session_count n) max) (f32_of_Z 100))) (config n).

Definition process_discovery_query (e : Env) (query : DiscoveryQuery) (src_addr : SocketAddr)
    : action unit :=
  let* n := mget in
  let c := config n in
  if negb (Query.is_valid (system (clock e 4)) query) then mret tt
  else if negb (Z.land (capabilities c) (min_capabilities query) =? min_capabilities query) then mret tt
  else if (match q_region query with
           | Some wanted => negb (bool_decide (region c = Some wanted))
           | None => false
           end) then mret tt
  else
    let info := node_info
      (Z.min (percent (active_sessions (stats n)) (max_total_sessions (limits c))) 100) c in
    let response := {| d_request_nonce := q_nonce query; d_timestamp := unix_secs (system (clock e 5));
                       relays := [info]; more_available := false |} in
    let* response_data := mlift match encode_discovery response with
                                | Ok data => Ok data
                                | Err err => Err (Serialization err)
                                end in
    send_to e response_data src_addr.

Definition process_packet (e : Env) (data : bytes) (src_addr : SocketAddr) : action unit :=
  let* n := mget in
  if max_packet_size (limits (config n)) <? Z.of_nat (length data) then
    merr (ResourceLimit "Packet too large")
  else
    let* ip_ok := check_ip_packet_rate_limit (instant (clock e 1)) (instant (clock e 2)) src_addr in
    if negb ip_ok then merr (ResourceLimit "Packet rate limit exceeded for your IP")
    else
      let* rate_ok := record_packet_time (instant (clock e 3)) in
      if negb rate_ok then merr (ResourceLimit "Packet rate limit exceeded")
      else
        match decode_packet data with
        | Some packet => process_relay_packet e packet src_addr
        | None =>
            match decode_request data with
            | Some request => process_connection_request e request src_addr
            | None =>
                match decode_heartbeat data with
                | Some heartbeat => process_heartbeat e heartbeat
                | None =>
                    match decode_query data with
                    | Some query => process_discovery_query e query src_addr
                    | None => merr (Protocol "Unknown packet type")
                    end
                end
            end
        end.

(** The loop of [start] when a datagram arrives; the buffer has 2048 bytes, and an error is
    only logged. *)
Definition receive (e : Env) (data : bytes) (src_addr : SocketAddr) (n : RelayNode) : RelayNode :=
  let n := (record_packet_time (instant (clock e 0)) n).1 in
  (process_packet e (take 2048 data) src_addr n).1.

(** ** Runs of a node *)

(** What can happen to a node, one call at a time. *)
Inductive call :=
| Receive (data : bytes) (src_addr : SocketAddr)
| Maintain
| CreateSession (initiator_pubkey target_pubkey : bytes)
| RemoveSession (session_id : Z)
| ExtendSession (session_id duration : Z)
| UpdateSessionStats (session_id bytes : Z) (is_initiator_to_target : bool)
| Cleanup.

Definition exec (e : Env) (c : call) (n : RelayNode) : RelayNode :=
  match c with
  | Receive data src_addr => receive e data src_addr n
  | Maintain => perform_maintenance e n
  | CreateSession i t => (create_session e i t n).1
  | RemoveSession i => (remove_session i n).1
  | ExtendSession i d => (extend_session e i d n).1
  | UpdateSessionStats i b d => (update_session_stats e i b d n).1
  | Cleanup => (cleanup_expired_sessions e n).1
  end.

Definition run (l : list (Env * call)) (n : RelayNode) : RelayNode :=
  foldl (λ n p, exec p.1 p.2 n) n l.

End Node.
