(* ===== verification/RelaySessions.v ===== *)
(** * Sessions of a relay

    The calls of a node move its table of sessions as an abstract table does: they change
    a session without its parties, add a session when the limits allow it, or remove
    one.  From that: the maps by public key are the inverse of the table in every
    reachable state, the limits on sessions hold, a search finds the sessions of a
    peer, and maintenance removes exactly the sessions that are over. *)

From stdpp Require Import relations.
From S2P Require Import Prelude Float64 Methods RelayProtocol RelayNode.
From stdpp Require Import options.
Local Open Scope Z_scope.

(** ** Definitions *)

(** [m] has, for each key, the sessions whose [f] it is, and no empty set. *)
Definition indexed (f : RelaySession → string) (ss : gmap Z RelaySession) (m : gmap string (gset Z)) : Prop :=
  (∀ k i, i ∈ default ∅ (m !! k) ↔ ∃ s, ss !! i = Some s ∧ f s = k) ∧
  (∀ k ids, m !! k = Some ids → ids ≠ ∅).

Section Defs.
Context `{Bincode} `{Hex} `{TimesOrder}.

Definition initiator_key (s : RelaySession) : string := hex_encode (initiator_pubkey s).
Definition target_key (s : RelaySession) : string := hex_encode (s_target_pubkey s).

(** The tables of a node agree. *)
Record well_formed (n : RelayNode) : Prop := {
  wf_id i s : sessions n !! i = Some s → id s = i;
  wf_initiators : indexed initiator_key (sessions n) (initiator_sessions n);
  wf_targets : indexed target_key (sessions n) (target_sessions n);
}.

(** The states of a node that serves with configuration [c], when no identifier is drawn
    twice while it is in use. *)
Inductive reachable (c : RelayConfig) : RelayNode → Prop :=
| reachable_new now : reachable c (new_node now c)
| reachable_exec e x n : reachable c n → sessions n !! random e = None → reachable c (exec e x n).

(** The parts of a node that are not about sessions may change in any way. *)
Definition same_tables (n n' : RelayNode) : Prop :=
  config n' = config n ∧ sessions n' = sessions n ∧ initiator_sessions n' = initiator_sessions n ∧
  target_sessions n' = target_sessions n.

(** The same session, up to times, counters and addresses. *)
Definition same_parties (s s' : RelaySession) : Prop :=
  id s' = id s ∧ initiator_pubkey s' = initiator_pubkey s ∧ s_target_pubkey s' = s_target_pubkey s.

(** A move of the abstract table. *)
Inductive move (n n' : RelayNode) : Prop :=
| move_same : same_tables n n' → move n n'
| move_alter i s s' :
    sessions n !! i = Some s → same_parties s s' →
    same_tables (with_session_map n (<[i := s']> (sessions n))) n' → move n n'
| move_store s :
    sessions n !! id s = None → node_full n = false → client_full (initiator_pubkey s) n = false →
    same_tables (store_session s n).1 n' → move n n'
| move_drop i : same_tables (drop_session i n) n' → move n n'.

(** A session past its expiration, or without activity for longer than [timeout]. *)
Definition overdue (now : Reading) (timeout : Z) (s : RelaySession) : Prop :=
  expires_at s < system now ∨ timeout < Z.max 0 (instant now - last_activity s).
#[global] Instance overdue_dec now timeout s : Decision (overdue now timeout s).
Proof. unfold overdue. apply _. Defined.

(** The sessions that a public key has initiated. *)
Definition initiated (p : bytes) (n : RelayNode) : gmap Z RelaySession :=
  filter (λ q : Z * RelaySession, initiator_pubkey q.2 = p) (sessions n).

End Defs.

(** The laws of [hex::encode]. *)
Class HexLaws `{Hex} : Prop := hex_encode_inj :: Inj (=) (=) hex_encode.

(** ** Indexes *)

Section Index.
Context (f : RelaySession → string).

Lemma indexed_empty : indexed f ∅ ∅.
Proof.
  split; [|intros k ids E; by rewrite lookup_empty in E]. intros k i. rewrite lookup_empty. simpl. split; [set_solver|].
  intros (s & E & _). by rewrite lookup_empty in E.
Qed.

Lemma indexed_insert ss m i s :
  ss !! i = None → indexed f ss m →
  indexed f (<[i := s]> ss) (upsert ∅ (λ ids, {[i]} ∪ ids) (f s) m).
Proof.
  intros Hi [Hm Hne]. unfold upsert. split; intros k.
  - intros j. destruct (decide (k = f s)) as [-> | Hk].
    + rewrite lookup_insert_eq. simpl. rewrite elem_of_union, Hm, elem_of_singleton. split.
      * intros [-> | (s' & E & Hs)]; [exists s; by rewrite lookup_insert_eq|].
        exists s'. rewrite lookup_insert_ne; [done|]. intros ->. congruence.
      * intros (s' & [[<- ->] | [? E]]%lookup_insert_Some & Hs); [by left|right; by exists s'].
    + rewrite lookup_insert_ne by done. rewrite Hm. split.
      * intros (s' & E & Hs). exists s'. rewrite lookup_insert_ne; [done|]. intros ->. congruence.
      * intros (s' & [[<- ->] | [? E]]%lookup_insert_Some & Hs); [congruence|by exists s'].
  - intros ids [[_ <-] | [_ E]]%lookup_insert_Some; [set_solver|by eapply Hne].
Qed.

Lemma indexed_alter ss m i s s' :
  ss !! i = Some s → f s' = f s → indexed f ss m → indexed f (<[i := s']> ss) m.
Proof.
  intros Hi Hf [Hm Hne]. split; [|done]. intros k j. rewrite Hm. split.
  - intros (s1 & E & Hs). destruct (decide (j = i)) as [-> | Hj].
    + exists s'. rewrite lookup_insert_eq. split; [done|]. congruence.
    + exists s1. by rewrite lookup_insert_ne.
  - intros (s1 & [[<- ->] | [? E]]%lookup_insert_Some & Hs); [exists s; split; [done|congruence]|by exists s1].
Qed.

Lemma indexed_delete ss m i s :
  ss !! i = Some s → indexed f ss m → indexed f (delete i ss) (remove_id (f s) i m).
Proof.
  intros Hi [Hm Hne]. unfold remove_id.
  assert (i ∈ default ∅ (m !! f s)) as Hin by (apply Hm; by exists s).
  destruct (m !! f s) as [ids|] eqn:Em; [|set_solver]. simpl in Hin.
  assert (∀ k j, (j ∈ default ∅ (m !! k) ∧ j ≠ i) ↔ ∃ s', delete i ss !! j = Some s' ∧ f s' = k) as Hall.
  { intros k j. rewrite Hm. setoid_rewrite lookup_delete_Some. naive_solver. }
  assert (∀ k, k ≠ f s → i ∉ default ∅ (m !! k)) as Hother.
  { intros k Hk (s' & E & Hs)%Hm. congruence. }
  case_decide as Hempty; split; intros k.
  - intros j. rewrite <-Hall. destruct (decide (k = f s)) as [-> | Hk].
    + rewrite lookup_delete_eq, Em. simpl. set_solver.
    + rewrite lookup_delete_ne by done. specialize (Hother k Hk). set_solver.
  - intros ids' [_ E]%lookup_delete_Some. by eapply Hne.
  - intros j. rewrite <-Hall. destruct (decide (k = f s)) as [-> | Hk].
    + rewrite lookup_insert_eq, Em. simpl. set_solver.
    + rewrite lookup_insert_ne by done. specialize (Hother k Hk). set_solver.
  - intros ids' [[_ <-] | [_ E]]%lookup_insert_Some; [done|by eapply Hne].
Qed.

End Index.

(** ** The calls move the table *)

Section Moves.
#[local] Set Default Proof Using "Type".
Context `{Bincode} `{Hex} `{TimesOrder}.

#[export] Instance same_tables_refl : Reflexive same_tables.
Proof. by intros n. Qed.

Lemma tables_trans n1 n2 n3 : same_tables n1 n2 → same_tables n2 n3 → same_tables n1 n3.
Proof. intros (? & ? & ? & ?) (? & ? & ? & ?). repeat split; congruence. Qed.

(** An action that leaves the tables alone. *)
Definition quiet {A} (m : action A) : Prop := ∀ n, same_tables n (m n).1.
(** An action whose effect is a sequence of moves. *)
Definition moving {A} (m : action A) (n : RelayNode) : Prop := rtc move n (m n).1.

Lemma quiet_bind {A B} (m : action A) (k : A → action B) :
  quiet m → (∀ a, quiet (k a)) → quiet (let* x := m in k x).
Proof.
  intros Hm Hk n. specialize (Hm n). unfold mbind. destruct (m n) as [n1 [a|err]]; [|done].
  eapply tables_trans; [exact Hm|apply Hk].
Qed.

Lemma quiet_ret {A} (a : A) : quiet (mret a).
Proof. done. Qed.
Lemma quiet_err {A} err : quiet (merr (A := A) err).
Proof. done. Qed.
Lemma quiet_get : quiet mget.
Proof. done. Qed.
Lemma quiet_lift {A} (r : result A RelayError) : quiet (mlift r).
Proof. done. Qed.
Lemma quiet_stats f : quiet (on_stats f).
Proof. done. Qed.
Lemma quiet_send_to e data dest : quiet (send_to e data dest).
Proof. intros n. unfold send_to. by destruct (send_error e). Qed.
Lemma quiet_packet_time now : quiet (record_packet_time now).
Proof. intros n. unfold record_packet_time. by case_match. Qed.
Lemma quiet_ip_packets now now' src : quiet (check_ip_packet_rate_limit now now' src).
Proof. intros n. done. Qed.
Lemma quiet_ip_connections now now' src : quiet (check_ip_connection_rate_limit now now' src).
Proof. intros n. done. Qed.
Lemma quiet_connection_rate now now' : quiet (check_connection_rate now now').
Proof. intros n. unfold check_connection_rate. by destruct (_ <=? _). Qed.

Create HintDb relay.
#[local] Hint Resolve quiet_bind quiet_ret quiet_err quiet_get quiet_lift quiet_stats quiet_send_to
  quiet_packet_time quiet_ip_packets quiet_ip_connections quiet_connection_rate : relay.

Lemma quiet_response e r dest : quiet (send_response e r dest).
Proof. unfold send_response. auto with relay. Qed.
#[local] Hint Resolve quiet_response : relay.

Lemma quiet_refuse e r msg src : quiet (refuse e r msg src).
Proof. unfold refuse. auto with relay. Qed.

Lemma quiet_query e q src : quiet (process_discovery_query e q src).
Proof.
  unfold process_discovery_query. apply quiet_bind; [auto with relay|]. intros n.
  repeat case_match; auto with relay.
Qed.
#[local] Hint Resolve quiet_refuse quiet_query : relay.

Lemma moving_quiet {A} (m : action A) n : quiet m → moving m n.
Proof. intros Hm. apply rtc_once, move_same, Hm. Qed.

Lemma moving_bind {A B} (m : action A) (k : A → action B) n :
  moving m n → (∀ a n', m n = (n', Ok a) → moving (k a) n') → moving (let* x := m in k x) n.
Proof.
  unfold moving, mbind. destruct (m n) as [n1 [a|err]]; intros Hm Hk; [|done].
  etrans; [exact Hm|]. by apply Hk.
Qed.

(** A quiet step keeps an identifier free. *)
Lemma moving_after {A B} (m : action A) (k : A → action B) i n :
  quiet m → sessions n !! i = None → (∀ a n', sessions n' !! i = None → moving (k a) n') →
  moving (let* x := m in k x) n.
Proof.
  intros Hm Hi Hk. apply moving_bind; [by apply moving_quiet|]. intros a n' E. apply Hk.
  destruct (Hm n) as (_ & Es & _). rewrite E in Es. simpl in Es. congruence.
Qed.

Lemma moving_alter i f err n : (∀ s, same_parties s (f s)) → moving (alter_session i f err) n.
Proof.
  intros Hf. unfold moving, alter_session. destruct (sessions n !! i) as [s|] eqn:E; [|done].
  eapply rtc_once, move_alter; [exact E|apply Hf|reflexivity].
Qed.

Lemma moving_alter_map i f n :
  (∀ s, same_parties s (f s)) → moving (mmodify (λ n, with_session_map n (alter f i (sessions n)))) n.
Proof.
  intros Hf. unfold moving, mmodify. cbn [fst]. destruct (sessions n !! i) as [s|] eqn:E.
  - eapply rtc_once, move_alter; [exact E|apply Hf|]. rewrite (alter_alt_Some _ _ _ _ E). reflexivity.
  - rewrite alter_id by congruence. by apply rtc_once, move_same.
Qed.

Lemma moving_store s n :
  sessions n !! id s = None → node_full n = false → client_full (initiator_pubkey s) n = false →
  moving (store_session s) n.
Proof. intros Hi Hn Hc. by eapply rtc_once, move_store. Qed.

Lemma moving_route e p src n : moving (route_packet e p src) n.
Proof.
  unfold moving, route_packet. destruct (sessions n !! _) as [s|] eqn:E; [|done].
  repeat case_match; try done; cbn [fst]; (eapply rtc_once, move_alter; [exact E| |reflexivity]; done).
Qed.

Lemma moving_request e r src n : sessions n !! random e = None → moving (process_connection_request e r src) n.
Proof.
  intros Hi. unfold process_connection_request. eapply moving_after; [auto with relay|exact Hi|]. clear n Hi. intros _ n Hi.
  case_match; [apply moving_quiet; auto with relay|].
  eapply moving_after; [auto with relay|exact Hi|]. clear n Hi. intros ok n Hi.
  destruct (negb ok); [apply moving_quiet; auto with relay|].
  eapply moving_after; [auto with relay|exact Hi|]. clear n Hi. intros rok n Hi.
  destruct (negb rok); [apply moving_quiet; auto with relay|].
  apply moving_bind; [by apply moving_quiet|]. intros n0 n1 [= <- <-].
  destruct (client_full _ n) eqn:Hc; [apply moving_quiet; auto with relay|].
  destruct (node_full n) eqn:Hn; [apply moving_quiet; auto with relay|].
  apply moving_bind; [by apply moving_store|]. intros [] n1 [= <-].
  apply moving_bind.
  - by apply moving_alter_map.
  - intros [] n1 _. apply moving_quiet. auto with relay.
Qed.

Lemma moving_packet e data src n : sessions n !! random e = None → moving (process_packet e data src) n.
Proof.
  intros Hi. unfold process_packet. apply moving_bind; [by apply moving_quiet|]. intros n0 n1 [= <- <-].
  case_match; [by apply moving_quiet|].
  eapply moving_after; [auto with relay|exact Hi|]. clear n Hi H2. intros ok n Hi.
  destruct (negb ok); [by apply moving_quiet|].
  eapply moving_after; [auto with relay|exact Hi|]. clear n Hi. intros rok n Hi.
  destruct (negb rok); [by apply moving_quiet|].
  repeat case_match; [| |..|by apply moving_quiet].
  - apply moving_bind; [apply moving_route|]. intros [] n1 _. apply moving_quiet. auto with relay.
  - by apply moving_request.
  - apply moving_bind; [by apply moving_alter|]. intros [] n1 _. apply moving_quiet. auto with relay.
  - apply moving_quiet. auto with relay.
Qed.

Lemma moving_create e i t n : sessions n !! random e = None → moving (create_session e i t) n.
Proof.
  intros Hi. unfold create_session. apply moving_bind; [by apply moving_quiet|]. intros n0 n1 [= <- <-].
  destruct (node_full n) eqn:Hn; [by apply moving_quiet|].
  destruct (client_full i n) eqn:Hc; [by apply moving_quiet|].
  apply moving_bind; [by apply moving_store|]. intros [] n1 _. apply moving_quiet. auto with relay.
Qed.

Lemma moving_remove i n : moving (remove_session i) n.
Proof.
  unfold moving, remove_session. destruct (sessions n !! i) as [s|]; [|done]. cbn [fst].
  by eapply rtc_once, (move_drop _ _ i).
Qed.

Lemma foldl_moves (f : RelayNode → Z → RelayNode) l n :
  (∀ n i, rtc move n (f n i)) → rtc move n (foldl f n l).
Proof.
  intros Hf. revert n. induction l as [|i l IH]; intros n; [done|]. simpl. etrans; [apply Hf|apply IH].
Qed.

Lemma moves_stats n s n' : rtc move (with_stats n s) n' → rtc move n n'.
Proof. intros Hm. eapply rtc_l; [|exact Hm]. by apply move_same. Qed.

Lemma moves_then_stats n n' s : rtc move n n' → rtc move n (with_stats n' s).
Proof. intros Hm. eapply rtc_r; [exact Hm|]. by apply move_same. Qed.

Lemma exec_moves e x n : sessions n !! random e = None → rtc move n (exec e x n).
Proof.
  intros Hi. destruct x as [data src| |i t|i|i d|i b d|]; simpl.
  - unfold receive. etrans; [apply (moving_quiet _ n (quiet_packet_time (instant (clock e 0))))|].
    apply moving_packet. destruct (quiet_packet_time (instant (clock e 0)) n) as (_ & -> & _). done.
  - unfold perform_maintenance. apply moves_then_stats. eapply moves_stats, foldl_moves. intros n0 i. by eapply rtc_once, (move_drop _ _ i).
  - by apply moving_create.
  - apply moving_remove.
  - by apply moving_alter.
  - apply moving_alter. by destruct d.
  - unfold cleanup_expired_sessions. cbn [fst]. apply moves_then_stats, foldl_moves. intros n0 i. apply moving_remove.
Qed.

(** ** The invariant *)

(** The tables of an updated node. *)
Ltac tables :=
  cbn [with_session_map with_maps with_stats store_session mmodify fst sessions initiator_sessions
       target_sessions config].

(** The tables agree and are within the limits. *)
Record within_limits (n : RelayNode) : Prop := {
  wl_total : session_count n ≤ max_total_sessions (limits (config n));
  wl_client k ids : initiator_sessions n !! k = Some ids →
    Z.of_nat (size ids) ≤ Z.max 1 (max_sessions_per_client (limits (config n)));
}.
Definition good (n : RelayNode) : Prop := well_formed n ∧ within_limits n.

Lemma good_same n n' : same_tables n n' → good n → good n'.
Proof.
  intros (Ec & Es & Ei & Et) [[W1 W2 W3] [L1 L2]].
  split; constructor; unfold session_count; rewrite ?Ec, ?Es, ?Ei, ?Et; done.
Qed.

Lemma good_alter i s s' n :
  sessions n !! i = Some s → same_parties s s' → good n → good (with_session_map n (<[i := s']> (sessions n))).
Proof.
  intros E (E1 & E2 & E3) [[W1 W2 W3] [L1 L2]]. split; constructor; tables.
  - intros j t [[<- <-] | [_ Et]]%lookup_insert_Some; [rewrite E1|]; by apply W1.
  - apply (indexed_alter _ _ _ _ s); [done| |done]. unfold initiator_key. by rewrite E2.
  - apply (indexed_alter _ _ _ _ s); [done| |done]. unfold target_key. by rewrite E3.
  - unfold session_count. tables. by rewrite map_size_insert_Some by (by eexists).
  - exact L2.
Qed.

Lemma good_store s n :
  sessions n !! id s = None → node_full n = false → client_full (initiator_pubkey s) n = false →
  good n → good (store_session s n).1.
Proof.
  intros E Hn Hc [[W1 W2 W3] [L1 L2]]. split; constructor; tables.
  - intros j t [[<- <-] | [_ Et]]%lookup_insert_Some; [done|by apply W1].
  - by apply indexed_insert.
  - by apply indexed_insert.
  - unfold session_count. tables. rewrite map_size_insert_None by done. unfold node_full, session_count in Hn. bool_to_prop. lia.
  - intros k ids. unfold upsert.
    intros [[<- <-] | [_ Ek]]%lookup_insert_Some; [|by eapply L2]. unfold client_full in Hc.
    destruct (initiator_sessions n !! hex_encode _) as [ids|] eqn:Ek; cbn [from_option Datatypes.id].
    + bool_to_prop. rewrite size_union_alt. assert (size ({[id s]} : gset Z) = 1%nat) as -> by apply size_singleton.
      assert (size (ids ∖ {[id s]}) ≤ size ids)%nat by (apply subseteq_size; set_solver). lia.
    + assert (size ({[id s]} ∪ ∅ : gset Z) = 1%nat) as -> by (rewrite (right_id_L ∅ (∪)); apply size_singleton). lia.
Qed.

Lemma size_remove_id k i m k' ids :
  remove_id k i m !! k' = Some ids → ∃ ids', m !! k' = Some ids' ∧ (size ids ≤ size ids')%nat.
Proof.
  unfold remove_id. destruct (m !! k) as [x|] eqn:E; [|by exists ids]. case_decide.
  - intros [_ E']%lookup_delete_Some. by exists ids.
  - intros [[<- <-] | [_ E']]%lookup_insert_Some; [|by exists ids].
    exists x. split; [done|]. apply subseteq_size. set_solver.
Qed.

Lemma good_drop i n : good n → good (drop_session i n).
Proof.
  intros Hg. unfold drop_session. destruct (sessions n !! i) as [s|] eqn:E; [|done].
  destruct Hg as [[W1 W2 W3] [L1 L2]]. split; constructor; tables.
  - intros j t [_ Et]%lookup_delete_Some. by apply W1.
  - by apply (indexed_delete initiator_key).
  - by apply (indexed_delete target_key).
  - unfold session_count in *. tables. rewrite map_size_delete_Some by (by eexists). lia.
  - intros k ids (ids' & E' & Hs)%size_remove_id. specialize (L2 k ids' E'). lia.
Qed.

Lemma good_move n n' : move n n' → good n → good n'.
Proof.
  intros [Hs|i s s' E Hp Hs|s E Hn Hc Hs|i Hs] Hg; apply (good_same _ _ Hs); [done|..].
  - by eapply good_alter.
  - by apply good_store.
  - by apply good_drop.
Qed.

Lemma good_moves n n' : rtc move n n' → good n → good n'.
Proof. induction 1; [done|]. eauto using good_move. Qed.

Lemma config_move n n' : move n n' → config n' = config n.
Proof.
  intros [(-> & _)|i s s' E Hp (-> & _)|s E Hn Hc (-> & _)|i (-> & _)]; [done..|].
  unfold drop_session. by destruct (sessions n !! i).
Qed.

Lemma config_moves n n' : rtc move n n' → config n' = config n.
Proof. induction 1; [done|]. etrans; [done|by apply config_move]. Qed.

Lemma good_new now c : 0 ≤ max_total_sessions (limits c) → good (new_node now c).
Proof.
  intros Hm. split; constructor; cbn [new_node sessions initiator_sessions target_sessions].
  - intros i s E. by rewrite lookup_empty in E.
  - apply indexed_empty.
  - apply indexed_empty.
  - done.
  - intros k ids E. by rewrite lookup_empty in E.
Qed.

Lemma reachable_good c n : 0 ≤ max_total_sessions (limits c) → reachable c n → good n ∧ config n = c.
Proof.
  intros Hm. induction 1 as [now|e x n Hr [IH Ec] Hi].
  - split; [by apply good_new|done].
  - pose proof (exec_moves e x n Hi) as Hx. split; [by eapply good_moves|by rewrite (config_moves _ _ Hx)].
Qed.

Lemma initiated_size p n :
  good n → Z.of_nat (size (initiated p n)) ≤ Z.max 1 (max_sessions_per_client (limits (config n))).
Proof.
  intros [[_ [Hm _] _] [_ L2]]. rewrite <-(size_dom (D := gset Z)).
  assert (dom (initiated p n) ⊆ default ∅ (initiator_sessions n !! hex_encode p)) as Hd.
  { intros i [s [E Hs]%map_lookup_filter_Some]%elem_of_dom. apply Hm. exists s. simpl in Hs. by rewrite <-Hs. }
  apply subseteq_size in Hd. destruct (initiator_sessions n !! hex_encode p) as [ids|] eqn:E; cbn [from_option Datatypes.id] in Hd.
  - specialize (L2 _ _ E). lia.
  - assert (size (∅ : gset Z) = 0%nat) as E0 by apply size_empty. rewrite E0 in Hd. lia.
Qed.

(** C28: in every state that a node reaches by any sequence of datagrams, maintenance and
    calls of its interface, the tables agree: each session is stored under its own
    identifier, and the maps by public key have exactly the sessions of the peer, and no
    empty sets. *)
Theorem tables_agree c n : 0 ≤ max_total_sessions (limits c) → reachable c n → well_formed n ∧ config n = c.
Proof. intros Hm Hr. destruct (reachable_good c n Hm Hr) as [[Hw _] Hc]. done. Qed.

(** C29: a node never has more sessions than its limit, nor does a public key initiate more
    than the limit of a client, or one if that limit is zero. *)
Theorem session_limits c n :
  0 ≤ max_total_sessions (limits c) → reachable c n →
  session_count n ≤ max_total_sessions (limits c) ∧
  ∀ p, Z.of_nat (size (initiated p n)) ≤ Z.max 1 (max_sessions_per_client (limits c)).
Proof.
  intros Hm Hr. destruct (reachable_good c n Hm Hr) as [Hg <-]. split; [apply Hg|]. intros p. by apply initiated_size.
Qed.

(** ** Searching *)

Lemma foldl_add_new (l result : list Z) :
  NoDup result →
  let l' := foldl (λ result i, if decide (i ∈ result) then result else result ++ [i]) result l in
  NoDup l' ∧ ∀ i, i ∈ l' ↔ i ∈ result ∨ i ∈ l.
Proof.
  revert result. induction l as [|x l IH]; intros result Hn; simpl; [split; [done|set_solver]|].
  case_decide as Hx.
  - destruct (IH result Hn) as [H1' H2']. split; [done|]. intros i. rewrite H2'. set_solver.
  - destruct (IH (result ++ [x])) as [H1' H2'].
    { apply NoDup_app. split_and!; [done|set_solver|apply NoDup_singleton]. }
    split; [done|]. intros i. rewrite H2'. set_solver.
Qed.

(** The sessions of a public key, each once. *)
Theorem find_sessions_spec `{!HexLaws} p n :
  well_formed n →
  NoDup (find_sessions_for_pubkey p n) ∧
  ∀ i, i ∈ find_sessions_for_pubkey p n ↔
    ∃ s, get_session i n = Some s ∧ (initiator_pubkey s = p ∨ s_target_pubkey s = p).
Proof.
  intros [_ [W2 _] [W3 _]]. unfold find_sessions_for_pubkey.
  destruct (foldl_add_new (elements (default ∅ (target_sessions n !! hex_encode p)))
    (elements (default ∅ (initiator_sessions n !! hex_encode p)))) as [H1' H2'].
  { apply NoDup_elements. }
  split; [exact H1'|]. intros i. rewrite H2', !elem_of_elements, W2, W3. unfold get_session, initiator_key, target_key.
  split.
  - intros [(s & E & Hs%(inj hex_encode))|(s & E & Hs%(inj hex_encode))]; exists s; auto.
  - intros (s & E & [<- | <-]); [left|right]; by exists s.
Qed.

(** ** Maintenance *)

Lemma sessions_drop i n : sessions (drop_session i n) = delete i (sessions n).
Proof.
  unfold drop_session. destruct (sessions n !! i) as [s|] eqn:E; [done|]. by rewrite delete_id.
Qed.

Lemma sessions_drops l n i :
  sessions (foldl (λ n i, drop_session i n) n l) !! i = if decide (i ∈ l) then None else sessions n !! i.
Proof.
  revert n. induction l as [|j l IH]; intros n; simpl; [done|]. rewrite IH, sessions_drop.
  destruct (decide (i ∈ j :: l)) as [Hi|Hi]; case_decide as Hl; try done.
  - assert (i = j) as -> by set_solver. apply lookup_delete_eq.
  - set_solver.
  - apply lookup_delete_ne. set_solver.
Qed.

Lemma is_over_spec now n s :
  is_over now n s = true ↔ overdue now (session_inactivity_timeout (limits (config n))) s.
Proof.
  unfold is_over, overdue, Session.is_expired, Session.is_inactive. by rewrite orb_true_iff, !Z.ltb_lt.
Qed.

Lemma elem_of_expired now n i :
  i ∈ get_expired_sessions now n ↔
  ∃ s, sessions n !! i = Some s ∧ overdue now (session_inactivity_timeout (limits (config n))) s.
Proof.
  unfold get_expired_sessions. setoid_rewrite <-is_over_spec. rewrite list_elem_of_fmap. split.
  - intros ([j s] & -> & [Ho Hj%elem_of_map_to_list]%list_elem_of_filter). by exists s.
  - intros (s & E & Ho). exists (i, s). split; [done|]. apply list_elem_of_filter. by rewrite elem_of_map_to_list.
Qed.

Lemma good_drops l n : good n → good (foldl (λ n i, drop_session i n) n l).
Proof. apply good_moves, foldl_moves. intros n0 i. by eapply rtc_once, (move_drop _ _ i). Qed.

Lemma drops_frame l n :
  stats (foldl (λ n i, drop_session i n) n l) = stats n ∧ sent (foldl (λ n i, drop_session i n) n l) = sent n ∧
  start_time (foldl (λ n i, drop_session i n) n l) = start_time n.
Proof.
  revert n. induction l as [|j l IH]; intros n; [done|]. simpl. destruct (IH (drop_session j n)) as (-> & -> & ->).
  unfold drop_session. by destruct (sessions n !! j).
Qed.

Lemma expired_drop now n :
  sessions (foldl (λ n i, drop_session i n) n (get_expired_sessions now n)) =
  filter (λ p, ¬ overdue now (session_inactivity_timeout (limits (config n))) p.2) (sessions n).
Proof.
  apply map_eq. intros i. rewrite sessions_drops. case_decide as Hi.
  - apply elem_of_expired in Hi as (s & E & Ho). symmetry. apply map_lookup_filter_None. right.
    intros s' E'. simpl. assert (s' = s) as -> by congruence. by intros [].
  - destruct (sessions n !! i) as [s|] eqn:E; symmetry.
    + apply map_lookup_filter_Some. split; [done|]. simpl. intros Ho.
      destruct Hi. apply elem_of_expired. by exists s.
    + apply map_lookup_filter_None. by left.
Qed.

Lemma length_expired now n :
  length (get_expired_sessions now n) =
  size (filter (λ p, overdue now (session_inactivity_timeout (limits (config n))) p.2) (sessions n)).
Proof.
  assert (NoDup (get_expired_sessions now n)) as Hn.
  { apply NoDup_fmap_2_strong; [|apply NoDup_filter, NoDup_map_to_list].
    intros [i s] [j t] [_ Hs%elem_of_map_to_list]%list_elem_of_filter [_ Ht%elem_of_map_to_list]%list_elem_of_filter.
    simpl. intros ->. congruence. }
  rewrite <-(size_list_to_set (C := gset Z) _ Hn), <-(size_dom (D := gset Z)). f_equal. apply set_eq. intros i.
  rewrite elem_of_list_to_set, elem_of_expired, elem_of_dom. unfold is_Some. by setoid_rewrite map_lookup_filter_Some.
Qed.

(** C30: maintenance removes exactly the sessions that have expired or have been inactive for
    too long, and from the maps by public key too; the statistics have the number of
    sessions and clients that are left, and count the sessions removed. *)
Theorem maintenance_exact e n :
  well_formed n → within_limits n →
  let n' := perform_maintenance e n in
  let over s := overdue (clock e 1) (session_inactivity_timeout (limits (config n))) s in
  sessions n' = filter (λ p, ¬ over p.2) (sessions n) ∧ well_formed n' ∧ within_limits n' ∧
  active_sessions (stats n') = session_count n' ∧
  active_clients (stats n') = Z.of_nat (size (initiator_sessions n')) ∧
  expired_sessions (stats n') =
    u64_add (expired_sessions (stats n)) (Z.of_nat (size (filter (λ p, over p.2) (sessions n)))) ∧
  sent n' = sent n.
Proof.
  intros Hw Hl n' over.
  assert (good n') as [Hw' Hl'].
  { eapply good_moves; [|exact (conj Hw Hl)]. unfold n', perform_maintenance. apply moves_then_stats.
    eapply moves_stats, foldl_moves. intros n0 i. by eapply rtc_once, (move_drop _ _ i). }
  subst n'. unfold perform_maintenance in *. cbv zeta in *.
  set (n1 := with_stats n _) in *. set (l := get_expired_sessions (clock e 1) n1) in *.
  set (n2 := foldl _ n1 l) in *.
  assert (sessions n2 = filter (λ p, ¬ over p.2) (sessions n)) as Es by apply (expired_drop (clock e 1) n1).
  destruct (drops_frame l n1) as (Est & Esent & _). fold n2 in Est, Esent.
  assert (length l = size (filter (λ p, over p.2) (sessions n))) as El by apply (length_expired (clock e 1) n1).
  split_and!; [exact Es|exact Hw'|exact Hl'|..|exact Esent].
  - unfold Stats.calculate_uptime. tables. by destruct (_ <=? _).
  - unfold Stats.calculate_uptime. tables. by destruct (_ <=? _).
  - rewrite <-El. unfold Stats.calculate_uptime. tables.
    transitivity (u64_add (expired_sessions (stats n2)) (Z.of_nat (length l))); [by destruct (_ <=? _)|].
    rewrite Est. f_equal. unfold n1, Stats.calculate_uptime. by destruct (_ <=? _).
Qed.

End Moves.
