(* ===== verification/RelayTraffic.v ===== *)
(** * Traffic through a relay

    What a node forwards and to whom, how many datagrams it handles in a second, how much
    it remembers of the addresses it hears from, and what becomes of a query for
    relays. *)

From S2P Require Import Prelude Float64 Methods RelayProtocol RelayNode RelaySessions.
From stdpp Require Import options.
Local Open Scope Z_scope.

(** ** Definitions *)

(** The address to which the packet [p] of session [s] goes. *)
Definition destination (s : RelaySession) (p : RelayPacket) : option SocketAddr :=
  if decide (dest_peer_id (header p) = initiator_pubkey s) then initiator_addr s
  else if decide (dest_peer_id (header p) = s_target_pubkey s) then target_addr s
  else None.

(** The session once the packet is forwarded. *)
Definition forwarded (now : Z) (src_addr : SocketAddr) (p : RelayPacket) (s : RelaySession) : RelaySession :=
  let len := Z.of_nat (length (payload p)) in
  if decide (dest_peer_id (header p) = initiator_pubkey s) then
    Session.update_target_addr src_addr (Session.record_target_to_initiator now len s)
  else Session.update_initiator_addr src_addr (Session.record_initiator_to_target now len s).

(** Two counts of one packet. *)
Definition counted_twice (len : Z) (s : RelayStats) : RelayStats :=
  let packets := u64_add (u64_add (packets_forwarded s) 1) 1 in
  let total := u64_add (u64_add (bytes_forwarded s) len) len in
  Stats.with_forwarded packets total (if 0 <? packets then total `div` packets else avg_packet_size s) s.

Section Defs.
Context `{Bincode} `{Hex} `{TimesOrder}.

(** Whether a datagram that arrives passes the limits on size and rate. *)
Definition admission (e : Env) (data : bytes) (src_addr : SocketAddr) (n : RelayNode) : bool :=
  let n := (record_packet_time (instant (clock e 0)) n).1 in
  if max_packet_size (limits (config n)) <? Z.of_nat (length (take 2048 data)) then false
  else
    match check_ip_packet_rate_limit (instant (clock e 1)) (instant (clock e 2)) src_addr n with
    | (n, Ok true) =>
        match record_packet_time (instant (clock e 3)) n with
        | (_, Ok ok) => ok
        | _ => false
        end
    | _ => false
    end.

(** The times of the datagrams that are admitted in a run. *)
Fixpoint admissions (l : list (Env * call)) (n : RelayNode) : list Z :=
  match l with
  | [] => []
  | (e, x) :: l =>
      match x with
      | Receive data src_addr => if admission e data src_addr n then [instant (clock e 3)] else []
      | _ => []
      end ++ admissions l (exec e x n)
  end.

(** The clock of the run does not go back, from [last] on. *)
Fixpoint in_order (last : Z) (l : list (Env * call)) : Prop :=
  match l with
  | [] => True
  | (e, _) :: l =>
      last ≤ instant (clock e 0) ≤ instant (clock e 3) ∧ in_order (instant (clock e 3)) l
  end.

End Defs.

(** A packet that arrives from an address. *)
Definition message : Type := Env * RelayPacket * SocketAddr.

(** The packets are processed one after the other. *)
Fixpoint relay_all (l : list message) (n : RelayNode) : RelayNode :=
  match l with
  | [] => n
  | (e, p, src) :: l => relay_all l (process_relay_packet e p src n).1
  end.

(** A packet for one of the two peers of the session [i], with a recent header, that the
    socket can forward. *)
Definition message_ok (i : Z) (a b : bytes) (m : message) : Prop :=
  let '(e, p, _) := m in
  h_session_id (header p) = i ∧ (dest_peer_id (header p) = a ∨ dest_peer_id (header p) = b) ∧
  Header.is_valid (system (clock e 4)) (header p) = true ∧ send_error e = None.

(** What the peers of a session should receive, in order: [ia] is the address of the initiator
    [a], [ta] that of the target, once it is known. *)
Fixpoint talk (a : bytes) (ia : SocketAddr) (ta : option SocketAddr) (l : list message) : list (SocketAddr * bytes) :=
  match l with
  | [] => []
  | (_, p, src) :: l =>
      if decide (dest_peer_id (header p) = a) then (ia, payload p) :: talk a ia (Some src) l
      else
        match ta with
        | Some dest => (dest, payload p) :: talk a src ta l
        | None => talk a ia ta l
        end
  end.

(** The bytes start with a heartbeat of a session of the node. *)
Definition names_session `{Bincode} (data : bytes) (n : RelayNode) : Prop :=
  ∃ h, decode_heartbeat data = Some h ∧ is_Some (sessions n !! hb_session_id h).

(** [process_packet] with [answer] in place of what the node does for a query. *)
Definition process_packet_with `{Bincode} `{Hex} `{TimesOrder} (answer : DiscoveryQuery → action unit)
    (e : Env) (data : bytes) (src_addr : SocketAddr) : action unit :=
  let* n := mget in
  if max_packet_size (limits (config n)) <? Z.of_nat (length data) then
    merr (ResourceLimit "Packet too large")
  else
    let* ip_ok := check_ip_packet_rate_limit (instant (clock e 1)) (instant (clock e 2)) src_addr in
    if negb ip_ok then merr (ResourceLimit "Packet rate limit exceeded for your IP")
    else
      let* rate_ok := record_packet_time (instant (clock e 3)) in
      if negb rate_ok then merr (ResourceLimit "Packet rate limit exceeded")
      else
        match decode_packet data, decode_request data, decode_heartbeat data, decode_query data with
        | Some packet, _, _, _ => process_relay_packet e packet src_addr
        | None, Some request, _, _ => process_connection_request e request src_addr
        | None, None, Some heartbeat, _ => process_heartbeat e heartbeat
        | None, None, None, Some query => answer query
        | None, None, None, None => merr (Protocol "Unknown packet type")
        end.

(** What bincode documents of [deserialize]: integers have their width and bytes after the
    value are ignored.  So any 20 bytes start with a heartbeat, and a query has at least 57
    bytes. *)
Class BincodeLaws `{Bincode} : Prop := {
  heartbeat_decodes data : (20 ≤ length data)%nat → is_Some (decode_heartbeat data);
  query_length data q : decode_query data = Some q → (57 ≤ length data)%nat;
}.

Class TimesOrderLaws `{TimesOrder} : Prop := times_iter_perm m : times_iter m ≡ₚ map_to_list m.

(** ** Forwarding *)

Section Forward.
#[local] Set Default Proof Using "Type".
Context `{Bincode} `{Hex} `{TimesOrder}.

Lemma authenticate_spec now p s :
  id s = h_session_id (header p) →
  Session.authenticate_packet now p s =
    (bool_decide (dest_peer_id (header p) = initiator_pubkey s)
     || bool_decide (dest_peer_id (header p) = s_target_pubkey s)) && Header.is_valid now (header p).
Proof.
  intros Hi. unfold Session.authenticate_packet. rewrite Hi, Z.eqb_refl. simpl.
  destruct (_ || _); [|done]. by destruct (Header.is_valid _ _).
Qed.

(** What is routed, when the session has a destination for the packet. *)
Lemma route_ok e p src n s dest :
  let sid := h_session_id (header p) in
  sessions n !! sid = Some s → id s = sid → Header.is_valid (system (clock e 4)) (header p) = true →
  destination s p = Some dest →
  route_packet e p src n =
    (with_session_map n (<[sid := forwarded (instant (clock e 5)) src p s]> (sessions n)), Ok (dest, payload p)).
Proof.
  intros sid E Hi Hv Hd. unfold route_packet. fold sid. rewrite E, authenticate_spec, Hv by done.
  unfold destination in Hd. unfold forwarded. destruct (decide (dest_peer_id (header p) = initiator_pubkey s)) as [He|He].
  - rewrite (bool_decide_true (dest_peer_id (header p) = initiator_pubkey s)) by done. simpl.
    rewrite bool_decide_true by done. simpl. by rewrite Hd.
  - rewrite (bool_decide_false (dest_peer_id (header p) = initiator_pubkey s)) by done. case_decide; [|done].
    rewrite bool_decide_true by done. simpl. rewrite bool_decide_false by done. simpl. by rewrite Hd.
Qed.

(** Otherwise nothing changes. *)
Lemma route_err e p src n :
  let sid := h_session_id (header p) in
  (∀ s, sessions n !! sid = Some s → id s = sid) →
  (∀ s, sessions n !! sid = Some s → Header.is_valid (system (clock e 4)) (header p) = true →
        destination s p = None) →
  ∃ err, route_packet e p src n = (n, Err err).
Proof.
  intros sid Hi Hd. unfold route_packet. fold sid. destruct (sessions n !! sid) as [s|] eqn:E; [|by eexists].
  rewrite authenticate_spec by (by apply Hi).
  destruct (Header.is_valid _ _) eqn:Hv; [|rewrite andb_false_r; by eexists].
  specialize (Hd s eq_refl eq_refl). unfold destination in Hd. rewrite andb_true_r.
  destruct (decide (dest_peer_id (header p) = initiator_pubkey s)) as [He|He].
  - rewrite (bool_decide_true (dest_peer_id (header p) = initiator_pubkey s)) by done. simpl.
    rewrite bool_decide_true by done. simpl. rewrite Hd. by eexists.
  - rewrite (bool_decide_false (dest_peer_id (header p) = initiator_pubkey s)) by done. case_decide.
    + rewrite bool_decide_true by done. simpl. rewrite bool_decide_false by done. simpl. rewrite Hd. by eexists.
    + rewrite bool_decide_false by done. by eexists.
Qed.

(** What a packet with a destination does, when the socket works and when it fails. *)
Lemma process_routed e p src n s dest :
  let sid := h_session_id (header p) in
  sessions n !! sid = Some s → id s = sid → Header.is_valid (system (clock e 4)) (header p) = true →
  destination s p = Some dest →
  let n1 := with_session_map n (<[sid := forwarded (instant (clock e 5)) src p s]> (sessions n)) in
  process_relay_packet e p src n =
    match send_error e with
    | None => (with_stats (with_sent n1 ((dest, payload p) :: sent n))
                 (counted_twice (Z.of_nat (length (payload p))) (stats n)), Ok tt)
    | Some err => (n1, Err (Io err))
    end.
Proof.
  intros sid E Hi Hv Hd n1. unfold process_relay_packet.
  erewrite mbind_ok by exact (route_ok e p src n s dest E Hi Hv Hd). unfold send_to.
  destruct (send_error e); [done|]. erewrite mbind_ok by reflexivity. done.
Qed.

Lemma process_unrouted e p src n :
  let sid := h_session_id (header p) in
  (∀ s, sessions n !! sid = Some s → id s = sid) →
  (∀ s, sessions n !! sid = Some s → Header.is_valid (system (clock e 4)) (header p) = true →
        destination s p = None) →
  ∃ err, process_relay_packet e p src n = (n, Err err).
Proof.
  intros sid Hi Hd. destruct (route_err e p src n Hi Hd) as [err E]. exists err.
  unfold process_relay_packet. by erewrite mbind_err by exact E.
Qed.

(** C31: in a node that stores each session under its identifier, a packet has a destination
    when its session exists, its header is recent, it names one of the two peers and the
    address of that peer is known.  Then the address of the sender replaces that of the
    other peer, whoever the sender is, and the packet is counted in the session; if the
    socket works the payload is sent to the destination, once, and the statistics count
    the packet twice; if the socket fails the error is returned, nothing is sent and the
    statistics do not change.  A packet without a destination ends in an error and
    changes nothing. *)
Theorem forward_exact e p src n :
  (∀ i s, sessions n !! i = Some s → id s = i) →
  let sid := h_session_id (header p) in
  let '(n', r) := process_relay_packet e p src n in
  (∀ s dest, sessions n !! sid = Some s → Header.is_valid (system (clock e 4)) (header p) = true →
     destination s p = Some dest →
     sessions n' = <[sid := forwarded (instant (clock e 5)) src p s]> (sessions n) ∧
     match send_error e with
     | None => r = Ok tt ∧ sent n' = (dest, payload p) :: sent n ∧
         stats n' = counted_twice (Z.of_nat (length (payload p))) (stats n)
     | Some err => r = Err (Io err) ∧ sent n' = sent n ∧ stats n' = stats n
     end) ∧
  ((∀ s, sessions n !! sid = Some s → Header.is_valid (system (clock e 4)) (header p) = true →
      destination s p = None) →
   n' = n ∧ r ≠ Ok tt).
Proof.
  intros Hi sid. destruct (process_relay_packet e p src n) as [n' r] eqn:E. split.
  - intros s dest Es Hv Hd. rewrite (process_routed e p src n s dest Es (Hi _ _ Es) Hv Hd) in E.
    destruct (send_error e); by injection E as <- <-.
  - intros Hno. destruct (process_unrouted e p src n (Hi sid) Hno) as [err E'].
    rewrite E' in E. by injection E as <- <-.
Qed.

End Forward.

(** ** A conversation *)

Section Conversation.
#[local] Set Default Proof Using "Type".
Context `{Bincode} `{Hex} `{TimesOrder}.

Lemma after_quiet {A B} (m : action A) (k : A → action B) n i s :
  quiet m → sessions n !! i = None → sessions ((let* x := m in k x) n).1 !! i = Some s →
  ∃ a n', sessions n' !! i = None ∧ sessions (k a n').1 !! i = Some s.
Proof.
  intros Hm Hi. destruct (Hm n) as (_ & Es & _). unfold mbind. destruct (m n) as [n1 [a|err]]; simpl in *.
  - intros Hs. exists a, n1. split; [congruence|done].
  - intros Hs. congruence.
Qed.

Lemma quiet_none {A} (m : action A) n i s :
  quiet m → sessions n !! i = None → sessions (m n).1 !! i = Some s → False.
Proof. intros Hm Hi Hs. destruct (Hm n) as (_ & Es & _). congruence. Qed.

Definition opened (e : Env) (r : ConnectionRequest) (src : SocketAddr) : RelaySession :=
  Session.update_initiator_addr src
    (Session.new (system (clock e 8)) (instant (clock e 8)) (random e) (peer_pubkey r) (target_pubkey r)).

(** The session of a request that is accepted. *)
Lemma request_opens e r src n s :
  sessions n !! random e = None → sessions (process_connection_request e r src n).1 !! random e = Some s →
  s = opened e r src.
Proof.
  intros Hi Hs. unfold process_connection_request in Hs.
  apply after_quiet in Hs as (_ & n1 & Hi1 & Hs); [|apply quiet_stats|done].
  destruct (forallb _ _); [destruct (quiet_none _ _ _ _ (quiet_response _ _ _) Hi1 Hs)|].
  apply after_quiet in Hs as (ok & n2 & Hi2 & Hs); [|apply quiet_ip_connections|done].
  destruct (negb ok); [destruct (quiet_none _ _ _ _ (quiet_refuse _ _ _ _) Hi2 Hs)|].
  apply after_quiet in Hs as (rok & n3 & Hi3 & Hs); [|apply quiet_connection_rate|done].
  destruct (negb rok); [destruct (quiet_none _ _ _ _ (quiet_refuse _ _ _ _) Hi3 Hs)|].
  rewrite (mbind_ok _ _ n3 n3 n3) in Hs by done.
  destruct (client_full _ n3); [destruct (quiet_none _ _ _ _ (quiet_refuse _ _ _ _) Hi3 Hs)|].
  destruct (node_full n3); [destruct (quiet_none _ _ _ _ (quiet_refuse _ _ _ _) Hi3 Hs)|].
  do 4 (erewrite mbind_ok in Hs by reflexivity).
  match type of Hs with sessions (send_response e ?x src ?n4).1 !! _ = _ =>
    destruct (quiet_response e x src n4) as (_ & Es & _); rewrite Es in Hs end.
  cbn [on_stats with_stats with_session_map with_maps sessions store_session mmodify fst] in Hs.
  rewrite lookup_alter_eq, lookup_insert_eq in Hs. by injection Hs as <-.
Qed.

(** What a node knows of the session [i] between the peers [a] and [b] while they talk. *)
Definition talking (i : Z) (a b : bytes) (ia : SocketAddr) (ta : option SocketAddr) (n : RelayNode) : Prop :=
  ∃ s, sessions n !! i = Some s ∧ id s = i ∧ initiator_pubkey s = a ∧ s_target_pubkey s = b ∧
    initiator_addr s = Some ia ∧ target_addr s = ta.

Lemma to_initiator i a b ia ta n e p src :
  talking i a b ia ta n → message_ok i a b (e, p, src) → dest_peer_id (header p) = a →
  let n' := (process_relay_packet e p src n).1 in
  sent n' = (ia, payload p) :: sent n ∧ talking i a b ia (Some src) n'.
Proof.
  intros (s & Hs & Hid & <- & <- & Ha & Ht) (Hi & _ & Hv & He) Hd. rewrite <-Hi in Hs, Hid.
  assert (destination s p = Some ia) as Hdest by (unfold destination; by rewrite decide_True).
  rewrite (process_routed e p src n s ia Hs Hid Hv Hdest), He. split; [done|].
  exists (forwarded (instant (clock e 5)) src p s). unfold forwarded. rewrite decide_True by done. cbn.
  rewrite <-Hi, lookup_insert_eq. split_and!; done.
Qed.

Lemma to_target i a b ia ta n e p src :
  talking i a b ia ta n → message_ok i a b (e, p, src) → dest_peer_id (header p) ≠ a →
  let n' := (process_relay_packet e p src n).1 in
  match ta with
  | Some dest => sent n' = (dest, payload p) :: sent n ∧ talking i a b src ta n'
  | None => n' = n
  end.
Proof.
  intros (s & Hs & Hid & <- & <- & Ha & Ht) (Hi & [Hd|Hd] & Hv & He) Hne; [done|]. rewrite <-Hi in Hs, Hid.
  assert (destination s p = ta) as Hdest by (unfold destination; by rewrite decide_False, decide_True).
  destruct ta as [dest|].
  - rewrite (process_routed e p src n s dest Hs Hid Hv Hdest), He. split; [done|].
    exists (forwarded (instant (clock e 5)) src p s). unfold forwarded. rewrite decide_False by done. cbn.
    rewrite <-Hi, lookup_insert_eq. split_and!; done.
  - destruct (process_unrouted e p src n) as [err E]; [intros s' Hs'; congruence..|]. by rewrite E.
Qed.

Lemma talk_spec i a b l ia ta n :
  talking i a b ia ta n → Forall (message_ok i a b) l →
  sent (relay_all l n) = rev (talk a ia ta l) ++ sent n.
Proof.
  revert ia ta n. induction l as [|[[e p] src] l IH]; intros ia ta n Ht Hl; [done|].
  apply Forall_cons in Hl as [Hm Hl]. cbn [relay_all talk]. case_decide as Hd.
  - destruct (to_initiator _ _ _ _ _ _ _ _ _ Ht Hm Hd) as [Es Ht']. rewrite (IH _ _ _ Ht' Hl), Es.
    simpl. by rewrite <-(assoc_L (++)).
  - pose proof (to_target _ _ _ _ _ _ _ _ _ Ht Hm Hd) as Hs. destruct ta as [dest|].
    + destruct Hs as [Es Ht']. rewrite (IH _ _ _ Ht' Hl), Es. simpl. by rewrite <-(assoc_L (++)).
    + cbn zeta in Hs. rewrite Hs. by apply IH.
Qed.


End Conversation.

(** ** Sliding logs *)

(** A log of accepted times from which the times before the window are dropped, and all the
    times accepted so far: they agree in the window, and no window has more than
    [limit]. *)
Section Log.
#[local] Set Default Proof Using "Type".
Context (W limit : Z).

Definition recent (now : Z) (l : list Z) : list Z := filter (λ t, now - t < W) l.
Record log_ok (last : Z) (log acc : list Z) : Prop := {
  lg_past : Forall (λ t, t ≤ last) acc;
  lg_agree : recent last acc = recent last log;
  lg_limit a : Z.of_nat (length (filter (λ t, a ≤ t < a + W) acc)) ≤ limit;
}.

Lemma log_ok_nil last : 0 ≤ limit → log_ok last [] [].
Proof. by constructor. Qed.

Lemma recent_later now last l : last ≤ now → recent now (recent last l) = recent now l.
Proof. intros Hn. unfold recent. apply list_filter_filter_l. intros x. lia. Qed.

Lemma log_ok_later now last log acc : last ≤ now → log_ok last log acc → log_ok now log acc.
Proof.
  intros Hn [L1 L2 L3]. constructor; [eapply Forall_impl; [exact L1|]; simpl; lia| |done].
  rewrite <-(recent_later now last acc), L2, recent_later by lia. done.
Qed.

Lemma log_ok_recent now log acc : log_ok now log acc → log_ok now (recent now log) acc.
Proof. intros [L1 L2 L3]. constructor; [done| |done]. by rewrite recent_later. Qed.

Lemma log_ok_accept now log acc :
  0 < W → log_ok now log acc → log = recent now log → Z.of_nat (length log) < limit →
  log_ok now (log ++ [now]) (acc ++ [now]).
Proof.
  intros HW [L1 L2 L3] Hlog Hl. constructor.
  - apply Forall_app. split; [done|]. by apply Forall_singleton.
  - unfold recent in *. by rewrite !filter_app, L2.
  - intros a. rewrite filter_app, length_app, filter_cons, filter_nil. case_decide as Ha; [|cbn [length]; rewrite Nat.add_0_r; apply L3].
    assert (length (filter (λ t, (a ≤ t < a + W)%Z) acc) ≤ length log)%nat; [|cbn [length]; lia].
    rewrite Hlog, <-L2. unfold recent. rewrite <-(list_filter_filter_l (λ t, a ≤ t < a + W) (λ t, now - t < W) acc) by lia.
    apply length_filter.
Qed.

End Log.

(** ** The rate of datagrams *)

Section Rate.
#[local] Set Default Proof Using "Type".
Context `{Bincode} `{Hex} `{TimesOrder}.

(** An action that leaves the configuration and the log of packets alone. *)
Definition keeps_log {A} (m : action A) : Prop := ∀ n,
  config (m n).1 = config n ∧ packet_times (m n).1 = packet_times n.

Lemma keeps_bind {A B} (m : action A) (k : A → action B) :
  keeps_log m → (∀ a, keeps_log (k a)) → keeps_log (let* x := m in k x).
Proof.
  intros Hm Hk n. destruct (Hm n) as [E1 E2]. unfold mbind. destruct (m n) as [n1 [a|err]]; [|done].
  destruct (Hk a n1) as [-> ->]. done.
Qed.
Lemma keeps_ret {A} (a : A) : keeps_log (mret a).
Proof. done. Qed.
Lemma keeps_err {A} err : keeps_log (merr (A := A) err).
Proof. done. Qed.
Lemma keeps_get : keeps_log mget.
Proof. done. Qed.
Lemma keeps_lift {A} (r : result A RelayError) : keeps_log (mlift r).
Proof. done. Qed.
Lemma keeps_stats f : keeps_log (on_stats f).
Proof. done. Qed.
Lemma keeps_send_to e data dest : keeps_log (send_to e data dest).
Proof. intros n. unfold send_to. by destruct (send_error e). Qed.
Lemma keeps_ip_packets now now' src : keeps_log (check_ip_packet_rate_limit now now' src).
Proof. done. Qed.
Lemma keeps_ip_connections now now' src : keeps_log (check_ip_connection_rate_limit now now' src).
Proof. done. Qed.
Lemma keeps_connection_rate now now' : keeps_log (check_connection_rate now now').
Proof. intros n. unfold check_connection_rate. by destruct (_ <=? _). Qed.
Lemma keeps_alter i f err : keeps_log (alter_session i f err).
Proof. intros n. unfold alter_session. by destruct (sessions n !! i). Qed.
Lemma keeps_store s : keeps_log (store_session s).
Proof. done. Qed.
Lemma keeps_alter_map i f : keeps_log (mmodify (λ n, with_session_map n (alter f i (sessions n)))).
Proof. done. Qed.
Lemma keeps_route e p src : keeps_log (route_packet e p src).
Proof. intros n. unfold route_packet. by repeat case_match. Qed.

Create HintDb relay_log.
#[local] Hint Resolve keeps_bind keeps_ret keeps_err keeps_get keeps_lift keeps_stats keeps_send_to
  keeps_ip_packets keeps_ip_connections keeps_connection_rate keeps_alter keeps_store keeps_alter_map
  keeps_route : relay_log.

Lemma keeps_response e r dest : keeps_log (send_response e r dest).
Proof. unfold send_response. auto with relay_log. Qed.
#[local] Hint Resolve keeps_response : relay_log.

(** The message of an admitted datagram. *)
Definition dispatch (e : Env) (data : bytes) (src_addr : SocketAddr) : action unit :=
  match decode_packet data with
  | Some packet => process_relay_packet e packet src_addr
  | None =>
      match decode_request data with
      | Some request => process_connection_request e request src_addr
      | None =>
          match decode_heartbeat data with
          | Some heartbeat => process_heartbeat e heartbeat
          | None =>
              match decode_query data with
              | Some query => process_discovery_query e query src_addr
              | None => merr (Protocol "Unknown packet type")
              end
          end
      end
  end.

Lemma keeps_dispatch e data src : keeps_log (dispatch e data src).
Proof.
  unfold dispatch. repeat case_match; [..|auto with relay_log].
  - unfold process_relay_packet. auto with relay_log.
  - unfold process_connection_request, refuse.
    repeat (apply keeps_bind; [auto with relay_log|intros ?] || case_match); auto with relay_log.
  - unfold process_heartbeat. auto with relay_log.
  - unfold process_discovery_query. apply keeps_bind; [auto with relay_log|]. intros n.
    repeat case_match; auto with relay_log.
Qed.

Lemma keeps_create e i t : keeps_log (create_session e i t).
Proof.
  unfold create_session. apply keeps_bind; [auto with relay_log|]. intros n.
  repeat case_match; auto 10 with relay_log.
Qed.

(** The log of a node and the times accepted so far. *)
Definition rate_ok (last : Z) (n : RelayNode) (acc : list Z) : Prop :=
  log_ok SECOND (max_packets_per_second (limits (config n))) last (packet_times n) acc.

Lemma rate_ok_keeps {A} (m : action A) last n acc :
  keeps_log m → rate_ok last n acc → rate_ok last (m n).1 acc.
Proof. intros Hm. unfold rate_ok. by destruct (Hm n) as [-> ->]. Qed.

Lemma record_rate now last n acc :
  last ≤ now → rate_ok last n acc →
  ∃ b, (record_packet_time now n).2 = Ok b ∧
    rate_ok now (record_packet_time now n).1 (acc ++ if b : bool then [now] else []).
Proof.
  intros Hn Hr. unfold record_packet_time.
  assert (filter (λ time, Z.max 0 (now - time) < SECOND) (packet_times n) = recent SECOND now (packet_times n)) as ->.
  { apply list_filter_iff. intros x. unfold SECOND. lia. }
  set (max := max_packets_per_second (limits (config n))).
  assert (log_ok SECOND max now (recent SECOND now (packet_times n)) acc) as Hl.
  { apply log_ok_recent. by eapply log_ok_later. }
  destruct (Z.leb_spec max (Z.of_nat (length (recent SECOND now (packet_times n))))).
  - exists false. split; [done|]. by rewrite app_nil_r.
  - exists true. split; [done|]. apply log_ok_accept; [done|exact Hl| |done]. symmetry. apply recent_later. lia.
Qed.

(** What a datagram does to the log. *)
Lemma receive_rate e data src last n acc :
  last ≤ instant (clock e 0) ≤ instant (clock e 3) → rate_ok last n acc →
  ∃ acc', rate_ok (instant (clock e 3)) (receive e data src n) (acc ++ acc') ∧
    (if admission e data src n then [instant (clock e 3)] else []) `sublist_of` acc'.
Proof.
  intros [H0' H3'] Hr. destruct (record_rate _ _ n acc H0' Hr) as (b0 & _ & Hr1).
  unfold receive, admission, process_packet. set (n1 := (record_packet_time (instant (clock e 0)) n).1) in *.
  set (acc0 := if b0 then [instant (clock e 0)] else []) in *.
  rewrite (mbind_ok _ _ n1 n1 n1) by done.
  destruct (_ <? _).
  { exists acc0. split; [by eapply log_ok_later|apply sublist_nil_l]. }
  pose proof (rate_ok_keeps _ _ n1 _ (keeps_ip_packets (instant (clock e 1)) (instant (clock e 2)) src) Hr1) as Hr2.
  destruct (check_ip_packet_rate_limit _ _ src n1) as [n2 [ok|err]] eqn:Eip; [|by inversion Eip].
  erewrite mbind_ok by exact Eip. simpl in Hr2. destruct ok; simpl.
  2: { exists acc0. split; [by eapply log_ok_later|apply sublist_nil_l]. }
  destruct (record_rate _ _ n2 _ H3' Hr2) as (b3 & Eb & Hr3).
  destruct (record_packet_time (instant (clock e 3)) n2) as [n3 r] eqn:E3. simpl in Eb. subst r.
  erewrite mbind_ok by exact E3. exists (acc0 ++ if b3 then [instant (clock e 3)] else []).
  rewrite (assoc_L (++)). destruct b3; simpl; [|split; [exact Hr3|apply sublist_nil_l]]. split.
  - by apply (rate_ok_keeps (dispatch e (take 2048 data) src)); [apply keeps_dispatch|].
  - by apply sublist_inserts_l.
Qed.

(** The other calls do not touch it. *)
Lemma foldl_keeps (f : RelayNode → Z → RelayNode) l n :
  (∀ n i, config (f n i) = config n ∧ packet_times (f n i) = packet_times n) →
  config (foldl f n l) = config n ∧ packet_times (foldl f n l) = packet_times n.
Proof.
  intros Hf. revert n. induction l as [|i l IH]; intros n; [done|]. simpl.
  destruct (IH (f n i)) as [-> ->]. apply Hf.
Qed.

Lemma drop_keeps n i : config (drop_session i n) = config n ∧ packet_times (drop_session i n) = packet_times n.
Proof. unfold drop_session. by destruct (sessions n !! i). Qed.

Lemma remove_keeps i : keeps_log (remove_session i).
Proof.
  intros n. unfold remove_session. destruct (sessions n !! i); [|done]. apply drop_keeps.
Qed.

Lemma exec_keeps e x n :
  (∀ data src, x ≠ Receive data src) →
  config (exec e x n) = config n ∧ packet_times (exec e x n) = packet_times n.
Proof.
  intros Hx. destruct x as [data src| |i t|i|i d|i b d|]; simpl.
  - by destruct (Hx data src).
  - unfold perform_maintenance. cbn [with_stats config packet_times].
    match goal with |- context [foldl ?f ?n0 ?l] => destruct (foldl_keeps f l n0) as [E1 E2]; [intros; apply drop_keeps|] end.
    by rewrite E1, E2.
  - apply keeps_create.
  - apply remove_keeps.
  - apply keeps_alter.
  - apply keeps_alter.
  - unfold cleanup_expired_sessions. cbn [with_stats fst config packet_times]. apply foldl_keeps. intros; apply remove_keeps.
Qed.

Lemma record_config now n : config (record_packet_time now n).1 = config n.
Proof. unfold record_packet_time. by case_match. Qed.

Lemma receive_config e data src n : config (receive e data src n) = config n.
Proof.
  unfold receive, process_packet. set (n1 := (record_packet_time _ n).1).
  assert (config n1 = config n) as <- by apply record_config. rewrite (mbind_ok _ _ n1 n1 n1) by done.
  destruct (_ <? _); [done|]. unfold mbind at 1, check_ip_packet_rate_limit, track_ip. destruct (negb _); [done|].
  set (n2 := with_packets n1 _ _). assert (config n2 = config n1) as <- by done.
  unfold mbind at 1. pose proof (record_config (instant (clock e 3)) n2) as E3.
  destruct (record_packet_time _ n2) as [n3 [ok|err]]; [|done]. rewrite <-E3. destruct (negb ok); [done|].
  apply (keeps_dispatch e (take 2048 data) src).
Qed.

Lemma admissions_rate l last n acc :
  in_order last l → rate_ok last n acc →
  ∃ last' n' acc', rate_ok last' n' (acc ++ acc') ∧ config n' = config n ∧ admissions l n `sublist_of` acc'.
Proof.
  revert last n acc. induction l as [|[e x] l IH]; intros last n acc Ho Hr; simpl.
  { exists last, n, []. by rewrite app_nil_r. }
  destruct Ho as [Ht Ho].
  assert (∃ acc1, rate_ok (instant (clock e 3)) (exec e x n) (acc ++ acc1) ∧ config (exec e x n) = config n ∧
    match x with
    | Receive data src_addr => if admission e data src_addr n then [instant (clock e 3)] else []
    | _ => []
    end `sublist_of` acc1) as (acc1 & Hr1 & Ec & Hs).
  { assert ((∃ data src, x = Receive data src) ∨ ∀ data src, x ≠ Receive data src) as [(data & src & ->)|Hx] by (destruct x; eauto).
    - destruct (receive_rate e data src last n acc Ht Hr) as (acc1 & Hr1 & Hs). exists acc1. split_and!; [done| |done].
      simpl. apply receive_config.
    - destruct (exec_keeps e x n Hx) as [Ec Ep]. exists []. rewrite app_nil_r. split_and!; [|done|by destruct x as [data src| | | | | |]; [destruct (Hx data src)|..]].
      unfold rate_ok. rewrite Ec, Ep. eapply log_ok_later; [|exact Hr]. lia. }
  destruct (IH _ _ _ Ho Hr1) as (last' & n' & acc2 & Hr2 & Ec2 & Hs2).
  exists last', n', (acc1 ++ acc2). rewrite (assoc_L (++)). split_and!; [done|congruence|by apply sublist_app].
Qed.

Lemma sublist_filter_mono (P : Z → Prop) `{!∀ x, Decision (P x)} l1 l2 :
  l1 `sublist_of` l2 → filter P l1 `sublist_of` filter P l2.
Proof.
  induction 1 as [|x l1 l2 _ IH|x l1 l2 _ IH]; [done|..]; rewrite !filter_cons; case_decide; [by constructor|done|by constructor|done].
Qed.

(** C33: in any run of a node, whatever arrives and however the calls interleave, no window of
    a second has more admitted datagrams than [max_packets_per_second]. *)
Theorem packet_rate c now l last a :
  0 ≤ max_packets_per_second (limits c) → in_order last l →
  Z.of_nat (length (filter (λ t, a ≤ t < a + SECOND) (admissions l (new_node now c)))) ≤
    max_packets_per_second (limits c).
Proof.
  intros Hm Ho. destruct (admissions_rate l last (new_node now c) [] Ho) as (last' & n' & acc & Hr & Ec & Hs).
  { by apply log_ok_nil. }
  pose proof (lg_limit _ _ _ _ _ Hr a) as Hl. rewrite Ec in Hl. cbn [new_node config] in Hl.
  assert (length (filter (λ t, (a ≤ t < a + SECOND)%Z) (admissions l (new_node now c))) ≤
          length (filter (λ t, (a ≤ t < a + SECOND)%Z) acc))%nat as Hle; [|simpl in Hl; lia].
  apply sublist_length. by apply sublist_filter_mono.
Qed.

(** Neither the sessions nor the statistics change, and nothing is sent. *)
Definition undisturbed (n n' : RelayNode) : Prop :=
  same_tables n n' ∧ stats n' = stats n ∧ sent n' = sent n ∧ connection_attempts n' = connection_attempts n.

Lemma undisturbed_trans n1 n2 n3 : undisturbed n1 n2 → undisturbed n2 n3 → undisturbed n1 n3.
Proof.
  intros (? & ? & ? & ?) (? & ? & ? & ?). split_and!; [by eapply tables_trans|congruence..].
Qed.

Lemma record_undisturbed now n : undisturbed n (record_packet_time now n).1.
Proof. unfold record_packet_time. by case_match. Qed.

(** What becomes of a datagram that passes the limit on its size. *)
Lemma limited_undisturbed e src n (k : action unit) :
  match check_ip_packet_rate_limit (instant (clock e 1)) (instant (clock e 2)) src n with
  | (n2, Ok true) =>
      match record_packet_time (instant (clock e 3)) n2 with (_, Ok ok) => ok | _ => false end
  | _ => false
  end = false →
  undisturbed n ((let* ip_ok := check_ip_packet_rate_limit (instant (clock e 1)) (instant (clock e 2)) src in
    if negb ip_ok then merr (ResourceLimit "Packet rate limit exceeded for your IP")
    else
      let* rate_ok := record_packet_time (instant (clock e 3)) in
      if negb rate_ok then merr (ResourceLimit "Packet rate limit exceeded") else k) n).1.
Proof.
  assert (undisturbed n (check_ip_packet_rate_limit (instant (clock e 1)) (instant (clock e 2)) src n).1) as U2 by done.
  destruct (check_ip_packet_rate_limit _ _ src n) as [n2 [ok|err]] eqn:Eip; simpl in U2;
    [erewrite mbind_ok by exact Eip|by erewrite mbind_err by exact Eip].
  destruct ok; [|done]. cbv beta iota delta [negb]. intros Ha. eapply undisturbed_trans; [exact U2|].
  pose proof (record_undisturbed (instant (clock e 3)) n2) as U3.
  destruct (record_packet_time (instant (clock e 3)) n2) as [n3 [b|err]] eqn:E3; simpl in U3;
    [erewrite mbind_ok by exact E3|by erewrite mbind_err by exact E3].
  by subst b.
Qed.

(** A datagram that is not admitted changes neither the sessions nor the statistics, and is not
    answered. *)
Theorem refused_harmless e data src n :
  admission e data src n = false → undisturbed n (receive e data src n).
Proof.
  unfold admission, receive, process_packet. pose proof (record_undisturbed (instant (clock e 0)) n) as U1.
  generalize dependent (record_packet_time (instant (clock e 0)) n).1. intros n1 U1 Ha.
  eapply undisturbed_trans; [exact U1|]. rewrite (mbind_ok _ _ n1 n1 n1) by done.
  destruct (_ <? _); [done|]. by apply limited_undisturbed.
Qed.

End Rate.

(** ** What is remembered of addresses *)

Section Tracked.
#[local] Set Default Proof Using "All".
Context `{Bincode} `{Hex} `{TimesOrderLaws}.

Lemma lookup_drop_ips m l k : drop_ips m l !! k = if decide (k ∈ l) then None else m !! k.
Proof.
  revert m. induction l as [|j l IH]; intros m; [done|]. unfold drop_ips in *. simpl. rewrite IH.
  destruct (decide (k ∈ j :: l)) as [Hk|Hk]; case_decide as Hl; try done.
  - assert (k = j) as -> by set_solver. apply lookup_delete_eq.
  - set_solver.
  - apply lookup_delete_ne. set_solver.
Qed.

Lemma size_drop_ips m l :
  NoDup l → (∀ k, k ∈ l → is_Some (m !! k)) → size (drop_ips m l) = (size m - length l)%nat.
Proof.
  revert m. induction l as [|j l IH]; intros m Hn Hl; [simpl; lia|]. apply NoDup_cons in Hn as [Hj Hn].
  unfold drop_ips in *. simpl. rewrite IH; [|done|].
  - rewrite map_size_delete_Some by (apply Hl; set_solver). lia.
  - intros k Hk. rewrite lookup_delete_ne by set_solver. apply Hl. set_solver.
Qed.

Lemma omap_latest (l : list (string * list Z)) :
  Forall (λ p, p.2 ≠ []) l → (omap (λ p, (λ t, (p.1, t)) <$> latest p.2) l).*1 = l.*1.
Proof.
  induction 1 as [|[k [|t ts]] l Hp _ IH]; [done|done|]. simpl. f_equal. exact IH.
Qed.

Lemma times_iter_keys m : NoDup (times_iter m).*1 ∧ length (times_iter m) = size m.
Proof.
  split.
  - rewrite times_iter_perm. apply NoDup_fst_map_to_list.
  - rewrite times_iter_perm. apply length_map_to_list.
Qed.

Lemma elem_of_times_iter m p : p ∈ times_iter m ↔ m !! p.1 = Some p.2.
Proof. rewrite times_iter_perm. destruct p. apply elem_of_map_to_list. Qed.

(** When the addresses with the oldest activity are dropped, 5000 are left. *)
Lemma size_oldest_dropped (m : gmap string (list Z)) :
  map_Forall (λ _ ts, ts ≠ []) m → 5000 < Z.of_nat (size m) →
  Z.of_nat (size (drop_ips m (take (Z.to_nat (Z.of_nat (size m) - 5000))
    (sort_by_key snd (omap (λ p, (λ t, (p.1, t)) <$> latest p.2) (times_iter m)))).*1)) = 5000.
Proof.
  intros Hne Hs. set (l := omap _ (times_iter m)). destruct (times_iter_keys m) as [Hn Hlen].
  assert (Forall (λ p : string * list Z, p.2 ≠ []) (times_iter m)) as Hf.
  { apply Forall_forall. intros p Hp%elem_of_times_iter. by apply (Hne p.1). }
  assert (l.*1 = (times_iter m).*1) as El by (by apply omap_latest).
  assert ((sort_by_key snd l).*1 ≡ₚ (times_iter m).*1) as Hperm by (rewrite <-El; apply fmap_Permutation, sort_by_key_perm).
  rewrite <-fmap_take || rewrite fmap_take. rewrite size_drop_ips.
  - rewrite length_take, Hperm, length_fmap, Hlen. lia.
  - eapply sublist_NoDup; [|apply sublist_take]. by rewrite Hperm.
  - intros k Hk. apply elem_of_take in Hk as (i & Hi%list_elem_of_lookup_2 & _). rewrite Hperm in Hi.
    apply list_elem_of_fmap in Hi as (p & -> & Hp%elem_of_times_iter). by rewrite Hp.
Qed.

Lemma size_drop_le m l : (size (drop_ips m l) ≤ size m)%nat.
Proof.
  apply map_subseteq_size. apply map_subseteq_spec. intros k v. rewrite lookup_drop_ips. by case_decide.
Qed.

Lemma cap_tracked_size idle now m : Z.of_nat (size (cap_tracked idle now m)) ≤ 10000.
Proof.
  unfold cap_tracked. destruct (Z.ltb_spec 10000 (Z.of_nat (size m))); [|lia]. cbv zeta.
  set (l := (filter _ _).*1). set (m1 := drop_ips m l).
  destruct (Z.ltb_spec 5000 (Z.of_nat (size m1))); [|lia].
  rewrite size_oldest_dropped; [lia| |lia]. intros k ts. unfold m1. rewrite lookup_drop_ips. case_decide as Hk; [done|].
  intros E ->. apply Hk. apply list_elem_of_fmap. exists (k, []). split; [done|].
  apply list_elem_of_filter. split; [by left|]. by apply elem_of_times_iter.
Qed.

(** Both tables of addresses are bounded. *)
Definition tracked_ok (n : RelayNode) : Prop :=
  Z.of_nat (size (ip_packet_times n)) ≤ 10000 ∧ Z.of_nat (size (ip_connection_attempts n)) ≤ 10000.
Definition keeps_tracked {A} (m : action A) : Prop := ∀ n, tracked_ok n → tracked_ok (m n).1.

Lemma kt_bind {A B} (m : action A) (k : A → action B) :
  keeps_tracked m → (∀ a, keeps_tracked (k a)) → keeps_tracked (let* x := m in k x).
Proof.
  intros Hm Hk n Hn. specialize (Hm n Hn). unfold mbind. destruct (m n) as [n1 [a|err]]; [|done]. by apply Hk.
Qed.
(** An action that changes neither table. *)
Lemma kt_frame {A} (m : action A) :
  (∀ n, ip_packet_times (m n).1 = ip_packet_times n ∧ ip_connection_attempts (m n).1 = ip_connection_attempts n) →
  keeps_tracked m.
Proof. intros Hm n Hn. unfold tracked_ok. by destruct (Hm n) as [-> ->]. Qed.

Lemma kt_ip_packets now now' src : keeps_tracked (check_ip_packet_rate_limit now now' src).
Proof. intros n [H1' H2']. split; [apply cap_tracked_size|done]. Qed.
Lemma kt_ip_connections now now' src : keeps_tracked (check_ip_connection_rate_limit now now' src).
Proof. intros n [H1' H2']. split; [done|apply cap_tracked_size]. Qed.
Lemma kt_packet_time now : keeps_tracked (record_packet_time now).
Proof. apply kt_frame. intros n. unfold record_packet_time. by case_match. Qed.
Lemma kt_connection_rate now now' : keeps_tracked (check_connection_rate now now').
Proof. apply kt_frame. intros n. unfold check_connection_rate. by destruct (_ <=? _). Qed.
Lemma kt_send_to e data dest : keeps_tracked (send_to e data dest).
Proof. apply kt_frame. intros n. unfold send_to. by destruct (send_error e). Qed.
Lemma kt_alter i f err : keeps_tracked (alter_session i f err).
Proof. apply kt_frame. intros n. unfold alter_session. by destruct (sessions n !! i). Qed.
Lemma kt_route e p src : keeps_tracked (route_packet e p src).
Proof. apply kt_frame. intros n. unfold route_packet. by repeat case_match. Qed.
Lemma kt_stats f : keeps_tracked (on_stats f).
Proof. by apply kt_frame. Qed.
Lemma kt_pure {A} (r : result A RelayError) : keeps_tracked (mlift r).
Proof. by apply kt_frame. Qed.
Lemma kt_get : keeps_tracked mget.
Proof. by apply kt_frame. Qed.
Lemma kt_ret {A} (a : A) : keeps_tracked (mret a).
Proof. by apply kt_frame. Qed.
Lemma kt_err {A} err : keeps_tracked (merr (A := A) err).
Proof. by apply kt_frame. Qed.
Lemma kt_store s : keeps_tracked (store_session s).
Proof. by apply kt_frame. Qed.
Lemma kt_alter_map i f : keeps_tracked (mmodify (λ n, with_session_map n (alter f i (sessions n)))).
Proof. by apply kt_frame. Qed.

Create HintDb relay_tracked.
#[local] Hint Resolve kt_bind kt_ip_packets kt_ip_connections kt_packet_time kt_connection_rate kt_send_to
  kt_alter kt_route kt_stats kt_pure kt_get kt_ret kt_err kt_store kt_alter_map : relay_tracked.

(** Walks through a handler. *)
Ltac walk_tracked :=
  repeat (apply kt_bind; [auto with relay_tracked|intros ?] || case_match); auto 10 with relay_tracked.

Lemma kt_packet e data src : keeps_tracked (process_packet e data src).
Proof.
  unfold process_packet, process_relay_packet, process_connection_request, refuse, send_response, process_heartbeat,
    process_discovery_query. walk_tracked.
Qed.

Lemma kt_create e i t : keeps_tracked (create_session e i t).
Proof. unfold create_session. walk_tracked. Qed.

Lemma kt_drop n i : tracked_ok n → tracked_ok (drop_session i n).
Proof. intros Hn. unfold drop_session. by destruct (sessions n !! i). Qed.

Lemma kt_remove i : keeps_tracked (remove_session i).
Proof. intros n Hn. unfold remove_session. destruct (sessions n !! i); [|done]. by apply (kt_drop n i). Qed.

Lemma kt_foldl (f : RelayNode → Z → RelayNode) l n :
  (∀ n i, tracked_ok n → tracked_ok (f n i)) → tracked_ok n → tracked_ok (foldl f n l).
Proof. intros Hf. revert n. induction l as [|i l IH]; intros n Hn; [done|]. apply IH, Hf, Hn. Qed.

Lemma kt_exec e x n : tracked_ok n → tracked_ok (exec e x n).
Proof.
  intros Hn. destruct x as [data src| |i t|i|i d|i b d|]; simpl.
  - unfold receive. apply kt_packet. by apply (kt_packet_time (instant (clock e 0))).
  - unfold perform_maintenance. cbv zeta. match goal with |- tracked_ok (with_stats ?n0 _) => change (tracked_ok n0) end.
    apply kt_foldl; [|exact Hn]. intros n0 i. apply kt_drop.
  - by apply kt_create.
  - by apply kt_remove.
  - by apply kt_alter.
  - by apply kt_alter.
  - unfold cleanup_expired_sessions. cbv zeta. cbn [fst].
    match goal with |- tracked_ok (with_stats ?n0 _) => change (tracked_ok n0) end.
    apply kt_foldl; [|exact Hn]. intros n0 i. apply kt_remove.
Qed.

(** However many addresses datagrams come from, a node remembers the times of at most
    10000 of them, for packets and for requests. *)
Theorem tracked_bounded c now l : tracked_ok (run l (new_node now c)).
Proof.
  unfold run. assert (tracked_ok (new_node now c)) as Hn by (split; cbn [new_node ip_packet_times ip_connection_attempts]; rewrite map_size_empty; lia).
  revert Hn. generalize (new_node now c). induction l as [|[e x] l IH]; intros n Hn; [done|]. simpl. by apply IH, kt_exec.
Qed.

End Tracked.

(** ** Queries *)

Section Queries.
#[local] Set Default Proof Using "All".
Context `{BincodeLaws} `{Hex} `{TimesOrder}.

Lemma heartbeat_silent e h n :
  sent (process_heartbeat e h n).1 = sent n ∧
  (sessions n !! hb_session_id h = None → (process_heartbeat e h n).2 ≠ Ok tt).
Proof.
  unfold process_heartbeat, mbind, alter_session. by destruct (sessions n !! hb_session_id h).
Qed.

(** A query that is neither a packet nor a request is taken for a heartbeat. *)
Lemma query_is_heartbeat e data src n q :
  decode_query data = Some q → decode_packet data = None → decode_request data = None →
  let '(n', r) := process_packet e data src n in
  sent n' = sent n ∧ (r = Ok tt → names_session data n).
Proof.
  intros Hq Hp Hr. destruct (heartbeat_decodes data) as [h Hh]; [pose proof (query_length _ _ Hq); lia|].
  unfold process_packet. rewrite (mbind_ok _ _ n n n) by done. destruct (_ <? _); [done|].
  destruct (check_ip_packet_rate_limit (instant (clock e 1)) (instant (clock e 2)) src n) as [n2 [ok|err]] eqn:Eip;
    [|by inversion Eip].
  assert (sent n2 = sent n ∧ sessions n2 = sessions n) as [S2 T2] by (by inversion Eip).
  erewrite mbind_ok by exact Eip. destruct ok; cbv beta iota delta [negb]; [|done].
  destruct (record_undisturbed (instant (clock e 3)) n2) as ((_ & T3 & _) & _ & S3 & _).
  destruct (record_packet_time (instant (clock e 3)) n2) as [n3 [b|err]] eqn:E3; simpl in T3, S3;
    [erewrite mbind_ok by exact E3|erewrite mbind_err by exact E3; split; [congruence|done]].
  destruct b; cbv beta iota delta [negb]; [|split; [simpl; congruence|done]].
  rewrite Hp, Hr, Hh. destruct (heartbeat_silent e h n3) as [S4 N4].
  destruct (process_heartbeat e h n3) as [n4 r]. simpl in S4, N4. split; [congruence|]. intros ->.
  exists h. split; [done|]. rewrite <-T2, <-T3. destruct (sessions n3 !! hb_session_id h); [by eexists|by destruct N4].
Qed.

(** C34: what a node does for a query for relays is never done: every datagram has the same
    effect whatever [answer] takes the place of [process_discovery_query], because bytes
    that decode as a query also decode as a heartbeat, which is tried before.  Moreover,
    a datagram with a query that decodes neither as a packet nor as a request, which are
    tried first, sends nothing, and ends in an error unless its first bytes are the
    identifier of a session. *)
Theorem query_unanswered answer e data src n :
  process_packet e data src n = process_packet_with answer e data src n ∧
  (∀ q, decode_query data = Some q → decode_packet data = None → decode_request data = None →
     sent (process_packet e data src n).1 = sent n ∧
     ((process_packet e data src n).2 = Ok tt → names_session data n)).
Proof.
  split.
  - unfold process_packet, process_packet_with.
    assert (decode_heartbeat data = None → decode_query data = None) as Hno.
    { intros Hh. destruct (decode_query data) as [q|] eqn:Hq; [|done].
      destruct (heartbeat_decodes data) as [h Hh']; [pose proof (query_length _ _ Hq); lia|congruence]. }
    destruct (decode_packet data), (decode_request data), (decode_heartbeat data); try done.
    by rewrite Hno.
  - intros q Hq Hp Hr. pose proof (query_is_heartbeat e data src n q Hq Hp Hr) as Hs.
    by destruct (process_packet e data src n).
Qed.

End Queries.

(** ** Tokens *)

Section Tokens.
#[local] Set Default Proof Using "Type".
Context `{TokenHash}.

Lemma xor_fold (l : list (Z * Z)) acc :
  foldl (λ r p, Z.lor r (Z.lxor p.1 p.2)) acc l = 0 ↔ acc = 0 ∧ Forall (λ p, p.1 = p.2) l.
Proof.
  revert acc. induction l as [|[a b] l IH]; intros acc; simpl; [by rewrite Forall_nil; intuition|].
  rewrite IH, Forall_cons. simpl. rewrite Z.lor_eq_0_iff, Z.lxor_eq_0_iff. naive_solver.
Qed.

Lemma zip_equal (l1 l2 : list Z) : length l1 = length l2 → Forall (λ p, p.1 = p.2) (zip l1 l2) ↔ l1 = l2.
Proof.
  revert l2. induction l1 as [|a l1 IH]; intros [|b l2]; intros Hl; simplify_eq/=; [by rewrite Forall_nil|].
  rewrite Forall_cons, IH by done. simpl. naive_solver.
Qed.

(** A token is accepted when it is the one of this moment. *)
Lemma verify_auth_token_spec now token s :
  Session.verify_auth_token now token s = true ↔ token = Session.generate_auth_token now s.
Proof.
  unfold Session.verify_auth_token. destruct (Z.eqb_spec (Z.of_nat (length token)) (Z.of_nat (length (Session.generate_auth_token now s)))) as [E|E]; simpl.
  - rewrite Z.eqb_eq, xor_fold, zip_equal by lia. naive_solver.
  - split; [done|]. intros ->. done.
Qed.

Lemma to_le_bytes_inj x y : in_u64 x → in_u64 y → Session.to_le_bytes x = Session.to_le_bytes y → x = y.
Proof.
  intros Hx Hy E. unfold in_u64, u64_max in *. apply Z.bits_inj'. intros j Hj.
  assert (∀ z, 0 ≤ z < 2 ^ 64 → 64 ≤ j → Z.testbit z j = false) as Hhigh.
  { intros z Hz H64. rewrite Z.testbit_eqb by lia. rewrite Z.div_small; [done|].
    split; [lia|]. eapply Z.lt_le_trans; [apply Hz|]. apply Z.pow_le_mono_r; lia. }
  destruct (decide (64 ≤ j)); [rewrite !Hhigh by lia; done|].
  assert (∀ i, 0 ≤ i < 8 → x `div` 256 ^ i `mod` 256 = y `div` 256 ^ i `mod` 256) as Hd.
  { intros i Hi. unfold Session.to_le_bytes in E. apply (f_equal (.!! Z.to_nat i)) in E.
    rewrite !list_lookup_fmap, !lookup_seqZ_lt in E by lia.
    cbn [fmap option_fmap option_map] in E. rewrite Z2Nat.id, Z.add_0_l in E by lia. by injection E. }
  specialize (Hd (j `div` 8)). assert (0 ≤ j `div` 8 < 8) as Hr by (split; [apply Z.div_pos|apply Z.div_lt_upper_bound]; lia).
  specialize (Hd Hr). apply (f_equal (λ z, Z.testbit z (j `mod` 8))) in Hd.
  pose proof (Z.mod_pos_bound j 8 ltac:(lia)) as Hm. change 256 with (2 ^ 8) in Hd.
  rewrite <-Z.pow_mul_r, !Z.mod_pow2_bits_low, !Z.div_pow2_bits in Hd by lia.
  replace (j `mod` 8 + 8 * (j `div` 8)) with j in Hd by (pose proof (Z.div_mod j 8); lia). done.
Qed.

(** A token is good for the second in which it was made only. *)
Theorem token_good_for_a_second s t t' :
  in_u64 (unix_secs t) → in_u64 (unix_secs t') →
  Session.verify_auth_token t' (Session.generate_auth_token t s) s = true ↔ unix_secs t' = unix_secs t.
Proof.
  intros Ht Ht'. rewrite verify_auth_token_spec. unfold Session.generate_auth_token. split; [|by intros ->].
  rewrite <-!(assoc_L (++)). intros E. do 3 apply app_inv_head in E.
  apply app_inj_1 in E as [E _]; [|unfold Session.to_le_bytes; by rewrite !length_fmap, !length_seqZ].
  symmetry. by apply to_le_bytes_inj.
Qed.

End Tokens.
