(* ===== verification/RelayExample.v ===== *)
(** * A concrete relay

    The encoding of bincode for the messages of a relay, instances of the other parameters,
    the theorems on relays applied to small runs, and runs that show where limits and
    figures are off. *)

From Stdlib Require Import Ascii.
From S2P Require Import Prelude Float64 Methods RelayProtocol RelayNode RelaySessions RelayTraffic.
From stdpp Require Import options.
Local Open Scope Z_scope.

(** ** The encoding *)

Definition parser (A : Type) : Type := bytes → option (A * bytes).
Definition pret {A} (a : A) : parser A := λ data, Some (a, data).
Definition pbind {A B} (p : parser A) (k : A → parser B) : parser B := λ data,
  match p data with Some (a, data) => k a data | None => None end.

(** [n] bytes; a little-endian number of [n] bytes; an option; a length and that many bytes. *)
Definition take_bytes (n : nat) : parser bytes := λ data,
  if decide (n ≤ length data)%nat then Some (take n data, drop n data) else None.
Definition le_value (data : bytes) : Z := foldr (λ b v, b + 256 * v) 0 data.
Definition number (n : nat) : parser Z := pbind (take_bytes n) (λ data, pret (le_value data)).
Definition optional {A} (p : parser A) : parser (option A) :=
  pbind (number 1) (λ tag,
    if tag =? 0 then pret None
    else if tag =? 1 then pbind p (λ a, pret (Some a))
    else λ _, None).
Definition vector : parser bytes := pbind (number 8) (λ n, take_bytes (Z.to_nat (Z.min n 4096))).
Definition text (data : bytes) : string :=
  foldr (λ b s, String (ascii_of_N (Z.to_N b)) s) EmptyString data.

(** The value at the start of the data. *)
Definition deserialize {A} (p : parser A) (data : bytes) : option A := fst <$> p data.

Definition packet_parser : parser RelayPacket :=
  pbind (take_bytes 32) (λ d, pbind (number 8) (λ i, pbind (number 8) (λ t, pbind (number 1) (λ f,
  pbind vector (λ p, pret {| header := {| dest_peer_id := d; h_session_id := i; h_timestamp := t; flags := f |};
                             payload := p |}))))).
Definition request_parser : parser ConnectionRequest :=
  pbind (take_bytes 32) (λ a, pbind (take_bytes 32) (λ b, pbind (number 8) (λ t, pbind (number 8) (λ x,
  pbind (optional vector) (λ o, pret {| peer_pubkey := a; target_pubkey := b; timestamp := t; nonce := x;
                                        auth_token := o |}))))).
Definition heartbeat_parser : parser HeartbeatMessage :=
  pbind (number 8) (λ i, pbind (number 8) (λ t, pbind (number 4) (λ s,
  pret {| hb_session_id := i; hb_timestamp := t; sequence := s |}))).
Definition query_parser : parser DiscoveryQuery :=
  pbind (take_bytes 32) (λ k, pbind (number 8) (λ t, pbind (number 8) (λ x, pbind (optional vector) (λ r,
  pbind (number 4) (λ c, pbind (number 4) (λ m,
  pret {| q_peer_pubkey := k; q_timestamp := t; q_nonce := x; q_region := text <$> r; min_capabilities := c;
          max_results := m |})))))).

Definition status_code (s : ConnectionStatus) : Z :=
  match s with
  | Success => 0 | Rejected => 1 | TargetUnreachable => 2 | AuthFailed => 3 | ResourceLimitReached => 4
  | OtherError => 5
  end.
Definition le_bytes (n : nat) (v : Z) : bytes := (λ i, v `div` 256 ^ i `mod` 256) <$> seqZ 0 (Z.of_nat n).
Definition string_bytes (s : string) : bytes :=
  (λ a, Z.of_N (N_of_ascii a)) <$> String.list_ascii_of_string s.

(** Of an answer to a query only the start is written. *)
#[local] Instance bincode_fixint : Bincode := {
  decode_packet := deserialize packet_parser;
  decode_request := deserialize request_parser;
  decode_heartbeat := deserialize heartbeat_parser;
  decode_query := deserialize query_parser;
  encode_response r := Ok (
    le_bytes 4 (status_code (status r)) ++
    match r_session_id r with Some i => 1 :: le_bytes 8 i | None => [0] end ++
    le_bytes 8 (r_timestamp r) ++ le_bytes 8 (request_nonce r) ++
    match r_error r with
    | Some e => 1 :: le_bytes 8 (Z.of_nat (String.length e)) ++ string_bytes e
    | None => [0]
    end);
  encode_discovery r := Ok (le_bytes 8 (d_request_nonce r) ++ le_bytes 8 (d_timestamp r));
}.

#[local] Instance encoded_hex : Hex := λ l, pretty (N.pos (encode l)).
#[local] Instance list_times_order : TimesOrder := map_to_list.

(** ** A node with the default limits *)

Definition local_addr (last port : Z) : SocketAddr := {| ip := V4 10 0 0 last; port := port |}.
Definition example_config (l : ResourceLimits) : RelayConfig :=
  {| listen_addr := local_addr 1 9000; pubkey := replicate 32 7; region := None; capabilities := 1;
     limits := l; maintenance_interval := 30 * SECOND |}.
Definition at_time (t i : Z) : Env :=
  {| clock _ := {| instant := t * SECOND; system := t * SECOND |}; random := i; send_error := None |}.
(** The socket fails. *)
Definition unplugged (t : Z) : Env :=
  {| clock _ := {| instant := t * SECOND; system := t * SECOND |}; random := 0; send_error := Some "unreachable" |}.
Definition example_node (l : ResourceLimits) : RelayNode := new_node (clock (at_time 0 0) 0) (example_config l).

Definition alice : bytes := replicate 32 1.
Definition bob : bytes := replicate 32 2.
Definition alice_addr : SocketAddr := local_addr 2 1000.
Definition bob_addr : SocketAddr := local_addr 3 2000.
Definition alice_to_bob : ConnectionRequest := Request.new (5 * SECOND) 99 alice bob.
(** The bytes of a request, and of a query for any relay. *)
Definition request_bytes (r : ConnectionRequest) : bytes :=
  peer_pubkey r ++ target_pubkey r ++ le_bytes 8 (timestamp r) ++ le_bytes 8 (nonce r) ++ [0].
Definition query_bytes (q : DiscoveryQuery) : bytes :=
  q_peer_pubkey q ++ le_bytes 8 (q_timestamp q) ++ le_bytes 8 (q_nonce q) ++ [0] ++
  le_bytes 4 (min_capabilities q) ++ le_bytes 4 (max_results q).

(** The bytes of a query for a region. *)
Definition region_query_bytes (q : DiscoveryQuery) (region : bytes) : bytes :=
  q_peer_pubkey q ++ le_bytes 8 (q_timestamp q) ++ le_bytes 8 (q_nonce q) ++ [1] ++
  le_bytes 8 (Z.of_nat (length region)) ++ region ++
  le_bytes 4 (min_capabilities q) ++ le_bytes 4 (max_results q).

(** The node once Alice has a session with Bob. *)
Definition connected : RelayNode :=
  exec (at_time 5 42) (Receive (request_bytes alice_to_bob) alice_addr) (example_node default_limits).

Definition limits_with_clients (k : Z) : ResourceLimits :=
  {| max_total_sessions := 1000; max_sessions_per_client := k; max_connection_rate := 60;
     max_connection_rate_per_ip := 60; max_bandwidth_bps := None; max_packet_size := 1500;
     max_packets_per_second := 100; max_packets_per_second_per_ip := 100;
     session_inactivity_timeout := 300 * SECOND; default_session_expiration := DEFAULT_SESSION_EXPIRATION |}.

(** The load that a node reports when its statistics have [active] sessions. *)
Definition reported_load (active : Z) : Z :=
  load (get_node_info (with_stats (example_node default_limits)
    (Stats.set_active_sessions active (stats (example_node default_limits))))).

(** ** Laws *)

#[local] Instance encoded_hex_laws : HexLaws.
Proof.
  intros l1 l2 E. assert (N.pos (encode l1) = N.pos (encode l2)) as [= E'] by (by apply (inj pretty)).
  by apply (inj encode).
Qed.

#[local] Instance list_times_laws : TimesOrderLaws.
Proof. intros m. reflexivity. Qed.

(** The bytes that a parser takes at least. *)
Definition needs {A} (k : nat) (p : parser A) : Prop :=
  ∀ data a rest, p data = Some (a, rest) → (k + length rest ≤ length data)%nat.

Lemma needs_take n : needs n (take_bytes n).
Proof.
  intros data a rest. unfold take_bytes. case_decide; [|done]. intros [= <- <-]. rewrite length_drop. lia.
Qed.

Lemma needs_bind {A B} j k (p : parser A) (q : A → parser B) :
  needs j p → (∀ a, needs k (q a)) → needs (j + k) (pbind p q).
Proof.
  intros Hp Hq data b rest. unfold pbind. destruct (p data) as [[a mid]|] eqn:E; [|done]. intros E'.
  specialize (Hp _ _ _ E). specialize (Hq _ _ _ _ E'). lia.
Qed.

Lemma needs_ret {A} (a : A) : needs 0 (pret a).
Proof. intros data b rest [= <- <-]. lia. Qed.

Lemma needs_le {A} j k (p : parser A) : (j ≤ k)%nat → needs k p → needs j p.
Proof. intros Hj Hp data a rest E. specialize (Hp _ _ _ E). lia. Qed.

Lemma needs_number n : needs n (number n).
Proof. rewrite <-(Nat.add_0_r n) at 1. apply needs_bind; [apply needs_take|intros; apply needs_ret]. Qed.

Lemma needs_optional {A} (p : parser A) : needs 0 p → needs 1 (optional p).
Proof.
  intros Hp. rewrite <-(Nat.add_0_r 1). apply needs_bind; [apply needs_number|]. intros tag.
  repeat case_match; [apply needs_ret| |done]. apply (needs_bind 0 0); [done|intros; apply needs_ret].
Qed.

Lemma needs_query : needs 57 query_parser.
Proof.
  assert (needs 0 vector) as Hv by (apply (needs_le 0 (8 + 0)); [lia|]; apply needs_bind; [apply needs_number|];
    intros; eapply needs_le; [|apply needs_take]; lia).
  change 57%nat with (32 + (8 + (8 + (1 + (4 + (4 + 0))))))%nat. unfold query_parser.
  repeat (apply needs_bind; [apply needs_number || apply needs_take || by apply needs_optional|intros ?]). apply needs_ret.
Qed.

#[local] Instance bincode_fixint_laws : BincodeLaws.
Proof.
  split; simpl.
  - intros data Hd. unfold deserialize, heartbeat_parser, number, pbind, take_bytes, pret.
    rewrite decide_True by lia. rewrite decide_True by (rewrite length_drop; lia).
    rewrite decide_True by (rewrite !length_drop; lia). by eexists.
  - intros data q. unfold deserialize. destruct (query_parser data) as [[q' rest]|] eqn:E; [|done]. intros _.
    pose proof (needs_query _ _ _ E). lia.
Qed.

(** ** Applications *)

Lemma connected_reachable : reachable (example_config default_limits) connected.
Proof. apply reachable_exec; [apply reachable_new|reflexivity]. Qed.

Lemma connected_session : sessions connected !! 42 = Some (opened (at_time 5 42) alice_to_bob alice_addr).
Proof. vm_compute. reflexivity. Qed.

Lemma tables_agree_witness : well_formed connected ∧ initiator_sessions connected !! hex_encode alice = Some {[42]}.
Proof.
  split; [apply (tables_agree (example_config default_limits)); [vm_compute; discriminate|exact connected_reachable]|].
  vm_compute. reflexivity.
Defined.

Lemma session_limits_witness : session_count connected ≤ 1000 ∧ session_count connected = 1.
Proof.
  split; [|vm_compute; reflexivity].
  exact (proj1 (session_limits (example_config default_limits) connected ltac:(vm_compute; discriminate)
    connected_reachable)).
Defined.

Lemma maintenance_exact_witness :
  (∃ s, sessions (perform_maintenance (at_time 300 0) connected) !! 42 = Some s) ∧
  sessions (perform_maintenance (at_time 400 0) connected) !! 42 = None.
Proof.
  destruct (reachable_good (example_config default_limits) connected) as [[Hw Hl] _];
    [vm_compute; discriminate|exact connected_reachable|].
  destruct (maintenance_exact (at_time 300 0) connected Hw Hl) as [E _].
  destruct (maintenance_exact (at_time 400 0) connected Hw Hl) as [E' _].
  rewrite E, E'. split; [eexists; vm_compute; reflexivity|vm_compute; reflexivity].
Defined.

Lemma forward_exact_witness :
  let p := Packet.new (6 * SECOND) alice 42 [1; 2; 3] in
  (let '(n', r) := process_relay_packet (at_time 6 0) p bob_addr connected in
   r = Ok tt ∧ sent n' = (alice_addr, [1; 2; 3]) :: sent connected ∧ packets_forwarded (stats n') = 2) ∧
  (process_relay_packet (unplugged 6) p bob_addr connected).2 = Err (Io "unreachable").
Proof.
  destruct (reachable_good (example_config default_limits) connected) as [[Hw _] _];
    [vm_compute; discriminate|exact connected_reachable|].
  intros p. pose proof (forward_exact (at_time 6 0) p bob_addr connected (wf_id _ Hw)) as Hf.
  pose proof (forward_exact (unplugged 6) p bob_addr connected (wf_id _ Hw)) as Hf'. cbv zeta in Hf, Hf'.
  destruct (process_relay_packet (at_time 6 0) p bob_addr connected) as [n' r].
  destruct (process_relay_packet (unplugged 6) p bob_addr connected) as [n2 r2].
  destruct Hf as [Hf _], Hf' as [Hf' _].
  destruct (Hf _ alice_addr connected_session) as (_ & Er & Es & Est); [vm_compute; reflexivity..|].
  destruct (Hf' _ alice_addr connected_session) as (_ & Er2 & _); [vm_compute; reflexivity..|].
  split_and!; [exact Er|exact Es|rewrite Est; vm_compute; reflexivity|exact Er2].
Defined.

(** Alice's first packet is lost; Bob's first opens the way. *)
Definition small_talk : list message :=
  [(at_time 6 0, Packet.new (6 * SECOND) bob 42 [1], alice_addr);
   (at_time 7 0, Packet.new (7 * SECOND) alice 42 [2], bob_addr);
   (at_time 8 0, Packet.new (8 * SECOND) bob 42 [3], alice_addr)].


Definition burst (k : nat) : list (Env * call) := replicate k (at_time 1 0, Receive [0] alice_addr).

Lemma packet_rate_witness :
  Z.of_nat (length (filter (λ t, SECOND ≤ t < SECOND + SECOND) (admissions (burst 3) (example_node default_limits)))) ≤ 100.
Proof.
  apply (packet_rate (example_config default_limits) (clock (at_time 0 0) 0) (burst 3) 0 SECOND);
    [vm_compute; discriminate|]. simpl. unfold SECOND. lia.
Defined.

Lemma tracked_bounded_witness : tracked_ok (run (burst 3) (example_node default_limits)).
Proof. apply (tracked_bounded (example_config default_limits) (clock (at_time 0 0) 0) (burst 3)). Defined.

Lemma query_unanswered_witness :
  let data := query_bytes (Query.new (6 * SECOND) 5 bob 10) in
  process_packet (at_time 6 0) data bob_addr connected =
    process_packet_with (λ _, mret tt) (at_time 6 0) data bob_addr connected ∧
  sent (process_packet (at_time 6 0) data bob_addr connected).1 = sent connected ∧
  (process_packet (at_time 6 0) data bob_addr connected).2 ≠ Ok tt.
Proof.
  set (q := Query.new (6 * SECOND) 5 bob 10). intros data.
  destruct (query_unanswered (λ _, mret tt) (at_time 6 0) data bob_addr connected) as [E Hu].
  destruct (Hu q ltac:(vm_compute; reflexivity) eq_refl eq_refl) as [Hs Hr].
  split_and!; [exact E|exact Hs|]. intros Er. destruct (Hr Er) as (h & Hh & Hi).
  assert (Some (hb_session_id h) = Some (le_value (replicate 8 2))) as [= Eh].
  { transitivity (hb_session_id <$> decode_heartbeat data); [by rewrite Hh|vm_compute; reflexivity]. }
  rewrite Eh in Hi. vm_compute in Hi. destruct Hi as [s Hs']. discriminate Hs'.
Defined.

(** ** Where the figures are off *)

(** A burst of datagrams is cut at half the limit of 100 per second, because each is recorded
    when it arrives and again when it is processed. *)
Theorem burst_halved : length (admissions (burst 60) (example_node default_limits)) = 50%nat.
Proof. vm_compute. reflexivity. Qed.

(** The load that a node reports of itself wraps: full at 255 of 1000 sessions, idle at 256. *)
Theorem reported_load_wraps : reported_load 255 = 100 ∧ reported_load 256 = 0 ∧ reported_load 700 = 73.
Proof. vm_compute. done. Qed.

(** A client that may have no session gets one. *)
Theorem zero_limit_admits_one :
  (create_session (at_time 1 5) alice bob (example_node (limits_with_clients 0))).2 = Ok 5.
Proof. vm_compute. reflexivity. Qed.

(** A query for a region decodes as a packet, which is tried first, of the session whose
    identifier is the time of the query; with 16 bytes of region it would decode as a
    request too. *)
Theorem region_query_is_packet :
  let data := region_query_bytes (Query.new (6 * SECOND) 5 bob 10) (string_bytes "europe-west-four") in
  option_map (λ p, h_session_id (header p)) (decode_packet data) = Some 6 ∧
  is_Some (decode_request data) ∧ is_Some (decode_query data) ∧
  (process_packet (at_time 6 0) data bob_addr connected).2 = Err (not_found 6).
Proof. vm_compute. split_and!; eauto. Qed.
